(* ===== verification/_CoqProject ===== *)
-Q . S2P
Prelude.v
PyFloat.v
Models.v
LinkRules.v
Worklist.v
Adjacency.v
Scenario.v
Catalog.v
LinkStatus.v
GraphIndex.v
GraphIndexProofs.v
EventStore.v
Errors.v
IpAddr.v
Sha1.v
Ipam.v
IpamProofs.v
MacAllocator.v
Splitter.v
L3Auto.v
L3AutoProofs.v
LinkPolicy.v
Forwarding.v
ForwardingProofs.v
Links.v
Congestion.v
TrafficRand.v
L3Trace.v
NxGraph.v
Pathfinding.v
OpticalCollapse.v
Dependency.v
DependencyProofs.v
Provisioning.v
OltPathProofs.v
OpticalPath.v
OpticalPathProofs.v
ProvisioningProofs.v
Status.v
StatusRecompute.v
StatusProofs.v
OpticalService.v
OpticalServiceProofs.v
TrafficPath.v
TrafficPathProofs.v
TrafficTick.v
TrafficTickProofs.v
TrafficAgg.v
TrafficSegments.v
TrafficSegmentProofs.v
TrafficEngine.v
TrafficEngineProofs.v
CausalChain.v
StatusClient.v
Devices.v
LinkChanges.v
LinkBatch.v
SubscriberModel.v
SimulationEvents.v
EventStoreHealth.v
CountSemantics.v
PortSummary.v
Coalescer.v
LinksProofs.v
LinkChangesProofs.v
LinkBatchProofs.v
SubscriberModelProofs.v
SimulationEventsProofs.v
EventStoreHealthProofs.v
CountSemanticsProofs.v
PortSummaryProofs.v
DevicesProofs.v
DevicesRuns.v
PathSearch.v
OpticalPhysics.v
OpticalPhysicsProofs.v
Outbox.v
OutboxProofs.v
Jobs.v
JobsProofs.v
