(* ===== verification/Prelude.v ===== *)
(** * UNOC network simulator: verification library

    The program under [src/backend] simulates an optical access network.  Users
    create devices, interfaces and links and provision devices; the services
    derive from these rows which devices are up, which L3 path leads to the
    backbone, how much light reaches an ONT, and how subscriber traffic flows and
    congests.  This library models the services that carry that logic and proves
    what they compute.

    ** The parts and how they interact

    A request handler changes the tables in one or more transactions, appends
    domain events, bumps the topology version of the pathfinding store, publishes
    an event and either schedules a recomputation with the coalescer or asks the
    status client to propagate.  The coalescer collects requests and runs one
    status recomputation on a timer thread.  The recomputation floods
    availability from the anchors, evaluates every affected device, and reports
    transitions.  The verdict on a device asks the dependency resolver whether the
    device has an upstream L3 path; the resolver combines the logical graph of the
    pathfinding module with the hop-by-hop L3 trace, and keeps four caches keyed by
    the topology version.  The optical service stores the light budgets the
    verdict reads.  The traffic engine ticks over the same tables: it routes the
    demand of every leaf that is up, sums it per device, link and PON segment, and
    emits congestion events; it keeps caches of its own under the same version.

    ** Files

    - [Prelude], [PyFloat], [Worklist], [Adjacency]: Python strings, sorting,
      dictionaries; binary64 arithmetic; the two queue disciplines of the source's
      graph traversals with their total correctness; dictionaries of sets.
    - [Models], [Scenario]: the tables of [models_pkg/], the database as a record of
      row lists, and a sample network for the examples.
    - [LinkRules], [LinkStatus]: [link_rules.py], [constants/link_types.py] and
      [services/link_classification_service.py]; [services/status_link.py] and
      [services/link_validator_service.py].
    - [Catalog]: hardware models, port profiles, tariffs and
      [services/catalog_effective.py].
    - [GraphIndex], [GraphIndexProofs]: [services/graph_index.py].
    - [EventStore], [Errors], [MacAllocator]: [services/event_store.py] with [publish]
      of [events.py]; [errors.py]; [services/mac_allocator.py].
    - [IpAddr], [Sha1]: the parts of [ipaddress] and [hashlib] the services use.
    - [Ipam], [IpamProofs]: the address tables, their seeding and search
      ([services/provisioning_ipam.py], [seed_helpers/ipam.py], [api/endpoints/ipam.py]).
    - [L3Auto], [L3AutoProofs]: [services/provisioning_l3_auto.py].
    - [Forwarding], [ForwardingProofs]: [services/l2_service.py], [l3_service.py] and
      [forwarding_service.py].
    - [Splitter], [LinkPolicy]: [services/splitter_service.py] and
      [services/link_policy_optical.py].
    - [Links], [LinksProofs]: [api/endpoints/links_helpers_create.py],
      [links_helpers_delete.py] and [services/links_service.py], as operations on a
      world of database, allocator, event log, bus history, topology version and
      scheduled recomputations.
    - [L3Trace]: [services/dependency_resolver_trace.py].
    - [NxGraph], [Pathfinding], [OpticalCollapse]: networkx as a typeclass with laws and
      an executable instance; [services/pathfinding.py]; its Dijkstra loop.
    - [Dependency], [DependencyProofs]: [services/dependency_resolver_core.py] with its
      caches, and the ping tool of [api/endpoints/tools.py] that shares the store.
    - [Provisioning], [OltPathProofs], [ProvisioningProofs]:
      [services/provisioning_service.py] and [provisioning_dependency.py].
    - [OpticalPath], [OpticalPathProofs], [OpticalService], [OpticalServiceProofs]:
      [services/optical_path_resolver.py], [optical_service.py] and the optical
      client.
    - [Status], [StatusRecompute], [StatusProofs]: [services/status_service.py],
      [status_service_passive.py], [status_recompute.py],
      [status_propagation_store.py] and [status_diagnostics.py].
    - [CausalChain], [StatusClient]: [detect_causal_chain_python] of
      [services/status_service.py]; [clients/go_services/status_client.py].
    - [Devices], [DevicesProofs], [DevicesRuns]: the handlers that create, update,
      delete and override devices
      ([api/endpoints/devices_helpers_mutation_core.py], [devices_helpers_delete.py],
      [devices_helpers_override.py]), as programs of a monad over the world of the
      link handlers and the tables these do not touch; the invariant they keep
      together with the link handlers; what a creation and a deletion do.
    - [LinkChanges], [LinkChangesProofs], [LinkBatch], [LinkBatchProofs]:
      [api/endpoints/links_helpers_update.py], [links_helpers_override.py] and
      [links_batch.py], on the same world with the caches of the services the
      handlers call.
    - [SubscriberModel], [SubscriberModelProofs]: [services/subscriber_model.py].
    - [SimulationEvents], [SimulationEventsProofs]:
      [services/simulation_event_engine.py].
    - [EventStoreHealth], [EventStoreHealthProofs]: [services/event_store_health.py],
      [event_store_runtime.py], the write guard of [db.py] and the replay window of
      [api/endpoints/debug.py].
    - [CountSemantics], [CountSemanticsProofs]: [services/count_semantics.py] and
      [truth_model.py].
    - [PortSummary], [PortSummaryProofs]: [api/endpoints/ports.py].
    - [PathSearch], [OpticalPhysics], [OpticalPhysicsProofs]:
      [services/optical_physics_model.py]; the first holds its breadth-first search
      for paths.
    - [Outbox], [OutboxProofs]: [api/endpoints/ws.py] and the broadcaster of
      [events.py]: the outbox as functions, the tasks of the event loop as a step
      relation with one step between two awaits.
    - [Jobs], [JobsProofs]: [core/jobs.py], [services/worker.py],
      [job_dispatcher.py], the worker loop of [main.py]; the jobs run the link
      handlers of [Links] and [LinkChanges].
    - [Coalescer]: [services/recompute_coalescer.py], as functions on a state with an
      explicit lock and as a step relation over interleaved threads.
    - [Congestion], [TrafficRand], [TrafficPath], [TrafficPathProofs]:
      [services/traffic/v2_congestion.py], [rand.py], [v2_graph.py] and [v2_path.py].
    - [TrafficTick], [TrafficAgg], [TrafficSegments], [TrafficEngine] with the files of
      their proofs: [v2_tick.py]; [v2_aggregation.py], [v2_dirty.py], [v2_phases.py]
      and [v2_snapshot.py]; [v2_segments.py] with the caches of [v2_caches.py];
      [v2_engine.py].

    A definition keeps the name of the function it models, without a leading
    underscore; helpers that have no name in the source model a loop, a closure
    or a block of one function.

    ** What the theorems show

    - Upstream resolution: what [has_upstream_l3_or_anchor] decides for a device that
      is not a router, that its caches never change an answer as long as every
      change bumps the version, and that the ping tool breaks this assumption.
      The L3 trace succeeds exactly along the unique chain of uplinks to a
      gateway and ends on loops.
    - Inventory: every sequence of device and link requests, refused and failed ones
      included, keeps the tables consistent, their references resolving and the
      event log gapless; link creation is atomic and total; the exact effect of a
      device creation and of a deletion; what the placement rules admit; what a
      link update and a link override store and report; that a batch of one
      request is a single creation, and what a longer batch keeps.
    - Status: the verdict per role, the passive rule independently of set order,
      the flood as reachability, the exact set of reported transitions and of
      propagated statuses; a coalesced recomputation reports none, because it
      takes its baseline after the change.
    - Coalescer: no scheduled key is lost in any interleaving; the inline fallback
      deadlocks.
    - Optics and graphs: the collapse and the resolver return the least path; the
      resolver's caches are transparent; a budget recomputation writes and reports
      exactly what it should, except the attenuation on the Python fallback; the
      physics model finds the nearest OLT and sums the losses of the way there;
      regions are connected components.
    - Addresses and provisioning: what a provisioning transaction writes, that a
      refused one writes nothing, that provisioned devices stay addressed, that
      free addresses are found; the uplink configuration is idempotent.
    - Forwarding: a flow is resolved within its hop limit; a switch implements a map.
    - Traffic: the snapshot of a tick is the sum of the flows, whatever the caches
      hold; segments sum their members; segment and device congestion follow
      their hysteresis; paths lead to the preferred anchor.
    - Subscribers: where the model attaches each ONT and CPE, and that its lists,
      port counts and totals agree; the event log of a topology replays to that
      topology and these counts; the health report shows the first backfill for
      ever; what the count model adds up, and that effective count and orphans
      make up the provisioned leaves.
    - Delivery: what the outbox keeps and what each client receives in every
      interleaving, and how a client can be left without a dispatcher.  Accepted
      link jobs take effect once each and in order.
    - Port summaries: their rows, that a bulk request is a list of single ones, and
      that an answer is never older than the cache lives.

    ** Integers, floats, fuel

    Python integers are unbounded and modelled as [Z]; the generator masks to 64
    bits as the source does.  Floats are the Standard Library's [SpecFloat] at
    binary64.  Loops that are not structural take fuel, and each fuel is given
    by a closed expression in the size of the input together with a theorem
    that it is enough: the number of nodes that can be marked plus the length of
    the queue for traversals ([Worklist]), the number of devices for the trace,
    the number of used addresses plus one for the MAC probe, the hosts of a
    prefix for the address search, the hop limit for a flow.

    ** What is not modelled

    The ORM below the tables (a [select] without order returns rows in table
    order; [session.get] is a search by key), logging and metrics, what a
    websocket does with a message it accepted, the wall clock (an argument), the Go services
    (their replies and their writes are arguments), [math.log10] (an argument),
    CPython's recursion limit.  Left out as well are the process around the traffic
    engine ([v2_runner.py], [v2_paths.py]), the seeding of the hardware catalog and
    of the demo network, and the read-only queries over interfaces, links and
    routes.  The layer models ([services/layered_state_model.py],
    [layer_validation.py]) and [services/debug_snapshot.py] only dump tables. *)

From stdpp Require Export base tactics list gmap strings sorting relations.
From Stdlib Require Export ZArith Lia.
From Stdlib Require Import OrderedTypeEx.

(** * Notations, hints and tactics shared by every component *)

Declare Scope unoc_scope.
Delimit Scope unoc_scope with unoc.
Open Scope unoc_scope.

Create HintDb unoc.

(** Case analysis on every [match]/[if] of the goal or of the hypotheses,
    closing the contradictory branches on the way. *)
Ltac split_cases :=
  repeat (case_match; simplify_eq/=; try done).

(** Turns the boolean tests of the executable definitions into propositions. *)
Ltac bools :=
  repeat match goal with
  | H : _ && _ = true |- _ => apply andb_true_iff in H; destruct H
  | H : _ || _ = false |- _ => apply orb_false_iff in H; destruct H
  | H : negb _ = true |- _ => apply negb_true_iff in H
  | H : negb _ = false |- _ => apply negb_false_iff in H
  | H : bool_decide _ = true |- _ => apply bool_decide_eq_true in H
  | H : bool_decide _ = false |- _ => apply bool_decide_eq_false in H
  end.

(** * Python strings

    A Python [str] is a sequence of code points; we keep its UTF-8 encoding.
    Comparing the encodings byte by byte orders strings as comparing code
    points does, so [sorted], [<] and [<=] on ids are [String.compare]. *)

Definition str_leb : string → string → bool := String.leb.
Definition str_ltb : string → string → bool := String.ltb.

Lemma str_leb_total s t : str_leb s t = true ∨ str_leb t s = true.
Proof. apply String.leb_total. Qed.

Lemma str_leb_antisym s t : str_leb s t = true → str_leb t s = true → s = t.
Proof. apply String.leb_antisym. Qed.

Lemma str_leb_cmp s t :
  str_leb s t = true ↔ s = t ∨ String_as_OT.lt s t.
Proof.
  unfold str_leb, String.leb. destruct (String.compare s t) eqn:E.
  - apply String_as_OT.cmp_eq in E. naive_solver.
  - apply String_as_OT.cmp_lt in E. naive_solver.
  - split; [done|]. intros [->|Hlt].
    + assert (String.compare t t = Eq) by (by apply String_as_OT.cmp_eq). congruence.
    + apply String_as_OT.cmp_lt in Hlt. unfold String_as_OT.cmp in Hlt. congruence.
Qed.

Lemma str_leb_trans s t u :
  str_leb s t = true → str_leb t u = true → str_leb s u = true.
Proof.
  rewrite !str_leb_cmp. intros [->|H1] [->|H2]; eauto.
  right. by eapply String_as_OT.lt_trans.
Qed.

Lemma str_leb_refl s : str_leb s s = true.
Proof. destruct (str_leb_total s s); done. Qed.

Lemma str_ltb_leb s t : str_ltb s t = negb (str_leb t s).
Proof.
  unfold str_ltb, str_leb, String.ltb, String.leb.
  rewrite (String.compare_antisym t s). by destruct (String.compare s t).
Qed.

#[export] Hint Resolve str_leb_refl str_leb_trans : unoc.

(** The empty string and [None] are both false in a Python condition. *)
Definition truthy (o : option string) : option string :=
  match o with Some "" => None | _ => o end.

Definition nonempty (s : string) : bool := bool_decide (s ≠ "").

(** [x or None] on an integer key. *)
Definition truthy_key (k : option Z) : option Z :=
  match k with Some i => if (i =? 0)%Z then None else Some i | None => None end.

Lemma truthy_Some o s : truthy o = Some s ↔ o = Some s ∧ s ≠ "".
Proof.
  unfold truthy. destruct o as [[|c s']|]; naive_solver.
Qed.

(** [str.endswith], [str.startswith] and the slice [s[:-n]]. *)
Definition starts_with (p s : string) : bool := String.prefix p s.

Definition ends_with (p s : string) : bool :=
  (String.length p <=? String.length s)%nat &&
  String.eqb (String.substring (String.length s - String.length p) (String.length p) s) p.

Definition drop_last (n : nat) (s : string) : string :=
  String.substring 0 (String.length s - n) s.

(** [str.strip] on ASCII text. *)
Definition is_space (a : Ascii.ascii) : bool :=
  let n := Ascii.nat_of_ascii a in ((9 <=? n) && (n <=? 13) || (28 <=? n) && (n <=? 32))%nat.

Fixpoint lstrip (t : string) : string :=
  match t with
  | EmptyString => EmptyString
  | String a t' => if is_space a then lstrip t' else t
  end.

Fixpoint rstrip (t : string) : string :=
  match t with
  | EmptyString => EmptyString
  | String a t' => match rstrip t' with
                   | EmptyString => if is_space a then EmptyString else String a EmptyString
                   | r => String a r
                   end
  end.

Definition strip (t : string) : string := lstrip (rstrip t).

(** [sub in t] *)
Definition contains (sub t : string) : bool := bool_decide (is_Some (String.index 0 sub t)).

(** [str.lower], on the ASCII letters. *)
Definition lower_char (c : Ascii.ascii) : Ascii.ascii :=
  let n := Ascii.nat_of_ascii c in
  if (65 <=? n)%nat && (n <=? 90)%nat then Ascii.ascii_of_nat (n + 32) else c.

Fixpoint lower (s : string) : string :=
  match s with EmptyString => EmptyString | String c s' => String (lower_char c) (lower s') end.

(** * Python's [sorted]: a stable sort by a boolean total preorder *)

Section sort_by.
Context {A : Type} (leb : A → A → bool).

Fixpoint insert_by (x : A) (l : list A) : list A :=
  match l with
  | [] => [x]
  | y :: l' => if leb x y then x :: l else y :: insert_by x l'
  end.

Definition sort_by (l : list A) : list A := foldr insert_by [] l.

Lemma insert_by_perm x l : insert_by x l ≡ₚ x :: l.
Proof.
  induction l as [|y l IH]; simpl; [done|]. case_match; [done|].
  rewrite IH. apply Permutation_swap.
Qed.

Lemma sort_by_perm l : sort_by l ≡ₚ l.
Proof. induction l as [|x l IH]; simpl; [done|]. by rewrite insert_by_perm, IH. Qed.

Lemma elem_of_sort_by x l : x ∈ sort_by l ↔ x ∈ l.
Proof. by rewrite sort_by_perm. Qed.

Lemma length_sort_by l : length (sort_by l) = length l.
Proof. by rewrite sort_by_perm. Qed.

Context (leb_total : ∀ x y, leb x y = true ∨ leb y x = true).
Context (leb_trans : ∀ x y z, leb x y = true → leb y z = true → leb x z = true).

Lemma insert_by_sorted x l :
  StronglySorted (λ a b, leb a b = true) l →
  StronglySorted (λ a b, leb a b = true) (insert_by x l).
Proof.
  induction 1 as [|y l Hl IH Hy]; simpl; [by repeat constructor|].
  destruct (leb x y) eqn:E.
  - constructor; [by constructor|]. constructor; [done|].
    eapply Forall_impl; [exact Hy|]. simpl. eauto.
  - constructor; [done|]. rewrite insert_by_perm. constructor; [|done].
    destruct (leb_total x y); congruence.
Qed.

Lemma sort_by_sorted l : StronglySorted (λ a b, leb a b = true) (sort_by l).
Proof. induction l; simpl; [constructor|]. by apply insert_by_sorted. Qed.

(** The first element of a sorted list is a minimum of the input. *)
Lemma sort_by_head_min l x r y :
  sort_by l = x :: r → y ∈ l → leb x y = true.
Proof.
  intros Hs Hy. pose proof (sort_by_sorted l) as HS. rewrite Hs in HS.
  apply StronglySorted_inv in HS as [_ HF].
  rewrite <-elem_of_sort_by, Hs in Hy. apply elem_of_cons in Hy as [->|Hy].
  - by destruct (leb_total x x).
  - by eapply Forall_forall in HF.
Qed.
End sort_by.

Lemma sort_by_nil {A} (leb : A → A → bool) l : sort_by leb l = [] → l = [].
Proof.
  intros H. apply Permutation_nil_r. rewrite <-H. symmetry. apply sort_by_perm.
Qed.

(** The same when the order is total and transitive on the elements only. *)
Lemma sort_by_head_on {A} (leb : A → A → bool) (P : A → Prop) l x r y :
  (∀ x y, P x → P y → leb x y = true ∨ leb y x = true) →
  (∀ x y z, P x → P y → P z → leb x y = true → leb y z = true → leb x z = true) →
  (∀ x, x ∈ l → P x) → sort_by leb l = x :: r → y ∈ l → leb x y = true.
Proof.
  intros Ht Htr. revert x r y. induction l as [|a l IH]; intros x r y HP; [by intros _ ?%elem_of_nil|].
  cbn [sort_by foldr]. change (foldr (insert_by leb) [] l) with (sort_by leb l).
  assert (P a) as Pa by (apply HP; set_solver).
  assert (∀ z, P z → leb z z = true) as Hr by (intros z Pz; by destruct (Ht z z Pz Pz)).
  destruct (sort_by leb l) as [|z q] eqn:E; cbn [insert_by].
  { intros [= <- _]. apply sort_by_nil in E as ->. intros ->%list_elem_of_singleton. auto. }
  assert (z ∈ l) as Hz by (rewrite <-(elem_of_sort_by leb), E; set_solver).
  assert (∀ b, b ∈ l → leb z b = true) as Hm by (intros b Hb; apply (IH z q b); set_solver).
  assert (∀ b, b ∈ l → P b) as Pl by (intros b Hb; apply HP; set_solver).
  destruct (leb a z) eqn:El; intros [= <- _] [->|Hy]%elem_of_cons; auto.
  - apply (Htr a z y); auto.
  - destruct (Ht a z) as [?|?]; auto; congruence.
Qed.

(** [sorted(ids)] on strings. *)
Definition sorted_strs : list string → list string := sort_by str_leb.

Lemma elem_of_sorted_strs x l : x ∈ sorted_strs l ↔ x ∈ l.
Proof. apply elem_of_sort_by. Qed.

Lemma length_sorted_strs l : length (sorted_strs l) = length l.
Proof. apply length_sort_by. Qed.

(** Python compares tuples and lists of strings lexicographically. *)
Fixpoint strs_leb (l k : list string) : bool :=
  match l, k with
  | [], _ => true
  | _ :: _, [] => false
  | x :: l', y :: k' => if String.eqb x y then strs_leb l' k' else str_ltb x y
  end.

Lemma strs_leb_total l k : strs_leb l k = true ∨ strs_leb k l = true.
Proof.
  revert k. induction l as [|x l IH]; intros [|y k]; simpl; auto.
  rewrite (String.eqb_sym y x). destruct (String.eqb_spec x y); [done|].
  rewrite !str_ltb_leb. destruct (str_leb x y) eqn:E1, (str_leb y x) eqn:E2; auto.
  - by pose proof (str_leb_antisym _ _ E1 E2).
Qed.

(** * Sets written as Python set literals: membership in a list *)

Definition mem {A} `{EqDecision A} (x : A) (l : list A) : bool := bool_decide (x ∈ l).

Lemma mem_true {A} `{EqDecision A} (x : A) l : mem x l = true ↔ x ∈ l.
Proof. apply bool_decide_eq_true. Qed.

Lemma mem_false {A} `{EqDecision A} (x : A) l : mem x l = false ↔ x ∉ l.
Proof. apply bool_decide_eq_false. Qed.

(** A dictionary filled from rows with distinct keys. *)
Lemma foldl_insert_lookup {A V} (key : A → string) (val : A → V) (rows : list A) (m : gmap string V) r :
  NoDup (key <$> rows) → r ∈ rows → foldl (λ m a, <[key a := val a]> m) m rows !! key r = Some (val r).
Proof.
  induction rows as [|x rows IH] using rev_ind; [by intros _ ?%elem_of_nil|].
  rewrite fmap_app, foldl_snoc. intros (Hn & Hx & _)%NoDup_app [Hr|Hr%list_elem_of_singleton]%elem_of_app;
    [|subst; by rewrite lookup_insert_eq].
  rewrite lookup_insert_ne; [by apply IH|]. intros E. apply (Hx (key r)); [by apply list_elem_of_fmap_2|].
  rewrite <-E. by left.
Qed.

(** * Searching a table: [session.get] and [select(...).where(...).first()] *)

Fixpoint find_row {A} (p : A → bool) (rows : list A) : option A :=
  match rows with
  | [] => None
  | r :: rows' => if p r then Some r else find_row p rows'
  end.

Lemma find_row_Some {A} (p : A → bool) rows r :
  find_row p rows = Some r → r ∈ rows ∧ p r = true.
Proof.
  induction rows as [|x rows IH]; simpl; [done|]. case_match; intros; simplify_eq.
  - split; [set_solver|done].
  - destruct IH; [done|]. split; [set_solver|done].
Qed.

Lemma find_row_None {A} (p : A → bool) rows :
  find_row p rows = None ↔ ∀ r, r ∈ rows → p r = false.
Proof.
  induction rows as [|x rows IH]; simpl; [set_solver|].
  destruct (p x) eqn:E; split; [done| |set_solver|].
  - intros H. rewrite H in E; set_solver.
  - intros H. apply IH. set_solver.
Qed.

Lemma find_row_app {A} (p : A → bool) l k :
  find_row p (l ++ k) = match find_row p l with Some r => Some r | None => find_row p k end.
Proof. induction l as [|x l IH]; simpl; [done|]. by destruct (p x). Qed.

Lemma find_row_is_Some {A} (p : A → bool) rows r :
  r ∈ rows → p r = true → is_Some (find_row p rows).
Proof.
  intros Hr Hp. destruct (find_row p rows) eqn:E; [by eexists|].
  rewrite find_row_None in E. specialize (E r Hr). congruence.
Qed.

(** An invariant of every step of a left fold. *)
Lemma foldl_invariant {A B} (P : A → Prop) (f : A → B → A) (l : list B) (x : A) :
  (∀ y b, b ∈ l → P y → P (f y b)) → P x → P (foldl f x l).
Proof.
  revert x. induction l as [|b l IH]; intros x Hf Hx; simpl; [done|].
  apply IH; [|apply Hf; [by left|done]]. intros y c Hc. apply Hf. by right.
Qed.

Lemma filter_all {A} (P : A → Prop) `{∀ x, Decision (P x)} (l : list A) : (∀ x, x ∈ l → P x) → filter P l = l.
Proof.
  induction l as [|x l IH]; intros Hl; [done|]. rewrite filter_cons_True by (apply Hl; set_solver).
  rewrite IH; [done|]. intros y Hy. apply Hl. set_solver.
Qed.

Lemma filter_ext_elem {A} (P Q : A → Prop) `{∀ x, Decision (P x)} `{∀ x, Decision (Q x)} (l : list A) :
  (∀ x, x ∈ l → P x ↔ Q x) → filter P l = filter Q l.
Proof.
  induction l as [|x l IH]; intros Hpq; [done|]. rewrite !filter_cons, IH by (intros; apply Hpq; by right).
  destruct (Hpq x (list_elem_of_here _ _)). repeat case_decide; tauto.
Qed.

(** * Dictionaries in insertion order *)

(** Writes an attribute of the first row that satisfies [p]. *)
Fixpoint update_row {A} (p : A → bool) (f : A → A) (rows : list A) : list A :=
  match rows with
  | [] => []
  | r :: rows' => if p r then f r :: rows' else r :: update_row p f rows'
  end.

Lemma update_row_none {A} (p : A → bool) f rows : find_row p rows = None → update_row p f rows = rows.
Proof. induction rows as [|r rows IH]; simpl; [done|]. destruct (p r); [done|]. intros H. by rewrite IH. Qed.

Lemma elem_of_update_row {A} (p : A → bool) f rows x :
  x ∈ update_row p f rows → x ∈ rows ∨ ∃ r, r ∈ rows ∧ p r = true ∧ x = f r.
Proof.
  induction rows as [|r rows IH]; simpl; [set_solver|]. destruct (p r) eqn:E; rewrite !elem_of_cons.
  - intros [->|H]; [right; exists r; set_solver|set_solver].
  - intros [->|H]; [set_solver|]. destruct (IH H) as [?|(r' & ? & ? & ->)]; [set_solver|].
    right. exists r'. set_solver.
Qed.

Lemma fmap_update_row {A B} (g : A → B) (p : A → bool) f rows :
  (∀ r, g (f r) = g r) → g <$> update_row p f rows = g <$> rows.
Proof. intros Hg. induction rows as [|r rows IH]; simpl; [done|]. destruct (p r); csimpl; by rewrite ?Hg, ?IH. Qed.

(** A dictionary in insertion order: writing an existing key keeps its place. *)
Fixpoint dict_set {V : Type} (k : string) (v : V) (d : list (string * V)) : list (string * V) :=
  match d with
  | [] => [(k, v)]
  | (k', v') :: d' => if String.eqb k k' then (k', v) :: d' else (k', v') :: dict_set k v d'
  end.

Fixpoint dict_get {V : Type} (d : list (string * V)) (k : string) : option V :=
  match d with
  | [] => None
  | (k', v) :: d' => if String.eqb k k' then Some v else dict_get d' k
  end.

Lemma dict_get_set {V} k j (v : V) d :
  dict_get (dict_set k v d) j = if String.eqb j k then Some v else dict_get d j.
Proof.
  induction d as [|[k' v'] d IH]; simpl; [done|].
  destruct (String.eqb_spec k k') as [->|Hne]; simpl.
  - by destruct (String.eqb j k').
  - rewrite IH. destruct (String.eqb_spec j k'), (String.eqb_spec j k); congruence.
Qed.

Lemma dict_get_elem {V} k (v : V) d : dict_get d k = Some v → (k, v) ∈ d.
Proof.
  induction d as [|[k' v'] d IH]; simpl; [done|].
  destruct (String.eqb_spec k k') as [->|]; [intros [= ->]; set_solver|]. intros. set_solver.
Qed.

Lemma dict_get_key {V} k (d : list (string * V)) : is_Some (dict_get d k) ↔ k ∈ fst <$> d.
Proof.
  split.
  - intros [v Hv%dict_get_elem]. apply list_elem_of_fmap. by exists (k, v).
  - induction d as [|[k' v'] d IH]; simpl; [set_solver|].
    destruct (String.eqb_spec k k'); [eauto|]. set_solver.
Qed.

Lemma dict_set_keys {V} k (v : V) d :
  fst <$> dict_set k v d = if mem k (fst <$> d) then fst <$> d else (fst <$> d) ++ [k].
Proof.
  induction d as [|[k' v'] d IH]; [done|]. cbn [dict_set fmap list_fmap fst].
  unfold mem in *. destruct (String.eqb_spec k k') as [->|]; cbn [fmap list_fmap fst].
  { by rewrite bool_decide_true by set_solver. }
  change (list_fmap (string * V)%type string fst (dict_set k v d)) with (fst <$> dict_set k v d).
  rewrite IH. do 2 case_bool_decide; set_solver.
Qed.

Lemma dict_set_NoDup {V} k (v : V) d : NoDup (fst <$> d) → NoDup (fst <$> dict_set k v d).
Proof.
  intros Hd. rewrite dict_set_keys. destruct (mem k _) eqn:E; [done|]. apply mem_false in E.
  apply NoDup_app. split; [done|]. split; [set_solver|apply NoDup_singleton].
Qed.

Lemma omap_none {A B} (f : A → option B) l : (∀ x, x ∈ l → f x = None) → omap f l = [].
Proof.
  induction l as [|x l IH]; intros Hf; simpl; [done|].
  rewrite Hf by set_solver. apply IH. set_solver.
Qed.

Lemma bool_decide_ext_if {A} (P Q : Prop) `{Decision P, Decision Q} (x y : A) :
  (P ↔ Q) → (if bool_decide P then x else y) = (if bool_decide Q then x else y).
Proof. intros HPQ. by rewrite (bool_decide_ext P Q HPQ). Qed.

(** * Dictionaries built by a loop *)

Lemma dict_get_nodup {V} k (v : V) d : NoDup (fst <$> d) → (k, v) ∈ d → dict_get d k = Some v.
Proof.
  induction d as [|[k' v'] d IH]; [set_solver|]. csimpl. intros [Hk Hn]%NoDup_cons [[= -> ->]|Hin]%elem_of_cons.
  - by rewrite String.eqb_refl.
  - destruct (String.eqb_spec k k') as [->|]; [|auto]. destruct Hk. by apply (list_elem_of_fmap_2 fst _ (k', v)).
Qed.

Lemma dict_set_fresh {V} k (v : V) d : k ∉ d.*1 → dict_set k v d = d ++ [(k, v)].
Proof.
  induction d as [|[j w] d IH]; intros Hk; [done|]. apply not_elem_of_cons in Hk as [Hne Hk]. cbn [dict_set].
  destruct (String.eqb_spec k j); [done|]. by rewrite IH.
Qed.

(** Writing entries with new, distinct keys appends them. *)
Lemma foldl_dict_set_fresh {A V} (key : A → string) (val : A → V) l : ∀ m,
  NoDup (m.*1 ++ (key <$> l)) → foldl (λ m a, dict_set (key a) (val a) m) m l = m ++ ((λ a, (key a, val a)) <$> l).
Proof.
  induction l as [|a l IH]; intros m Hn; [by rewrite app_nil_r|]. cbn [foldl].
  apply NoDup_app in Hn as (Hm & Hd & Hl). rewrite dict_set_fresh; [|intros Hin; apply (Hd _ Hin); by left].
  rewrite IH; [by rewrite <-app_assoc|]. rewrite fmap_app, <-app_assoc. apply NoDup_app. split; [done|]. split; [|done].
  intros x Hx. by apply Hd.
Qed.

(** Writing entries with distinct keys: the entry written, else the old value. *)
Lemma foldl_dict_set {A V} (key : A → string) (val : A → V) l m k :
  NoDup (key <$> l) →
  dict_get (foldl (λ m a, dict_set (key a) (val a) m) m l) k =
    match find_row (λ a, String.eqb (key a) k) l with Some a => Some (val a) | None => dict_get m k end.
Proof.
  revert m. induction l as [|a l IH]; intros m; [done|]. csimpl. intros [Ha Hn]%NoDup_cons.
  rewrite IH by done. destruct (String.eqb_spec (key a) k) as [He|Hne].
  - assert (find_row (λ a, String.eqb (key a) k) l = None) as ->.
    { apply find_row_None. intros r Hr. apply String.eqb_neq. intros E. apply Ha. rewrite He, <-E.
      by apply list_elem_of_fmap_2. }
    by rewrite dict_get_set, <-He, String.eqb_refl.
  - destruct (find_row _ l); [done|]. rewrite dict_get_set. by destruct (String.eqb_spec k (key a)); [congruence|].
Qed.
