(* ===== verification/PyFloat.v ===== *)
(** Python floats.

    A CPython [float] is an IEEE 754 binary64 number, and [+ - * /] round to
    nearest, ties to even.  The Standard Library's [SpecFloat] is an executable
    specification of exactly that arithmetic, so the thresholds, powers and
    utilisations of the simulator are computed here with the rounding the
    program really performs.  The theorems of the components only need the
    order: on values that are not NaN, [<=] is a total preorder. *)

From S2P Require Import Prelude.
From Stdlib Require Import SpecFloat.

Abbreviation float := spec_float.

Definition fadd : float → float → float := SFadd 53 1024.
Definition fsub : float → float → float := SFsub 53 1024.
Definition fmul : float → float → float := SFmul 53 1024.
Definition fdiv : float → float → float := SFdiv 53 1024.
Definition fltb : float → float → bool := SFltb.
Definition fleb : float → float → bool := SFleb.
Definition feqb : float → float → bool := SFeqb.
Definition fabs : float → float := SFabs.

(** [float(n)] for an integer [n], and the decimal literal [m / d]: for the
    small literals of the sources both parts are exact, and the rounded
    quotient is the double the Python parser chooses. *)
Definition of_Z (n : Z) : float := binary_normalize 53 1024 n 0 false.
Definition dec (m d : Z) : float := fdiv (of_Z m) (of_Z d).

Definition fzero : float := S754_zero false.
Definition finf : float := S754_infinity false.

(** Python's two-argument [max] and [min] keep the first argument on ties. *)
Definition fmax (x y : float) : float := if fltb x y then y else x.
Definition fmin (x y : float) : float := if fltb y x then y else x.

Definition is_nan (x : float) : bool :=
  match x with S754_nan => true | _ => false end.

#[export] Instance float_eq_dec : EqDecision float.
Proof. solve_decision. Defined.

(** [round(x, n)]: the decimal with [n] digits nearest to the exact value, ties
    to even, read back as a float (exact for results below [2 ^ 53 / 10 ^ n]). *)
Definition div_half_even (a b : Z) : Z :=
  let q := (a / b)%Z in
  let r := (a mod b)%Z in
  if (2 * r <? b)%Z then q
  else if (b <? 2 * r)%Z then (q + 1)%Z
  else if Z.even q then q else (q + 1)%Z.

Definition round_digits (x : float) (n : Z) : float :=
  match x with
  | S754_finite sg m e =>
      let scaled := (Z.pos m * 10 ^ n)%Z in
      let k := if (0 <=? e)%Z then (scaled * 2 ^ e)%Z else div_half_even scaled (2 ^ (- e)) in
      let r := dec k (10 ^ n) in
      if sg then SFopp r else r
  | _ => x
  end.

Lemma round_digits_examples :
  round_digits (fmul (dec 1 10) (dec 8 10)) 3 = dec 8 100 ∧
  round_digits (dec 2675 1000) 2 = dec 267 100 ∧
  round_digits (dec 1 8) 2 = dec 12 100 ∧
  round_digits (fadd (dec 11 100) (dec 189 100)) 2 = of_Z 2.
Proof. repeat split; vm_compute; reflexivity. Qed.

(** * The order on non-NaN values *)

(** [fleb] is the lexicographic order on this key. *)
Definition fkey (x : float) : Z * Z * Z :=
  match x with
  | S754_nan => (3, 0, 0)
  | S754_infinity s => (if s then -2 else 2, 0, 0)
  | S754_zero _ => (0, 0, 0)
  | S754_finite s m e => if s then (-1, - e, Z.neg m) else (1, e, Z.pos m)
  end%Z.

Definition key_le (a b : Z * Z * Z) : Prop :=
  let '(a1, a2, a3) := a in
  let '(b1, b2, b3) := b in
  (a1 < b1 ∨ (a1 = b1 ∧ (a2 < b2 ∨ (a2 = b2 ∧ a3 <= b3))))%Z.

Lemma fleb_key x y :
  is_nan x = false → is_nan y = false → fleb x y = true ↔ key_le (fkey x) (fkey y).
Proof.
  unfold fleb, SFleb, key_le.
  destruct x as [s|s| |s m e], y as [s'|s'| |s' m' e'];
    try destruct s; try destruct s'; simpl; intros; try done; try lia.
  - destruct (Z.compare_spec e e'); simpl; try lia.
    change (Pos.compare_cont Eq m m') with (m ?= m')%positive.
    destruct (Pos.compare_spec m m'); simpl; split; intros; try done; lia.
  - destruct (Z.compare_spec e e'); simpl; try lia.
    change (Pos.compare_cont Eq m m') with (m ?= m')%positive.
    destruct (Pos.compare_spec m m'); simpl; split; intros; try done; lia.
Qed.

Lemma fleb_not_nan x y : fleb x y = true → is_nan x = false ∧ is_nan y = false.
Proof. unfold fleb, SFleb. by destruct x, y. Qed.

Lemma fltb_not_nan x y : fltb x y = true → is_nan x = false ∧ is_nan y = false.
Proof. unfold fltb, SFltb. by destruct x, y. Qed.

Lemma fcompare_swap x y :
  is_nan x = false → is_nan y = false →
  ∃ c, SFcompare x y = Some c ∧ SFcompare y x = Some (CompOpp c).
Proof.
  destruct x as [s|s| |s m e], y as [s'|s'| |s' m' e'];
    try destruct s; try destruct s'; simpl; intros; try done; eauto;
    eexists; (split; [done|]); rewrite (Z.compare_antisym e e');
    destruct (Z.compare e e'); simpl; try done;
    change (Pos.compare_cont Eq m' m) with (m' ?= m)%positive;
    change (Pos.compare_cont Eq m m') with (m ?= m')%positive;
    rewrite (Pos.compare_antisym m m'); by destruct (m ?= m')%positive.
Qed.

Lemma fltb_negb_fleb x y :
  is_nan x = false → is_nan y = false → fltb x y = negb (fleb y x).
Proof.
  intros Hx Hy. destruct (fcompare_swap x y Hx Hy) as ([] & E1 & E2);
    unfold fltb, fleb, SFltb, SFleb; by rewrite E1, E2.
Qed.

Lemma fleb_total x y :
  is_nan x = false → is_nan y = false → fleb x y = true ∨ fleb y x = true.
Proof.
  intros Hx Hy. destruct (fcompare_swap x y Hx Hy) as ([] & E1 & E2);
    unfold fleb, SFleb; rewrite E1, E2; auto.
Qed.

Lemma fleb_trans x y z : fleb x y = true → fleb y z = true → fleb x z = true.
Proof.
  intros H1 H2. destruct (fleb_not_nan _ _ H1), (fleb_not_nan _ _ H2).
  rewrite fleb_key in H1, H2 |- * by done. unfold key_le in *.
  destruct (fkey x) as [[??]?], (fkey y) as [[??]?], (fkey z) as [[??]?]. lia.
Qed.

Lemma fleb_refl x : is_nan x = false → fleb x x = true.
Proof. intros H. by destruct (fleb_total x x H H). Qed.

Lemma fltb_fleb x y : fltb x y = true → fleb x y = true.
Proof. unfold fltb, fleb, SFltb, SFleb. by destruct (SFcompare x y) as [[]|]. Qed.

Lemma fleb_fltb_trans x y z : fleb x y = true → fltb y z = true → fltb x z = true.
Proof.
  intros H1 H2. destruct (fleb_not_nan _ _ H1), (fltb_not_nan _ _ H2).
  rewrite fltb_negb_fleb in * by done. destruct (fleb z x) eqn:E; [|done].
  rewrite (fleb_trans z x y) in H2; done.
Qed.

Lemma fltb_fleb_trans x y z : fltb x y = true → fleb y z = true → fltb x z = true.
Proof.
  intros H1 H2. destruct (fltb_not_nan _ _ H1), (fleb_not_nan _ _ H2).
  rewrite fltb_negb_fleb in * by done. destruct (fleb z x) eqn:E; [|done].
  rewrite (fleb_trans y z x) in H1; done.
Qed.

Lemma fmax_nan x y : is_nan x = false → is_nan y = false → is_nan (fmax x y) = false.
Proof. unfold fmax. by case_match. Qed.

Lemma fmin_nan x y : is_nan x = false → is_nan y = false → is_nan (fmin x y) = false.
Proof. unfold fmin. by case_match. Qed.

Lemma fmax_ge_l x y : is_nan x = false → is_nan y = false → fleb x (fmax x y) = true.
Proof. intros. unfold fmax. case_match; [by apply fltb_fleb|by apply fleb_refl]. Qed.

Lemma fmax_ge_r x y : is_nan x = false → is_nan y = false → fleb y (fmax x y) = true.
Proof.
  intros. unfold fmax. case_match eqn:E; [by apply fleb_refl|].
  rewrite fltb_negb_fleb in E by done. by destruct (fleb y x).
Qed.

Lemma fmin_le_l x y : is_nan x = false → is_nan y = false → fleb (fmin x y) x = true.
Proof. intros. unfold fmin. case_match; [by apply fltb_fleb|by apply fleb_refl]. Qed.

Lemma fmin_le_r x y : is_nan x = false → is_nan y = false → fleb (fmin x y) y = true.
Proof.
  intros. unfold fmin. case_match eqn:E; [by apply fleb_refl|].
  rewrite fltb_negb_fleb in E by done. by destruct (fleb x y).
Qed.

#[export] Hint Resolve fleb_refl fltb_fleb fmax_nan fmin_nan
  fmax_ge_l fmax_ge_r fmin_le_l fmin_le_r : unoc.

(** The literals the simulator compares with are the doubles Python reads. *)
Example dec_035 : dec 35 100 = S754_finite false 6305039478318694 (-54).
Proof. vm_compute. reflexivity. Qed.

Example dec_3 : of_Z 3 = S754_finite false 6755399441055744 (-51).
Proof. vm_compute. reflexivity. Qed.

(** * Non-negative values

    Losses, demands and capacities are non-negative; sums, products and
    quotients of such values stay so, and are never NaN where the operation is
    defined. *)

Definition nonneg (x : float) : bool := fleb fzero x.

Lemma nonneg_cases x :
  nonneg x = true ↔ (∃ s, x = S754_zero s) ∨ x = S754_infinity false ∨ ∃ m e, x = S754_finite false m e.
Proof.
  unfold nonneg, fleb, SFleb, fzero. destruct x as [s|[]| |[] m e]; simpl; naive_solver.
Qed.

Lemma nonneg_not_nan x : nonneg x = true → is_nan x = false.
Proof. intros [_ H]%fleb_not_nan. done. Qed.

Lemma shr_1_nonneg r : (0 <= shr_m r)%Z → (0 <= shr_m (shr_1 r))%Z.
Proof. destruct r as [[|[p|p|]|[p|p|]] ? ?]; simpl; lia. Qed.

Lemma shr_nonneg r e n : (0 <= shr_m r)%Z → (0 <= shr_m (shr r e n).1)%Z.
Proof.
  intros Hr. destruct n as [|p|p]; simpl; [done| |done].
  assert (∀ p r, (0 <= shr_m r)%Z → (0 <= shr_m (SpecFloat.iter_pos shr_1 p r))%Z) as Hi; [|by apply Hi].
  clear. induction p as [p IH|p IH|]; intros r Hr; simpl; auto using shr_1_nonneg.
Qed.

Lemma shr_fexp_nonneg m e l : (0 <= m)%Z → (0 <= shr_m (shr_fexp 53 1024 m e l).1)%Z.
Proof. intros Hm. apply shr_nonneg. by destruct l as [|[]]. Qed.

(** Rounding a non-negative mantissa keeps the sign and never gives NaN. *)
Lemma round_nonneg m e l : (0 <= m)%Z → nonneg (binary_round_aux 53 1024 false m e l) = true.
Proof.
  intros Hm. unfold binary_round_aux.
  pose proof (shr_fexp_nonneg m e l Hm) as H1. destruct (shr_fexp _ _ m e l) as [r1 e1]. simpl in H1.
  assert (0 <= round_nearest_even (shr_m r1) (loc_of_shr_record r1))%Z as H2.
  { unfold round_nearest_even. destruct (loc_of_shr_record r1) as [|[]]; [lia| |lia|lia].
    destruct (Z.even _); lia. }
  pose proof (shr_fexp_nonneg _ e1 loc_Exact H2) as H3.
  destruct (shr_fexp _ _ _ e1 loc_Exact) as [r2 e2]. simpl in H3.
  destruct (shr_m r2); [done| |lia]. by destruct (_ <=? _)%Z.
Qed.

Lemma fadd_nonneg x y : nonneg x = true → nonneg y = true → nonneg (fadd x y) = true.
Proof.
  intros Hx Hy. apply nonneg_cases in Hx as [[[] ->]|[->|(m & e & ->)]], Hy as [[[] ->]|[->|(m' & e' & ->)]]; try done.
  unfold fadd, SFadd, binary_normalize. cbn [cond_Zopp].
  destruct (Z.add _ _) eqn:E; [done| |lia]. unfold binary_round.
  destruct (shl_align p _ _). by apply round_nonneg.
Qed.

Lemma fmul_nonneg x y :
  nonneg x = true → nonneg y = true → x ≠ finf → y ≠ finf → nonneg (fmul x y) = true.
Proof.
  intros Hx Hy Ix Iy.
  apply nonneg_cases in Hx as [[[] ->]|[->|(m & e & ->)]], Hy as [[[] ->]|[->|(m' & e' & ->)]]; try done.
  by apply round_nonneg.
Qed.

(** A positive finite factor also keeps infinity. *)
Lemma fmul_nonneg_pos x m e : nonneg x = true → nonneg (fmul x (S754_finite false m e)) = true.
Proof.
  intros Hx. apply nonneg_cases in Hx as [[[] ->]|[->|(m' & e' & ->)]]; try done. by apply round_nonneg.
Qed.

Lemma fdiv_nonneg_pos x m e : nonneg x = true → nonneg (fdiv x (S754_finite false m e)) = true.
Proof.
  intros Hx. apply nonneg_cases in Hx as [[[] ->]|[->|(m' & e' & ->)]]; try done.
  unfold fdiv, SFdiv. destruct (SFdiv_core_binary _ _ _ _ _ _) as [[q e''] l] eqn:E.
  apply round_nonneg. revert E. unfold SFdiv_core_binary.
  destruct (Z.div_eucl _ _) as [q' r] eqn:Ed. intros [= <- _ _].
  assert (q' = fst (Z.div_eucl (match (e' - e - Z.min (fexp 53 1024 (Zdigits2 (Z.pos m') + e' - (Zdigits2 (Z.pos m) + e))) (e' - e))%Z with
    | 0%Z => Z.pos m' | Z.pos _ => Z.shiftl (Z.pos m') (e' - e - Z.min (fexp 53 1024 (Zdigits2 (Z.pos m') + e' - (Zdigits2 (Z.pos m) + e))) (e' - e)) | Z.neg _ => 0 end)%Z (Z.pos m))) as -> by (by rewrite Ed).
  change (fst (Z.div_eucl ?a ?b)) with (a / b)%Z. apply Z.div_pos; [|lia].
  case_match; [lia| |lia]. apply Z.shiftl_nonneg. lia.
Qed.

#[export] Hint Resolve fadd_nonneg fmul_nonneg_pos fdiv_nonneg_pos nonneg_not_nan : unoc.
