(* ===== verification/Models.v ===== *)
(** Data model: the SQLModel tables of [backend/models_pkg].

    Enumerations keep the source's members; a table row is a record with the
    table's columns; the database a session reads is the record [DB] of its
    tables, each a list of rows in the order an unordered [select] returns
    them.  [session.get(T, key)] is a search by primary key. *)

From S2P Require Import Prelude PyFloat.

(** * Enumerations *)

Inductive DeviceType :=
  | BACKBONE_GATEWAY | POP | CORE_SITE | CORE_ROUTER | EDGE_ROUTER | AON_SWITCH
  | OLT | ONT | AON_CPE | SPLITTER | HOP | NVT | ODF | BUSINESS_ONT.

Inductive Status := UP | DOWN | DEGRADED | BLOCKING.

Inductive DeviceRole := ROLE_ACTIVE | ROLE_PASSIVE | ROLE_ALWAYS_ONLINE.

Inductive SignalStatus := SIG_OK | SIG_WARNING | SIG_CRITICAL | SIG_NO_SIGNAL.

Inductive InterfaceRole := MANAGEMENT | P2P_UPLINK | IFROLE_ACCESS.

Inductive PortRole := PORT_ACCESS | PORT_UPLINK | PON | TRUNK.

Inductive AdminStatus := ADMIN_UP | ADMIN_DOWN.

Inductive LinkType := FIBER | P2P | MGMT.

Inductive MacEntryType := DYNAMIC | STATIC.

#[export] Instance DeviceType_eq_dec : EqDecision DeviceType.
Proof. solve_decision. Defined.
#[export] Instance Status_eq_dec : EqDecision Status.
Proof. solve_decision. Defined.
#[export] Instance DeviceRole_eq_dec : EqDecision DeviceRole.
Proof. solve_decision. Defined.
#[export] Instance SignalStatus_eq_dec : EqDecision SignalStatus.
Proof. solve_decision. Defined.
#[export] Instance InterfaceRole_eq_dec : EqDecision InterfaceRole.
Proof. solve_decision. Defined.
#[export] Instance PortRole_eq_dec : EqDecision PortRole.
Proof. solve_decision. Defined.
#[export] Instance AdminStatus_eq_dec : EqDecision AdminStatus.
Proof. solve_decision. Defined.
#[export] Instance LinkType_eq_dec : EqDecision LinkType.
Proof. solve_decision. Defined.
#[export] Instance MacEntryType_eq_dec : EqDecision MacEntryType.
Proof. solve_decision. Defined.

(** [DeviceType.X.value] and [LinkType.X.value]: the graphs work on these strings. *)
Definition DeviceType_value (t : DeviceType) : string :=
  match t with
  | BACKBONE_GATEWAY => "BACKBONE_GATEWAY" | POP => "POP" | CORE_SITE => "CORE_SITE"
  | CORE_ROUTER => "CORE_ROUTER" | EDGE_ROUTER => "EDGE_ROUTER" | AON_SWITCH => "AON_SWITCH"
  | OLT => "OLT" | ONT => "ONT" | AON_CPE => "AON_CPE" | SPLITTER => "SPLITTER"
  | HOP => "HOP" | NVT => "NVT" | ODF => "ODF" | BUSINESS_ONT => "BUSINESS_ONT"
  end.

Definition LinkType_value (k : LinkType) : string :=
  match k with FIBER => "FIBER" | P2P => "P2P" | MGMT => "MGMT" end.

(** [normalize_status_str] on a status *)
Definition Status_value (st : Status) : string :=
  match st with UP => "UP" | DOWN => "DOWN" | DEGRADED => "DEGRADED" | BLOCKING => "BLOCKING" end.

Definition PortRole_value (r : PortRole) : string :=
  match r with PORT_ACCESS => "ACCESS" | PORT_UPLINK => "UPLINK" | PON => "PON" | TRUNK => "TRUNK" end.

#[export] Instance DeviceType_value_inj : Inj (=) (=) DeviceType_value.
Proof. intros [] []; simpl; congruence. Qed.

(** * Tables *)

Record Device := mkDevice {
  dev_id : string;
  dev_name : string;
  dev_type : DeviceType;
  dev_status : Status;
  provisioned : bool;
  dev_override : option Status;          (* admin_override_status *)
  tx_power_dbm : option float;
  sensitivity_min_dbm : option float;
  insertion_loss_db : option float;
  dev_capacity : option Z;
  signal_power_dbm : option float;
  signal_margin_db : option float;
  attenuation_db : option float;
  signal_status : option SignalStatus;
  parent_container_id : option string;
  slot_id : option string;
  tariff_id : option Z;
  dev_vrf_id : option Z;
  hardware_model_id : option Z
}.

Record Interface := mkInterface {
  if_id : string;
  if_device_id : string;
  if_name : string;
  if_role : option InterfaceRole;
  if_admin_status : AdminStatus;
  if_capacity : option Z;
  port_role : option PortRole;
  if_bridge_domain_id : option Z;
  profile_name : option string;
  if_mac_address : option string
}.

Record Link := mkLink {
  link_id : string;
  a_interface_id : string;
  b_interface_id : string;
  link_status : Status;
  kind : LinkType;
  link_override : option Status;         (* admin_override_status *)
  protection_mode : option string;
  length_km : option float;
  physical_medium_id : option Z
}.

Record PhysicalMedium := mkPhysicalMedium {
  pm_id : Z; pm_code : string; pm_name : string; pm_kind : string;
  max_range_km : option float
}.

Record InterfaceAddress := mkInterfaceAddress {
  addr_id : Z; addr_interface_id : string; addr_ip : string; addr_prefix_len : Z;
  addr_vrf_id : option Z; addr_prefix_id : option Z
}.

Record Route := mkRoute {
  route_id : option Z; route_vrf_id : Z; route_prefix : string;
  next_hop : option string; route_interface_id : option string;
  admin_distance : Z; metric : Z
}.

Record Neighbor := mkNeighbor {
  neigh_id : Z; neigh_interface_id : string; neigh_ip_address : string;
  neigh_mac_address : string
}.

Record BridgeDomain := mkBridgeDomain {
  bd_id : Z; bd_name : string; bd_device_id : string
}.

Record MacAddressEntry := mkMacAddressEntry {
  mac_address : string; mac_interface_id : string; mac_bridge_domain_id : Z;
  mac_type : MacEntryType
}.

(** * The database a session sees *)

Record DB := mkDB {
  devices : list Device;
  interfaces : list Interface;
  links : list Link;
  media : list PhysicalMedium;
  addresses : list InterfaceAddress;
  routes : list Route;
  neighbors : list Neighbor;
  bridge_domains : list BridgeDomain;
  mac_entries : list MacAddressEntry
}.

(** [session.get(Device, k)] and its siblings. *)
Definition get_device (s : DB) (k : string) : option Device :=
  find_row (λ d, String.eqb (dev_id d) k) (devices s).

Definition get_interface (s : DB) (k : string) : option Interface :=
  find_row (λ i, String.eqb (if_id i) k) (interfaces s).

Definition get_link (s : DB) (k : string) : option Link :=
  find_row (λ l, String.eqb (link_id l) k) (links s).

Definition get_medium (s : DB) (k : Z) : option PhysicalMedium :=
  find_row (λ m, (pm_id m =? k)%Z) (media s).

(** [select(Interface).where(Interface.device_id == d)]. *)
Definition interfaces_of (s : DB) (d : string) : list Interface :=
  filter (λ i, if_device_id i = d) (interfaces s).

(** [select(Link).where((Link.a_interface_id == i) | (Link.b_interface_id == i))]. *)
Definition links_of_interface (s : DB) (i : string) : list Link :=
  filter (λ l, a_interface_id l = i ∨ b_interface_id l = i) (links s).

(** The other end of a link seen from interface [i]. *)
Definition peer_interface (l : Link) (i : string) : string :=
  if bool_decide (a_interface_id l = i) then b_interface_id l else a_interface_id l.

(** Device.derive_role *)
Definition derive_role (d : Device) : DeviceRole :=
  if mem (dev_type d) [SPLITTER; HOP; NVT; ODF] then ROLE_PASSIVE
  else if mem (dev_type d) [BACKBONE_GATEWAY; POP; CORE_SITE] then ROLE_ALWAYS_ONLINE
  else ROLE_ACTIVE.

(** Primary keys: what the table declarations promise of every database. *)
Record keys_ok (s : DB) : Prop := {
  devices_key : NoDup (dev_id <$> devices s);
  interfaces_key : NoDup (if_id <$> interfaces s);
  links_key : NoDup (link_id <$> links s);
  media_key : NoDup (pm_id <$> media s)
}.

Lemma get_device_Some s k d : get_device s k = Some d → d ∈ devices s ∧ dev_id d = k.
Proof.
  intros [Hd He]%find_row_Some. split; [done|]. by apply String.eqb_eq.
Qed.

Lemma get_interface_Some s k i :
  get_interface s k = Some i → i ∈ interfaces s ∧ if_id i = k.
Proof.
  intros [Hd He]%find_row_Some. split; [done|]. by apply String.eqb_eq.
Qed.

Lemma get_link_Some s k l : get_link s k = Some l → l ∈ links s ∧ link_id l = k.
Proof.
  intros [Hd He]%find_row_Some. split; [done|]. by apply String.eqb_eq.
Qed.

Lemma get_device_is_Some s d : d ∈ devices s → is_Some (get_device s (dev_id d)).
Proof. intros H. eapply find_row_is_Some; [exact H|]. apply String.eqb_refl. Qed.

(** A search by primary key returns the row itself. *)
Lemma find_key_unique {A} (key : A → string) (rows : list A) r :
  NoDup (key <$> rows) → r ∈ rows →
  find_row (λ x, String.eqb (key x) (key r)) rows = Some r.
Proof.
  induction rows as [|x rows IH]; simpl; [set_solver|].
  intros [Hx Hnd]%NoDup_cons. rewrite elem_of_cons. intros [->|Hr].
  - by rewrite String.eqb_refl.
  - destruct (String.eqb_spec (key x) (key r)) as [E|_]; [|auto].
    destruct Hx. rewrite E. by apply list_elem_of_fmap_2.
Qed.

Lemma get_device_key s d : keys_ok s → d ∈ devices s → get_device s (dev_id d) = Some d.
Proof. intros Hk. apply find_key_unique, Hk. Qed.

Lemma get_interface_key s i :
  keys_ok s → i ∈ interfaces s → get_interface s (if_id i) = Some i.
Proof. intros Hk. apply find_key_unique, Hk. Qed.

Lemma get_link_key s l : keys_ok s → l ∈ links s → get_link s (link_id l) = Some l.
Proof. intros Hk. apply find_key_unique, Hk. Qed.

#[export] Hint Resolve get_device_key get_interface_key get_link_key : unoc.

(** [{i.id: i.device_id for i in interfaces}.get(k)]: a Python dict keeps the
    last value written, i.e. the last row with that id. *)
Definition if_to_dev (s : DB) (k : string) : option string :=
  if_device_id <$> find_row (λ i, String.eqb (if_id i) k) (reverse (interfaces s)).

Lemma if_to_dev_elem s k d : if_to_dev s k = Some d → d ∈ if_device_id <$> interfaces s.
Proof.
  unfold if_to_dev. intros (i & [Hi _]%find_row_Some & ->)%fmap_Some_1.
  apply list_elem_of_fmap_2. revert Hi. by rewrite elem_of_reverse.
Qed.

Lemma if_to_dev_get s k :
  keys_ok s → if_to_dev s k = if_device_id <$> get_interface s k.
Proof.
  intros Hk. unfold if_to_dev. f_equal. destruct (get_interface s k) as [i|] eqn:E.
  - apply get_interface_Some in E as [Hi <-]. apply (find_key_unique if_id).
    + rewrite fmap_reverse, reverse_Permutation. apply Hk.
    + by rewrite elem_of_reverse.
  - apply find_row_None. intros r Hr. rewrite elem_of_reverse in Hr.
    by eapply find_row_None in E.
Qed.

(** Templates used by the examples of the components. *)
Definition device0 (i : string) (t : DeviceType) : Device :=
  mkDevice i i t UP false None None None None None None None None None None None None None None.
Definition interface0 (i d n : string) : Interface :=
  mkInterface i d n None ADMIN_UP None None None None None.
Definition link0 (i a b : string) : Link :=
  mkLink i a b UP FIBER None None None None.
Definition set_provisioned (b : bool) (d : Device) : Device :=
  mkDevice (dev_id d) (dev_name d) (dev_type d) (dev_status d) b (dev_override d)
    (tx_power_dbm d) (sensitivity_min_dbm d) (insertion_loss_db d) (dev_capacity d)
    (signal_power_dbm d) (signal_margin_db d) (attenuation_db d) (signal_status d)
    (parent_container_id d) (slot_id d) (tariff_id d) (dev_vrf_id d) (hardware_model_id d).
Definition set_vrf (v : option Z) (d : Device) : Device :=
  mkDevice (dev_id d) (dev_name d) (dev_type d) (dev_status d) (provisioned d) (dev_override d)
    (tx_power_dbm d) (sensitivity_min_dbm d) (insertion_loss_db d) (dev_capacity d)
    (signal_power_dbm d) (signal_margin_db d) (attenuation_db d) (signal_status d)
    (parent_container_id d) (slot_id d) (tariff_id d) v (hardware_model_id d).
Definition set_status (st : Status) (d : Device) : Device :=
  mkDevice (dev_id d) (dev_name d) (dev_type d) st (provisioned d) (dev_override d)
    (tx_power_dbm d) (sensitivity_min_dbm d) (insertion_loss_db d) (dev_capacity d)
    (signal_power_dbm d) (signal_margin_db d) (attenuation_db d) (signal_status d)
    (parent_container_id d) (slot_id d) (tariff_id d) (dev_vrf_id d) (hardware_model_id d).
Definition empty_db : DB := mkDB [] [] [] [] [] [] [] [] [].
