(* ===== verification/LinkRules.v ===== *)
(** Link classification.

    Two tables classify a link from the types of its end devices: [RULES] of
    [backend/link_rules.py] (physical media, link viability) and
    [LINK_TYPE_RULES] of [backend/constants/link_types.py], read by
    [link_classification_service.classify] (admission of new links).  Both are
    ordered rule lists searched for the first matching rule.  The two modules
    repeat the same matchers; they are defined once here. *)

From S2P Require Import Prelude PyFloat Models.

Definition ROUTER_CLASS : list DeviceType := [BACKBONE_GATEWAY; CORE_ROUTER; EDGE_ROUTER].
Definition PASSIVE_INLINE : list DeviceType := [SPLITTER; HOP; NVT; ODF].
Definition ONT_CLASS : list DeviceType := [ONT; BUSINESS_ONT].

(** * Matchers *)

Definition is_type (d : Device) (t : DeviceType) : bool := bool_decide (dev_type d = t).
Definition in_class (d : Device) (c : list DeviceType) : bool := mem (dev_type d) c.

Definition match_router_router (a b : Device) : bool :=
  in_class a ROUTER_CLASS && in_class b ROUTER_CLASS.

Definition match_olt_passive (a b : Device) : bool :=
  (is_type a OLT && in_class b PASSIVE_INLINE) || (is_type b OLT && in_class a PASSIVE_INLINE).

Definition match_passive_passive (a b : Device) : bool :=
  in_class a PASSIVE_INLINE && in_class b PASSIVE_INLINE.

Definition match_passive_ont (a b : Device) : bool :=
  (in_class a PASSIVE_INLINE && in_class b ONT_CLASS) ||
  (in_class b PASSIVE_INLINE && in_class a ONT_CLASS).

Definition match_olt_ont_direct (a b : Device) : bool :=
  (is_type a OLT && in_class b ONT_CLASS) || (is_type b OLT && in_class a ONT_CLASS).

Definition match_aon_switch_cpe (a b : Device) : bool :=
  (is_type a AON_SWITCH && is_type b AON_CPE) || (is_type b AON_SWITCH && is_type a AON_CPE).

Definition match_aon_switch_router (a b : Device) : bool :=
  (is_type a AON_SWITCH && in_class b ROUTER_CLASS) ||
  (is_type b AON_SWITCH && in_class a ROUTER_CLASS).

Definition match_olt_router (a b : Device) : bool :=
  (is_type a OLT && in_class b ROUTER_CLASS) || (is_type b OLT && in_class a ROUTER_CLASS).

Definition match_active_passive_invalid (a b : Device) : bool :=
  if (in_class a PASSIVE_INLINE && in_class b (ROUTER_CLASS ++ [AON_SWITCH; AON_CPE])) ||
     (in_class b PASSIVE_INLINE && in_class a (ROUTER_CLASS ++ [AON_SWITCH; AON_CPE]))
  then true else false.

Definition match_ont_ont_invalid (a b : Device) : bool :=
  in_class a ONT_CLASS && in_class b ONT_CLASS.

(** * The two rule tables *)

Record RuleDef := mkRule {
  rule_id : string;
  allowed : bool;
  link_class : string;
  matcher : Device → Device → bool
}.

Record LinkRuleResult := mkResult {
  res_rule_id : string;
  res_allowed : bool;
  res_link_class : string
}.

Definition RULES : list RuleDef := [
  mkRule "L1" true "routed_p2p" match_router_router;
  mkRule "L2" true "optical_segment" match_olt_passive;
  mkRule "L3" true "optical_segment" match_passive_passive;
  mkRule "L4" true "optical_termination" match_passive_ont;
  mkRule "L5" true "optical_segment" match_olt_ont_direct;
  mkRule "L6" true "access_edge" match_aon_switch_cpe;
  mkRule "L6A" true "access_uplink_aon" match_aon_switch_router;
  mkRule "L6B" true "access_uplink_olt" match_olt_router;
  mkRule "L7" false "mixed_invalid" match_active_passive_invalid;
  mkRule "L8" false "peer_invalid" match_ont_ont_invalid
].

Definition LINK_TYPE_RULES : list RuleDef := [
  mkRule "L1" true "routed_p2p" match_router_router;
  mkRule "L2" true "optical_segment" match_olt_passive;
  mkRule "L3" true "optical_segment" match_passive_passive;
  mkRule "L4" true "optical_termination" match_passive_ont;
  mkRule "L5" true "optical_segment" match_olt_ont_direct;
  mkRule "L6A" true "access_uplink" match_aon_switch_router;
  mkRule "L6B" true "access_uplink" match_olt_router;
  mkRule "L6" true "access_edge" match_aon_switch_cpe;
  mkRule "L7" false "mixed_invalid" match_active_passive_invalid;
  mkRule "L8" false "peer_invalid" match_ont_ont_invalid
].

Fixpoint first_rule (rules : list RuleDef) (a b : Device) : LinkRuleResult :=
  match rules with
  | [] => mkResult "L9" false "reverse_invalid"
  | r :: rules' =>
      if matcher r a b then mkResult (rule_id r) (allowed r) (link_class r)
      else first_rule rules' a b
  end.

(** link_rules.classify_link *)
Definition classify_link (a b : Device) : LinkRuleResult := first_rule RULES a b.

(** link_classification_service.classify *)
Definition classify (a b : Device) : LinkRuleResult := first_rule LINK_TYPE_RULES a b.

(** link_rules.allowed_media_codes_for_class *)
Definition allowed_media_codes_for_class (c : string) : list string :=
  if String.eqb c "routed_p2p" then ["SMF_G652D"; "SMF_G657A1"; "SMF_G657A2"]
  else if mem c ["optical_segment"; "optical_termination"] then
    ["SMF_G652D"; "SMF_G657A1"; "SMF_G657A2"; "MMF_OM3"; "MMF_OM4"]
  else if String.eqb c "access_edge" then ["CAT6A_UTP"]
  else if String.eqb c "access_uplink_olt" then ["SMF_G652D"; "SMF_G657A1"; "SMF_G657A2"]
  else if String.eqb c "access_uplink_aon" then
    ["SMF_G652D"; "SMF_G657A1"; "SMF_G657A2"; "MMF_OM3"; "MMF_OM4"; "CAT6A_UTP"]
  else [].

(** * Properties *)

(** Classification only looks at the two types: 196 cases decide it. *)
Ltac by_types a b :=
  destruct a as [ia na ta], b as [ib nb tb]; destruct ta, tb; vm_compute; reflexivity.

(** The class the admission table gives to a link, as the media table names it. *)
Definition refine_uplink (r : LinkRuleResult) : LinkRuleResult :=
  if String.eqb (res_rule_id r) "L6A" then mkResult "L6A" (res_allowed r) "access_uplink_aon"
  else if String.eqb (res_rule_id r) "L6B" then mkResult "L6B" (res_allowed r) "access_uplink_olt"
  else r.

(** The two rule tables agree.  For every pair of devices the admission
    classifier ([classify]) and the media classifier ([classify_link]) choose
    the same rule and the same verdict, although the tables order their rules
    differently; the link classes differ only by the split of [access_uplink]
    into its AON and OLT variants. *)
Lemma classifiers_agree a b : classify_link a b = refine_uplink (classify a b).
Proof. by_types a b. Qed.

(** Swapping the ends of a link does not change its classification. *)
Lemma classify_link_sym a b : classify_link a b = classify_link b a.
Proof. by_types a b. Qed.

Lemma classify_sym a b : classify a b = classify b a.
Proof. by_types a b. Qed.

(** A link is admitted by the classification service exactly when the
    media catalogue has at least one medium for its class, and then the default
    single-mode fiber is among them except on the copper access edge; the
    orientation of the link does not matter for either. *)
Lemma admitted_iff_media a b :
  let r := classify_link a b in
  res_allowed (classify a b) = bool_decide (allowed_media_codes_for_class (res_link_class r) ≠ []) ∧
  mem "SMF_G652D" (allowed_media_codes_for_class (res_link_class r)) =
    res_allowed r && negb (String.eqb (res_link_class r) "access_edge") ∧
  classify_link b a = r ∧ classify b a = classify a b.
Proof.
  split; [|split; [|split]].
  1-2: by_types a b.
  - apply classify_link_sym.
  - apply classify_sym.
Qed.
