(* ===== verification/Worklist.v ===== *)
(** Worklist traversals.

    The simulator walks its graphs with hand-written loops of two kinds.
    - [explore]: nodes are marked when they are popped, so the queue may hold
      duplicates ([recompute_dirty], [detect_causal_chain_python], the splitter
      and passive-status traversals);
    - [search]: nodes are marked when they are queued ([GraphIndex] regions, the
      propagation flood, anchor tracing, ONT placement); a test at pop time may
      end the loop early.
    The loops differ in the queue discipline (FIFO, stack, re-sorted list),
    which is a parameter here.  Whatever the discipline, the loop computes
    exactly the set of reachable nodes and an explicit amount of fuel suffices. *)

From S2P Require Import Prelude.

Section reach.
Context {A : Type}.

(** [x] is reachable from one of [seeds] along [R]. *)
Definition reaches (R : relation A) (seeds : list A) (x : A) : Prop :=
  ∃ s, s ∈ seeds ∧ rtc R s x.

Lemma reaches_seed R seeds x : x ∈ seeds → reaches R seeds x.
Proof. intros. exists x. split; [done|apply rtc_refl]. Qed.

Lemma reaches_step R seeds x y : reaches R seeds x → R x y → reaches R seeds y.
Proof. intros (s & Hs & Hr) HR. exists s. split; [done|by eapply rtc_r]. Qed.

Lemma reaches_closed R seeds (P : A → Prop) x :
  (∀ s, s ∈ seeds → P s) → (∀ a b, P a → R a b → P b) → reaches R seeds x → P x.
Proof. intros Hs Hc (s & Hin & Hr). apply Hs in Hin. induction Hr; eauto. Qed.
End reach.

#[export] Hint Resolve reaches_seed reaches_step : unoc.

(** Summing over a set is no more than summing over a list that covers it. *)
Lemma sum_list_submseteq {A} (f : A → nat) l k :
  l ⊆+ k → sum_list_with f l ≤ sum_list_with f k.
Proof. induction 1; simpl; lia. Qed.

Lemma sum_list_with_mono {A} (f h : A → nat) l :
  (∀ x, x ∈ l → f x ≤ h x) → sum_list_with f l ≤ sum_list_with h l.
Proof.
  induction l as [|x l IH]; intros Hf; simpl; [done|].
  pose proof (Hf x ltac:(set_solver)). assert (∀ y, y ∈ l → f y ≤ h y) by set_solver.
  specialize (IH ltac:(done)). lia.
Qed.

Lemma sum_elements_le {A} `{Countable A} (f : A → nat) (X : gset A) (l : list A) :
  (∀ x, x ∈ X → x ∈ l) → sum_list_with f (elements X) ≤ sum_list_with f l.
Proof.
  intros HX. apply sum_list_submseteq, NoDup_submseteq; [apply NoDup_elements|].
  intros x Hx%elem_of_elements. auto.
Qed.

(** The successors still to be queued when the nodes of [V] are marked. *)
Section pending.
Context {A : Type} `{Countable A} (succ : A → list A).

Definition pending_work (U V : gset A) : nat :=
  sum_list_with (λ x, length (succ x)) (elements (U ∖ V)).

Lemma pending_work_mark U V cur :
  cur ∉ V → (cur ∉ U → succ cur = []) →
  pending_work U ({[cur]} ∪ V) + length (succ cur) = pending_work U V.
Proof.
  intros HV HU. unfold pending_work. destruct (decide (cur ∈ U)) as [Hin|Hout].
  - replace (U ∖ V) with ({[cur]} ∪ U ∖ ({[cur]} ∪ V)).
    2:{ apply set_eq. intros x. destruct (decide (x = cur)); set_solver. }
    rewrite elements_disj_union by set_solver. rewrite elements_singleton. simpl. lia.
  - rewrite HU by done. replace (U ∖ ({[cur]} ∪ V)) with (U ∖ V); [simpl; lia|].
    apply set_eq. set_solver.
Qed.
End pending.

(** * Marking on pop *)

Section explore.
Context {A : Type} `{Countable A}.
Context (push : gset A → list A → list A → list A) (succ : A → list A).

Fixpoint explore (fuel : nat) (visited : gset A) (queue : list A) : option (gset A) :=
  match queue with
  | [] => Some visited
  | cur :: rest =>
      match fuel with
      | O => None
      | S fuel' =>
          if decide (cur ∈ visited) then explore fuel' visited rest
          else
            let visited' := {[cur]} ∪ visited in
            explore fuel' visited' (push visited' rest (succ cur))
      end
  end.

Definition edge (x y : A) : Prop := y ∈ succ x.

Context (push_elem : ∀ V q ns x, x ∈ push V q ns ↔ x ∈ q ∨ (x ∈ ns ∧ x ∉ V)).

Lemma explore_sound fuel V q V' x :
  explore fuel V q = Some V' → x ∈ V' → x ∈ V ∨ reaches edge q x.
Proof.
  revert V q. induction fuel as [|fuel IH]; intros V [|cur rest]; simpl; try done;
    [naive_solver..|].
  case_decide as Hc; intros HV' Hx.
  - destruct (IH _ _ HV' Hx) as [?|(s & Hs & Hr)]; [by left|].
    right. exists s. split; [set_solver|done].
  - destruct (IH _ _ HV' Hx) as [?|(s & Hs & Hr)].
    { destruct (decide (x = cur)) as [->|]; [|set_solver].
      right. apply reaches_seed. set_solver. }
    right. rewrite push_elem in Hs. destruct Hs as [?|[Hs _]].
    + exists s. split; [set_solver|done].
    + exists cur. split; [set_solver|]. by eapply rtc_l.
Qed.

(** Nodes already marked have all their successors marked or queued. *)
Definition pending_ok (V : gset A) (q : list A) : Prop :=
  ∀ x y, x ∈ V → edge x y → y ∈ V ∨ y ∈ q.

Lemma explore_closed fuel V q V' :
  explore fuel V q = Some V' → pending_ok V q →
  (∀ x, x ∈ V ∨ x ∈ q → x ∈ V') ∧ (∀ x y, x ∈ V' → edge x y → y ∈ V').
Proof.
  revert V q. induction fuel as [|fuel IH]; intros V [|cur rest]; simpl; try done.
  - intros [= <-] Hp. split; [set_solver|]. intros x y Hx He. destruct (Hp x y); set_solver.
  - intros [= <-] Hp. split; [set_solver|]. intros x y Hx He. destruct (Hp x y); set_solver.
  - case_decide as Hc; intros HV' Hp.
    + destruct (IH _ _ HV') as [H1 H2].
      { intros x y Hx He. destruct (Hp x y Hx He); set_solver. }
      split; [|done]. intros x [?|[->|?]%elem_of_cons]; auto.
    + destruct (IH _ _ HV') as [H1 H2].
      { intros x y Hx He. rewrite push_elem.
        destruct (decide (y ∈ {[cur]} ∪ V)) as [?|Hy]; [by left|right].
        apply elem_of_union in Hx as [->%elem_of_singleton|Hx].
        - right. split; [exact He|done].
        - destruct (Hp x y Hx He); set_solver. }
      split; [|done]. intros x Hx. apply H1. rewrite push_elem. set_solver.
Qed.

(** The marked set is exactly the set of nodes reachable from the queue. *)
Lemma explore_reaches fuel q V x :
  explore fuel ∅ q = Some V → x ∈ V ↔ reaches edge q x.
Proof.
  intros HV. split.
  - intros Hx. destruct (explore_sound _ _ _ _ _ HV Hx); [set_solver|done].
  - destruct (explore_closed _ _ _ _ HV) as [H1 H2]; [intros ??; set_solver|].
    apply (reaches_closed _ _ (λ z, z ∈ V)); [|eauto]. intros s Hs. apply H1. by right.
Qed.

(** ** Termination *)

Context (push_length : ∀ V q ns, length (push V q ns) ≤ length q + length ns).

Lemma explore_total U fuel V q :
  (∀ x, x ∉ U → succ x = []) →
  length q + pending_work succ U V ≤ fuel → is_Some (explore fuel V q).
Proof.
  intros HU. revert V q. induction fuel as [|fuel IH]; intros V [|cur rest]; simpl; try done; try lia.
  intros Hf. case_decide as Hc; [apply IH; lia|].
  apply IH. pose proof (push_length ({[cur]} ∪ V) rest (succ cur)).
  pose proof (pending_work_mark succ U V cur Hc (HU cur)). lia.
Qed.

(** Fuel that is always enough when only the nodes of [U] have successors. *)
Definition explore_fuel (U : gset A) (q : list A) : nat := length q + pending_work succ U ∅.

Lemma explore_run U q :
  (∀ x, x ∉ U → succ x = []) →
  ∃ V, explore (explore_fuel U q) ∅ q = Some V ∧ ∀ x, x ∈ V ↔ reaches edge q x.
Proof.
  intros HU. destruct (explore_total U (explore_fuel U q) ∅ q HU) as [V HV]; [done|].
  exists V. split; [done|]. intros x. by eapply explore_reaches.
Qed.
End explore.

(** * Marking on pop, with a test on the popped node

    [while queue and not found]: the test may look at the marks. *)

Section until.
Context {A : Type} `{Countable A}.
Context (push : gset A → list A → list A → list A) (succ : A → list A).
Context (goal : gset A → A → bool).

Fixpoint explore_until (fuel : nat) (visited : gset A) (queue : list A) : option bool :=
  match queue with
  | [] => Some false
  | cur :: rest =>
      match fuel with
      | O => None
      | S fuel' =>
          if decide (cur ∈ visited) then explore_until fuel' visited rest
          else
            let visited' := {[cur]} ∪ visited in
            if goal visited' cur then Some true
            else explore_until fuel' visited' (push visited' rest (succ cur))
      end
  end.

Context (push_elem : ∀ V q ns x, x ∈ push V q ns ↔ x ∈ q ∨ (x ∈ ns ∧ x ∉ V)).
(** [P]: what holds of every node of the traversal; [found]: what the test
    decides, given that no node marked before satisfies it. *)
Context (P found : A → Prop).
Context (P_step : ∀ x y, P x → ¬ found x → y ∈ succ x → P y).
Context (goal_sound : ∀ V x, goal V x = true → found x).
Context (goal_complete : ∀ V x, P x → (∀ y, y ∈ V → y ≠ x → P y ∧ ¬ found y) →
  found x → goal V x = true).

(** Everything reachable passes through the queue or the marks. *)
Lemma pending_found V q z x :
  pending_ok succ V q → (∀ x, x ∈ V ∨ reaches (edge succ) q x → ¬ found x) →
  z ∈ V → rtc (edge succ) z x → ¬ found x.
Proof.
  intros Hp Hn Hz Hrt. induction Hrt as [z|z w x Hzw Hrt IHr]; [apply Hn; by left|].
  destruct (Hp z w Hz Hzw) as [Hw|Hw]; [auto|]. apply Hn. right. exists w. done.
Qed.

Lemma explore_until_spec fuel V q b :
  explore_until fuel V q = Some b →
  (∀ x, x ∈ q → P x) → (∀ x, x ∈ V → P x ∧ ¬ found x) → pending_ok succ V q →
  if b then ∃ x, reaches (edge succ) q x ∧ found x
  else ∀ x, x ∈ V ∨ reaches (edge succ) q x → ¬ found x.
Proof.
  revert V q. induction fuel as [|fuel IH]; intros V [|cur rest]; simpl; try done.
  1-2: intros [= <-] _ HV _ x [Hx|(s & Hs & _)]; [by apply HV|set_solver].
  case_decide as Hc; intros Hr HP HV Hp.
  { assert (∀ x, reaches (edge succ) rest x → reaches (edge succ) (cur :: rest) x) as Hmono.
    { intros x (s & Hs & Hrt). exists s. split; [set_solver|done]. }
    assert (pending_ok succ V rest) as Hp'.
    { intros x y Hx He. destruct (Hp x y Hx He); set_solver. }
    specialize (IH _ _ Hr ltac:(set_solver) HV Hp'). destruct b; [naive_solver|].
    intros x [Hx|(s & [->|Hs]%elem_of_cons & Hrt)]; [apply IH; by left| |].
    - by eapply pending_found.
    - apply IH. right. exists s. done. }
  destruct (goal ({[cur]} ∪ V) cur) eqn:Hg.
  { injection Hr as <-. exists cur. split; [apply reaches_seed; set_solver|eauto]. }
  assert (P cur ∧ ¬ found cur) as Hcur.
  { split; [apply HP; set_solver|]. intros Hf. rewrite goal_complete in Hg; [done|apply HP; set_solver| |done].
    intros y Hy Hne. apply HV. set_solver. }
  assert (pending_ok succ ({[cur]} ∪ V) (push ({[cur]} ∪ V) rest (succ cur))) as Hp'.
  { intros x y Hx He. rewrite push_elem. destruct (decide (y ∈ {[cur]} ∪ V)) as [?|Hy]; [by left|right].
    apply elem_of_union in Hx as [->%elem_of_singleton|Hx]; [by right|].
    destruct (Hp x y Hx He); set_solver. }
  specialize (IH _ _ Hr).
  assert (∀ x, x ∈ push ({[cur]} ∪ V) rest (succ cur) → P x) as HP'.
  { intros x [?|[Hx _]]%push_elem; [apply HP; set_solver|]. apply (P_step cur); [apply Hcur..|done]. }
  assert (∀ x, x ∈ {[cur]} ∪ V → P x ∧ ¬ found x) as HV'.
  { intros x [->%elem_of_singleton|?]%elem_of_union; auto. }
  specialize (IH HP' HV' Hp'). destruct b.
  - destruct IH as (x & (s & Hs & Hrt) & Hf). exists x. split; [|done].
    apply push_elem in Hs as [Hs|[Hs _]]; [exists s; split; [set_solver|done]|].
    exists cur. split; [set_solver|]. by eapply rtc_l.
  - intros x [Hx|(s & [->|Hs]%elem_of_cons & Hrt)].
    + apply IH. left. set_solver.
    + apply (pending_found ({[cur]} ∪ V) _ cur x Hp' IH ltac:(set_solver) Hrt).
    + apply IH. right. exists s. split; [apply push_elem; by left|done].
Qed.

Context (push_length : ∀ V q ns, length (push V q ns) ≤ length q + length ns).

Lemma explore_until_total U fuel V q :
  (∀ x, x ∉ U → succ x = []) →
  length q + pending_work succ U V ≤ fuel → is_Some (explore_until fuel V q).
Proof.
  intros HU. revert V q. induction fuel as [|fuel IH]; intros V [|cur rest]; simpl; try done; try lia.
  intros Hf. case_decide as Hc; [apply IH; lia|]. destruct (goal _ _); [done|].
  apply IH. pose proof (push_length ({[cur]} ∪ V) rest (succ cur)).
  pose proof (pending_work_mark succ U V cur Hc (HU cur)). lia.
Qed.

(** With enough fuel the loop decides whether a sought node is reachable. *)
Lemma explore_until_run U fuel q :
  (∀ x, x ∉ U → succ x = []) → (∀ x, x ∈ q → P x) → length q + pending_work succ U ∅ ≤ fuel →
  ∃ b, explore_until fuel ∅ q = Some b ∧ (b = true ↔ ∃ x, reaches (edge succ) q x ∧ found x).
Proof.
  intros HU HP Hf. destruct (explore_until_total U fuel ∅ q HU Hf) as [b Hb].
  exists b. split; [done|]. assert (pending_ok succ ∅ q) as Hp by (intros ??; set_solver).
  pose proof (explore_until_spec _ _ _ _ Hb HP ltac:(set_solver) Hp) as Hs.
  destruct b; [naive_solver|]. split; [done|]. intros (x & Hx & Hfx). exfalso. eapply Hs; [by right|done].
Qed.
End until.

(** * Marking on push, with an early exit *)

(** Marking and queueing one successor, when the loop may enter it. *)
Section visit.
Context {A : Type} `{Countable A}.
Context (enqueue : list A → A → list A).   (* where a newly marked node is put *)
Context (ok : A → bool).                   (* nodes the loop may enter *)

Definition visit (st : gset A * list A) (nb : A) : gset A * list A :=
  let '(visited, queue) := st in
  if decide (nb ∈ visited) then st
  else if ok nb then ({[nb]} ∪ visited, enqueue queue nb) else st.

Context (enqueue_perm : ∀ q x, enqueue q x ≡ₚ x :: q).

(** What one pass over the successors does to the marks and the queue. *)
Lemma visit_all ns V q V' q' :
  foldl visit (V, q) ns = (V', q') →
  (∀ x, x ∈ V' ↔ x ∈ V ∨ (x ∈ ns ∧ ok x = true)) ∧
  (∀ x, x ∈ q' ↔ x ∈ q ∨ (x ∈ V' ∧ x ∉ V)) ∧
  length q' + size V = length q + size V'.
Proof.
  revert V q. induction ns as [|nb ns IH]; intros V q; simpl.
  - intros [= <- <-]. split; [set_solver|]. split; [set_solver|lia].
  - case_decide as Hin; [|destruct (ok nb) eqn:Hok]; intros E.
    + destruct (IH _ _ E) as (H1 & H2 & H3). split; [|done].
      intros x. rewrite H1. set_solver.
    + destruct (IH _ _ E) as (H1 & H2 & H3). split; [|split].
      * intros x. rewrite H1. set_solver.
      * intros x. rewrite H2, enqueue_perm, elem_of_cons, !H1, elem_of_union, elem_of_singleton.
        destruct (decide (x = nb)) as [->|]; [|tauto]. split; [tauto|]. intros _. left. by left.
      * rewrite enqueue_perm, size_union in H3 by set_solver.
        rewrite size_singleton in H3. simpl in H3. lia.
    + destruct (IH _ _ E) as (H1 & H2 & H3). split; [|done].
      intros x. rewrite H1, elem_of_cons. split; [tauto|].
      intros [?|[[->|?] ?]]; [by left|congruence|by right].
Qed.

(** A pass turns unmarked nodes of [U] into queued ones. *)
Lemma visit_measure (U : gset A) ns V q V' q' :
  (∀ y, y ∈ ns → ok y = true → y ∈ U) → foldl visit (V, q) ns = (V', q') →
  length q' + size (U ∖ V') ≤ length q + size (U ∖ V).
Proof.
  intros HU E. destruct (visit_all _ _ _ _ _ E) as (H1 & _ & H3).
  assert (V ⊆ V') as Hsub by set_solver.
  assert (V' ∖ V ⊆ U ∖ V) as Hnew.
  { intros x [[?|[Hx Hok]]%H1 Hn]%elem_of_difference; [done|].
    apply elem_of_difference. split; [by apply HU|done]. }
  apply subseteq_size in Hnew as Hsz.
  assert (size (U ∖ V') + size (V' ∖ V) ≤ size (U ∖ V)) as Hle.
  { rewrite <-size_union by set_solver. apply subseteq_size. set_solver. }
  pose proof (size_difference V' V Hsub). pose proof (subseteq_size V V' Hsub). lia.
Qed.
End visit.

Section search.
Context {A B : Type} `{Countable A}.
Context (enqueue : list A → A → list A).   (* where a newly marked node is put *)
Context (ok : A → bool).                   (* nodes the loop may enter *)
Context (goal : A → option B).             (* tested when a node is popped *)
Context (succ : A → list A).

Fixpoint search (fuel : nat) (visited : gset A) (queue : list A) : option (B + gset A) :=
  match queue with
  | [] => Some (inr visited)
  | cur :: rest =>
      match fuel with
      | O => None
      | S fuel' =>
          match goal cur with
          | Some b => Some (inl b)
          | None =>
              let '(visited', queue') := foldl (visit enqueue ok) (visited, rest) (succ cur) in
              search fuel' visited' queue'
          end
      end
  end.

Definition hop (x y : A) : Prop := y ∈ succ x ∧ ok y = true.

Context (enqueue_perm : ∀ q x, enqueue q x ≡ₚ x :: q).

(** Marked nodes that left the queue were not goals and have marked successors. *)
Definition search_inv (V : gset A) (q : list A) : Prop :=
  (∀ x, x ∈ q → x ∈ V) ∧
  (∀ x, x ∈ V → x ∉ q → goal x = None ∧ ∀ y, hop x y → y ∈ V).

Lemma search_inv_step V cur rest V' q' :
  search_inv V (cur :: rest) → goal cur = None →
  foldl (visit enqueue ok) (V, rest) (succ cur) = (V', q') → search_inv V' q'.
Proof.
  intros [Hq Hi] Hg (H1 & H2 & _)%(visit_all _ _ enqueue_perm). split.
  - intros x [Hx|[Hx _]]%H2; [|done]. apply H1. left. apply Hq. set_solver.
  - intros x Hx Hnq. destruct (decide (x = cur)) as [->|Hne].
    { split; [done|]. intros y [Hy Hok]. apply H1. by right. }
    assert (x ∈ V) as HxV.
    { destruct (decide (x ∈ V)) as [|HxV]; [done|]. destruct Hnq. apply H2. by right. }
    destruct (Hi x HxV) as [Hgx Hnx].
    { intros [?|Hr]%elem_of_cons; [done|]. destruct Hnq. apply H2. by left. }
    split; [done|]. intros y Hy. apply H1. left. by apply Hnx.
Qed.

Lemma search_sound S0 fuel V q r :
  search fuel V q = Some r → search_inv V q → (∀ x, x ∈ V → reaches hop S0 x) →
  match r with
  | inl b => ∃ x, reaches hop S0 x ∧ goal x = Some b
  | inr V' => V ⊆ V' ∧ (∀ x, x ∈ V' → reaches hop S0 x) ∧
              (∀ x, x ∈ V' → goal x = None ∧ ∀ y, hop x y → y ∈ V')
  end.
Proof.
  revert V q. induction fuel as [|fuel IH]; intros V [|cur rest]; simpl; try done.
  1-2: intros [= <-] [_ Hi] HS; split; [done|]; split; [auto|]; intros x Hx;
    apply Hi; [done|apply not_elem_of_nil].
  destruct (goal cur) as [b|] eqn:Hg.
  { intros [= <-] [Hq _] HS. exists cur. split; [apply HS, Hq; set_solver|done]. }
  destruct (foldl (visit enqueue ok) (V, rest) (succ cur)) as [V' q'] eqn:E. intros Hr Hinv HS.
  pose proof (search_inv_step _ _ _ _ _ Hinv Hg E) as Hinv'.
  destruct (visit_all _ _ enqueue_perm _ _ _ _ _ E) as (H1 & _ & _).
  assert (∀ x, x ∈ V' → reaches hop S0 x) as HS'.
  { intros x [?|[Hx Hok]]%H1; [auto|]. eapply reaches_step; [|by split].
    apply HS. destruct Hinv as [Hq _]. apply Hq. set_solver. }
  specialize (IH _ _ Hr Hinv' HS'). destruct r as [b|V'']; [done|].
  destruct IH as (Hs & Hb & Hc). split; [set_solver|]. auto.
Qed.

(** Started on its seeds, the loop either stops at a reachable goal, or ends
    with exactly the reachable nodes marked, none of them a goal. *)
Lemma search_reaches fuel seeds r :
  search fuel (list_to_set seeds) seeds = Some r →
  match r with
  | inl b => ∃ x, reaches hop seeds x ∧ goal x = Some b
  | inr V => (∀ x, x ∈ V ↔ reaches hop seeds x) ∧ ∀ x, reaches hop seeds x → goal x = None
  end.
Proof.
  intros Hr. assert (search_inv (list_to_set seeds) seeds) as Hinv by (split; [set_solver|intros x ?%elem_of_list_to_set ?; done]).
  pose proof (search_sound seeds _ _ _ _ Hr Hinv) as Hs. destruct r as [b|V].
  - apply Hs. intros x Hx. apply reaches_seed. set_solver.
  - destruct Hs as (H1 & H2 & H3); [intros x Hx; apply reaches_seed; set_solver|].
    assert (∀ x, reaches hop seeds x → x ∈ V) as H4.
    { intros x. apply (reaches_closed _ _ (λ z, z ∈ V)); [set_solver|]. intros a b Ha. by apply H3. }
    split; [intros x; split; auto|]. intros x Hx. by apply H3, H4.
Qed.

(** ** Termination: a node enters the queue at most once. *)
Lemma search_total (U : gset A) fuel V q :
  (∀ x y, hop x y → y ∈ U) →
  length q + size (U ∖ V) ≤ fuel → is_Some (search fuel V q).
Proof.
  intros HU. revert V q. induction fuel as [|fuel IH]; intros V [|cur rest]; simpl; try done; try lia.
  intros Hf. destruct (goal cur); [done|].
  destruct (foldl (visit enqueue ok) (V, rest) (succ cur)) as [V' q'] eqn:E.
  apply IH. assert (∀ y, y ∈ succ cur → ok y = true → y ∈ U) as HU' by (intros y ??; by apply (HU cur)).
  pose proof (visit_measure _ _ enqueue_perm U _ _ _ _ _ HU' E). lia.
Qed.

Definition search_fuel (U : gset A) (seeds : list A) : nat := length seeds + size U.

Lemma search_run (U : gset A) seeds :
  (∀ x y, hop x y → y ∈ U) →
  is_Some (search (search_fuel U seeds) (list_to_set seeds) seeds).
Proof.
  intros HU. apply (search_total U); [done|]. unfold search_fuel.
  assert (size (U ∖ list_to_set seeds) ≤ size U) by (apply subseteq_size; set_solver).
  lia.
Qed.
End search.

(** * Queue disciplines of the sources *)

Section disciplines.
Context {A : Type} `{Countable A}.

(** [for nb in ns: if nb not in visited: queue.append(nb)] on a FIFO queue. *)
Definition push_fifo (V : gset A) (q ns : list A) : list A := q ++ filter (λ x, x ∉ V) ns.

(** The same on a stack popped from its end; the head of the list is the top. *)
Definition push_stack (V : gset A) (q ns : list A) : list A :=
  reverse (filter (λ x, x ∉ V) ns) ++ q.

(** [queue.append(nb)] *)
Definition append_one (q : list A) (x : A) : list A := q ++ [x].

Lemma push_fifo_elem V q ns x : x ∈ push_fifo V q ns ↔ x ∈ q ∨ (x ∈ ns ∧ x ∉ V).
Proof. unfold push_fifo. rewrite elem_of_app, list_elem_of_filter. tauto. Qed.

Lemma push_fifo_length V q ns : length (push_fifo V q ns) ≤ length q + length ns.
Proof.
  unfold push_fifo. rewrite length_app. pose proof (length_filter (λ x, x ∉ V) ns). lia.
Qed.

Lemma push_stack_elem V q ns x : x ∈ push_stack V q ns ↔ x ∈ q ∨ (x ∈ ns ∧ x ∉ V).
Proof. unfold push_stack. rewrite elem_of_app, elem_of_reverse, list_elem_of_filter. tauto. Qed.

Lemma push_stack_length V q ns : length (push_stack V q ns) ≤ length q + length ns.
Proof.
  unfold push_stack. rewrite length_app, length_reverse.
  pose proof (length_filter (λ x, x ∉ V) ns). lia.
Qed.

Lemma append_one_perm q x : append_one q x ≡ₚ x :: q.
Proof. unfold append_one. rewrite Permutation_app_comm. done. Qed.
End disciplines.

#[export] Hint Resolve push_fifo_elem push_fifo_length push_stack_elem push_stack_length
  append_one_perm : unoc.

(** [queue.append(nb)] followed by
    [if len(queue) > 1 and queue[-2] > queue[-1]: queue.sort()]. *)
Definition append_resort (q : list string) (x : string) : list string :=
  match last q with
  | Some y => if str_ltb x y then sorted_strs (q ++ [x]) else q ++ [x]
  | None => q ++ [x]
  end.

Lemma append_resort_perm q x : append_resort q x ≡ₚ x :: q.
Proof.
  unfold append_resort. repeat case_match; unfold sorted_strs; rewrite ?sort_by_perm;
    apply (append_one_perm (A:=string)).
Qed.

(** The pop-marking loop with that discipline pushes one neighbour at a time. *)
Definition push_resort (V : gset string) (q ns : list string) : list string :=
  foldl (λ q nb, if decide (nb ∈ V) then q else append_resort q nb) q ns.

Lemma push_resort_perm V q ns : push_resort V q ns ≡ₚ q ++ filter (λ x, x ∉ V) ns.
Proof.
  unfold push_resort. revert q. induction ns as [|n ns IH]; intros q; simpl.
  - by rewrite app_nil_r.
  - rewrite IH. case_decide as Hn; rewrite filter_cons; case_decide; try done.
    rewrite append_resort_perm. by rewrite <-Permutation_middle.
Qed.

Lemma push_resort_elem V q ns x : x ∈ push_resort V q ns ↔ x ∈ q ∨ (x ∈ ns ∧ x ∉ V).
Proof. rewrite push_resort_perm. apply push_fifo_elem. Qed.

Lemma push_resort_length V q ns : length (push_resort V q ns) ≤ length q + length ns.
Proof. rewrite push_resort_perm. apply push_fifo_length. Qed.

#[export] Hint Resolve append_resort_perm push_resort_elem push_resort_length : unoc.
