(* ===== verification/Adjacency.v ===== *)
(** Undirected device adjacency kept as a dictionary of sets
    ([dict[str, set[str]]]), as the propagation graph of status_recompute.py and
    the maps of graph_index.py have it. *)

From S2P Require Import Prelude Worklist.

Abbreviation Adjacency := (gmap string (gset string)).

(** [adjacency.setdefault(u, set()).add(v)] *)
Definition add_arc (u v : string) (m : Adjacency) : Adjacency := <[u := {[v]} ∪ default ∅ (m !! u)]> m.

Definition add_both (u v : string) (m : Adjacency) : Adjacency := add_arc v u (add_arc u v m).

Definition adjacent (m : Adjacency) (u : string) : gset string := default ∅ (m !! u).

(** [sorted(adjacency.get(u, ()))] *)
Definition sorted_adjacent (m : Adjacency) (u : string) : list string := sorted_strs (elements (adjacent m u)).

Lemma adjacent_add_arc u v m x :
  adjacent (add_arc u v m) x = if decide (x = u) then {[v]} ∪ adjacent m u else adjacent m x.
Proof.
  unfold adjacent, add_arc. case_decide as E; [subst; by rewrite lookup_insert_eq|].
  by rewrite lookup_insert_ne.
Qed.

Lemma elem_of_add_both u v m x y :
  y ∈ adjacent (add_both u v m) x ↔ y ∈ adjacent m x ∨ (x = u ∧ y = v) ∨ (x = v ∧ y = u).
Proof.
  unfold add_both. rewrite adjacent_add_arc. case_decide; [subst|]; rewrite ?elem_of_union, ?elem_of_singleton;
    rewrite adjacent_add_arc; case_decide; subst; rewrite ?elem_of_union, ?elem_of_singleton; naive_solver.
Qed.

Lemma elem_of_add_arcs arcs m x y :
  y ∈ adjacent (foldl (λ m a, add_both a.1 a.2 m) m arcs) x ↔
  y ∈ adjacent m x ∨ (x, y) ∈ arcs ∨ (y, x) ∈ arcs.
Proof.
  revert m. induction arcs as [|[u v] arcs IH]; intros m; simpl; [set_solver|].
  rewrite IH, elem_of_add_both, !elem_of_cons. simpl. naive_solver.
Qed.

Lemma elem_of_sorted_adjacent m u v : v ∈ sorted_adjacent m u ↔ v ∈ adjacent m u.
Proof. unfold sorted_adjacent, sorted_strs. by rewrite elem_of_sort_by, elem_of_elements. Qed.

Lemma sorted_adjacent_outside m u : u ∉ dom m → sorted_adjacent m u = [].
Proof.
  intros Hu%not_elem_of_dom. unfold sorted_adjacent, adjacent. by rewrite Hu.
Qed.

(** An adjacency that was built by [add_both] only is symmetric. *)
Definition symmetric (m : Adjacency) : Prop := ∀ x y, y ∈ adjacent m x → x ∈ adjacent m y.

Lemma add_both_symmetric u v m : symmetric m → symmetric (add_both u v m).
Proof. intros Hm x y. rewrite !elem_of_add_both. specialize (Hm x y). tauto. Qed.

(** [m.setdefault(u, set())] *)
Definition touch (u : string) (m : Adjacency) : Adjacency := <[u := default ∅ (m !! u)]> m.

Lemma adjacent_touch u m x : adjacent (touch u m) x = adjacent m x.
Proof.
  unfold adjacent, touch. destruct (decide (x = u)) as [->|]; [by rewrite lookup_insert_eq|].
  by rewrite lookup_insert_ne.
Qed.
