(* ===== verification/Scenario.v ===== *)
(** A small access network on which the components' statements are exercised:
    backbone gateway [bb], core router [cr], optical line terminal [olt], the
    passive chain [odf] - [spl], a subscriber [ont], and an Ethernet branch
    [sw] - [cpe].  The router has a default route to the gateway. *)

From S2P Require Import Prelude PyFloat Models.

Definition demo_devices : list Device := [
  set_provisioned true (device0 "bb" BACKBONE_GATEWAY);
  set_vrf (Some 1%Z) (set_provisioned true (device0 "cr" CORE_ROUTER));
  set_provisioned true (device0 "olt" OLT);
  device0 "odf" ODF;
  device0 "spl" SPLITTER;
  set_provisioned true (device0 "ont" ONT);
  set_provisioned true (device0 "sw" AON_SWITCH);
  set_provisioned true (device0 "cpe" AON_CPE)
].

Definition demo_interfaces : list Interface := [
  interface0 "bb-if0" "bb" "if0";
  interface0 "cr-if0" "cr" "if0";
  interface0 "cr-if1" "cr" "if1";
  interface0 "cr-if2" "cr" "if2";
  interface0 "olt-up" "olt" "uplink1";
  mkInterface "olt-pon" "olt" "pon1" None ADMIN_UP None (Some PON) None None None;
  interface0 "odf-if0" "odf" "if0";
  interface0 "odf-if1" "odf" "if1";
  interface0 "spl-in" "spl" "in";
  interface0 "spl-out1" "spl" "out1";
  interface0 "spl-out2" "spl" "out2";
  interface0 "ont-if0" "ont" "if0";
  interface0 "sw-up" "sw" "uplink1";
  interface0 "sw-p1" "sw" "access1";
  interface0 "cpe-if0" "cpe" "if0"
].

Definition demo_links : list Link := [
  link0 "l1" "bb-if0" "cr-if0";
  link0 "l2" "cr-if1" "olt-up";
  link0 "l3" "olt-pon" "odf-if0";
  link0 "l4" "odf-if1" "spl-in";
  link0 "l5" "spl-out1" "ont-if0";
  link0 "l6" "cr-if2" "sw-up";
  link0 "l7" "sw-p1" "cpe-if0"
].

Definition demo : DB :=
  mkDB demo_devices demo_interfaces demo_links []
    [mkInterfaceAddress 1 "bb-if0" "10.0.0.1" 30 (Some 1%Z) None]
    [mkRoute (Some 1%Z) 1 "0.0.0.0/0" (Some "10.0.0.1") (Some "cr-if0") 1 0]
    [] [] [].

Definition demo_device (k : string) : Device := default (device0 k POP) (get_device demo k).
Definition demo_link (k : string) : Link := default (link0 k "" "") (get_link demo k).

Lemma demo_keys : keys_ok demo.
Proof. constructor; vm_compute; repeat (constructor; [set_solver|]); constructor. Qed.

(** A row found by its key is a row of the table. *)
Lemma demo_device_row k : is_Some (get_device demo k) → demo_device k ∈ devices demo.
Proof.
  unfold demo_device. intros [d Hd]. rewrite Hd. simpl. by apply get_device_Some in Hd as [? _].
Qed.

Lemma demo_link_row k : is_Some (get_link demo k) → demo_link k ∈ links demo.
Proof.
  unfold demo_link. intros [l Hl]. rewrite Hl. simpl. by apply get_link_Some in Hl as [? _].
Qed.

Ltac demo_row := first [apply demo_device_row | apply demo_link_row]; vm_compute; by eexists.

#[export] Hint Resolve demo_keys : unoc.
