(* ===== verification/Catalog.v ===== *)
(** The hardware catalog: the tables of [models_pkg/hardware.py] and
    [models_pkg/tariff.py], and [services/catalog_effective.py].

    A parameter of a device or interface is its own override when it has one,
    else what its hardware model (or the port profile its name selects) says,
    else a fallback.  Capacities are integers in Mbps; [int(x)] raises on an
    infinite or NaN float, so the capacity functions return [None] for the
    exception and [Some] of Python's [int | None] otherwise.  Device and
    interface names are assumed ASCII where digits are tested. *)

From S2P Require Import Prelude PyFloat Models Scenario.
From Stdlib Require Import SpecFloat.

(** * Tables *)

Record HardwareModel := mkHardware {
  hw_id : Z;
  catalog_id : string;
  hw_device_type : DeviceType;
  vendor : string;
  hw_model : string;
  hw_version : string;
  ports_total : option Z;
  capacity_gbps : option float;
  hw_tx_power_dbm : option float;
  hw_sensitivity_min_dbm : option float;
  hw_insertion_loss_db : option float;
  meta_source : option string;
  meta_notes : option string
}.

Record PortProfile := mkProfile {
  pp_id : Z;
  pp_hardware_model_id : Z;
  pp_name : string;
  pp_count : Z;
  speed_gbps : option float;
  pp_role : option string;
  pp_media : option string;
  pp_port_role : option PortRole;
  max_subscribers : option Z
}.

Inductive TariffTechnology := GPON | AON.

#[export] Instance TariffTechnology_eq_dec : EqDecision TariffTechnology.
Proof. solve_decision. Defined.

Record Tariff := mkTariff {
  t_id : Z; t_name : string; max_up_mbps : float; max_down_mbps : float;
  technology : option TariffTechnology
}.

(** The catalog tables beside the base tables. *)
Record Catalog := mkCatalog {
  hardware_models : list HardwareModel;
  port_profiles : list PortProfile;
  tariffs : list Tariff
}.

Definition empty_catalog : Catalog := mkCatalog [] [] [].

(** * catalog_effective.py *)

Definition DEFAULT_DEVICE_CAPACITY_MBPS (t : DeviceType) : option Z :=
  match t with
  | BACKBONE_GATEWAY => Some 100000
  | POP => Some 10000
  | CORE_ROUTER => Some 40000
  | EDGE_ROUTER => Some 10000
  | AON_SWITCH => Some 10000
  | OLT => Some 10000
  | ONT => Some 1000
  | BUSINESS_ONT => Some 1000
  | AON_CPE => Some 1000
  | SPLITTER => Some 1000000
  | HOP => Some 1000000
  | NVT => Some 1000000
  | ODF => Some 1000000
  | CORE_SITE => None
  end%Z.

(** [int(x)]: towards zero. *)
Definition int_of_float (x : float) : option Z :=
  match x with
  | S754_zero _ => Some 0%Z
  | S754_finite sg m e =>
      let a := if (0 <=? e)%Z then (Z.pos m * 2 ^ e)%Z else (Z.pos m / 2 ^ (- e))%Z in
      Some (if sg then (- a)%Z else a)
  | _ => None
  end.

(** [int(float(gbps) * 1000)] *)
Definition mbps_of_gbps (gbps : float) : option Z := int_of_float (fmul gbps (of_Z 1000)).

Section effective.
Context (c : Catalog).

Definition get_model (device : Device) : option HardwareModel :=
  match hardware_model_id device with
  | None => None
  | Some k => find_row (λ m, (hw_id m =? k)%Z) (hardware_models c)
  end.

Definition get_effective_tx_power_dbm (olt : Device) : float :=
  match tx_power_dbm olt with
  | Some p => p
  | None => default fzero (get_model olt ≫= hw_tx_power_dbm)
  end.

Definition get_effective_sensitivity_dbm (ont : Device) : float :=
  match sensitivity_min_dbm ont with
  | Some p => p
  | None => default (of_Z (-30)) (get_model ont ≫= hw_sensitivity_min_dbm)
  end.

Definition get_effective_device_capacity_mbps (device : Device) : option (option Z) :=
  match dev_capacity device with
  | Some cap => Some (Some cap)
  | None =>
      match get_model device ≫= capacity_gbps with
      | Some g => Some <$> mbps_of_gbps g
      | None => Some (DEFAULT_DEVICE_CAPACITY_MBPS (dev_type device))
      end
  end.

Definition is_digit (a : Ascii.ascii) : bool :=
  (48 <=? Ascii.nat_of_ascii a)%nat && (Ascii.nat_of_ascii a <=? 57)%nat.

(** The prefix up to the last character that is not a digit. *)
Fixpoint strip_digits (name : string) : string :=
  match name with
  | EmptyString => EmptyString
  | String a rest =>
      match strip_digits rest with
      | EmptyString => if is_digit a then EmptyString else String a EmptyString
      | r => String a r
      end
  end.

(** [name[:i] or name] *)
Definition base_from_name (name : string) : string :=
  match truthy (Some (strip_digits name)) with Some b => b | None => name end.

(** The port profile called [name] on the hardware model of the interface's device. *)
Definition profile_of (s : DB) (interface : Interface) (name : string) : option PortProfile :=
  match get_device s (if_device_id interface) ≫= hardware_model_id with
  | None => None
  | Some k => find_row (λ p, (pp_hardware_model_id p =? k)%Z && String.eqb (pp_name p) name) (port_profiles c)
  end.

Definition role_capacity (role : option InterfaceRole) : option Z :=
  match role with
  | Some IFROLE_ACCESS => Some 1000
  | Some P2P_UPLINK => Some 10000
  | Some MANAGEMENT => Some 1000
  | None => None
  end%Z.

Definition get_effective_interface_capacity_mbps (s : DB) (interface : Interface) : option (option Z) :=
  match if_capacity interface with
  | Some cap => Some (Some cap)
  | None =>
      let profile :=
        match truthy (profile_name interface) ≫= profile_of s interface with
        | Some p => Some p
        | None => profile_of s interface (base_from_name (if_name interface))
        end in
      match profile ≫= speed_gbps with
      | Some g => Some <$> mbps_of_gbps g
      | None => Some (role_capacity (if_role interface))
      end
  end.
End effective.

(** * Facts *)

(** Numbering a port does not change the profile it selects. *)
Lemma strip_digits_numbered (b : string) (n : string) :
  Forall (λ a, is_digit a = true) (String.list_ascii_of_string n) →
  strip_digits (String.append b n) = strip_digits b.
Proof.
  intros Hn. induction b as [|a b IH].
  - induction n as [|a n IHn]; [done|]. apply Forall_cons in Hn as [Ha Hn].
    change (strip_digits (String a n) = ""). cbn [strip_digits].
    change (strip_digits n) with (strip_digits ("" +:+ n)). by rewrite (IHn Hn), Ha.
  - change (strip_digits (String a (b +:+ n)) = strip_digits (String a b)).
    cbn [strip_digits]. by rewrite IH.
Qed.

Lemma strip_digits_idemp b : strip_digits (strip_digits b) = strip_digits b.
Proof.
  induction b as [|a b IH]; simpl; [done|]. destruct (strip_digits b) eqn:E.
  - destruct (is_digit a) eqn:Ea; simpl; [done|]. by rewrite Ea.
  - rewrite <-E in *. change (strip_digits (String a (strip_digits b)) = String a (strip_digits b)).
    cbn [strip_digits]. rewrite IH. by rewrite E.
Qed.

Lemma base_from_name_numbered b n :
  Forall (λ a, is_digit a = true) (String.list_ascii_of_string n) → strip_digits b = b → b ≠ "" →
  base_from_name (String.append b n) = b.
Proof.
  intros Hn Hb Hne. unfold base_from_name. rewrite strip_digits_numbered, Hb by done.
  by destruct b.
Qed.

(** Where a device capacity comes from: it is always defined on finite data,
    except for CORE_SITE devices without override or model. *)
Lemma device_capacity_cases c d cap :
  get_effective_device_capacity_mbps c d = Some cap →
  (dev_capacity d = cap ∧ is_Some cap) ∨
  (dev_capacity d = None ∧ ∃ g, get_model c d ≫= capacity_gbps = Some g ∧ mbps_of_gbps g = cap ∧ is_Some cap) ∨
  (dev_capacity d = None ∧ get_model c d ≫= capacity_gbps = None ∧ cap = DEFAULT_DEVICE_CAPACITY_MBPS (dev_type d)).
Proof.
  unfold get_effective_device_capacity_mbps. destruct (dev_capacity d) as [k|].
  { intros [= <-]. left. eauto. }
  destruct (get_model c d ≫= capacity_gbps) as [g|].
  - intros (z & Hz & ->)%fmap_Some_1. right; left. split; [done|]. exists g. eauto.
  - intros [= <-]. auto.
Qed.

(** * Examples *)

Definition olt_model : HardwareModel :=
  mkHardware 1 "OLT_X" OLT "v" "m" "1" None (Some (of_Z 40)) (Some (of_Z 5)) None None None None.
Definition pon_profile : PortProfile :=
  mkProfile 1 1 "pon" 16 (Some (dec 25 10)) (Some "access") (Some "gpon") (Some PON) (Some 64%Z).
Definition demo_catalog : Catalog :=
  mkCatalog [olt_model] [pon_profile] [mkTariff 1 "Basic" (of_Z 20) (of_Z 100) (Some GPON)].

Definition model_device (k : string) (t : DeviceType) (hw : option Z) : Device :=
  mkDevice k k t UP true None None None None None None None None None None None None None hw.

Example capacities :
  let olt := model_device "olt" OLT (Some 1%Z) in
  let s := mkDB [olt] [] [] [] [] [] [] [] [] in
  get_effective_tx_power_dbm demo_catalog olt = of_Z 5 ∧
  get_effective_sensitivity_dbm demo_catalog olt = of_Z (-30) ∧
  get_effective_device_capacity_mbps demo_catalog olt = Some (Some 40000%Z) ∧
  get_effective_device_capacity_mbps demo_catalog (model_device "cs" CORE_SITE None) = Some None ∧
  get_effective_interface_capacity_mbps demo_catalog s (interface0 "olt-pon7" "olt" "pon7") = Some (Some 2500%Z) ∧
  get_effective_interface_capacity_mbps demo_catalog s (interface0 "olt-mgmt0" "olt" "mgmt0") = Some None ∧
  base_from_name "123" = "123".
Proof. vm_compute. repeat split; reflexivity. Qed.
