(* ===== verification/LinkStatus.v ===== *)
(** Link status and link viability.

    [services/status_link.py] ([evaluate_link_status], [is_link_passable]) and
    [services/link_validator_service.py] ([is_link_physically_viable]).  The
    link handed to these functions is a loaded row object; the session they
    open reads the database [s].  Nothing in the modelled paths raises, so the
    [except] clauses, which only guard the ORM, have no counterpart. *)

From S2P Require Import Prelude PyFloat Models LinkRules Scenario.

(** [str(v) == "DOWN"] or [v.value == "DOWN"], and the same for UP. *)
Definition is_forced (st : Status) (o : option Status) : bool := bool_decide (o = Some st).

(** The two device rows at the ends of a link, when interfaces and devices exist. *)
Definition link_ends (s : DB) (l : Link) : option (Device * Device) :=
  match get_interface s (a_interface_id l), get_interface s (b_interface_id l) with
  | Some a_if, Some b_if =>
      match get_device s (if_device_id a_if), get_device s (if_device_id b_if) with
      | Some a_dev, Some b_dev => Some (a_dev, b_dev)
      | _, _ => None
      end
  | _, _ => None
  end.

(** The row that [evaluate_link_status] looks at: by id, by endpoints in either order,
    and as a last resort the only link of the database. *)
Definition resolve_link (s : DB) (link : Link) : option Link :=
  let by_id := if nonempty (link_id link) then get_link s (link_id link) else None in
  let by_ends :=
    match by_id with
    | Some ln => Some ln
    | None =>
        if nonempty (a_interface_id link) && nonempty (b_interface_id link) then
          match find_row (λ l, String.eqb (a_interface_id l) (a_interface_id link) &&
                               String.eqb (b_interface_id l) (b_interface_id link)) (links s) with
          | Some ln => Some ln
          | None =>
              find_row (λ l, String.eqb (a_interface_id l) (b_interface_id link) &&
                             String.eqb (b_interface_id l) (a_interface_id link)) (links s)
          end
        else None
    end in
  match by_ends with
  | Some ln => Some ln
  | None => match links s with [ln] => Some ln | _ => None end
  end.

Definition evaluate_link_status (s : DB) (link : Link) : Status :=
  match resolve_link s link with
  | None => UP
  | Some ln =>
      match link_override ln with
      | Some st => st
      | None =>
          match link_ends s ln with
          | None => link_status ln
          | Some (a_dev, b_dev) =>
              if is_forced DOWN (dev_override a_dev) || is_forced DOWN (dev_override b_dev)
              then DOWN else link_status ln
          end
      end
  end.

(** [is_link_passable].  The first block looks the row up again when
    the object at hand carries no override: a DOWN or UP override found there
    decides; any other falls through to the object's own fields. *)
Definition is_link_passable (s : DB) (link : Link) : bool :=
  let fresh :=
    match link_override link with
    | None => if nonempty (link_id link) then get_link s (link_id link) else None
    | Some _ => None
    end in
  match fresh ≫= link_override with
  | Some DOWN => false
  | Some UP => true
  | _ =>
      match link_override link with
      | Some st => bool_decide (st = UP)
      | None =>
          if negb (bool_decide (link_status link = UP)) then false
          else
            let ln := default link
              (if nonempty (link_id link) then get_link s (link_id link) else None) in
            match link_ends s ln with
            | None => false
            | Some (a_dev, b_dev) =>
                if is_forced DOWN (dev_override a_dev) then false
                else if is_forced DOWN (dev_override b_dev) then false
                else true
            end
      end
  end.

(** * Physical viability *)

(** [_is_optical_context]: the link touches an ONT. *)
Definition is_optical_context (s : DB) (link : Link) : bool :=
  match link_ends s link with
  | None => false
  | Some (a_dev, b_dev) =>
      mem (dev_type a_dev) [ONT; BUSINESS_ONT] || mem (dev_type b_dev) [ONT; BUSINESS_ONT]
  end.

(** ETHERNET_MAX_RANGE_KM_DEFAULT *)
Definition ETHERNET_MAX_RANGE_KM_DEFAULT : float := of_Z 10.

(** [_get_env_float]: [env] is the environment variable, already read as a float
    when it is set and parses. *)
Definition get_env_float (env : option float) (dflt : float) : float := default dflt env.

Definition is_link_physically_viable (env : option float) (s : DB) (link : Link) : bool :=
  match physical_medium_id link with
  | Some pid =>
      match get_medium s pid with
      | None => false
      | Some pm =>
          match link_ends s link with
          | None => false
          | Some (a_dev, b_dev) =>
              let cls := classify_link a_dev b_dev in
              if negb (mem (pm_code pm) (allowed_media_codes_for_class (res_link_class cls)))
              then false
              else
                match max_range_km pm with
                | Some range =>
                    if negb (String.eqb (pm_kind pm) "optical") then
                      match length_km link with
                      | None => true
                      | Some len => fleb len range
                      end
                    else true
                | None => true
                end
          end
      end
  | None =>
      if is_optical_context s link then true
      else
        let max_km := get_env_float env ETHERNET_MAX_RANGE_KM_DEFAULT in
        match length_km link with
        | None => true
        | Some len => fleb len max_km
        end
  end.

(** * What passability means for a row of the table *)

(** Both ends resolve to devices and neither is administratively forced down. *)
Definition ends_available (s : DB) (l : Link) : bool :=
  match link_ends s l with
  | Some (a, b) => negb (is_forced DOWN (dev_override a)) && negb (is_forced DOWN (dev_override b))
  | None => false
  end.

(** The condition on the link's own columns: an override decides alone. *)
Definition admin_passable (l : Link) : bool :=
  match link_override l with
  | Some st => bool_decide (st = UP)
  | None => bool_decide (link_status l = UP)
  end.

Lemma fresh_row s l : keys_ok s → l ∈ links s → nonempty (link_id l) = true →
  (if nonempty (link_id l) then get_link s (link_id l) else None) = Some l.
Proof. intros Hk Hl ->. auto with unoc. Qed.

(** For a stored link the re-read adds nothing: an override decides alone,
    otherwise the stored status and both end devices are consulted. *)
Lemma is_link_passable_row s l :
  keys_ok s → l ∈ links s → nonempty (link_id l) = true →
  is_link_passable s l =
    match link_override l with
    | Some st => bool_decide (st = UP)
    | None => bool_decide (link_status l = UP) && ends_available s l
    end.
Proof.
  intros Hk Hl Hn. unfold is_link_passable, ends_available.
  rewrite (fresh_row s l Hk Hl Hn). destruct (link_override l) eqn:Ho; simpl; [done|].
  rewrite Ho. destruct (bool_decide _); simpl; [|done].
  destruct (link_ends s l) as [[a b]|]; [|done].
  by destruct (is_forced DOWN (dev_override a)), (is_forced DOWN (dev_override b)).
Qed.

Lemma resolve_link_row s l :
  keys_ok s → l ∈ links s → nonempty (link_id l) = true → resolve_link s l = Some l.
Proof. intros Hk Hl Hn. unfold resolve_link. by rewrite (fresh_row s l Hk Hl Hn). Qed.

(** A passable link is up: for every stored link, if [is_link_passable]
    lets traffic through, then [evaluate_link_status] reports UP.  Conversely a
    link that reports UP is passable as soon as both its ends resolve to
    devices, and an override of the link beats the state of its ends. *)
Lemma passable_iff_up s l :
  keys_ok s → l ∈ links s → nonempty (link_id l) = true →
  (is_link_passable s l = true → evaluate_link_status s l = UP) ∧
  (is_Some (link_ends s l) → evaluate_link_status s l = UP → is_link_passable s l = true) ∧
  (∀ st, link_override l = Some st →
     evaluate_link_status s l = st ∧ is_link_passable s l = bool_decide (st = UP)).
Proof.
  intros Hk Hl Hn. rewrite (is_link_passable_row s l) by done.
  unfold evaluate_link_status, ends_available. rewrite (resolve_link_row s l) by done.
  destruct (link_override l) as [st|].
  { split; [by intros ?%bool_decide_eq_true|]. split; [intros _ ->; by apply bool_decide_eq_true|].
    naive_solver. }
  destruct (link_ends s l) as [[a b]|]; simpl.
  - destruct (is_forced DOWN (dev_override a)), (is_forced DOWN (dev_override b));
      destruct (link_status l); naive_solver.
  - split; [by rewrite andb_false_r|]. split; [by intros [? ?]|done].
Qed.

Lemma passable_iff_up_witness :
  is_link_passable demo (demo_link "l2") = true ∧ evaluate_link_status demo (demo_link "l2") = UP.
Proof.
  assert (is_link_passable demo (demo_link "l2") = true) as E by (vm_compute; reflexivity).
  destruct (passable_iff_up demo (demo_link "l2")) as (Hup & _); [apply demo_keys|demo_row|reflexivity|].
  split; [exact E|exact (Hup E)].
Defined.
