(* ===== verification/GraphIndexProofs.v ===== *)
(** Regions are connected components, and dirty sets cover their change. *)

From Stdlib Require Import Ascii.
From stdpp Require Import pretty.
From S2P Require Import Prelude PyFloat Models Worklist Adjacency Scenario GraphIndex.

(** * Region names *)

Fixpoint no_colon (s : string) : bool :=
  match s with
  | EmptyString => true
  | String c s' => negb (Ascii.eqb c ":"%char) && no_colon s'
  end.

Lemma no_colon_app s t : no_colon (String.append s (String ":"%char t)) = false.
Proof. induction s as [|c s IH]; simpl; [done|]. by rewrite IH, andb_false_r. Qed.

(** The text before the last colon is determined by the whole. *)
Lemma split_last_colon a b p q :
  String.append a (String ":"%char p) = String.append b (String ":"%char q) →
  no_colon p = true → no_colon q = true → a = b.
Proof.
  revert b. induction a as [|c a IH]; intros [|d b] E Hp Hq; simpl in E; [done| | |].
  - injection E as <- ->. by rewrite no_colon_app in Hp.
  - injection E as -> <-. by rewrite no_colon_app in Hq.
  - injection E as -> E. f_equal. eauto.
Qed.

Lemma no_colon_pretty_N_go x s : no_colon s = true → no_colon (pretty_N_go x s) = true.
Proof.
  revert s. induction (N.lt_wf_0 x) as [x _ IH]; intros s Hs.
  destruct (decide (0 < x)%N) as [Hx|Hx].
  - rewrite pretty_N_go_step by done. apply IH; [by apply N.div_lt|].
    simpl. rewrite Hs, andb_true_r.
    assert (x `mod` 10 < 10)%N as Hm by (by apply N.mod_lt).
    destruct (x `mod` 10)%N as [|y]; [done|].
    do 4 (destruct y as [y|y|]; try done; try lia).
  - assert (x = 0)%N as -> by lia. by rewrite pretty_N_go_0.
Qed.

Lemma no_colon_pretty_nat (n : nat) : no_colon (pretty n) = true.
Proof.
  change (pretty n) with (pretty (N.of_nat n)). unfold pretty, pretty_N.
  case_decide; [done|]. by apply no_colon_pretty_N_go.
Qed.

Lemma region_name_head c k : region_name c = region_name k → default "" (head c) = default "" (head k).
Proof.
  unfold region_name. cbn [String.append]. intros [= E].
  by eapply split_last_colon; [exact E|apply no_colon_pretty_nat..].
Qed.

(** * One component *)

(** A pass over the neighbours appends the new ones, each once. *)
Lemma visit_fifo ns (V : gset string) q V' q' :
  foldl (visit append_one (λ _, true)) (V, q) ns = (V', q') →
  ∃ new, q' = q ++ new ∧ NoDup new ∧ (∀ x, x ∈ new ↔ x ∈ ns ∧ x ∉ V) ∧
         (∀ x, x ∈ V' ↔ x ∈ V ∨ x ∈ ns).
Proof.
  revert V q. induction ns as [|n ns IH]; intros V q; cbn [foldl].
  { intros [= <- <-]. exists []. rewrite app_nil_r. split; [done|]. split; [constructor|]. set_solver. }
  unfold visit at 2. case_decide as Hn; intros (new & -> & Hnd & Hnew & HV)%IH.
  - exists new. split; [done|]. split; [done|]. split; intros x; [rewrite Hnew|rewrite HV]; set_solver.
  - exists (n :: new). unfold append_one. rewrite <-app_assoc. split; [done|]. split.
    + apply NoDup_cons. split; [|done]. rewrite Hnew. set_solver.
    + split; intros x; [rewrite elem_of_cons, Hnew|rewrite HV]; destruct (decide (x = n)); set_solver.
Qed.

Section component.
Context (nb : Adjacency) (V0 : gset string) (dev : string).

(** The state of the search started at [dev] with the devices of [V0] marked. *)
Record bfs_inv (V : gset string) (q comp : list string) : Prop := {
  bi_marks : ∀ x, x ∈ V ↔ x ∈ V0 ∨ x ∈ comp ++ q;
  bi_nodup : NoDup (comp ++ q);
  bi_fresh : ∀ x, x ∈ comp ++ q → x ∉ V0;
  bi_reach : ∀ x, x ∈ comp ++ q → rtc (λ u v, v ∈ adjacent nb u) dev x;
  bi_closed : ∀ x y, x ∈ comp → y ∈ adjacent nb x → y ∈ V;
  bi_head : head (comp ++ q) = Some dev
}.

Lemma bfs_init : dev ∉ V0 → bfs_inv ({[dev]} ∪ V0) [dev] [].
Proof.
  intros Hd. split; simpl.
  - set_solver.
  - apply NoDup_singleton.
  - set_solver.
  - intros x ->%list_elem_of_singleton. apply rtc_refl.
  - set_solver.
  - done.
Qed.

Lemma bfs_step V d rest comp V' q' :
  bfs_inv V (d :: rest) comp →
  foldl (visit append_one (λ _, true)) (V, rest) (sorted_adjacent nb d) = (V', q') →
  bfs_inv V' q' (comp ++ [d]).
Proof.
  intros Hi (new & -> & Hnd & Hnew & HV)%visit_fifo.
  assert (∀ x, x ∈ (comp ++ [d]) ++ rest ++ new ↔ x ∈ comp ++ d :: rest ∨ x ∈ new) as Hin by set_solver.
  assert ((comp ++ [d]) ++ rest ++ new = (comp ++ d :: rest) ++ new) as Heq
    by (by rewrite <-!app_assoc).
  split; rewrite ?Heq.
  - intros x. rewrite HV, elem_of_app, Hnew, (bi_marks _ _ _ Hi).
    destruct (decide (x ∈ V)) as [Hx|Hx]; [apply (bi_marks _ _ _ Hi) in Hx|rewrite (bi_marks _ _ _ Hi) in Hx]; tauto.
  - apply NoDup_app. split; [apply Hi|]. split; [|done]. intros x Hx [_ HxV]%Hnew.
    apply HxV, (bi_marks _ _ _ Hi). by right.
  - intros x [Hx|[_ HxV]%Hnew]%elem_of_app; [by apply (bi_fresh _ _ _ Hi)|].
    intros H0. apply HxV, (bi_marks _ _ _ Hi). by left.
  - intros x [Hx|[Hx _]%Hnew]%elem_of_app; [by apply (bi_reach _ _ _ Hi)|].
    apply elem_of_sorted_adjacent in Hx. eapply rtc_r; [|exact Hx]. apply (bi_reach _ _ _ Hi). set_solver.
  - intros x y [Hx| ->%list_elem_of_singleton]%elem_of_app Hy; apply HV.
    + left. by apply (bi_closed _ _ _ Hi x).
    + right. by apply elem_of_sorted_adjacent.
  - pose proof (bi_head _ _ _ Hi) as Hh. destruct comp; simpl in *; done.
Qed.

Context (nb_sym : symmetric nb).
Context (V0_closed : ∀ x y, x ∈ V0 → y ∈ adjacent nb x → y ∈ V0).

Lemma rtc_closed (X : list string) x y :
  (∀ u v, u ∈ X → v ∈ adjacent nb u → v ∈ X) → x ∈ X →
  rtc (λ u v, v ∈ adjacent nb u) x y → y ∈ X.
Proof. intros Hc Hx Hr. induction Hr; eauto. Qed.

(** The component found is everything connected to [dev]. *)
Lemma region_bfs_spec fuel V q comp comp' V' :
  bfs_inv V q comp → region_bfs fuel nb V q comp = Some (comp', V') →
  head comp' = Some dev ∧ NoDup comp' ∧
  (∀ x, x ∈ comp' ↔ rtc (λ u v, v ∈ adjacent nb u) dev x) ∧
  (∀ x, x ∈ comp' → x ∉ V0) ∧ (∀ x, x ∈ V' ↔ x ∈ V0 ∨ x ∈ comp').
Proof.
  revert V q comp. induction fuel as [|fuel IH]; intros V [|d rest] comp Hi; simpl; try done.
  3:{ destruct (foldl _ _ _) as [V1 q1] eqn:E. apply IH. by eapply bfs_step. }
  all: intros [= <- <-]; destruct Hi as [H1 H2 H3 H4 H5 H6]; rewrite !app_nil_r in *.
  all: split; [done|]; split; [done|]; split; [|by split].
  all: intros x; split; [apply H4|]; intros Hr.
  all: assert (dev ∈ comp) as Hd by (by apply head_Some_elem_of).
  all: apply (rtc_closed comp) with (x := dev); [|done|done].
  all: intros u v Hu Huv; destruct (proj1 (H1 v) (H5 u v Hu Huv)) as [Hv|Hv]; [|done].
  all: exfalso; apply (H3 u Hu); eapply V0_closed; [exact Hv|by apply nb_sym].
Qed.
End component.


Lemma region_bfs_total nb fuel V q comp :
  symmetric nb → length q + size (dom nb ∖ V) ≤ fuel → is_Some (region_bfs fuel nb V q comp).
Proof.
  intros nb_sym. revert V q comp. induction fuel as [|fuel IH]; intros V [|d rest] comp; simpl; try done; try lia.
  intros Hf. destruct (foldl _ _ _) as [V1 q1] eqn:E. apply IH.
  pose proof (visit_measure append_one (λ _, true) append_one_perm (dom nb) (sorted_adjacent nb d) V rest V1 q1) as Hm.
  rewrite Hm; [lia| |exact E]. intros y Hy _. apply elem_of_sorted_adjacent, nb_sym in Hy.
  apply elem_of_dom. unfold adjacent in Hy. destruct (nb !! y); [done|]. set_solver.
Qed.

(** * All regions *)

Definition connected_in (nb : Adjacency) : relation string := rtc (λ u v, v ∈ adjacent nb u).

Section regions.
Context (nb : Adjacency) (nb_sym : symmetric nb).

Lemma connected_sym x y : connected_in nb x y → connected_in nb y x.
Proof. intros Hr. induction Hr; [apply rtc_refl|]. eapply rtc_r; [done|by apply nb_sym]. Qed.

(** What the marks and the dictionary say after some components are done. *)
Record regions_inv (comps : list (list string)) (V : gset string) (reg : gmap string string) : Prop := {
  ri_marks : ∀ x, x ∈ V ↔ ∃ c, c ∈ comps ∧ x ∈ c;
  ri_comp : ∀ c, c ∈ comps → ∃ h, head c = Some h ∧ NoDup c ∧ ∀ x, x ∈ c ↔ connected_in nb h x;
  ri_disj : ∀ c k x, c ∈ comps → k ∈ comps → x ∈ c → x ∈ k → c = k;
  ri_reg : ∀ x r, reg !! x = Some r ↔ ∃ c, c ∈ comps ∧ x ∈ c ∧ r = region_name c
}.

Lemma assign_region (c : list string) (reg : gmap string string) x :
  foldl (λ m d, <[d := region_name c]> m) reg c !! x =
    if bool_decide (x ∈ c) then Some (region_name c) else reg !! x.
Proof.
  generalize (region_name c). intros r. revert reg. induction c as [|d c IH]; intros reg; cbn [foldl].
  { by rewrite bool_decide_false by set_solver. }
  rewrite IH. destruct (decide (x = d)) as [->|Hne].
  - rewrite (bool_decide_true (d ∈ d :: c)) by set_solver.
    case_bool_decide; [done|apply lookup_insert_eq].
  - rewrite lookup_insert_ne by done. apply bool_decide_ext_if. set_solver.
Qed.

Lemma marks_closed comps V reg x y :
  regions_inv comps V reg → x ∈ V → y ∈ adjacent nb x → y ∈ V.
Proof.
  intros Hi (c & Hc & Hx)%(ri_marks _ _ _ Hi) Hy. apply (ri_marks _ _ _ Hi). exists c. split; [done|].
  destruct (ri_comp _ _ _ Hi c Hc) as (h & _ & _ & Hh). apply Hh. eapply rtc_r; [by apply Hh|done].
Qed.

Lemma add_component comps V reg dev comp V' :
  regions_inv comps V reg → dev ∉ V →
  region_bfs (S (size (dom nb))) nb ({[dev]} ∪ V) [dev] [] = Some (comp, V') →
  regions_inv (comp :: comps) V' (foldl (λ m d, <[d := region_name comp]> m) reg comp).
Proof.
  intros Hi Hd E. eapply (region_bfs_spec nb V dev nb_sym) in E as (Hh & Hnd & Hc & Hfresh & HV').
  2:{ intros x y. by apply (marks_closed _ _ _ _ _ Hi). }
  2:{ by apply bfs_init. }
  assert (∀ c x, c ∈ comps → x ∈ c → x ∉ comp) as Hdisj.
  { intros c x Hcs Hx Hxc. apply (Hfresh x Hxc), (ri_marks _ _ _ Hi). eauto. }
  split.
  - intros x. rewrite HV', (ri_marks _ _ _ Hi). setoid_rewrite elem_of_cons. naive_solver.
  - intros c [->|Hcs]%elem_of_cons; [eauto|by apply (ri_comp _ _ _ Hi)].
  - intros c k x [->|Hcs]%elem_of_cons [->|Hks]%elem_of_cons Hx Hxk; [done|..].
    + by destruct (Hdisj k x Hks Hxk).
    + by destruct (Hdisj c x Hcs Hx).
    + by eapply (ri_disj _ _ _ Hi).
  - intros x r. rewrite assign_region. setoid_rewrite elem_of_cons. case_bool_decide as Hx.
    + split; [intros [= <-]; eauto|]. intros (c & [->|Hcs] & Hxc & ->); [done|].
      by destruct (Hdisj c x Hcs Hxc).
    + rewrite (ri_reg _ _ _ Hi). naive_solver.
Qed.

Lemma compute_regions_ok devs comps V reg :
  regions_inv comps V reg →
  ∃ comps' V' reg', compute_regions_from nb devs V reg = Some reg' ∧ regions_inv comps' V' reg' ∧
    ∀ d, d ∈ devs ∨ d ∈ V → d ∈ V'.
Proof.
  revert comps V reg. induction devs as [|d devs IH]; intros comps V reg Hi; cbn [compute_regions_from].
  { exists comps, V, reg. split; [done|]. split; [done|]. set_solver. }
  case_decide as Hd.
  { destruct (IH _ _ _ Hi) as (cs & V' & reg' & E & Hi' & Hin). exists cs, V', reg'.
    split; [done|]. split; [done|]. set_solver. }
  destruct (region_bfs_total nb (S (size (dom nb))) ({[d]} ∪ V) [d] [] nb_sym) as [[comp V1] E].
  { simpl. apply le_n_S, subseteq_size. set_solver. }
  rewrite E. pose proof (add_component _ _ _ _ _ _ Hi Hd E) as Hi1.
  destruct (IH _ _ _ Hi1) as (cs & V' & reg' & E' & Hi' & Hin). exists cs, V', reg'.
  split; [done|]. split; [done|]. intros x Hx. apply Hin.
  destruct (region_bfs_spec nb V d nb_sym ltac:(intros x' y; by apply (marks_closed _ _ _ _ _ Hi))
    _ _ _ _ _ _ (bfs_init nb V d Hd) E)
    as (_ & _ & Hc & _ & HV1).
  destruct (decide (x = d)) as [->|Hne]; [right; apply HV1; right; apply Hc, rtc_refl|].
  destruct Hx as [[?|?]%elem_of_cons|Hx]; [done|by left|right]. apply HV1. by left.
Qed.
End regions.

(** * The index *)

Lemma index_neighbors_spec s x y :
  y ∈ adjacent (index_neighbors s) x ↔
  ∃ l a b, l ∈ links s ∧ index_ends s l = Some (a, b) ∧ ((x = a ∧ y = b) ∨ (x = b ∧ y = a)).
Proof.
  unfold index_neighbors.
  assert (∀ (ds : list Device) m, adjacent (foldl (λ m d, touch (dev_id d) m) m ds) x = adjacent m x) as Ht.
  { intros ds. induction ds as [|d ds IH]; intros m; simpl; [done|]. by rewrite IH, adjacent_touch. }
  rewrite Ht.
  assert (∀ (ls : list Link) m, y ∈ adjacent (foldl (λ m l, match index_ends s l with Some (a, b) => add_both a b m | None => m end) m ls) x ↔
    y ∈ adjacent m x ∨ ∃ l a b, l ∈ ls ∧ index_ends s l = Some (a, b) ∧ ((x = a ∧ y = b) ∨ (x = b ∧ y = a))) as Hl.
  { intros ls. induction ls as [|l ls IH]; intros m; simpl; [set_solver|]. rewrite IH. setoid_rewrite elem_of_cons.
    destruct (index_ends s l) as [[a b]|] eqn:E; [rewrite elem_of_add_both|]; naive_solver. }
  rewrite Hl. unfold adjacent. rewrite lookup_empty. simpl. set_solver.
Qed.

Lemma index_neighbors_sym s : symmetric (index_neighbors s).
Proof. intros x y. rewrite !index_neighbors_spec. naive_solver. Qed.

Lemma dom_touch_all (ds : list Device) m k :
  k ∈ dom (foldl (λ m d, touch (dev_id d) m) m ds) ↔ k ∈ dom m ∨ k ∈ dev_id <$> ds.
Proof.
  revert m. induction ds as [|d ds IH]; intros m; simpl; [set_solver|]. rewrite IH. unfold touch.
  rewrite dom_insert. set_solver.
Qed.

Lemma adjacent_dom m x y : y ∈ adjacent m x → x ∈ dom m.
Proof. unfold adjacent. intros Hy. apply elem_of_dom. destruct (m !! x); [done|]. set_solver. Qed.

Lemma build_regions s :
  ∃ ix comps V, build s = Some ix ∧ device_neighbors ix = index_neighbors s ∧
    regions_inv (index_neighbors s) comps V (region_of_device ix) ∧
    ∀ d, d ∈ dom (index_neighbors s) → d ∈ V.
Proof.
  unfold build, compute_regions.
  destruct (compute_regions_ok (index_neighbors s) (index_neighbors_sym s)
    (sorted_strs (elements (dom (index_neighbors s)))) [] ∅ ∅) as (cs & V & reg & -> & Hi & Hin).
  { split; try set_solver. }
  eexists _, cs, V. split; [done|]. split; [done|]. split; [done|]. intros d Hd. apply Hin. left.
  unfold sorted_strs. by rewrite elem_of_sort_by, elem_of_elements.
Qed.


(** * Dirty sets *)

Lemma elem_of_set_fold_union (f : string → gset string) (X b : gset string) x :
  x ∈ set_fold (λ d acc, f d ∪ acc) b X ↔ x ∈ b ∨ ∃ d, d ∈ X ∧ x ∈ f d.
Proof.
  apply (set_fold_ind_L (λ r X, x ∈ r ↔ x ∈ b ∨ ∃ d, d ∈ X ∧ x ∈ f d)); [set_solver|].
  intros y Y r Hy Hr. rewrite elem_of_union, Hr. set_solver.
Qed.

(** The devices a change touches: changed ones, and the ends of changed links. *)
Definition touched (ix : GraphIndex) (c : Change) (d : string) : Prop :=
  d ∈ devices_added c ∪ devices_updated c ∪ devices_moved c ∨
  (d ∈ overrides_changed c ∧ d ∈ dom (device_neighbors ix)) ∨
  ∃ l, l ∈ links_added c ∪ links_updated c ∪ links_deleted c ∧ d ∈ neighbors_link ix l.

(** The dirty set of a change holds exactly the devices the change touches
    and their neighbours, and exactly the changed links. *)
Lemma dirty_set_exact ix c k :
  (k ∈ ds_devices (dirty_set_for_change ix c) ↔
     ∃ d, touched ix c d ∧ (k = d ∨ k ∈ neighbors_device ix d)) ∧
  ds_links (dirty_set_for_change ix c) = links_added c ∪ links_updated c ∪ links_deleted c.
Proof.
  split; [|done]. unfold dirty_set_for_change, touched. cbn [ds_devices].
  set (L := links_added c ∪ links_updated c ∪ links_deleted c).
  assert (∀ d, d ∈ set_fold (λ l acc, neighbors_link ix l ∪ acc) ∅ L ↔
               ∃ l, l ∈ L ∧ d ∈ neighbors_link ix l) as Hends.
  { intros d. rewrite elem_of_set_fold_union. set_solver. }
  set (D := devices_added c ∪ devices_updated c ∪ devices_moved c ∪ _).
  assert (∀ d, d ∈ D ↔ d ∈ devices_added c ∪ devices_updated c ∪ devices_moved c ∨
    (d ∈ overrides_changed c ∧ d ∈ dom (device_neighbors ix))) as HD.
  { intros d. unfold D. rewrite (elem_of_union _ (filter _ _)), elem_of_filter. tauto. }
  rewrite !(elem_of_set_fold_union (λ d, {[d]} ∪ neighbors_device ix d)).
  setoid_rewrite HD. setoid_rewrite Hends.
  setoid_rewrite (elem_of_union {[_]}). setoid_rewrite elem_of_singleton.
  pose proof (not_elem_of_empty (C := gset string) k). clearbody L D. naive_solver.
Qed.

(** An indexed id belongs to a device row or to the device column of an interface. *)
Lemma dom_index_neighbors s k :
  k ∈ dom (index_neighbors s) → k ∈ (dev_id <$> devices s) ++ (if_device_id <$> interfaces s).
Proof.
  unfold index_neighbors. rewrite dom_touch_all, elem_of_app. intros [Hk|Hk]; [right|by left].
  revert k Hk. assert (∀ l a b, index_ends s l = Some (a, b) →
    a ∈ if_device_id <$> interfaces s ∧ b ∈ if_device_id <$> interfaces s) as He.
  { intros l a b. unfold index_ends.
    destruct (truthy (if_to_dev s (a_interface_id l))) as [a'|] eqn:Ea; [|done].
    destruct (truthy (if_to_dev s (b_interface_id l))) as [b'|] eqn:Eb; [|done]. intros [= <- <-].
    apply truthy_Some in Ea as [Ea _], Eb as [Eb _]. by split; eapply if_to_dev_elem. }
  enough (∀ (ls : list Link) m k, k ∈ dom (foldl (λ m l, match index_ends s l with
    Some (a, b) => add_both a b m | None => m end) m ls) → k ∈ dom m ∨ k ∈ if_device_id <$> interfaces s) as Hl.
  { intros k [Hk|Hk]%Hl; [set_solver|done]. }
  intros ls. induction ls as [|l ls IH]; intros m k; simpl; [by left|]. intros [Hk|Hk]%IH; [|by right].
  destruct (index_ends s l) as [[a b]|] eqn:E; [|by left]. apply He in E as [Ha Hb].
  unfold add_both, add_arc in Hk. rewrite !dom_insert in Hk. set_solver.
Qed.

(** The ids name no device. *)
Definition names_no_device (s : DB) (ids : gset string) : Prop :=
  ∀ k, k ∈ ids → k ∉ (dev_id <$> devices s) ++ (if_device_id <$> interfaces s).

(** A change of a link's override leaves nothing dirty.  The field
    [overrides_changed] is declared for device and link ids, but ids that are
    not devices are filtered out, so on the index of any database a change that
    only overrides links yields empty device and link sets. *)
Lemma link_override_not_dirty s ix ids :
  build s = Some ix → names_no_device s ids →
  dirty_set_for_change ix (mkChange ∅ ∅ ∅ ∅ ∅ ∅ ids) = mkDirtySet ∅ ∅ "r:unknown:0".
Proof.
  intros E Hids. destruct (build_regions s) as (ix' & _ & _ & E' & En & _).
  assert (ix' = ix) as -> by congruence. unfold dirty_set_for_change. simpl. rewrite En.
  assert (∅ ∪ ∅ ∪ ∅ ∪ filter (λ i, i ∈ dom (index_neighbors s)) ids = (∅ : gset string)) as ->.
  { apply set_eq. intros x. rewrite !elem_of_union, elem_of_filter.
    pose proof (dom_index_neighbors s x). specialize (Hids x). set_solver. }
  assert (∅ ∪ ∅ ∪ ∅ = (∅ : gset string)) as -> by (apply set_eq; set_solver).
  rewrite !set_fold_empty. reflexivity.
Qed.

Lemma link_override_not_dirty_witness :
  ∃ ix, build demo = Some ix ∧
    dirty_set_for_change ix (mkChange ∅ ∅ ∅ ∅ ∅ ∅ {["l2"]}) = mkDirtySet ∅ ∅ "r:unknown:0".
Proof.
  destruct (build_regions demo) as (ix & _ & _ & E & _). exists ix. split; [exact E|].
  apply (link_override_not_dirty demo ix {["l2"]} E).
  intros k ->%elem_of_singleton. apply (bool_decide_unpack _). vm_compute. exact I.
Defined.
