(* ===== verification/EventStore.v ===== *)
(** The append-only event store: [services/event_store.py].

    Every guarded mutation appends a domain event inside its own transaction;
    the runtime event bus appends best-effort copies.  The table is the list of
    its rows in insertion order.  The wall clock is an argument of the
    operations that read it. *)

From S2P Require Import Prelude PyFloat.

(** The JSON values that occur in payloads. *)
Inductive Json := JNull | JBool (b : bool) | JInt (n : Z) | JFloat (x : float) | JStr (t : string) | JList (ts : list string).

Abbreviation Payload := (list (string * Json)).

Definition opt_json {A} (f : A → Json) (o : option A) : Json := match o with Some x => f x | None => JNull end.

Record EventStoreRecord := mkEvent {
  sequence : Z;
  event_type : string;
  payload : Payload;
  source : string;
  created_at : string;
  correlation_id : option string
}.

Definition DOMAIN_EVENT_TYPES : list string := [
  "DEVICE_CREATED"; "DEVICE_CONNECTED"; "DEVICE_DELETED"; "DEVICE_LINKED"; "DEVICE_UPDATED";
  "PORT_CONNECTED"; "CPE_PROVISIONED"; "ONT_ASSIGNED"; "SERVICE_BOUND"; "DEVICE_PROVISIONED";
  "LINK_CREATED"; "LINK_DELETED"; "LINK_UPDATED"; "PROVISIONING_UPDATED"; "RUNTIME_EVENT"].

(** [ORDER BY sequence DESC LIMIT 1] *)
Fixpoint highest_sequence (rows : list EventStoreRecord) : option Z :=
  match rows with
  | [] => None
  | r :: rows' => Some (match highest_sequence rows' with Some m => Z.max (sequence r) m | None => sequence r end)
  end.

Definition next_sequence (rows : list EventStoreRecord) : Z :=
  (match highest_sequence rows with None => -1 | Some current => current end + 1)%Z.

Definition append_event (now event_type : string) (data : Payload) (source : string)
    (correlation : option string) (rows : list EventStoreRecord) : list EventStoreRecord :=
  let event_type := if mem event_type DOMAIN_EVENT_TYPES then event_type else "RUNTIME_EVENT" in
  rows ++ [mkEvent (next_sequence rows) event_type data source now correlation].

(** [str.upper] and [replace(".", "_")] on ASCII names. *)
Definition upper_char (c : Ascii.ascii) : Ascii.ascii :=
  let n := Ascii.nat_of_ascii c in
  if ((97 <=? n) && (n <=? 122))%nat then Ascii.ascii_of_nat (n - 32)
  else if (n =? 46)%nat then Ascii.ascii_of_nat 95 else c.

Fixpoint bus_type (t : string) : string :=
  match t with EmptyString => EmptyString | String c t' => String (upper_char c) (bus_type t') end.

(** An event of the bus; [db_ok] is false when the database raises, which is swallowed. *)
Definition append_runtime_event (db_ok : bool) (now type : string) (data : Payload)
    (correlation : option string) (rows : list EventStoreRecord) : list EventStoreRecord :=
  if db_ok then append_event now (bus_type type) data "RUNTIME_EVENT_BUS" correlation rows else rows.

(** ** The event bus: [backend/events.py] *)

Record Event := mkBusEvent { bus_event_type : string; bus_payload : Payload; bus_topo_version : option Z }.

Definition NON_PERSISTED_RUNTIME_EVENT_TYPES : list string := [
  "deviceMetricsUpdated"; "linkMetricsUpdated"; "device.congestion.detected"; "device.congestion.cleared";
  "link.congestion.detected"; "link.congestion.cleared"; "segment.congestion.detected"; "segment.congestion.cleared"].

(** [publish]: record in the history, and keep a copy in the store unless the
    type is one of the high-rate ones.  Broadcasting has no effect here. *)
Definition publish (db_ok : bool) (now : string) (ev : Event)
    (st : list Event * list EventStoreRecord) : list Event * list EventStoreRecord :=
  (st.1 ++ [ev],
   if mem (bus_event_type ev) NON_PERSISTED_RUNTIME_EVENT_TYPES then st.2
   else append_runtime_event db_ok now (bus_event_type ev) (bus_payload ev) None st.2).

(** [dict.setdefault] *)
Definition setdefault (k : string) (v : Json) (data : Payload) : Payload :=
  match dict_get data k with Some _ => data | None => dict_set k v data end.

(** [None]: EventStoreAppendError. *)
Definition append_domain_event (now event_type entity_id : string) (data : Payload)
    (correlation : option string) (rows : list EventStoreRecord) : option (list EventStoreRecord) :=
  if negb (mem event_type DOMAIN_EVENT_TYPES) then None
  else
    let data := setdefault "timestamp" (JStr now) (setdefault "entity_id" (JStr entity_id) data) in
    Some (rows ++ [mkEvent (next_sequence rows) event_type data "WRITE_PATH" now correlation]).

Record Snapshot := mkSnapshot {
  total_events : nat; last_event_timestamp : option string; last_sequence : option Z;
  snapshot_events : list EventStoreRecord
}.

Definition sequence_leb (r q : EventStoreRecord) : bool := (sequence r <=? sequence q)%Z.

Definition event_store_snapshot (rows : list EventStoreRecord) : Snapshot :=
  let rows := sort_by sequence_leb rows in
  mkSnapshot (length rows) (created_at <$> last rows) (sequence <$> last rows) rows.

(** * The log is gapless *)

(** The rows of a store that only ever grew by appends. *)
Record gapless (rows : list EventStoreRecord) : Prop := {
  gl_sequence : ∀ i r, rows !! i = Some r → sequence r = Z.of_nat i;
  gl_type : ∀ r, r ∈ rows → event_type r ∈ DOMAIN_EVENT_TYPES
}.

Lemma gapless_nil : gapless [].
Proof. split; [done|]. set_solver. Qed.

Lemma highest_sequence_snoc rows r :
  highest_sequence (rows ++ [r]) =
  Some (match highest_sequence rows with Some m => Z.max m (sequence r) | None => sequence r end).
Proof.
  induction rows as [|q rows IH]; simpl; [done|]. rewrite IH.
  destruct (highest_sequence rows); f_equal; lia.
Qed.

Lemma gapless_highest rows :
  gapless rows → highest_sequence rows = match rows with [] => None | _ => Some (Z.of_nat (length rows) - 1)%Z end.
Proof.
  intros Hg. pose proof (gl_sequence rows Hg) as Hs. clear Hg.
  induction rows as [|r rows IH] using rev_ind; [done|].
  rewrite highest_sequence_snoc, IH.
  2:{ intros i q Hi. apply Hs. by apply lookup_app_l_Some. }
  assert (sequence r = Z.of_nat (length rows)) as ->
    by (apply Hs; rewrite lookup_app_r, Nat.sub_diag by lia; done).
  destruct rows as [|q rows]; [done|]. rewrite length_app. simpl. f_equal. lia.
Qed.

Lemma gapless_next rows : gapless rows → next_sequence rows = Z.of_nat (length rows).
Proof.
  intros Hg. unfold next_sequence. rewrite (gapless_highest rows Hg). destruct rows; simpl; lia.
Qed.

Lemma gapless_snoc rows t data src now cor :
  gapless rows → t ∈ DOMAIN_EVENT_TYPES →
  gapless (rows ++ [mkEvent (next_sequence rows) t data src now cor]).
Proof.
  intros Hg Ht. split.
  - intros i r Hi. apply lookup_app_Some in Hi as [Hi|[Hle Hi]]; [by apply (gl_sequence _ Hg)|].
    apply list_lookup_singleton_Some in Hi as [Hi <-]. simpl. rewrite gapless_next by done. lia.
  - intros r [Hr|Hr]%elem_of_app; [by apply (gl_type _ Hg)|]. by apply list_elem_of_singleton in Hr as ->.
Qed.

Lemma append_event_gapless now t data src cor rows :
  gapless rows → gapless (append_event now t data src cor rows).
Proof.
  intros Hg. apply gapless_snoc; [done|]. destruct (mem t DOMAIN_EVENT_TYPES) eqn:E; [by apply mem_true|].
  apply mem_true. reflexivity.
Qed.

Lemma append_domain_event_Some now t k data cor rows rows' :
  append_domain_event now t k data cor rows = Some rows' →
  t ∈ DOMAIN_EVENT_TYPES ∧ ∃ data', rows' = rows ++ [mkEvent (next_sequence rows) t data' "WRITE_PATH" now cor].
Proof.
  unfold append_domain_event. destruct (mem t DOMAIN_EVENT_TYPES) eqn:E; [|done]. intros [= <-].
  split; [by apply mem_true|]. by eexists.
Qed.

Lemma append_domain_gapless now t k data cor rows rows' :
  append_domain_event now t k data cor rows = Some rows' → gapless rows → gapless rows'.
Proof. intros (Ht & data' & ->)%append_domain_event_Some Hg. by apply gapless_snoc. Qed.

#[export] Hint Resolve gapless_nil gapless_snoc append_event_gapless append_domain_gapless : unoc.

Lemma publish_gapless ok now ev st : gapless st.2 → gapless (publish ok now ev st).2.
Proof.
  intros Hg. unfold publish, append_runtime_event. simpl. repeat case_match; auto with unoc.
Qed.

(** Sorting a list that is sorted changes nothing. *)
Lemma insert_by_head {A} (le : A → A → bool) x (l : list A) :
  (∀ y, y ∈ l → le x y = true) → insert_by le x l = x :: l.
Proof. destruct l as [|y l]; simpl; [done|]. intros H. by rewrite (H y) by set_solver. Qed.

Lemma gapless_sorted rows : gapless rows → sort_by sequence_leb rows = rows.
Proof.
  intros Hg. enough (∀ k, (∀ i r, rows !! i = Some r → sequence r = Z.of_nat (k + i)) →
    sort_by sequence_leb rows = rows) as He by (apply (He 0), Hg).
  clear Hg. induction rows as [|r rows IH]; intros k Hs; [done|].
  change (insert_by sequence_leb r (sort_by sequence_leb rows) = r :: rows).
  rewrite (IH (S k)); [|intros i q Hi; specialize (Hs (S i) q Hi); lia].
  apply insert_by_head. intros q [i Hi]%list_elem_of_lookup. unfold sequence_leb. apply Z.leb_le.
  rewrite (Hs 0 r eq_refl), (Hs (S i) q Hi). lia.
Qed.

(** The operations that write the store. *)
Inductive StoreOp :=
  | OpAppend (now type : string) (data : Payload) (src : string) (cor : option string)
  | OpRuntime (db_ok : bool) (now type : string) (data : Payload) (cor : option string)
  | OpDomain (now type entity : string) (data : Payload) (cor : option string).

(** A failed domain append raises and leaves the table as it was. *)
Definition store_op (rows : list EventStoreRecord) (o : StoreOp) : list EventStoreRecord :=
  match o with
  | OpAppend now t data src cor => append_event now t data src cor rows
  | OpRuntime ok now t data cor => append_runtime_event ok now t data cor rows
  | OpDomain now t k data cor => default rows (append_domain_event now t k data cor rows)
  end.

Lemma store_op_gapless rows o : gapless rows → gapless (store_op rows o).
Proof.
  intros Hg. destruct o as [now t data src cor|ok now t data cor|now t k data cor]; simpl.
  - auto with unoc.
  - unfold append_runtime_event. destruct ok; auto with unoc.
  - destruct (append_domain_event now t k data cor rows) eqn:E; simpl; eauto with unoc.
Qed.

(** The event log is append-only and gapless.  After any sequence of
    appends of any kind, successful or not, the sequence numbers are 0, 1, 2, ...
    in the order of insertion, every type is one of the declared ones, the old
    rows are still there in front, and the snapshot reports the last row with
    [last_sequence = total_events - 1]. *)
Lemma event_log_gapless ops ops' :
  let rows := foldl store_op [] ops in
  let rows' := foldl store_op rows ops' in
  rows `prefix_of` rows' ∧
  (∀ i r, rows' !! i = Some r → sequence r = Z.of_nat i ∧ event_type r ∈ DOMAIN_EVENT_TYPES) ∧
  snapshot_events (event_store_snapshot rows') = rows' ∧
  last_sequence (event_store_snapshot rows') =
    match rows' with [] => None | _ => Some (Z.of_nat (total_events (event_store_snapshot rows')) - 1)%Z end.
Proof.
  intros rows rows'.
  assert (∀ ops rows, gapless rows → gapless (foldl store_op rows ops) ∧ rows `prefix_of` foldl store_op rows ops) as Hrun.
  { clear. intros ops. induction ops as [|o ops IH]; intros rows Hg; simpl; [by split|].
    destruct (IH _ (store_op_gapless rows o Hg)) as [Hg' Hp]. split; [done|]. etrans; [|exact Hp].
    destruct o as [now t data src cor|ok now t data cor|now t k data cor]; simpl.
    - by eexists.
    - destruct ok; simpl; [by eexists|reflexivity].
    - unfold append_domain_event. case_match; [reflexivity|by eexists]. }
  destruct (Hrun ops [] gapless_nil) as [Hg _]. destruct (Hrun ops' rows Hg) as [Hg' Hp]. fold rows' in Hg', Hp.
  split; [done|]. split.
  { intros i r Hi. split; [by apply (gl_sequence _ Hg')|]. apply (gl_type _ Hg'). by eapply list_elem_of_lookup_2. }
  unfold event_store_snapshot. cbn [snapshot_events last_sequence total_events]. rewrite gapless_sorted by done.
  split; [done|]. destruct rows' as [|r rest] eqn:E; [done|]. rewrite <-E in *.
  assert (length rows' ≠ 0) as Hne by (by rewrite E). rewrite last_lookup.
  destruct (rows' !! pred (length rows')) as [q|] eqn:Eq; [|apply lookup_ge_None in Eq; lia].
  simpl. rewrite (gl_sequence _ Hg' _ _ Eq). f_equal. lia.
Qed.
