(* ===== verification/Errors.v ===== *)
(** HTTP errors: [backend/errors.py], and the outcome of a handler that may raise. *)

From S2P Require Import Prelude.

Inductive ErrorCode :=
  | INVALID_PROVISION_PATH | ALREADY_PROVISIONED | POOL_EXHAUSTED | DUPLICATE_MGMT_INTERFACE
  | INVALID_LINK_TYPE | POP_LINK_DISALLOWED | CONTAINER_REQUIRED
  | LINK_INVALID_PAIRING | LINK_INVALID_UPSTREAM | LINK_MULTIPLE_UPSTREAMS.

Definition ErrorCode_value (c : ErrorCode) : string :=
  match c with
  | INVALID_PROVISION_PATH => "INVALID_PROVISION_PATH" | ALREADY_PROVISIONED => "ALREADY_PROVISIONED"
  | POOL_EXHAUSTED => "POOL_EXHAUSTED" | DUPLICATE_MGMT_INTERFACE => "DUPLICATE_MGMT_INTERFACE"
  | INVALID_LINK_TYPE => "INVALID_LINK_TYPE" | POP_LINK_DISALLOWED => "POP_LINK_DISALLOWED"
  | CONTAINER_REQUIRED => "CONTAINER_REQUIRED" | LINK_INVALID_PAIRING => "LINK_INVALID_PAIRING"
  | LINK_INVALID_UPSTREAM => "LINK_INVALID_UPSTREAM" | LINK_MULTIPLE_UPSTREAMS => "LINK_MULTIPLE_UPSTREAMS"
  end.

(** _DEFAULT_STATUS *)
Definition default_status (c : ErrorCode) : Z :=
  match c with
  | ALREADY_PROVISIONED | POOL_EXHAUSTED => 409
  | CONTAINER_REQUIRED => 422
  | _ => 400
  end.

(** [HTTPException(status_code, detail)]; a violated table constraint surfaces
    at the next flush, as 409 or 500 depending on where that flush is. *)
Inductive HttpError :=
  | HttpException (status_code : Z) (detail : string)
  | ConstraintViolation.

Definition raise_error (c : ErrorCode) (suffix : string) : HttpError :=
  HttpException (default_status c) (String.append (ErrorCode_value c) (String.append " " suffix)).

(** * Outcomes *)

(** A handler returns, raises, or (in the model only) runs out of fuel. *)
Inductive Outcome (A : Type) :=
  | Ret (a : A)
  | Raise (e : HttpError)
  | Diverge.
Arguments Ret {A} a.
Arguments Raise {A} e.
Arguments Diverge {A}.

#[export] Instance Outcome_ret : MRet Outcome := λ A a, Ret a.
#[export] Instance Outcome_bind : MBind Outcome := λ A B f m,
  match m with Ret a => f a | Raise e => Raise e | Diverge => Diverge end.

Definition raise_if (b : bool) (e : HttpError) : Outcome unit := if b then Raise e else Ret tt.

Definition of_fuel {A} (m : option A) : Outcome A := match m with Some a => Ret a | None => Diverge end.

(** [Optional] lookups whose absence raises. *)
Definition or_raise {A} (m : option A) (e : HttpError) : Outcome A :=
  match m with Some a => Ret a | None => Raise e end.

Lemma bind_Ret {A B} (m : Outcome A) (f : A → Outcome B) b :
  m ≫= f = Ret b ↔ ∃ a, m = Ret a ∧ f a = Ret b.
Proof. destruct m; simpl; naive_solver. Qed.

Lemma raise_if_Ret b e u : raise_if b e = Ret u ↔ b = false.
Proof. destruct b, u; simpl; naive_solver. Qed.

Lemma or_raise_Ret {A} (m : option A) e a : or_raise m e = Ret a ↔ m = Some a.
Proof. destruct m; simpl; naive_solver. Qed.

Lemma of_fuel_Ret {A} (m : option A) a : of_fuel m = Ret a ↔ m = Some a.
Proof. destruct m; simpl; naive_solver. Qed.

Lemma bind_Diverge {A B} (m : Outcome A) (f : A → Outcome B) :
  m ≫= f = Diverge ↔ m = Diverge ∨ ∃ a, m = Ret a ∧ f a = Diverge.
Proof. destruct m; simpl; naive_solver. Qed.

Lemma raise_if_total b e : raise_if b e ≠ Diverge.
Proof. by destruct b. Qed.

Lemma or_raise_total {A} (m : option A) e : or_raise m e ≠ Diverge.
Proof. by destruct m. Qed.

(** Finds the steps of a run that may run out of fuel. *)
Ltac diverge H :=
  repeat (apply bind_Diverge in H;
    let a := fresh "r" in let Hm := fresh "Hm" in destruct H as [H|(a & Hm & H)];
    [first [by destruct (raise_if_total _ _ H) | by destruct (or_raise_total _ _ H) | idtac]|]).

(** Splits a successful run into the successes of its steps. *)
Ltac outcome H :=
  repeat (apply bind_Ret in H;
    let a := fresh "r" in let Hm := fresh "Hm" in destruct H as (a & Hm & H);
    first [apply raise_if_Ret in Hm | apply or_raise_Ret in Hm | apply of_fuel_Ret in Hm | idtac]).
