(* ===== verification/IpAddr.v ===== *)
(** Python's [ipaddress]: the part the services use.

    [ip_address], [ip_network], membership, [hosts] and [str], for IPv4 and IPv6, as
    the module of CPython 3.12 computes them.  An address is its integer; a
    failed conversion ([ValueError]) is [None]. *)

From stdpp Require Import pretty.
From S2P Require Import Prelude.
Local Open Scope Z_scope.

(** * Strings *)

(** [str.split(c)] *)
Fixpoint split_on (c : Ascii.ascii) (s : string) : list string :=
  match s with
  | EmptyString => [EmptyString]
  | String d s' =>
      if Ascii.eqb d c then EmptyString :: split_on c s'
      else match split_on c s' with
           | h :: t => String d h :: t
           | [] => [String d EmptyString]
           end
  end.

Fixpoint join_with (sep : string) (l : list string) : string :=
  match l with
  | [] => ""
  | [x] => x
  | x :: l' => String.append x (String.append sep (join_with sep l'))
  end.

Definition dot : Ascii.ascii := Ascii.ascii_of_nat 46.
Definition slash : Ascii.ascii := Ascii.ascii_of_nat 47.
Definition colon : Ascii.ascii := Ascii.ascii_of_nat 58.
Definition percent : Ascii.ascii := Ascii.ascii_of_nat 37.

Fixpoint has_char (c : Ascii.ascii) (s : string) : bool :=
  match s with EmptyString => false | String d s' => Ascii.eqb d c || has_char c s' end.

(** The value of a digit below the base, for decimal and hexadecimal digits. *)
Definition digit_value (base : Z) (c : Ascii.ascii) : option Z :=
  let n := Z.of_N (Ascii.N_of_ascii c) in
  let v := if (48 <=? n) && (n <=? 57) then n - 48
           else if (97 <=? n) && (n <=? 102) then n - 87
           else if (65 <=? n) && (n <=? 70) then n - 55 else base in
  if v <? base then Some v else None.

(** [int(s, base)] for a string of digits; [None] when there is another character. *)
Fixpoint int_of_digits (base acc : Z) (s : string) : option Z :=
  match s with
  | EmptyString => Some acc
  | String c s' => match digit_value base c with Some d => int_of_digits base (acc * base + d) s' | None => None end
  end.

(** [s.isascii() and s.isdigit()], and then [int(s)]. *)
Definition dec_int (s : string) : option Z :=
  match s with EmptyString => None | _ => int_of_digits 10 0 s end.

(** * IPv4 *)

Definition parse_octet (s : string) : option Z :=
  match dec_int s with
  | None => None
  | Some v =>
      if (3 <? String.length s)%nat then None
      else if negb (String.eqb s "0") && starts_with "0" s then None
      else if 255 <? v then None else Some v
  end.

(** [int.from_bytes(bytes, 'big')] *)
Definition from_bytes (l : list Z) : Z := foldl (λ acc b, acc * 256 + b) 0 l.

(** [IPv4Address._ip_int_from_string] *)
Definition ipv4_int_from_string (s : string) : option Z :=
  match split_on dot s with
  | [a; b; c; d] =>
      match parse_octet a, parse_octet b, parse_octet c, parse_octet d with
      | Some a, Some b, Some c, Some d => Some (from_bytes [a; b; c; d])
      | _, _, _, _ => None
      end
  | _ => None
  end.

Definition octets (n : Z) : list Z := [n / 2 ^ 24 mod 256; n / 2 ^ 16 mod 256; n / 2 ^ 8 mod 256; n mod 256].

(** [str(int)] of a non-negative integer. *)
Definition str_of_int (n : Z) : string := pretty (Z.to_N n).

(** [IPv4Address._string_from_ip_int] *)
Definition ipv4_string (n : Z) : string := join_with "." (str_of_int <$> octets n).

(** * IPv6 *)

Definition parse_hextet (s : string) : option Z :=
  if (4 <? String.length s)%nat then None
  else match s with EmptyString => None | _ => int_of_digits 16 0 s end.

Definition hex_digit_char (d : Z) : Ascii.ascii :=
  Ascii.ascii_of_N (Z.to_N (if d <? 10 then 48 + d else 87 + d)).

Fixpoint strip_zeros (l : list Z) : list Z :=
  match l with
  | d :: l' => match l' with [] => l | _ => if d =? 0 then strip_zeros l' else l end
  | [] => []
  end.

(** ['%x' % n] for [n] below 2^16. *)
Definition hex_string (n : Z) : string :=
  let ds := [n / 4096 mod 16; n / 256 mod 16; n / 16 mod 16; n mod 16] in
  foldr (λ d s, String (hex_digit_char d) s) EmptyString (strip_zeros ds).

(** An IPv4 suffix becomes two groups. *)
Definition expand_ipv4_suffix (parts : list string) : option (list string) :=
  match last parts with
  | Some p =>
      if has_char dot p then
        match ipv4_int_from_string p with
        | Some n => Some (take (length parts - 1) parts ++ [hex_string (Z.land (Z.shiftr n 16) 0xFFFF); hex_string (Z.land n 0xFFFF)])
        | None => None
        end
      else Some parts
  | None => None
  end.

(** The positions of the empty groups, the first and the last group apart. *)
Definition skip_positions (parts : list string) : list nat :=
  filter (λ i, parts !! i = Some "") (seq 1 (length parts - 2)).

Definition hextets_value (acc : Z) (parts : list string) : option Z :=
  foldl (λ acc p, acc ← acc; h ← parse_hextet p; Some (Z.lor (Z.shiftl acc 16) h)) (Some acc) parts.

Definition is_empty_at (parts : list string) (i : nat) : bool := bool_decide (parts !! i = Some "").

(** How many groups stand before and after the ["::"], and how many it stands for. *)
Definition ipv6_layout (parts : list string) : option (nat * nat * nat) :=
  let n := length parts in
  match skip_positions parts with
  | _ :: _ :: _ => None
  | [k] =>
      let hi := if is_empty_at parts 0 then (k - 1)%nat else k in
      let lo := if is_empty_at parts (n - 1) then (n - k - 2)%nat else (n - k - 1)%nat in
      if is_empty_at parts 0 && negb (hi =? 0)%nat then None
      else if is_empty_at parts (n - 1) && negb (lo =? 0)%nat then None
      else if (8 <=? hi + lo)%nat then None
      else Some (hi, lo, (8 - (hi + lo))%nat)
  | [] =>
      if negb (n =? 8)%nat then None
      else if is_empty_at parts 0 || is_empty_at parts 7 then None
      else Some (8, 0, 0)%nat
  end.

(** [IPv6Address._ip_int_from_string] *)
Definition ipv6_int_from_string (s : string) : option Z :=
  let parts := split_on colon s in
  if (length parts <? 3)%nat then None
  else
    parts ← expand_ipv4_suffix parts;
    if (9 <? length parts)%nat then None
    else
      '(hi, lo, skipped) ← ipv6_layout parts;
      high ← hextets_value 0 (take hi parts);
      hextets_value (Z.shiftl high (16 * Z.of_nat skipped)) (drop (length parts - lo) parts).

(** [IPv6Address._split_scope_id], without the scope. *)
Definition split_scope (s : string) : option string :=
  match split_on percent s with
  | [a] => Some a
  | [a; scope] => if String.eqb scope "" then None else Some a
  | _ => None
  end.

Definition hextets (n : Z) : list Z := (λ i, Z.land (Z.shiftr n (16 * Z.of_nat i)) 0xFFFF) <$> reverse (seq 0 8).

(** The longest run of zero groups: [(best_start, best_len)] of [_compress_hextets]. *)
Fixpoint zero_run (l : list string) (index : nat) (start : option nat) (len : nat) (best : nat * nat) : nat * nat :=
  match l with
  | [] => best
  | h :: l' =>
      if String.eqb h "0" then
        let start' := match start with Some k => k | None => index end in
        zero_run l' (S index) (Some start') (S len) (if (best.2 <? S len)%nat then (start', S len) else best)
      else zero_run l' (S index) None 0 best
  end.

Definition compress_hextets (l : list string) : list string :=
  let '(start, len) := zero_run l 0 None 0 (0, 0)%nat in
  if (len <=? 1)%nat then l
  else
    let l1 := if (start + len =? length l)%nat then l ++ [""] else l in
    let l2 := take start l1 ++ [""] ++ drop (start + len) l1 in
    if (start =? 0)%nat then "" :: l2 else l2.

(** [IPv6Address._string_from_ip_int] *)
Definition ipv6_string (n : Z) : string := join_with ":" (compress_hextets (hex_string <$> hextets n)).

(** * Addresses and networks *)

Inductive Version := V4 | V6.
#[export] Instance Version_eq_dec : EqDecision Version.
Proof. solve_decision. Defined.

Definition width (v : Version) : Z := match v with V4 => 32 | V6 => 128 end.

Record IpAddress := mkIp { ip_version : Version; ip_int : Z }.
#[export] Instance IpAddress_eq_dec : EqDecision IpAddress.
Proof. solve_decision. Defined.

Definition str_ip (a : IpAddress) : string :=
  match ip_version a with V4 => ipv4_string (ip_int a) | V6 => ipv6_string (ip_int a) end.

Definition parse_v4 (s : string) : option Z := if has_char slash s then None else ipv4_int_from_string s.
Definition parse_v6 (s : string) : option Z :=
  if has_char slash s then None else split_scope s ≫= ipv6_int_from_string.

(** [ipaddress.ip_address] *)
Definition ip_address (s : string) : option IpAddress :=
  match parse_v4 s with
  | Some n => Some (mkIp V4 n)
  | None => mkIp V6 <$> parse_v6 s
  end.

Record IpNetwork := mkNet { net_version : Version; net_int : Z; prefixlen : Z }.

Definition all_ones (v : Version) : Z := 2 ^ width v - 1.
(** The integer of the netmask: [_ALL_ONES ^ (_ALL_ONES >> prefixlen)]. *)
Definition netmask (v : Version) (plen : Z) : Z := Z.lxor (all_ones v) (Z.shiftr (all_ones v) plen).

(** [_prefix_from_prefix_string] *)
Definition prefix_from_string (v : Version) (s : string) : option Z :=
  n ← dec_int s; if n <=? width v then Some n else None.

Fixpoint trailing_zeros (fuel : nat) (n : Z) : Z :=
  match fuel with
  | O => 0
  | S fuel' => if Z.odd n then 0 else 1 + trailing_zeros fuel' (Z.shiftr n 1)
  end.

(** [_prefix_from_ip_int] *)
Definition prefix_from_ip_int (n : Z) : option Z :=
  let tz := trailing_zeros 32 n in
  let plen := 32 - tz in
  if Z.shiftr n tz =? 2 ^ plen - 1 then Some plen else None.

(** [_prefix_from_ip_string]: a netmask, else a hostmask. *)
Definition prefix_from_ip_string (s : string) : option Z :=
  n ← ipv4_int_from_string s;
  match prefix_from_ip_int n with
  | Some p => Some p
  | None => prefix_from_ip_int (Z.lxor n (all_ones V4))
  end.

Definition make_netmask (v : Version) (mask : option string) : option Z :=
  match mask with
  | None => Some (width v)
  | Some m =>
      match prefix_from_string v m with
      | Some p => Some p
      | None => match v with V4 => prefix_from_ip_string m | V6 => None end
      end
  end.

Definition network_of (v : Version) (strict : bool) (s : string) : option IpNetwork :=
  '(addr, mask) ← match split_on slash s with [a] => Some (a, None) | [a; m] => Some (a, Some m) | _ => None end;
  n ← match v with V4 => parse_v4 addr | V6 => parse_v6 addr end;
  plen ← make_netmask v mask;
  let m := Z.land n (netmask v plen) in
  if m =? n then Some (mkNet v n plen)
  else if strict then None else Some (mkNet v m plen).

(** [ipaddress.ip_network] *)
Definition ip_network (strict : bool) (s : string) : option IpNetwork :=
  match network_of V4 strict s with
  | Some n => Some n
  | None => network_of V6 strict s
  end.

(** [address in network] *)
Definition ip_in (a : IpAddress) (n : IpNetwork) : bool :=
  bool_decide (ip_version a = net_version n) &&
  (Z.land (ip_int a) (netmask (net_version n) (prefixlen n)) =? net_int n).

(** The first and the last address of [network.hosts()]. *)
Definition host_range (n : IpNetwork) : Z * Z :=
  let w := width (net_version n) in
  let lo := net_int n in
  let hi := net_int n + 2 ^ (w - prefixlen n) - 1 in
  if w - 1 <=? prefixlen n then (lo, hi)
  else match net_version n with V4 => (lo + 1, hi - 1) | V6 => (lo + 1, hi) end.

Example ip_examples :
  ip_address "10.250.0.7" = Some (mkIp V4 184156167) ∧
  ip_address "10.250.00.7" = None ∧
  ip_address "2001:db8::ff00:42:8329" = Some (mkIp V6 42540766411282592856904265327123268393) ∧
  ip_address "::" = Some (mkIp V6 0) ∧ ip_address "1::2::3" = None ∧ ip_address ":1::2" = None ∧
  ip_address "::ffff:10.0.0.1" = Some (mkIp V6 281470849515521) ∧ ip_address "fe80::1%eth0" = Some (mkIp V6 338288524927261089654018896841347694593) ∧
  str_ip (mkIp V6 42540766411282592856904265327123268393) = "2001:db8::ff00:42:8329" ∧
  str_ip (mkIp V6 0) = "::" ∧ str_ip (mkIp V6 1) = "::1" ∧ str_ip (mkIp V6 (2 ^ 112)) = "1::" ∧
  ip_network false "10.0.0.7/24" = Some (mkNet V4 167772160 24) ∧
  ip_network true "10.0.0.7/24" = None ∧
  ip_network false "10.0.0.0/255.255.255.0" = Some (mkNet V4 167772160 24) ∧
  ip_network false "10.0.0.0/0.0.0.255" = Some (mkNet V4 167772160 24) ∧
  ip_network false "2001:db8::/32" = Some (mkNet V6 (0x20010db8 * 2 ^ 96) 32) ∧
  ip_network false "0.0.0.0/0" = Some (mkNet V4 0 0).
Proof. vm_compute. repeat split; reflexivity. Qed.

(** * Ranges *)

Lemma digit_value_range base c d : digit_value base c = Some d → 0 <= d < base.
Proof.
  unfold digit_value. set (n := Z.of_N _). assert (0 <= n) by lia.
  destruct (Z.leb_spec 48 n), (Z.leb_spec n 57), (Z.leb_spec 97 n), (Z.leb_spec n 102), (Z.leb_spec 65 n), (Z.leb_spec n 70);
    cbn [andb]; case_match eqn:E; try done; apply Z.ltb_lt in E; intros [= <-]; lia.
Qed.

Lemma int_of_digits_range base acc s v :
  0 < base → 0 <= acc → int_of_digits base acc s = Some v →
  0 <= v < (acc + 1) * base ^ Z.of_nat (String.length s).
Proof.
  intros Hb. revert acc. induction s as [|c s IH]; intros acc Ha; cbn [int_of_digits String.length].
  { intros [= <-]. change (base ^ Z.of_nat 0) with 1. lia. }
  destruct (digit_value base c) as [d|] eqn:Ed; [|done]. apply digit_value_range in Ed. intros Hv.
  apply IH in Hv; [|nia]. split; [lia|]. eapply Z.lt_le_trans; [apply Hv|].
  rewrite Nat2Z.inj_succ, Z.pow_succ_r by lia. assert (0 < base ^ Z.of_nat (String.length s)) by (apply Z.pow_pos_nonneg; lia). nia.
Qed.

Lemma dec_int_nonneg s v : dec_int s = Some v → 0 <= v.
Proof. destruct s as [|c s]; [done|]. unfold dec_int. intros Hv. apply int_of_digits_range in Hv; lia. Qed.

Lemma parse_octet_range s v : parse_octet s = Some v → 0 <= v < 256.
Proof.
  unfold parse_octet. destruct (dec_int s) as [n|] eqn:E; [|done]. apply dec_int_nonneg in E.
  case_match; [done|]. case_match; [done|]. destruct (Z.ltb_spec 255 n); [done|]. intros [= <-]. lia.
Qed.

Lemma ipv4_int_range s n : ipv4_int_from_string s = Some n → 0 <= n < 2 ^ 32.
Proof.
  unfold ipv4_int_from_string. destruct (split_on dot s) as [|a [|b [|c [|d []]]]]; try done.
  destruct (parse_octet a) eqn:Ea, (parse_octet b) eqn:Eb, (parse_octet c) eqn:Ec, (parse_octet d) eqn:Ed; try done.
  apply parse_octet_range in Ea, Eb, Ec, Ed. intros [= <-]. unfold from_bytes. simpl. lia.
Qed.

Lemma parse_hextet_range s h : parse_hextet s = Some h → 0 <= h < 2 ^ 16.
Proof.
  unfold parse_hextet. destruct (Nat.ltb_spec 4 (String.length s)) as [|Hlen]; [done|]. destruct s as [|c s]; [done|].
  revert Hlen. generalize (String c s) as t. clear. intros t Hlen Hv. apply int_of_digits_range in Hv; [|lia..].
  assert (16 ^ Z.of_nat (String.length t) <= 16 ^ 4) by (apply Z.pow_le_mono_r; lia).
  change (2 ^ 16) with (16 ^ 4). lia.
Qed.

(** Bits beyond the size of a number are zero. *)
Lemma testbit_high n k i : 0 <= n < 2 ^ k → 0 <= k <= i → Z.testbit n i = false.
Proof.
  intros Hn Hi. rewrite Z.testbit_odd, Z.shiftr_div_pow2, Z.div_small by
    first [lia | split; [lia|]; eapply Z.lt_le_trans; [apply Hn|]; apply Z.pow_le_mono_r; lia]. done.
Qed.

Lemma lor_shiftl16 acc h : 0 <= h < 2 ^ 16 → Z.lor (Z.shiftl acc 16) h = acc * 2 ^ 16 + h.
Proof.
  intros Hh. rewrite <-Z.shiftl_mul_pow2 by lia. symmetry. rewrite <-Z.lxor_lor; [apply Z.add_nocarry_lxor|];
  apply Z.bits_inj'; intros i Hi; rewrite Z.land_spec, Z.shiftl_spec, Z.bits_0 by lia;
    (destruct (Z.ltb_spec i 16); [by rewrite Z.testbit_neg_r by lia|]); by rewrite (testbit_high h 16), andb_false_r by lia.
Qed.

Lemma hextets_value_range acc k parts v :
  0 <= k → 0 <= acc < 2 ^ k → hextets_value acc parts = Some v → 0 <= v < 2 ^ (k + 16 * Z.of_nat (length parts)).
Proof.
  intros Hk Ha. unfold hextets_value. revert acc k Hk Ha. induction parts as [|p parts IH]; intros acc k Hk Ha; cbn [foldl].
  { intros [= <-]. simpl length. by rewrite Z.mul_0_r, Z.add_0_r. }
  cbn [mbind option_bind]. destruct (parse_hextet p) as [h|] eqn:Eh; cbn [mbind option_bind].
  - apply parse_hextet_range in Eh. intros Hv. apply (IH _ (k + 16)) in Hv; [|lia|].
    + simpl length. replace (k + 16 * Z.of_nat (S (length parts))) with (k + 16 + 16 * Z.of_nat (length parts)) by lia. done.
    + rewrite lor_shiftl16 by done. rewrite Z.pow_add_r by lia. nia.
  - assert (∀ ps, foldl (λ acc p, acc ← acc; h ← parse_hextet p; Some (Z.lor (Z.shiftl acc 16) h)) None ps = None) as ->; [|done].
    clear. intros ps. induction ps; [done|]. simpl. done.
Qed.

Lemma ipv6_layout_total parts hi lo sk : ipv6_layout parts = Some (hi, lo, sk) → (hi + lo + sk = 8)%nat.
Proof.
  unfold ipv6_layout. destruct (skip_positions parts) as [|k []]; repeat case_match; intros; simplify_eq; try done.
  all: match goal with H : (8 <=? _)%nat = false |- _ => apply Nat.leb_gt in H; lia end.
Qed.

Lemma ipv6_int_range s n : ipv6_int_from_string s = Some n → 0 <= n < 2 ^ 128.
Proof.
  unfold ipv6_int_from_string. case_match; [done|]. intros Hn.
  apply bind_Some in Hn as (parts & _ & Hn). case_match; [done|].
  apply bind_Some in Hn as ([[hi lo] sk] & Hl & Hn). apply ipv6_layout_total in Hl.
  apply bind_Some in Hn as (high & Hh & Hn).
  apply (hextets_value_range 0 0) in Hh; [|lia..]. rewrite Z.shiftl_mul_pow2 in Hn by lia.
  apply (hextets_value_range _ (16 * Z.of_nat (hi + sk))) in Hn; [|lia|].
  - split; [lia|]. eapply Z.lt_le_trans; [apply Hn|]. apply Z.pow_le_mono_r; [lia|]. rewrite length_drop. lia.
  - split; [nia|]. rewrite Nat2Z.inj_add, Z.mul_add_distr_l, Z.pow_add_r by lia.
    apply Z.mul_lt_mono_pos_r; [apply Z.pow_pos_nonneg; lia|]. eapply Z.lt_le_trans; [apply Hh|].
    apply Z.pow_le_mono_r; [lia|]. rewrite length_take. lia.
Qed.

(** Addresses are below the width of their version. *)
Definition ip_ok (a : IpAddress) : Prop := 0 <= ip_int a < 2 ^ width (ip_version a).

Lemma parse_v4_range s n : parse_v4 s = Some n → 0 <= n < 2 ^ 32.
Proof. unfold parse_v4. case_match; [done|]. apply ipv4_int_range. Qed.

Lemma parse_v6_range s n : parse_v6 s = Some n → 0 <= n < 2 ^ 128.
Proof. unfold parse_v6. case_match; [done|]. intros (a & _ & Ha)%bind_Some. by apply ipv6_int_range in Ha. Qed.

Lemma ip_address_ok s a : ip_address s = Some a → ip_ok a.
Proof.
  unfold ip_address, ip_ok. destruct (parse_v4 s) as [n|] eqn:E.
  - apply parse_v4_range in E. by intros [= <-].
  - intros (n & Hn%parse_v6_range & ->)%fmap_Some. done.
Qed.

(** A network in canonical form: its host bits are zero. *)
Record net_ok (n : IpNetwork) : Prop := {
  no_len : 0 <= prefixlen n <= width (net_version n);
  no_int : 0 <= net_int n < 2 ^ width (net_version n);
  no_host : net_int n mod 2 ^ (width (net_version n) - prefixlen n) = 0
}.

Lemma trailing_zeros_range fuel n : 0 <= trailing_zeros fuel n <= Z.of_nat fuel.
Proof.
  revert n. induction fuel as [|fuel IH]; intros n; cbn [trailing_zeros]; [lia|].
  case_match; [lia|]. specialize (IH (Z.shiftr n 1)). lia.
Qed.

Lemma make_netmask_range v m p : make_netmask v m = Some p → 0 <= p <= width v.
Proof.
  assert (∀ n p, prefix_from_ip_int n = Some p → 0 <= p <= 32) as Hi.
  { intros n q. unfold prefix_from_ip_int. pose proof (trailing_zeros_range 32 n) as Hz. revert Hz.
    generalize (trailing_zeros 32 n) as tz. intros tz Hz. cbv zeta. destruct (Z.shiftr n tz =? _); [|done].
    intros [= <-]. lia. }
  unfold make_netmask. destruct m as [m|]; [|intros [= <-]; by destruct v].
  destruct (prefix_from_string v m) as [q|] eqn:E.
  - intros [= <-]. unfold prefix_from_string in E. apply bind_Some in E as (n & Hn%dec_int_nonneg & E).
    destruct (Z.leb_spec n (width v)); [|done]. injection E as <-. done.
  - destruct v; [|done]. unfold prefix_from_ip_string. intros (n & _ & Hn)%bind_Some.
    destruct (prefix_from_ip_int n) as [q|] eqn:En; [injection Hn as <-; exact (Hi n q En)|exact (Hi _ _ Hn)].
Qed.

(** * Networks as bit prefixes *)

Lemma netmask_ones v p : 0 <= p <= width v → netmask v p = Z.shiftl (Z.ones p) (width v - p).
Proof.
  intros Hp. unfold netmask, all_ones. change (2 ^ width v - 1) with (Z.pred (2 ^ width v)).
  rewrite <-Z.ones_equiv. assert (0 <= width v) by (destruct v; done).
  apply Z.bits_inj'. intros i Hi. rewrite Z.lxor_spec, Z.shiftr_spec by lia.
  rewrite Z.shiftl_spec by lia. rewrite !Z.testbit_ones by lia.
  destruct (Z.ltb_spec i (width v)), (Z.ltb_spec (i + p) (width v)), (Z.ltb_spec (i - (width v - p)) p),
    (Z.leb_spec 0 i), (Z.leb_spec 0 (i + p)), (Z.leb_spec 0 (i - (width v - p))); try lia; reflexivity.
Qed.

(** Masking clears the host bits. *)
Lemma land_netmask v p n :
  0 <= p <= width v → 0 <= n < 2 ^ width v →
  Z.land n (netmask v p) = n / 2 ^ (width v - p) * 2 ^ (width v - p).
Proof.
  intros Hp Hn. rewrite netmask_ones by done. rewrite <-Z.shiftr_div_pow2, <-Z.shiftl_mul_pow2 by lia.
  apply Z.bits_inj'. intros i Hi. rewrite Z.land_spec, !Z.shiftl_spec, Z.testbit_ones by lia.
  destruct (Z.leb_spec 0 (i - (width v - p))) as [Hle|Hlt].
  - rewrite Z.shiftr_spec by lia. replace (i - (width v - p) + (width v - p)) with i by lia. simpl.
    destruct (Z.ltb_spec (i - (width v - p)) p); [apply andb_true_r|]. rewrite andb_false_r.
    rewrite (testbit_high n (width v)) by lia. done.
  - rewrite (Z.testbit_neg_r (Z.shiftr _ _)) by lia. apply andb_false_r.
Qed.

(** The network part of an address. *)
Definition prefix_bits (plen : Z) (v : Version) (n : Z) : Z := n / 2 ^ (width v - plen).

(** Membership compares the network bits. *)
Lemma ip_in_prefix a n :
  ip_ok a → net_ok n →
  ip_in a n = true ↔ ip_version a = net_version n ∧
    prefix_bits (prefixlen n) (net_version n) (ip_int a) = prefix_bits (prefixlen n) (net_version n) (net_int n).
Proof.
  intros Ha [Hl Hn Hh]. unfold ip_in, prefix_bits. rewrite andb_true_iff, bool_decide_eq_true, Z.eqb_eq.
  destruct (decide (ip_version a = net_version n)) as [Hv|]; [|naive_solver]. unfold ip_ok in Ha. rewrite Hv in Ha.
  rewrite land_netmask by done. set (k := 2 ^ (width (net_version n) - prefixlen n)) in *.
  assert (0 < k) by (apply Z.pow_pos_nonneg; lia).
  apply Z.div_exact in Hh; [|lia]. split; intros [_ E]; (split; [done|]).
  - rewrite <-E, Z.div_mul by lia. done.
  - rewrite E. lia.
Qed.

Lemma network_of_ok v strict s n : network_of v strict s = Some n → net_ok n.
Proof.
  unfold network_of. intros H. apply bind_Some in H as ([addr mask] & _ & H).
  apply bind_Some in H as (a & Ha & H). apply bind_Some in H as (p & Hp%make_netmask_range & H).
  assert (0 <= a < 2 ^ width v) as Hr by (destruct v; [by apply parse_v4_range in Ha|by apply parse_v6_range in Ha]).
  assert (∀ m, m = Z.land a (netmask v p) → net_ok (mkNet v m p)) as Hok.
  { intros m ->. rewrite land_netmask by done. assert (0 < 2 ^ (width v - p)) by (apply Z.pow_pos_nonneg; lia).
    split; simpl; [done| |apply Z.mod_mul; lia].
    split; [apply Z.mul_nonneg_nonneg; [apply Z.div_pos; lia|lia]|].
    eapply Z.le_lt_trans; [|apply Hr]. rewrite Z.mul_comm. apply Z.mul_div_le. lia. }
  cbv zeta in H. destruct (Z.eqb_spec (Z.land a (netmask v p)) a) as [E|]; [|destruct strict; [done|]];
    injection H as <-; by apply Hok.
Qed.

Lemma ip_network_ok strict s n : ip_network strict s = Some n → net_ok n.
Proof.
  unfold ip_network. destruct (network_of V4 strict s) eqn:E; [intros [= <-]|]; by eapply network_of_ok.
Qed.

(** * Printing and parsing IPv4 addresses *)

Lemma split_on_none c s : has_char c s = false → split_on c s = [s].
Proof.
  induction s as [|d s IH]; simpl; [done|]. intros [Hd Hs]%orb_false_iff. by rewrite Hd, IH.
Qed.

Lemma split_on_app c s r :
  has_char c s = false → split_on c (String.append s (String c r)) = s :: split_on c r.
Proof.
  induction s as [|d s IH]; simpl; [by rewrite Ascii.eqb_refl|]. intros [Hd Hs]%orb_false_iff. by rewrite Hd, IH.
Qed.

Lemma has_char_append c s t : has_char c (String.append s t) = has_char c s || has_char c t.
Proof. induction s as [|d s IH]; simpl; [done|]. by rewrite IH, orb_assoc. Qed.

(** The 256 octets. *)
Lemma octet_printed b :
  0 <= b < 256 → parse_octet (str_of_int b) = Some b ∧ has_char dot (str_of_int b) = false ∧
    has_char slash (str_of_int b) = false.
Proof.
  intros Hb. pose (ok := λ b, bool_decide (parse_octet (str_of_int b) = Some b) &&
    negb (has_char dot (str_of_int b)) && negb (has_char slash (str_of_int b))).
  assert (forallb (λ k, ok (Z.of_nat k)) (seq 0 256) = true) as Hall by (vm_compute; reflexivity).
  rewrite forallb_forall in Hall. specialize (Hall (Z.to_nat b)). rewrite Z2Nat.id in Hall by lia.
  assert (ok b = true) as Hok by (apply Hall, in_seq; lia). unfold ok in Hok. bools. done.
Qed.

Lemma octets_range n b : b ∈ octets n → 0 <= b < 256.
Proof.
  unfold octets. rewrite !elem_of_cons, elem_of_nil. intros [->|[->|[->|[->|[]]]]]; apply Z.mod_pos_bound; lia.
Qed.

Lemma from_bytes_octets n : 0 <= n < 2 ^ 32 → from_bytes (octets n) = n.
Proof. intros Hn. unfold from_bytes, octets. cbn [foldl].
  change (2 ^ 24) with 16777216. change (2 ^ 16) with 65536. change (2 ^ 8) with 256. change (2 ^ 32) with 4294967296 in Hn.
  Z.div_mod_to_equations. lia.
Qed.

(** A printed IPv4 address reads back as itself. *)
Lemma parse_ipv4_string n : 0 <= n < 2 ^ 32 → parse_v4 (ipv4_string n) = Some n.
Proof.
  intros Hn. pose proof (octets_range n) as Ho. pose proof (from_bytes_octets n Hn) as Hf. revert Ho Hf.
  unfold parse_v4, ipv4_int_from_string, ipv4_string, octets.
  generalize (n / 2 ^ 24 mod 256) as a, (n / 2 ^ 16 mod 256) as b, (n / 2 ^ 8 mod 256) as c, (n mod 256) as d.
  intros a b c d Ho Hf. cbn [fmap list_fmap join_with].
  destruct (octet_printed a) as (Pa & Da & Sa); [apply Ho; set_solver|].
  destruct (octet_printed b) as (Pb & Db & Sb); [apply Ho; set_solver|].
  destruct (octet_printed c) as (Pc & Dc & Sc); [apply Ho; set_solver|].
  destruct (octet_printed d) as (Pd & Dd & Sd); [apply Ho; set_solver|].
  rewrite !has_char_append, Sa, Sb, Sc, Sd. cbn [has_char orb].
  change (has_char slash ".") with false. cbn [orb].
  assert (∀ r, String.append "." r = String dot r) as Hdot by done. rewrite !Hdot.
  rewrite !split_on_app, split_on_none by done. by rewrite Pa, Pb, Pc, Pd, Hf.
Qed.

Lemma ipv4_string_inj n m : 0 <= n < 2 ^ 32 → 0 <= m < 2 ^ 32 → ipv4_string n = ipv4_string m → n = m.
Proof. intros Hn Hm E. apply parse_ipv4_string in Hn, Hm. congruence. Qed.
