(* ===== verification/Sha1.v ===== *)
(** Python's [hashlib.sha1(s.encode()).digest()] (FIPS 180-4), on strings kept as
    their UTF-8 bytes.  Point-to-point addresses and neighbour MACs are derived
    from such digests. *)

From S2P Require Import Prelude.
Local Open Scope Z_scope.

Definition w32 (x : Z) : Z := Z.land x 0xFFFFFFFF.
Definition rotl (n x : Z) : Z := w32 (Z.lor (Z.shiftl x n) (Z.shiftr x (32 - n))).
Definition not32 (x : Z) : Z := Z.lxor x 0xFFFFFFFF.

Fixpoint encode (s : string) : list Z :=
  match s with EmptyString => [] | String c s' => Z.of_N (Ascii.N_of_ascii c) :: encode s' end.

(** Big-endian bytes of a word, and words of a byte list. *)
Definition be32 (w : Z) : list Z :=
  [Z.shiftr w 24 mod 256; Z.shiftr w 16 mod 256; Z.shiftr w 8 mod 256; w mod 256].

Fixpoint words (bs : list Z) : list Z :=
  match bs with
  | a :: b :: c :: d :: bs' => (a * 2 ^ 24 + b * 2 ^ 16 + c * 2 ^ 8 + d) :: words bs'
  | _ => []
  end.

Definition pad (msg : list Z) : list Z :=
  let n := Z.of_nat (length msg) in
  msg ++ [0x80] ++ replicate (Z.to_nat ((55 - n) mod 64)) 0 ++ be32 (Z.shiftr (8 * n) 32) ++ be32 (w32 (8 * n)).

(** The message schedule, newest word first. *)
Fixpoint extend (n : nat) (ws : list Z) : list Z :=
  match n with
  | O => ws
  | S n' =>
      let at_ i := nth i ws 0 in
      extend n' (rotl 1 (Z.lxor (Z.lxor (at_ 2%nat) (at_ 7%nat)) (Z.lxor (at_ 13%nat) (at_ 15%nat))) :: ws)
  end.

Record Hash := mkHash { ha : Z; hb : Z; hc : Z; hd : Z; he : Z }.

Definition round_word (t : Z) (h : Hash) : Z * Z :=
  let '(mkHash _ b c d _) := h in
  if t <? 20 then (Z.lor (Z.land b c) (Z.land (not32 b) d), 0x5A827999)
  else if t <? 40 then (Z.lxor b (Z.lxor c d), 0x6ED9EBA1)
  else if t <? 60 then (Z.lor (Z.land b c) (Z.lor (Z.land b d) (Z.land c d)), 0x8F1BBCDC)
  else (Z.lxor b (Z.lxor c d), 0xCA62C1D6).

Definition round (st : Z * Hash) (w : Z) : Z * Hash :=
  let '(t, h) := st in
  let '(f, k) := round_word t h in
  (t + 1, mkHash (w32 (rotl 5 (ha h) + f + he h + k + w)) (ha h) (rotl 30 (hb h)) (hc h) (hd h)).

Definition add_hash (h k : Hash) : Hash :=
  mkHash (w32 (ha h + ha k)) (w32 (hb h + hb k)) (w32 (hc h + hc k)) (w32 (hd h + hd k)) (w32 (he h + he k)).

Definition block (h : Hash) (ws : list Z) : Hash :=
  add_hash h (foldl round (0, h) (reverse (extend 64 (reverse ws)))).2.

Fixpoint blocks (n : nat) (h : Hash) (ws : list Z) : Hash :=
  match n with O => h | S n' => blocks n' (block h (take 16 ws)) (drop 16 ws) end.

Definition initial : Hash := mkHash 0x67452301 0xEFCDAB89 0x98BADCFE 0x10325476 0xC3D2E1F0.

Definition sha1 (s : string) : list Z :=
  let ws := words (pad (encode s)) in
  let h := blocks (length ws / 16) initial ws in
  be32 (ha h) ++ be32 (hb h) ++ be32 (hc h) ++ be32 (hd h) ++ be32 (he h).

(** The test vectors of FIPS 180-4, and the empty string. *)
Example sha1_vectors :
  sha1 "abc" = [0xA9;0x99;0x3E;0x36;0x47;0x06;0x81;0x6A;0xBA;0x3E;0x25;0x71;0x78;0x50;0xC2;0x6C;0x9C;0xD0;0xD8;0x9D] ∧
  sha1 "abcdbcdecdefdefgefghfghighijhijkijkljklmklmnlmnomnopnopq" =
    [0x84;0x98;0x3E;0x44;0x1C;0x3B;0xD2;0x6E;0xBA;0xAE;0x4A;0xA1;0xF9;0x51;0x29;0xE5;0xE5;0x46;0x70;0xF1] ∧
  sha1 "" = [0xDA;0x39;0xA3;0xEE;0x5E;0x6B;0x4B;0x0D;0x32;0x55;0xBF;0xEF;0x95;0x60;0x18;0x90;0xAF;0xD8;0x07;0x09].
Proof. vm_compute. done. Qed.

Lemma be32_bytes w b : b ∈ be32 w → 0 <= b < 256.
Proof. unfold be32. intros H. repeat (apply elem_of_cons in H as [->|H]; [apply Z.mod_pos_bound; lia|]). by apply elem_of_nil in H. Qed.

(** Twenty bytes. *)
Lemma sha1_bytes s : length (sha1 s) = 20%nat ∧ ∀ b, b ∈ sha1 s → 0 <= b < 256.
Proof.
  split; [done|]. unfold sha1. generalize (blocks (length (words (pad (encode s))) / 16) initial (words (pad (encode s)))) as h.
  intros h b. rewrite !elem_of_app. intros [?|[?|[?|[?|?]]]]; by eapply be32_bytes.
Qed.
