(* ===== verification/Ipam.v ===== *)
(** Address management: [models_pkg/ipam.py], [services/seed_helpers/ipam.py],
    [services/provisioning_ipam.py] and [api/endpoints/ipam.py].

    Management addresses are handed out from prefixes, one prefix per device role.
    The default prefixes are created on demand; the next address of a prefix is
    its first host no address row of the prefix uses.  Tables assign their integer
    keys through [RowIds], of which only freshness is used. *)

From S2P Require Import Prelude PyFloat Models IpAddr.

(** * Tables *)

Record VRF := mkVRF { vrf_id : Z; vrf_name : string }.

Record Prefix := mkPrefix {
  prefix_id : Z; prefix : string; prefix_vrf_id : Z; description : option string
}.

Inductive ProvisioningAction := ASSIGN_MGMT_IP.

Record ProvisioningRecord := mkRecord {
  pr_id : Z; pr_ts : string; pr_action : ProvisioningAction; pr_device_id : string;
  pr_interface_id : string; pr_ip : string; pr_vrf_id : option Z; pr_prefix_id : option Z;
  pr_actor : option string; pr_correlation_id : option string
}.

(** The database with the address management tables. *)
Record IpamDB := mkIpamDB {
  base : DB;
  vrfs : list VRF;
  prefixes : list Prefix;
  prov_records : list ProvisioningRecord
}.

Definition with_base (s : DB) (w : IpamDB) : IpamDB := mkIpamDB s (vrfs w) (prefixes w) (prov_records w).

(** What the database promises about the integer keys it assigns. *)
Class RowIds := { next_id : list Z → Z; next_id_fresh ids : next_id ids ∉ ids }.

(** The smallest key above all others. *)
Definition above (ids : list Z) : Z := (foldr Z.max 0 ids + 1)%Z.

Lemma above_fresh ids : above ids ∉ ids.
Proof.
  assert (∀ i, i ∈ ids → (i ≤ foldr Z.max 0 ids)%Z) as Hle.
  { induction ids as [|j ids IH]; intros i; [set_solver|]. rewrite elem_of_cons. simpl.
    intros [-> |Hi]; [lia|]. specialize (IH i Hi). lia. }
  intros H%Hle. unfold above in H. lia.
Qed.

Definition max_row_ids : RowIds := {| next_id := above; next_id_fresh := above_fresh |}.

(** * The legacy pool *)

Record IPPool := mkPool { pool_key : string; cidr : string; next_index : Z }.

Definition host_count (n : IpNetwork) : Z := ((host_range n).2 - (host_range n).1 + 1)%Z.

Inductive PoolResult :=
  | BadCidr                        (* ValueError *)
  | PoolExhausted                  (* RuntimeError *)
  | BadIndex                       (* IndexError *)
  | Allocated (ip : string) (p : IPPool).

(** IPPool.allocate; a negative index counts from the end of the host list. *)
Definition allocate (p : IPPool) : PoolResult :=
  match ip_network true (cidr p) with
  | None => BadCidr
  | Some net =>
      let idx := (next_index p - 1)%Z in
      let n := host_count net in
      if (n <=? idx)%Z then PoolExhausted
      else
        let i := if (idx <? 0)%Z then (idx + n)%Z else idx in
        if (i <? 0)%Z then BadIndex
        else Allocated (str_ip (mkIp (net_version net) ((host_range net).1 + i)))
               (mkPool (pool_key p) (cidr p) (next_index p + 1))
  end.

(** * ensure_ipam_defaults *)

Section seeds.
Context {row_ids : RowIds}.

Definition vrf_by_name (name : string) (vs : list VRF) : option VRF :=
  find_row (λ v, String.eqb (vrf_name v) name) vs.

Definition ensure_vrf (name : string) (vs : list VRF) : list VRF :=
  match vrf_by_name name vs with
  | Some _ => vs
  | None => vs ++ [mkVRF (next_id (vrf_id <$> vs)) name]
  end.

Definition desired : list (string * string) := [
  ("core_mgmt", "10.252.0.0/24"); ("olt_mgmt", "10.251.0.0/24"); ("ont_mgmt", "10.250.0.0/16");
  ("aon_mgmt", "10.253.0.0/24"); ("cpe_mgmt", "10.254.0.0/24"); ("noc_tools", "10.250.10.0/24")].

Definition labelled (vrf : Z) (desc : string) (p : Prefix) : bool :=
  (prefix_vrf_id p =? vrf)%Z && bool_decide (description p = Some desc).

Definition has_cidr (vrf : Z) (net : string) (p : Prefix) : bool :=
  (prefix_vrf_id p =? vrf)%Z && String.eqb (prefix p) net.

Definition prefix_leb (p q : Prefix) : bool := (prefix_id p <=? prefix_id q)%Z.

Definition set_description (desc : string) (p : Prefix) : Prefix :=
  mkPrefix (prefix_id p) (prefix p) (prefix_vrf_id p) (Some desc).

(** One turn of the loop: of the rows with the label only the oldest stays; else
    a row with the network gets the label if it has none; else a row is added. *)
Definition ensure_prefix (vrf : Z) (ps : list Prefix) (d : string * string) : list Prefix :=
  let '(desc, net) := d in
  match head (sort_by prefix_leb (filter (λ p, labelled vrf desc p = true) ps)) with
  | Some keep => filter (λ p, labelled vrf desc p = true → prefix_id p = prefix_id keep) ps
  | None =>
      match find_row (has_cidr vrf net) ps with
      | Some e =>
          match truthy (description e) with
          | Some _ => ps
          | None => update_row (has_cidr vrf net) (set_description desc) ps
          end
      | None => ps ++ [mkPrefix (next_id (prefix_id <$> ps)) net vrf (Some desc)]
      end
  end.

Definition ensure_ipam_defaults (w : IpamDB) : IpamDB :=
  let vs := ensure_vrf "mgmt" (vrfs w) in
  match vrf_by_name "mgmt" vs with
  | Some mgmt =>
      mkIpamDB (base w) (ensure_vrf "internet" vs) (foldl (ensure_prefix (vrf_id mgmt)) (prefixes w) desired) (prov_records w)
  | None => w
  end.
End seeds.

(** * provisioning_ipam.py *)

Definition classify_prefix_role (t : DeviceType) : option string :=
  match t with
  | CORE_ROUTER | EDGE_ROUTER => Some "core_mgmt"
  | OLT => Some "olt_mgmt"
  | AON_SWITCH => Some "aon_mgmt"
  | ONT | BUSINESS_ONT => Some "ont_mgmt"
  | AON_CPE => Some "cpe_mgmt"
  | _ => None
  end.

(** An address row of the prefix with this address. *)
Definition taken_in (addrs : list InterfaceAddress) (p : Prefix) (ip : string) : bool :=
  existsb (λ a, bool_decide (addr_prefix_id a = Some (prefix_id p)) && String.eqb (addr_ip a) ip) addrs.

(** [for host in net.hosts()]: [n] hosts from [host]. *)
Fixpoint scan_hosts (taken : string → bool) (v : Version) (n : nat) (host : Z) : option string :=
  match n with
  | O => None
  | S n' =>
      let ip := str_ip (mkIp v host) in
      if taken ip then scan_hosts taken v n' (host + 1) else Some ip
  end.

(** The outer [None]: ValueError. *)
Definition next_free_ip_in_prefix (s : DB) (p : Prefix) : option (option (string * Z)) :=
  match ip_network true (prefix p) with
  | None => None
  | Some net =>
      Some ((λ ip, (ip, prefixlen net)) <$>
        scan_hosts (taken_in (addresses s) p) (net_version net) (Z.to_nat (host_count net)) (host_range net).1)
  end.

(** * The pool report: [api/endpoints/ipam.py] *)

Record PoolRow := mkPoolRow {
  row_pool_key : string; row_cidr : string; row_next_index : Z;
  row_allocated_count : Z; row_capacity : Z; row_utilization : float
}.

(** [None]: a prefix that is no network, reported as HTTP 500. *)
Definition prefix_pool_stats (p : Prefix) (allocated_count index : Z) : option PoolRow :=
  match ip_network true (prefix p) with
  | None => None
  | Some net =>
      let cap := host_count net in
      let alloc := Z.min allocated_count cap in
      Some (mkPoolRow (default (prefix p) (truthy (description p))) (prefix p) index alloc cap
              (if (cap =? 0)%Z then fzero else round_digits (fdiv (of_Z alloc) (of_Z cap)) 4))
  end.

Definition roles : list string := ["core_mgmt"; "olt_mgmt"; "aon_mgmt"; "ont_mgmt"; "cpe_mgmt"; "noc_tools"].

Definition allocated_in (s : DB) (p : Prefix) : Z :=
  Z.of_nat (length (filter (λ a, addr_prefix_id a = Some (prefix_id p)) (addresses s))).

(** [dev]: UNOC_DEV_FEATURES is set; what it seeds is not committed. *)
Definition list_pools {row_ids : RowIds} (dev : bool) (w : IpamDB) : option (list PoolRow) :=
  let w := if dev then ensure_ipam_defaults w else w in
  match vrf_by_name "mgmt" (vrfs w) with
  | None => Some []
  | Some mgmt =>
      let ps := filter (λ p, prefix_vrf_id p = vrf_id mgmt ∧ default "" (description p) ∈ roles) (prefixes w) in
      sort_by (λ r1 r2, str_leb (row_pool_key r1) (row_pool_key r2)) <$>
        mapM (λ p, prefix_pool_stats p (allocated_in (base w) p) 1) ps
  end.
