(* ===== verification/IpamProofs.v ===== *)
(** Address allocation and the default prefixes ([Ipam.v]): what the scan over the
    hosts returns, when a prefix is exhausted, and that seeding is idempotent. *)

From S2P Require Import Prelude PyFloat Models IpAddr Ipam.

(** * The scan over the hosts *)

Lemma scan_hosts_spec taken v n host :
  match scan_hosts taken v n host with
  | Some ip => ∃ k, k < n ∧ ip = str_ip (mkIp v (host + Z.of_nat k)) ∧ taken ip = false ∧
      ∀ j, j < k → taken (str_ip (mkIp v (host + Z.of_nat j))) = true
  | None => ∀ j, j < n → taken (str_ip (mkIp v (host + Z.of_nat j))) = true
  end.
Proof.
  revert host. induction n as [|n IH]; intros host; cbn [scan_hosts]; [lia|].
  destruct (taken (str_ip (mkIp v host))) eqn:E.
  - assert (∀ j, (host + 1 + Z.of_nat j = host + Z.of_nat (S j))%Z) as Hs by lia.
    specialize (IH (host + 1)%Z). destruct (scan_hosts taken v n (host + 1)).
    + destruct IH as (k & Hk & -> & Hf & Hb). exists (S k). rewrite Hs in *. split; [lia|]. do 2 (split; [done|]).
      intros [|j] Hj; [by rewrite Z.add_0_r|]. rewrite <-Hs. apply Hb. lia.
    + intros [|j] Hj; [by rewrite Z.add_0_r|]. rewrite <-Hs. apply IH. lia.
  - exists 0. rewrite Z.add_0_r. repeat split; [lia|done|lia].
Qed.

(** The hosts of a network, in order. *)
Definition is_host (net : IpNetwork) (n : Z) : Prop := ((host_range net).1 ≤ n ≤ (host_range net).2)%Z.

(** Hosts are addresses of the network. *)
Lemma host_in_network net n :
  net_ok net → is_host net n → ip_ok (mkIp (net_version net) n) ∧ ip_in (mkIp (net_version net) n) net = true.
Proof.
  intros Hok Hn. destruct Hok as [Hlen Hint Hhost]. revert Hn. unfold is_host, host_range, ip_ok. cbn [ip_int ip_version].
  set (w := width (net_version net)) in *. set (k := (w - prefixlen net)%Z) in *.
  assert (0 < 2 ^ k)%Z as Hk by (apply Z.pow_pos_nonneg; lia).
  intros Hn.
  assert (net_int net ≤ n < net_int net + 2 ^ k)%Z as Hr.
  { destruct (Z.leb_spec (w - 1) (prefixlen net)); [simpl in Hn; lia|]. destruct (net_version net); simpl in Hn; lia. }
  apply Z.mod_divide in Hhost as [q Hq]; [|lia].
  assert (2 ^ w = 2 ^ prefixlen net * 2 ^ k)%Z as Hw by (rewrite <-Z.pow_add_r; [f_equal|..]; lia).
  set (m := (2 ^ k)%Z) in *. set (r := (2 ^ prefixlen net)%Z) in *.
  assert (q + 1 ≤ r)%Z as Hqr by nia. assert ((q + 1) * m ≤ r * m)%Z as Hm by (apply Z.mul_le_mono_nonneg_r; lia).
  assert (n < 2 ^ w)%Z as Hnw by lia.
  split; [lia|]. unfold ip_in. cbn [ip_int ip_version]. rewrite bool_decide_eq_true_2 by done. simpl.
  apply Z.eqb_eq. rewrite land_netmask by (fold w; lia). fold w k m. rewrite Hq.
  f_equal. symmetry. apply Z.div_unique with (r := (n - q * m)%Z); lia.
Qed.

Lemma host_count_index net n :
  is_host net n → ∃ j, j < Z.to_nat (host_count net) ∧ n = ((host_range net).1 + Z.of_nat j)%Z.
Proof. unfold is_host, host_count. intros Hn. exists (Z.to_nat (n - (host_range net).1)). lia. Qed.

Lemma host_index net j : j < Z.to_nat (host_count net) → is_host net ((host_range net).1 + Z.of_nat j).
Proof. unfold is_host, host_count. lia. Qed.

Lemma taken_in_true addrs p ip :
  taken_in addrs p ip = true ↔ ∃ a, a ∈ addrs ∧ addr_prefix_id a = Some (prefix_id p) ∧ addr_ip a = ip.
Proof.
  unfold taken_in. rewrite existsb_exists. setoid_rewrite list_elem_of_In.
  split; intros (a & Ha & H); exists a; (split; [done|]).
  - apply andb_true_iff in H as [H1%bool_decide_eq_true H2%String.eqb_eq]. done.
  - destruct H as [H1 H2]. apply andb_true_iff. rewrite bool_decide_eq_true, String.eqb_eq. done.
Qed.

(** A prefix whose rows are fewer than its hosts is not exhausted (IPv4). *)
Lemma scan_not_exhausted addrs p net :
  net_ok net → net_version net = V4 →
  (Z.of_nat (length (filter (λ a, addr_prefix_id a = Some (prefix_id p)) addrs)) < host_count net)%Z →
  is_Some (scan_hosts (taken_in addrs p) V4 (Z.to_nat (host_count net)) (host_range net).1).
Proof.
  intros Hok Hv Hlt. set (rows := filter _ addrs) in Hlt. set (n := Z.to_nat (host_count net)).
  pose proof (scan_hosts_spec (taken_in addrs p) V4 n (host_range net).1) as Hs.
  destruct (scan_hosts _ _ _ _) as [ip|]; [by eexists|exfalso].
  set (f := λ j : nat, str_ip (mkIp V4 ((host_range net).1 + Z.of_nat j))).
  assert (NoDup (f <$> seq 0 n)) as Hnd.
  { apply NoDup_fmap_2_strong; [|apply NoDup_seq]. intros i j Hi Hj E. apply elem_of_seq in Hi, Hj.
    assert (∀ m : nat, (m < n)%nat → (0 ≤ (host_range net).1 + Z.of_nat m < 2 ^ 32)%Z) as Hr.
    { intros m Hm. apply host_index in Hm. apply host_in_network in Hm as [Hm _]; [|done]. unfold ip_ok in Hm. by rewrite Hv in Hm. }
    unfold f, str_ip in E. simpl in E. apply ipv4_string_inj in E; [lia|apply Hr; lia..]. }
  assert (f <$> seq 0 n ⊆ addr_ip <$> rows) as Hsub.
  { intros ip (j & -> & Hj%elem_of_seq)%list_elem_of_fmap. specialize (Hs j ltac:(lia)).
    apply taken_in_true in Hs as (a & Ha & Hp & Hip). unfold f. rewrite <-Hip. apply list_elem_of_fmap_2.
    apply list_elem_of_filter. done. }
  apply NoDup_submseteq in Hsub; [|done]. apply submseteq_length in Hsub.
  rewrite !length_fmap, length_seq in Hsub. lia.
Qed.

(** C35. Allocation.  The next address of a prefix is the text of its first host,
    in numeric order, that no address row of the prefix holds; there is none
    exactly when every host is taken, and a prefix that is no network raises.
    For an IPv4 prefix the text parses back to an address inside the network,
    and with fewer rows than hosts an address is always found. *)
Theorem next_free_ip_spec s p :
  match ip_network true (prefix p) with
  | None => next_free_ip_in_prefix s p = None
  | Some net =>
      match next_free_ip_in_prefix s p with
      | None => False
      | Some None => ∀ n, is_host net n → taken_in (addresses s) p (str_ip (mkIp (net_version net) n)) = true
      | Some (Some (ip, plen)) => plen = prefixlen net ∧ taken_in (addresses s) p ip = false ∧
          ∃ n, is_host net n ∧ ip = str_ip (mkIp (net_version net) n) ∧ ip_in (mkIp (net_version net) n) net = true ∧
            (net_version net = V4 → ip_address ip = Some (mkIp V4 n)) ∧
            ∀ m, is_host net m → (m < n)%Z → taken_in (addresses s) p (str_ip (mkIp (net_version net) m)) = true
      end ∧
      (net_version net = V4 → (allocated_in s p < host_count net)%Z → is_Some (next_free_ip_in_prefix s p ≫= id))
  end.
Proof.
  unfold next_free_ip_in_prefix. destruct (ip_network true (prefix p)) as [net|] eqn:E; [|done].
  apply ip_network_ok in E as Hok. set (taken := taken_in (addresses s) p).
  pose proof (scan_hosts_spec taken (net_version net) (Z.to_nat (host_count net)) (host_range net).1) as Hs.
  pose proof (scan_not_exhausted (addresses s) p net Hok) as Hne.
  split.
  - destruct (scan_hosts _ _ _ _) as [ip|]; simpl.
    + destruct Hs as (k & Hk & -> & Hf & Hb). split; [done|]. split; [done|].
      apply host_index in Hk as Hh. destruct (host_in_network _ _ Hok Hh) as [Hr Hin].
      eexists. split; [exact Hh|]. split; [done|]. split; [done|]. split.
      * intros Hv. unfold ip_address, str_ip, ip_ok in *. rewrite Hv in *. simpl in *. by rewrite parse_ipv4_string.
      * intros m Hm Hlt. destruct (host_count_index _ _ Hm) as (j & Hj & ->). apply Hb. lia.
    + intros n Hn. destruct (host_count_index _ _ Hn) as (j & Hj & ->). by apply Hs.
  - intros Hv Hlt. specialize (Hne Hv Hlt). rewrite Hv. fold taken in Hne. destruct Hne as [ip ->]. by eexists.
Qed.

(** * The default prefixes *)

Section seeds.
Context {row_ids : RowIds}.
Implicit Types (ps : list Prefix) (vrf : Z).

(** No label is carried by two rows. *)
Definition labels_unique vrf ps : Prop := ∀ desc, length (filter (λ p, labelled vrf desc p = true) ps) ≤ 1.

(** A label whose turn of the loop does nothing. *)
Definition settled vrf ps (d : string * string) : Prop :=
  (∃ p, p ∈ ps ∧ labelled vrf d.1 p = true) ∨
  (∃ e, find_row (has_cidr vrf d.2) ps = Some e ∧ is_Some (truthy (description e))).

Lemma labelled_sort_nil vrf desc ps :
  head (sort_by prefix_leb (filter (λ p, labelled vrf desc p = true) ps)) = None ↔
  ∀ p, p ∈ ps → labelled vrf desc p = false.
Proof.
  split.
  - destruct (sort_by _ _) eqn:E; [|done]. intros _ p Hp. apply not_true_iff_false. intros Hl.
    apply sort_by_nil in E. assert (p ∈ filter (λ p, labelled vrf desc p = true) ps) as Hin by by apply list_elem_of_filter.
    rewrite E in Hin. by apply elem_of_nil in Hin.
  - intros Hno. assert (filter (λ p, labelled vrf desc p = true) ps = []) as ->; [|done].
    induction ps as [|p ps IH]; [done|]. rewrite filter_cons_False; [apply IH; set_solver|].
    rewrite Hno by set_solver. done.
Qed.

Lemma ensure_prefix_cases vrf ps d :
  labels_unique vrf ps →
  (settled vrf ps d ∧ ensure_prefix vrf ps d = ps) ∨
  ((∀ p, p ∈ ps → labelled vrf d.1 p = false) ∧
   ((∃ e, find_row (has_cidr vrf d.2) ps = Some e ∧ truthy (description e) = None ∧
       ensure_prefix vrf ps d = update_row (has_cidr vrf d.2) (set_description d.1) ps) ∨
    (find_row (has_cidr vrf d.2) ps = None ∧
     ensure_prefix vrf ps d = ps ++ [mkPrefix (next_id (prefix_id <$> ps)) d.2 vrf (Some d.1)]))).
Proof.
  intros Hu. destruct d as [desc net]. cbn [ensure_prefix fst snd].
  destruct (head _) as [keep|] eqn:E.
  - left. assert (keep ∈ filter (λ p, labelled vrf desc p = true) ps) as Hk.
    { apply (elem_of_sort_by prefix_leb). destruct (sort_by _ _); [done|]. simpl in E. injection E as ->. set_solver. }
    apply list_elem_of_filter in Hk as Hk'. split; [left; exists keep; by destruct Hk'|].
    apply filter_all. intros p Hp Hl.
    assert (p ∈ filter (λ p, labelled vrf desc p = true) ps) as Hpf by by apply list_elem_of_filter.
    specialize (Hu desc). destruct (filter _ ps) as [|x [|]]; [set_solver| |simpl in Hu; lia].
    apply list_elem_of_singleton in Hk, Hpf. congruence.
  - rewrite labelled_sort_nil in E. destruct (find_row (has_cidr vrf net) ps) as [e|] eqn:Ef.
    + destruct (truthy (description e)) eqn:Et.
      * left. split; [|done]. right. exists e. by rewrite Et.
      * right. split; [done|]. left. by exists e.
    + right. split; [done|]. by right.
Qed.

Lemma labelled_truthy vrf desc p : desc ≠ "" → labelled vrf desc p = true → truthy (description p) = Some desc.
Proof. intros Hd [_ H%bool_decide_eq_true]%andb_true_iff. apply truthy_Some. by rewrite H. Qed.

Lemma update_filter_le {A} (P : A → Prop) `{∀ x, Decision (P x)} (q : A → bool) f l :
  (∀ r, ¬ P (f r)) → length (filter P (update_row q f l)) ≤ length (filter P l).
Proof.
  intros Hf. induction l as [|r l IH]; simpl; [done|]. destruct (q r).
  - rewrite filter_cons_False by apply Hf. rewrite filter_cons. case_decide; simpl; lia.
  - rewrite !filter_cons. case_decide; simpl; lia.
Qed.

Lemma update_filter_one {A} (P : A → Prop) `{∀ x, Decision (P x)} (q : A → bool) f l :
  (∀ r, r ∈ l → ¬ P r) → length (filter P (update_row q f l)) ≤ 1.
Proof.
  intros Hl. assert (∀ k : list A, (∀ r, r ∈ k → ¬ P r) → filter P k = []) as Hnil.
  { clear. intros k Hk. induction k as [|r k IH]; [done|]. rewrite filter_cons_False by (apply Hk; set_solver). apply IH. set_solver. }
  induction l as [|r l IH]; simpl; [lia|]. destruct (q r).
  - rewrite filter_cons. rewrite (Hnil l) by set_solver. case_decide; simpl; lia.
  - rewrite filter_cons_False by (apply Hl; set_solver). apply IH. set_solver.
Qed.

Lemma labelled_set vrf desc desc' p : labelled vrf desc' (set_description desc p) = true → desc = desc'.
Proof. intros [_ H%bool_decide_eq_true]%andb_true_iff. simpl in H. congruence. Qed.

Lemma ensure_prefix_unique vrf ps d : labels_unique vrf ps → labels_unique vrf (ensure_prefix vrf ps d).
Proof.
  intros Hu desc. destruct (ensure_prefix_cases vrf ps d Hu) as [[_ ->]|[Hno [(e & _ & _ & ->)|[_ ->]]]]; [apply Hu|..].
  - destruct (decide (d.1 = desc)) as [<-|Hne].
    + apply update_filter_one. intros r Hr. by rewrite Hno.
    + etrans; [apply update_filter_le|apply Hu]. intros r Hl%labelled_set. done.
  - rewrite filter_app, length_app. destruct (decide (d.1 = desc)) as [<-|Hne].
    + assert (filter (λ p, labelled vrf d.1 p = true) ps = []) as ->.
      { apply elem_of_nil_inv. intros q [Hl Hq]%list_elem_of_filter. by rewrite Hno in Hl. }
      rewrite filter_cons. case_decide; simpl; lia.
    + rewrite filter_cons_False; [simpl; rewrite Nat.add_0_r; apply Hu|].
      intros [_ Hl%bool_decide_eq_true]%andb_true_iff. simpl in Hl. congruence.
Qed.

Lemma find_update_row {A} (q : A → bool) f l e :
  (∀ r, q (f r) = q r) → find_row q l = Some e → find_row q (update_row q f l) = Some (f e).
Proof.
  intros Hq. induction l as [|r l IH]; simpl; [done|]. destruct (q r) eqn:E; simpl; rewrite ?Hq, E; [congruence|done].
Qed.

(** A row whose attribute changes is not the first of another condition it never meets. *)
Lemma find_update_keep {A} (q q' : A → bool) f l e e' :
  find_row q l = Some e → find_row q' l = Some e' → e ≠ e' → (∀ r, q (f r) = q r) →
  find_row q (update_row q' f l) = Some e ∨ find_row q (update_row q' f l) = Some (f e').
Proof.
  intros Hq Hq' Hne Hf. revert Hq Hq'. induction l as [|r l IH]; simpl; [done|].
  destruct (q' r) eqn:Eq', (q r) eqn:Eq; intros; simplify_eq; simpl; rewrite ?Hf, ?Eq; auto.
Qed.

(** After its turn a label is settled, and the turns of other labels keep it so. *)
Lemma ensure_prefix_settles vrf ps d : labels_unique vrf ps → settled vrf (ensure_prefix vrf ps d) d.
Proof.
  intros Hu. destruct (ensure_prefix_cases vrf ps d Hu) as [[Hs ->]|[_ [(e & He & _ & ->)|[_ ->]]]]; [done|..].
  - left. assert (set_description d.1 e ∈ update_row (has_cidr vrf d.2) (set_description d.1) ps) as Hin.
    { apply (find_update_row _ (set_description d.1)) in He; [|done]. by apply find_row_Some in He as [? _]. }
    eexists. split; [exact Hin|]. apply find_row_Some in He as [_ [Hv _]%andb_true_iff]. unfold labelled. simpl.
    rewrite Hv. by rewrite bool_decide_eq_true_2.
  - left. eexists. split; [apply elem_of_app; right; by apply list_elem_of_singleton|].
    unfold labelled. simpl. by rewrite Z.eqb_refl, bool_decide_eq_true_2.
Qed.

Lemma elem_update_row {A} (q : A → bool) f l r e :
  find_row q l = Some e → r ∈ l → r = e ∨ r ∈ update_row q f l.
Proof.
  induction l as [|x l IH]; simpl; [done|]. destruct (q x); rewrite !elem_of_cons; [intros [= ->]; naive_solver|].
  intros He [->|Hr]; [auto|]. destruct (IH He Hr); auto.
Qed.

Lemma ensure_prefix_keeps vrf ps d e :
  labels_unique vrf ps → d.1 ≠ "" → e.1 ≠ "" → settled vrf ps e → settled vrf (ensure_prefix vrf ps d) e.
Proof.
  intros Hu Hd He Hs. destruct (ensure_prefix_cases vrf ps d Hu) as [[_ ->]|[_ [(x & Hx & Hf & ->)|[_ ->]]]]; [done|..].
  - destruct Hs as [(p & Hp & Hl)|(y & Hy & Ht)].
    + left. exists p. split; [|done]. destruct (elem_update_row _ (set_description d.1) _ _ _ Hx Hp) as [->|]; [|done].
      apply labelled_truthy in Hl; [congruence|done].
    + right. destruct (find_update_keep (has_cidr vrf e.2) (has_cidr vrf d.2) (set_description d.1) ps y x Hy Hx) as [-> | ->];
        [by intros ->; rewrite Hf in Ht; destruct Ht|done|by exists y|].
      eexists. split; [done|]. exists d.1. by apply truthy_Some.
  - destruct Hs as [(p & Hp & Hl)|(y & Hy & Ht)]; [left|right].
    + exists p. set_solver.
    + exists y. by rewrite find_row_app, Hy.
Qed.

Lemma ensure_settled vrf ps d : labels_unique vrf ps → settled vrf ps d → d.1 ≠ "" → ensure_prefix vrf ps d = ps.
Proof.
  intros Hu Hs Hd. destruct (ensure_prefix_cases vrf ps d Hu) as [[_ ->]|[Hno Hc]]; [done|exfalso].
  destruct Hs as [(p & Hp & Hl)|(y & Hy & Ht)]; [by rewrite Hno in Hl|].
  destruct Hc as [(e & He & Hf & _)|[He _]]; rewrite Hy in He; [|done].
  injection He as ->. rewrite Hf in Ht. by destruct Ht.
Qed.

Lemma ensure_all vrf ds ps :
  (∀ d, d ∈ ds → d.1 ≠ "") → labels_unique vrf ps →
  labels_unique vrf (foldl (ensure_prefix vrf) ps ds) ∧
  (∀ e, e.1 ≠ "" → settled vrf ps e → settled vrf (foldl (ensure_prefix vrf) ps ds) e) ∧
  (∀ d, d ∈ ds → settled vrf (foldl (ensure_prefix vrf) ps ds) d).
Proof.
  revert ps. induction ds as [|d ds IH]; intros ps Hne Hu; simpl; [set_solver|].
  destruct (IH (ensure_prefix vrf ps d)) as (H1 & H2 & H3); [set_solver|by apply ensure_prefix_unique|].
  assert (d.1 ≠ "") as Hd by (apply Hne; set_solver).
  split; [done|]. split.
  - intros e He Hs. apply H2; [done|]. by apply ensure_prefix_keeps.
  - intros x [->|Hx]%elem_of_cons; [|by apply H3]. apply H2; [done|]. by apply ensure_prefix_settles.
Qed.

Lemma ensure_none vrf ds ps :
  (∀ d, d ∈ ds → d.1 ≠ "") → labels_unique vrf ps → (∀ d, d ∈ ds → settled vrf ps d) →
  foldl (ensure_prefix vrf) ps ds = ps.
Proof.
  intros Hne Hu. induction ds as [|d ds IH]; intros Hs; simpl; [done|].
  rewrite ensure_settled; [apply IH; set_solver|done|apply Hs; set_solver|apply Hne; set_solver].
Qed.

Lemma vrf_ensured name vs : is_Some (vrf_by_name name (ensure_vrf name vs)).
Proof.
  unfold ensure_vrf. destruct (vrf_by_name name vs) eqn:E; [by rewrite E|]. unfold vrf_by_name in *.
  rewrite find_row_app, E. simpl. rewrite String.eqb_refl. by eexists.
Qed.

Lemma vrf_kept name other vs v : vrf_by_name name vs = Some v → vrf_by_name name (ensure_vrf other vs) = Some v.
Proof. intros Hv. unfold ensure_vrf. case_match; [done|]. unfold vrf_by_name in *. by rewrite find_row_app, Hv. Qed.

Lemma ensure_vrf_present name vs : is_Some (vrf_by_name name vs) → ensure_vrf name vs = vs.
Proof. intros [v Hv]. unfold ensure_vrf. by rewrite Hv. Qed.

Lemma desired_labels d : d ∈ desired → d.1 ≠ "".
Proof. unfold desired. intros Hd. repeat (apply elem_of_cons in Hd as [->|Hd]; [done|]). set_solver. Qed.

(** What the defaults are: the management VRF, and for every role a prefix that
    carries its label, or a described prefix with its network. *)
Definition defaults_present (w : IpamDB) : Prop :=
  ∃ mgmt, vrf_by_name "mgmt" (vrfs w) = Some mgmt ∧ ∀ d, d ∈ desired → settled (vrf_id mgmt) (prefixes w) d.

(** Seeding the address management tables is complete and idempotent.  When
    no label is carried by two prefixes of the management VRF, seeding leaves
    every default in place - the VRFs, and for every role a labelled prefix or
    an already described prefix with the same network - keeps the labels unique,
    touches no other table, and a second seeding changes nothing. *)
Lemma ensure_ipam_defaults_idempotent w :
  (∀ mgmt, vrf_by_name "mgmt" (ensure_vrf "mgmt" (vrfs w)) = Some mgmt → labels_unique (vrf_id mgmt) (prefixes w)) →
  let w' := ensure_ipam_defaults w in
  defaults_present w' ∧ is_Some (vrf_by_name "internet" (vrfs w')) ∧
  (∀ mgmt, vrf_by_name "mgmt" (vrfs w') = Some mgmt → labels_unique (vrf_id mgmt) (prefixes w')) ∧
  base w' = base w ∧ prov_records w' = prov_records w ∧ ensure_ipam_defaults w' = w'.
Proof.
  intros Hu. destruct (vrf_ensured "mgmt" (vrfs w)) as [mgmt Hm]. specialize (Hu mgmt Hm).
  assert (ensure_ipam_defaults w = mkIpamDB (base w) (ensure_vrf "internet" (ensure_vrf "mgmt" (vrfs w)))
    (foldl (ensure_prefix (vrf_id mgmt)) (prefixes w) desired) (prov_records w)) as -> by (unfold ensure_ipam_defaults; by rewrite Hm).
  cbv zeta.
  destruct (ensure_all (vrf_id mgmt) desired (prefixes w) desired_labels Hu) as (H1 & _ & H3).
  apply (vrf_kept "mgmt" "internet") in Hm as Hm'. unfold defaults_present. cbn [vrfs prefixes base prov_records].
  split; [by exists mgmt|]. split; [apply vrf_ensured|].
  split; [intros m Hm2; by replace m with mgmt by congruence|]. do 2 (split; [done|]).
  unfold ensure_ipam_defaults. cbn [vrfs prefixes base prov_records]. rewrite (ensure_vrf_present "mgmt") by (by rewrite Hm').
  rewrite Hm', (ensure_vrf_present "internet") by apply vrf_ensured.
  by rewrite (ensure_none _ desired) by (first [apply desired_labels|done]).
Qed.
End seeds.

(** An empty installation: both VRFs and the six prefixes are created. *)
Definition empty_ipam : IpamDB := mkIpamDB empty_db [] [] [].

Lemma ensure_ipam_defaults_idempotent_witness :
  let w' := ensure_ipam_defaults (row_ids := max_row_ids) empty_ipam in
  length (prefixes w') = 6 ∧ ensure_ipam_defaults (row_ids := max_row_ids) w' = w'.
Proof.
  split; [reflexivity|]. refine (proj2 (proj2 (proj2 (proj2 (proj2
    (ensure_ipam_defaults_idempotent (row_ids := max_row_ids) empty_ipam _)))))).
  intros mgmt _ desc. simpl. lia.
Defined.

(** Two rows with one label can make the first seeding incomplete: the row that
    stood in for another role is deleted after that role was passed. *)
Example defaults_need_unique_labels :
  let w := mkIpamDB empty_db [mkVRF 1 "mgmt"]
             [mkPrefix 1 "10.9.0.0/24" 1 (Some "olt_mgmt"); mkPrefix 2 "10.252.0.0/24" 1 (Some "olt_mgmt")] [] in
  let seed := ensure_ipam_defaults (row_ids := max_row_ids) in
  length (prefixes (seed w)) = 5 ∧ length (prefixes (seed (seed w))) = 6.
Proof. vm_compute. done. Qed.
