(* ===== verification/MacAllocator.v ===== *)
(** MAC address allocation: [services/mac_allocator.py].

    A 24-bit counter under a locally administered OUI, kept in process memory and
    persisted in a one-row table, with a process-local set of addresses already
    given out.  The state below is the module's globals and that row. *)

From Stdlib Require Import Ascii.
From S2P Require Import Prelude.
Local Open Scope Z_scope.

(** [f"{b:02x}"] for a byte. *)
Definition hex_digit (d : Z) : ascii :=
  default "0"%char (String.get (Z.to_nat d) "0123456789abcdef").

Definition hex2 (b : Z) : string := String (hex_digit (b / 16)) (String (hex_digit (b mod 16)) "").

(** [":".join(...)] *)
Fixpoint join_colon (l : list string) : string :=
  match l with
  | [] => ""
  | [x] => x
  | x :: l' => String.append x (String.append ":" (join_colon l'))
  end.

Definition format_mac (n : Z) : string :=
  let n := Z.land n 0xFFFFFF in
  let b3 := Z.land (Z.shiftr n 16) 0xFF in
  let b4 := Z.land (Z.shiftr n 8) 0xFF in
  let b5 := Z.land n 0xFF in
  join_colon (hex2 <$> [0x02; 0x55; 0x4E; b3; b4; b5]).

(** ** State *)

Record MacState := mkMac {
  last : Z;                     (* _STATE.last *)
  used : gset string;           (* _USED *)
  stored : option Z             (* the committed row of mac_allocator_state *)
}.

(** What the database does during one call. *)
Inductive DbOutcome := NoSession | LoadFails | StoreFails | DbOk.

(** A new process keeps only the table. *)
Definition restart (st : MacState) : MacState := mkMac (-1) ∅ (stored st).
Definition fresh_state : MacState := mkMac (-1) ∅ None.

(** [while mac in _USED: _STATE.last += 1; mac = _format_mac(_STATE.last)] *)
Fixpoint skip_used (fuel : nat) (used : gset string) (n : Z) : option (Z * string) :=
  let mac := format_mac n in
  if decide (mac ∈ used) then
    match fuel with O => None | S fuel' => skip_used fuel' used (n + 1) end
  else Some (n, mac).

(** One more probe than there are used addresses. *)
Definition probe (used : gset string) (n : Z) : option (Z * string) := skip_used (size used) used n.

(** The in-memory path at the end of [next_mac]. *)
Definition next_in_memory (st : MacState) : option (string * MacState) :=
  match probe (used st) (if last st <? 0 then 0 else last st + 1) with
  | None => None
  | Some (n, mac) => Some (mac, mkMac n ({[mac]} ∪ used st) (stored st))
  end.

Definition next_mac (db : DbOutcome) (st : MacState) : option (string * MacState) :=
  match db with
  | NoSession => next_in_memory st
  | LoadFails =>
      (* raised before the counter moves, when a load is needed at all *)
      if last st <? 0 then next_in_memory st
      else
        match probe (used st) (last st + 1) with
        | None => None
        | Some (n, mac) => Some (mac, mkMac n ({[mac]} ∪ used st) (Some n))
        end
  | StoreFails =>
      let cur := if last st <? 0 then default (-1) (stored st) else last st in
      match probe (used st) (cur + 1) with
      | None => None
      | Some (n, mac) => next_in_memory (mkMac n ({[mac]} ∪ used st) (stored st))
      end
  | DbOk =>
      let cur := if last st <? 0 then default (-1) (stored st) else last st in
      match probe (used st) (cur + 1) with
      | None => None
      | Some (n, mac) => Some (mac, mkMac n ({[mac]} ∪ used st) (Some n))
      end
  end.

(** * Formatting *)

Definition CAP : Z := 2 ^ 24.

Lemma hex2_inj a b : 0 ≤ a < 256 → 0 ≤ b < 256 → hex2 a = hex2 b → a = b.
Proof.
  intros Ha Hb.
  assert (∀ x y, x ∈ seq 0 16 → y ∈ seq 0 16 → hex_digit (Z.of_nat x) = hex_digit (Z.of_nat y) → x = y) as Hd.
  { assert (forallb (λ x, forallb (λ y, negb (Ascii.eqb (hex_digit (Z.of_nat x)) (hex_digit (Z.of_nat y))) || (x =? y)%nat)
      (seq 0 16)) (seq 0 16) = true) as Hall by (vm_compute; reflexivity).
    rewrite forallb_forall in Hall. intros x y Hx Hy E. apply list_elem_of_In in Hx, Hy.
    specialize (Hall x Hx). rewrite forallb_forall in Hall. specialize (Hall y Hy).
    rewrite E, Ascii.eqb_refl in Hall. simpl in Hall. by apply Nat.eqb_eq. }
  assert (∀ x y, 0 ≤ x < 16 → 0 ≤ y < 16 → hex_digit x = hex_digit y → x = y) as Hz.
  { intros x y Hx Hy E. rewrite <-(Z2Nat.id x), <-(Z2Nat.id y) in E by lia.
    apply Hd in E; [lia|apply elem_of_seq; lia..]. }
  unfold hex2. intros [= E1 E2].
  pose proof (Z.div_mod a 16 ltac:(lia)). pose proof (Z.div_mod b 16 ltac:(lia)).
  apply Hz in E1; [|split; [apply Z.div_pos; lia|apply Z.div_lt_upper_bound; lia]..].
  apply Hz in E2; [|apply Z.mod_pos_bound; lia..]. lia.
Qed.

Lemma format_mac_bytes n :
  format_mac n = join_colon (hex2 <$> [0x02; 0x55; 0x4E; (n / 65536) mod 256; (n / 256) mod 256; n mod 256]).
Proof.
  unfold format_mac. change 0xFFFFFF with (Z.ones 24). change 0xFF with (Z.ones 8).
  rewrite !Z.land_ones, !Z.shiftr_div_pow2 by lia.
  change (2 ^ 24) with 16777216. change (2 ^ 16) with 65536. change (2 ^ 8) with 256.
  assert ((n mod 16777216 / 65536) mod 256 = (n / 65536) mod 256) as -> by (Z.div_mod_to_equations; lia).
  assert ((n mod 16777216 / 256) mod 256 = (n / 256) mod 256) as -> by (Z.div_mod_to_equations; lia).
  assert ((n mod 16777216) mod 256 = n mod 256) as -> by (Z.div_mod_to_equations; lia).
  reflexivity.
Qed.

Lemma mac_text_inj a b c x y z :
  0 ≤ a < 256 → 0 ≤ b < 256 → 0 ≤ c < 256 → 0 ≤ x < 256 → 0 ≤ y < 256 → 0 ≤ z < 256 →
  join_colon (hex2 <$> [0x02; 0x55; 0x4E; a; b; c]) = join_colon (hex2 <$> [0x02; 0x55; 0x4E; x; y; z]) →
  a = x ∧ b = y ∧ c = z.
Proof.
  intros Ha Hb Hc Hx Hy Hz. cbn [fmap list_fmap join_colon]. unfold hex2. cbn [String.append].
  intros [= E1 E2 E3 E4 E5 E6].
  split; [|split]; apply hex2_inj; try done; unfold hex2; congruence.
Qed.

(** Two counters give the same address exactly when they agree on 24 bits. *)
Lemma format_mac_eq n m : format_mac n = format_mac m ↔ n mod CAP = m mod CAP.
Proof.
  rewrite !format_mac_bytes. change CAP with 16777216. split.
  - intros (E1 & E2 & E3)%mac_text_inj; [|apply Z.mod_pos_bound; lia..].
    Z.div_mod_to_equations. lia.
  - intros E.
    assert ((n / 65536) mod 256 = (m / 65536) mod 256) as -> by (Z.div_mod_to_equations; lia).
    assert ((n / 256) mod 256 = (m / 256) mod 256) as -> by (Z.div_mod_to_equations; lia).
    assert (n mod 256 = m mod 256) as -> by (Z.div_mod_to_equations; lia).
    reflexivity.
Qed.

(** * Probing *)

Lemma skip_used_spec fuel used n m mac :
  skip_used fuel used n = Some (m, mac) →
  n ≤ m ∧ mac = format_mac m ∧ (mac ∉ used) ∧ ∀ k, n ≤ k < m → format_mac k ∈ used.
Proof.
  revert n. induction fuel as [|fuel IH]; intros n; simpl; case_decide as Hn; try done.
  - intros [= <- <-]. split; [lia|]. split; [done|]. split; [done|lia].
  - intros (H1 & H2 & H3 & H4)%IH. split; [lia|]. split; [done|]. split; [done|]. intros k Hk.
    destruct (decide (k = n)) as [->|]; [done|]. apply H4. lia.
  - intros [= <- <-]. split; [lia|]. split; [done|]. split; [done|lia].
Qed.

Lemma skip_used_None fuel used n :
  skip_used fuel used n = None → ∀ i, (i ≤ fuel)%nat → format_mac (n + Z.of_nat i) ∈ used.
Proof.
  revert n. induction fuel as [|fuel IH]; intros n; simpl; case_decide as Hn; try done.
  - intros _ i Hi. assert (i = 0%nat) as -> by lia. by rewrite Z.add_0_r.
  - intros Hs [|i] Hi; [by rewrite Z.add_0_r|].
    replace (n + Z.of_nat (S i)) with (n + 1 + Z.of_nat i) by lia. apply IH; [done|lia].
Qed.

Lemma consecutive_mod a b n : 0 ≤ a < CAP → 0 ≤ b < CAP → (n + a) mod CAP = (n + b) mod CAP → a = b.
Proof. change CAP with 16777216. intros. Z.div_mod_to_equations. lia. Qed.

(** As long as an address is left, a probe finds it. *)
Lemma probe_total used n : Z.of_nat (size used) < CAP → is_Some (probe used n).
Proof.
  intros Hs. unfold probe. destruct (skip_used (size used) used n) as [r|] eqn:E; [done|].
  exfalso. pose proof (skip_used_None _ _ _ E) as Hall.
  set (l := (λ i, format_mac (n + Z.of_nat i)) <$> seq 0 (S (size used))).
  assert (NoDup l) as Hnd.
  { apply NoDup_fmap_2_strong; [|apply NoDup_seq]. intros i j Hi%elem_of_seq Hj%elem_of_seq.
    rewrite format_mac_eq. intros Hij%consecutive_mod; lia. }
  assert (size (list_to_set l : gset string) ≤ size used)%nat as Hle.
  { apply subseteq_size. intros x (i & -> & Hi%elem_of_seq)%elem_of_list_to_set%list_elem_of_fmap.
    apply Hall. lia. }
  rewrite size_list_to_set in Hle by done. unfold l in Hle. rewrite length_fmap, length_seq in Hle. lia.
Qed.

Lemma probe_spec used n :
  Z.of_nat (size used) < CAP →
  ∃ m, probe used n = Some (m, format_mac m) ∧ n ≤ m ∧ format_mac m ∉ used.
Proof.
  intros [[m mac] E]%(probe_total used n). exists m. unfold probe in *.
  destruct (skip_used_spec _ _ _ _ _ E) as (? & -> & ? & _). done.
Qed.

Lemma probe_here used n : format_mac n ∉ used → probe used n = Some (n, format_mac n).
Proof. intros Hn. unfold probe. destruct (size used); simpl; by rewrite decide_False. Qed.

Lemma next_in_memory_fresh st :
  Z.of_nat (size (used st)) < CAP →
  ∃ mac st', next_in_memory st = Some (mac, st') ∧ (mac ∉ used st) ∧ used st' = {[mac]} ∪ used st.
Proof.
  intros Hs. unfold next_in_memory.
  destruct (probe_spec (used st) (if last st <? 0 then 0 else last st + 1) Hs) as (m & -> & _ & Hm). eauto.
Qed.

(** Every outcome of the database gives a fresh address and uses up at most two. *)
Lemma next_mac_run db st :
  Z.of_nat (size (used st)) + 1 < CAP →
  ∃ mac st', next_mac db st = Some (mac, st') ∧ (mac ∉ used st) ∧
    mac ∈ used st' ∧ used st ⊆ used st' ∧ (size (used st') ≤ size (used st) + 2)%nat.
Proof.
  intros Hs.
  assert (∀ st, Z.of_nat (size (used st)) < CAP → ∃ mac st', next_in_memory st = Some (mac, st') ∧
    (mac ∉ used st) ∧ mac ∈ used st' ∧ used st ⊆ used st' ∧ (size (used st') ≤ size (used st) + 1)%nat) as Hmem.
  { intros st0 Hs0. destruct (next_in_memory_fresh st0 Hs0) as (mac & st' & E & Hf & Hu).
    exists mac, st'. rewrite Hu, size_union, size_singleton by set_solver. split; [done|].
    split; [done|]. split; [set_solver|]. split; [set_solver|lia]. }
  assert (∀ n, ∃ m, probe (used st) n = Some (m, format_mac m) ∧ format_mac m ∉ used st) as Hp.
  { intros n. destruct (probe_spec (used st) n) as (m & ? & _ & ?); [lia|eauto]. }
  assert (∀ m o, format_mac m ∉ used st → ∃ mac st', Some (format_mac m, mkMac m ({[format_mac m]} ∪ used st) o) = Some (mac, st') ∧
    (mac ∉ used st) ∧ mac ∈ used st' ∧ used st ⊆ used st' ∧ (size (used st') ≤ size (used st) + 2)%nat) as Hadd.
  { intros m o Hm. eexists _, _. split; [done|]. simpl. rewrite size_union, size_singleton by set_solver.
    split; [done|]. split; [set_solver|]. split; [set_solver|lia]. }
  destruct db; simpl.
  - destruct (Hmem st) as (mac & st' & E & ? & ? & ? & ?); [lia|]. exists mac, st'. repeat split; try done. lia.
  - case_match; [destruct (Hmem st) as (mac & st' & E & ? & ? & ? & ?); [lia|]; exists mac, st'; repeat split; try done; lia|].
    destruct (Hp (last st + 1)) as (m & -> & Hm). by apply Hadd.
  - match goal with |- context [probe _ ?n] => destruct (Hp n) as (m & -> & Hm) end.
    destruct (Hmem (mkMac m ({[format_mac m]} ∪ used st) (stored st))) as (mac & st' & E & Hf & Hin & Hsub & Hsz);
      simpl in *; rewrite size_union, size_singleton in * by set_solver; [lia|].
    exists mac, st'. split; [done|]. split; [set_solver|]. split; [done|]. split; [set_solver|lia].
  - match goal with |- context [probe _ ?n] => destruct (Hp n) as (m & -> & Hm) end. by apply Hadd.
Qed.

(** An allocation never repeats an address of this process.  Whatever the
    database does (no session, a failing load or a failing commit), as long as
    two addresses are left the call returns, the address was not in use, and it
    is recorded as used together with all previous ones. *)
Lemma next_mac_fresh db st :
  Z.of_nat (size (used st)) + 1 < CAP →
  ∃ mac st', next_mac db st = Some (mac, st') ∧ (mac ∉ used st) ∧
    mac ∈ used st' ∧ used st ⊆ used st'.
Proof. intros Hs. destruct (next_mac_run db st Hs) as (mac & st' & ? & ? & ? & ? & _). by exists mac, st'. Qed.

Lemma next_mac_fresh_witness :
  ∃ mac st', next_mac StoreFails fresh_state = Some (mac, st') ∧ mac ∈ used st'.
Proof.
  destruct (next_mac_fresh StoreFails fresh_state) as (mac & st' & E & _ & Hin & _).
  - reflexivity.
  - exists mac, st'. split; [exact E|exact Hin].
Defined.

(** * Restarts *)

(** Allocations with a working database, and restarts of the process. *)
Inductive MacOp := Alloc | Restart.
#[export] Instance MacOp_eq_dec : EqDecision MacOp.
Proof. solve_decision. Defined.

Fixpoint run_mac (ops : list MacOp) (st : MacState) : option (list string) :=
  match ops with
  | [] => Some []
  | Restart :: ops' => run_mac ops' (restart st)
  | Alloc :: ops' =>
      match next_mac DbOk st with
      | None => None
      | Some (mac, st') => cons mac <$> run_mac ops' st'
      end
  end.

Definition allocs (ops : list MacOp) : nat := length (filter (λ o, o = Alloc) ops).

(** After [k] allocations the next counter value is [k]. *)
Record mac_inv (k : Z) (st : MacState) : Prop := {
  mi_cur : (if last st <? 0 then default (-1) (stored st) else last st) = k - 1;
  mi_stored : default (-1) (stored st) = k - 1;
  mi_used : ∀ m, m ∈ used st → ∃ j, 0 ≤ j < k ∧ m = format_mac j
}.

Lemma next_mac_counts k st :
  0 ≤ k < CAP → mac_inv k st → ∃ st', next_mac DbOk st = Some (format_mac k, st') ∧ mac_inv (k + 1) st'.
Proof.
  intros Hk [Hc Hs Hu]. simpl. rewrite Hc. replace (k - 1 + 1) with k by lia. rewrite probe_here.
  - eexists. split; [done|]. split; simpl.
    + destruct (Z.ltb_spec k 0); lia.
    + lia.
    + intros m [->%elem_of_singleton|(j & ? & ->)%Hu]%elem_of_union; [exists k|exists j]; (split; [lia|done]).
  - intros (j & Hj & E)%Hu. apply format_mac_eq in E. rewrite !Z.mod_small in E by lia. lia.
Qed.

Lemma run_mac_counts ops k st :
  mac_inv k st → 0 ≤ k → k + Z.of_nat (allocs ops) ≤ CAP →
  run_mac ops st = Some ((λ i, format_mac (k + Z.of_nat i)) <$> seq 0 (allocs ops)).
Proof.
  revert k st. induction ops as [|[] ops IH]; intros k st Hi Hk Hn; [done|..].
  - unfold allocs in *. rewrite filter_cons in *. rewrite decide_True in * by done. cbn [run_mac length] in *.
    destruct (next_mac_counts k st) as (st' & -> & Hi'); [lia|done|].
    rewrite (IH (k + 1)) by (done || lia). cbn [seq fmap list_fmap option_fmap option_map]. f_equal. f_equal.
    + f_equal. lia.
    + rewrite <-fmap_S_seq, <-list_fmap_compose. apply list_fmap_ext. intros i x _. simpl. f_equal. lia.
  - unfold allocs in *. rewrite filter_cons in *. rewrite decide_False in * by done. cbn [run_mac].
    apply IH; [|done|done]. destruct Hi as [Hc Hs Hu]. split; simpl; [done|done|set_solver].
Qed.

(** Addresses survive restarts.  With a working database, any interleaving
    of allocations and process restarts hands out the addresses of the counter
    values 0, 1, 2, ... in order, so no address is ever repeated until all
    2^24 of them are gone. *)
Lemma macs_unique_across_restarts ops :
  Z.of_nat (allocs ops) ≤ CAP →
  ∃ macs, run_mac ops fresh_state = Some macs ∧ NoDup macs ∧ length macs = allocs ops.
Proof.
  intros Hn. eexists. split; [apply (run_mac_counts ops 0); [|lia|lia]|].
  - split; simpl; [done|done|set_solver].
  - split; [|by rewrite length_fmap, length_seq].
    apply NoDup_fmap_2_strong; [|apply NoDup_seq]. intros i j Hi%elem_of_seq Hj%elem_of_seq.
    rewrite format_mac_eq. intros Hij%consecutive_mod; lia.
Qed.

Lemma macs_unique_across_restarts_witness :
  ∃ macs, run_mac [Alloc; Alloc; Restart; Alloc] fresh_state = Some macs ∧ NoDup macs ∧ length macs = 3%nat.
Proof.
  apply (macs_unique_across_restarts [Alloc; Alloc; Restart; Alloc]). vm_compute. discriminate.
Defined.
