(* ===== verification/Splitter.v ===== *)
(** Splitter ports and their use: [services/splitter_service.py].

    The service creates the default ports of a splitter, counts the ports in use
    and looks for the port that leads to an interface.  Its traversals step from
    an interface to the interface at the other end of a link. *)

From stdpp Require Import pretty.
From S2P Require Import Prelude PyFloat Models Worklist Scenario.

Definition DEFAULT_SPLIT_RATIO : nat := 32.

(** * ensure_default_ports_for_splitter *)

Definition port_names (n : nat) : list string :=
  "in" :: ((λ idx : nat, String.append "out" (pretty idx)) <$> seq 1 n).

Definition set_interfaces (is' : list Interface) (s : DB) : DB :=
  mkDB (devices s) is' (links s) (media s) (addresses s) (routes s) (neighbors s)
    (bridge_domains s) (mac_entries s).

Definition ensure_default_ports_for_splitter (s : DB) (splitter : Device) (ratio : option nat) : DB :=
  if negb (bool_decide (dev_type splitter = SPLITTER)) then s
  else
    let n := match ratio with Some (S m) => S m | _ => DEFAULT_SPLIT_RATIO end in
    let names := if_name <$> interfaces_of s (dev_id splitter) in
    let missing := filter (λ nm, nm ∉ names) (port_names n) in
    set_interfaces
      (interfaces s ++
       ((λ nm, interface0 (String.append (dev_id splitter) (String.append "-" nm)) (dev_id splitter) nm) <$> missing)) s.

(** * Traversal *)

(** [_iter_counterparts]: a link that joins an interface with itself is listed twice. *)
Definition counterparts (s : DB) (i : string) : list string :=
  l ← links s;
  (if String.eqb (a_interface_id l) i then [peer_interface l i] else []) ++
  (if String.eqb (b_interface_id l) i then [peer_interface l i] else []).

(** [dev_by_if.get(nb)], when it is a non-empty id. *)
Definition owner (s : DB) (i : string) : option string := truthy (if_to_dev s i).

Definition is_ont (s : DB) (d : string) : bool :=
  match get_device s d with Some r => mem (dev_type r) [ONT; BUSINESS_ONT] | None => false end.

(** One counterpart: count its device if it is an ONT, and queue it. *)
Definition look_at (s : DB) (visited : gset string) (st : list string * gset string) (nb : string)
    : list string * gset string :=
  if decide (nb ∈ visited) then st
  else
    match owner s nb with
    | None => st
    | Some d => (st.1 ++ [nb], if is_ont s d then {[d]} ∪ st.2 else st.2)
    end.

(** The loop of [has_ont_reachable]. *)
Fixpoint ont_loop (fuel : nat) (s : DB) (visited : gset string) (q : list string) (onts : gset string)
    : option (gset string) :=
  match q with
  | [] => Some onts
  | cur :: rest =>
      match fuel with
      | O => None
      | S fuel' =>
          if decide (cur ∈ visited) then ont_loop fuel' s visited rest onts
          else
            let visited' := {[cur]} ∪ visited in
            let '(q', onts') := foldl (look_at s visited') (rest, onts) (counterparts s cur) in
            ont_loop fuel' s visited' q' onts'
      end
  end.

(** An interface expands once, to its counterparts. *)
Definition splitter_fuel (s : DB) : nat :=
  S (sum_list_with (λ i, length (counterparts s i)) ((a_interface_id <$> links s) ++ (b_interface_id <$> links s))).

Definition onts_from (s : DB) (start_if : string) : option (gset string) :=
  ont_loop (splitter_fuel s) s ∅ [start_if] ∅.

Definition out_interfaces (s : DB) (splitter : Device) : list Interface :=
  let s_ifaces := interfaces_of s (dev_id splitter) in
  match filter (λ i, starts_with "out" (lower (if_name i)) = true) s_ifaces with
  | [] => filter (λ i, lower (if_name i) ≠ "in") s_ifaces
  | out => out
  end.

(** * compute_splitter_usage *)

Definition compute_splitter_usage (s : DB) (splitter : Device) : option (nat * nat * nat) :=
  if negb (bool_decide (dev_type splitter = SPLITTER)) then Some (0, 0, 0)
  else
    match out_interfaces s splitter with
    | [] => Some (0, 0, 0)
    | outs =>
        foldl (λ acc out_if,
          match acc, onts_from s (if_id out_if) with
          | Some (used, onts), Some o => Some ((if (0 <? size o)%nat then S used else used), o ∪ onts)
          | _, _ => None
          end) (Some (0, ∅ : gset string)) outs
        ≫= λ r, Some (length outs, r.1, size r.2)
    end.

(** * find_out_interface_reaching, out_interface_has_ont *)

Fixpoint reaches_loop (fuel : nat) (s : DB) (goal : string) (visited : gset string) (q : list string)
    : option bool :=
  match q with
  | [] => Some false
  | cur :: rest =>
      match fuel with
      | O => None
      | S fuel' =>
          if String.eqb cur goal then Some true
          else if decide (cur ∈ visited) then reaches_loop fuel' s goal visited rest
          else
            let visited' := {[cur]} ∪ visited in
            reaches_loop fuel' s goal visited' (push_fifo visited' rest (counterparts s cur))
      end
  end.

Fixpoint first_reaching (s : DB) (goal : string) (outs : list Interface) : option (option Interface) :=
  match outs with
  | [] => Some None
  | o :: outs' =>
      match reaches_loop (splitter_fuel s) s goal ∅ [if_id o] with
      | None => None
      | Some true => Some (Some o)
      | Some false => first_reaching s goal outs'
      end
  end.

Definition find_out_interface_reaching (s : DB) (splitter : Device) (target : string)
    : option (option Interface) :=
  if negb (bool_decide (dev_type splitter = SPLITTER)) then Some None
  else first_reaching s target (out_interfaces s splitter).

(** The test inside the loop: an unvisited counterpart on an ONT. *)
Definition meets_ont (s : DB) (visited : gset string) (cur : string) : bool :=
  existsb (λ nb, bool_decide (nb ∉ visited) && match owner s nb with Some d => is_ont s d | None => false end)
    (counterparts s cur).

Definition owned_counterparts (s : DB) (i : string) : list string :=
  filter (λ nb, is_Some (owner s nb)) (counterparts s i).

Definition out_interface_has_ont (s : DB) (out_if : string) : option bool :=
  explore_until push_fifo (owned_counterparts s) (meets_ont s) (splitter_fuel s) ∅ [out_if].

(** * Correctness *)

(** Creating the default ports is idempotent: a second call with the same
    ratio changes nothing, and after the call the splitter has an interface for
    every default port name. *)
Lemma default_ports_idempotent s d ratio :
  let s' := ensure_default_ports_for_splitter s d ratio in
  ensure_default_ports_for_splitter s' d ratio = s' ∧
  (dev_type d = SPLITTER → ∀ nm, nm ∈ port_names (match ratio with Some (S m) => S m | _ => DEFAULT_SPLIT_RATIO end) →
     nm ∈ if_name <$> interfaces_of s' (dev_id d)).
Proof.
  unfold ensure_default_ports_for_splitter. case_bool_decide as Ht; simpl; [|done].
  set (n := match ratio with Some (S m) => S m | _ => DEFAULT_SPLIT_RATIO end).
  set (names := if_name <$> interfaces_of s (dev_id d)).
  set (news := (λ nm, interface0 (String.append (dev_id d) (String.append "-" nm)) (dev_id d) nm) <$>
                 filter (λ nm, nm ∉ names) (port_names n)).
  assert (interfaces_of (set_interfaces (interfaces s ++ news) s) (dev_id d) = interfaces_of s (dev_id d) ++ news) as Hof.
  { unfold interfaces_of. simpl. rewrite filter_app. f_equal. unfold news.
    generalize (filter (λ nm, nm ∉ names) (port_names n)). intros l.
    induction l as [|x l IH]; [done|]. cbn [fmap list_fmap]. rewrite filter_cons, decide_True by done. f_equal. exact IH. }
  assert (∀ nm, nm ∈ port_names n → nm ∈ if_name <$> interfaces_of (set_interfaces (interfaces s ++ news) s) (dev_id d)) as Hall.
  { intros nm Hnm. rewrite Hof, fmap_app, elem_of_app. destruct (decide (nm ∈ names)) as [?|Hn]; [by left|right].
    unfold news. rewrite <-list_fmap_compose. apply list_elem_of_fmap. exists nm. split; [done|].
    by apply list_elem_of_filter. }
  split; [|by intros _].
  assert (filter (λ nm, nm ∉ if_name <$> interfaces_of (set_interfaces (interfaces s ++ news) s) (dev_id d)) (port_names n) = [])
    as E.
  { apply elem_of_nil_inv. intros nm [Hn Hin]%list_elem_of_filter. by apply Hn, Hall. }
  change (if_name <$> interfaces_of (set_interfaces (interfaces s ++ news) s) (dev_id d)) with
    (if_name <$> interfaces_of (set_interfaces (interfaces s ++ news) s) (dev_id d)) in E.
  rewrite E. cbn [fmap list_fmap]. unfold set_interfaces. simpl. by rewrite app_nil_r.
Qed.

Section traversal.
Context (s : DB) (start : string).

Lemma look_all V q onts cs q' onts' :
  foldl (look_at s V) (q, onts) cs = (q', onts') →
  q' = push_fifo V q (filter (λ nb, is_Some (owner s nb)) cs) ∧
  ∀ x, x ∈ onts' ↔ x ∈ onts ∨ ∃ j, j ∈ cs ∧ (j ∉ V) ∧ owner s j = Some x ∧ is_ont s x = true.
Proof.
  unfold push_fifo. revert q onts. induction cs as [|c cs IH]; intros q onts; cbn [foldl].
  { intros [= <- <-]. rewrite !filter_nil, app_nil_r. set_solver. }
  unfold look_at at 2. rewrite filter_cons. setoid_rewrite elem_of_cons.
  case_decide as Hc; [|destruct (owner s c) as [d|] eqn:Eo]; intros [-> Hx]%IH.
  - split; [case_decide; [|done]; rewrite filter_cons, decide_False by tauto; done|].
    intros x. rewrite Hx. naive_solver.
  - rewrite decide_True by done. rewrite filter_cons, decide_True by done. simpl. rewrite <-app_assoc.
    split; [done|]. intros x. rewrite Hx. destruct (is_ont s d) eqn:Ed; [rewrite elem_of_union, elem_of_singleton|];
      naive_solver congruence.
  - rewrite decide_False by (intros [? ?]; congruence). split; [done|]. intros x. rewrite Hx. naive_solver congruence.
Qed.

Definition counted (X : string → Prop) (x : string) : Prop :=
  ∃ j, X j ∧ j ≠ start ∧ owner s j = Some x ∧ is_ont s x = true.

(** The loop marks as the plain traversal does, and counts the ONTs of the
    marked interfaces other than the start. *)
Lemma ont_loop_explore fuel V q onts :
  (∀ x, x ∈ onts ↔ counted (λ j, j ∈ V ∨ j ∈ q) x) → start ∈ V ∨ q = [start] ∧ V = ∅ →
  match explore push_fifo (owned_counterparts s) fuel V q with
  | None => ont_loop fuel s V q onts = None
  | Some V' => ∃ O, ont_loop fuel s V q onts = Some O ∧ ∀ x, x ∈ O ↔ counted (λ j, j ∈ V') x
  end.
Proof.
  revert V q onts. induction fuel as [|fuel IH]; intros V [|cur rest] onts Ho Hs; simpl; try done.
  1-2: exists onts; split; [done|]; intros x; rewrite Ho; apply exist_proper; intros j; rewrite elem_of_nil; tauto.
  case_decide as Hc.
  { apply IH; [|destruct Hs as [?|[_ ->]]; [by left|by apply not_elem_of_empty in Hc]].
    intros x. rewrite Ho. apply exist_proper. intros j. rewrite elem_of_cons. naive_solver. }
  destruct (foldl _ _ _) as [q' onts'] eqn:E. destruct (look_all _ _ _ _ _ _ E) as [-> Hx].
  assert (start ∈ {[cur]} ∪ V) as Hst by (destruct Hs as [?|[[= -> _] _]]; set_solver).
  apply IH; [|by left]. intros x. rewrite Hx, Ho. unfold counted, owned_counterparts.
  setoid_rewrite push_fifo_elem. setoid_rewrite list_elem_of_filter. setoid_rewrite elem_of_union.
  setoid_rewrite elem_of_singleton. setoid_rewrite elem_of_cons. split.
  - intros [(j & ? & ? & ? & ?)|(j & ? & ? & ? & ?)]; exists j; [tauto|].
    split; [right; right; eauto|]. split; [|done]. intros ->. rewrite elem_of_union, elem_of_singleton in Hst. tauto.
  - intros (j & [[->|?]|[?|[[? ?] ?]]] & ? & ? & ?); [left; exists cur; tauto|left; exists j; tauto..|].
    right. exists j. tauto.
Qed.
End traversal.

Lemma counterparts_spec s i j :
  j ∈ counterparts s i ↔
  ∃ l, l ∈ links s ∧ ((a_interface_id l = i ∧ j = b_interface_id l) ∨ (b_interface_id l = i ∧ j = peer_interface l i)).
Proof.
  unfold counterparts. rewrite list_elem_of_bind. setoid_rewrite elem_of_app.
  apply exist_proper. intros l. unfold peer_interface.
  destruct (String.eqb_spec (a_interface_id l) i) as [Ha|Ha], (String.eqb_spec (b_interface_id l) i) as [Hb|Hb];
    rewrite ?list_elem_of_singleton, ?elem_of_nil, ?(bool_decide_true (a_interface_id l = i)),
      ?(bool_decide_false (a_interface_id l = i)) by done; naive_solver.
Qed.

Lemma counterparts_outside s i :
  i ∉ (list_to_set ((a_interface_id <$> links s) ++ (b_interface_id <$> links s)) : gset string) →
  counterparts s i = [].
Proof.
  intros Hi. destruct (counterparts s i) as [|j js] eqn:E; [done|]. exfalso. apply Hi.
  assert (j ∈ counterparts s i) as (l & Hl & Hj)%counterparts_spec by (rewrite E; set_solver).
  apply elem_of_list_to_set, elem_of_app.
  destruct Hj as [[<- _]|[<- _]]; [left|right]; by apply list_elem_of_fmap_2.
Qed.

Lemma splitter_fuel_enough s (i : string) (succ : string → list string) :
  (∀ j, length (succ j) ≤ length (counterparts s j)) →
  length [i] + pending_work succ (list_to_set ((a_interface_id <$> links s) ++ (b_interface_id <$> links s))) ∅
    ≤ splitter_fuel s.
Proof.
  intros Hs. unfold splitter_fuel, pending_work. simpl. apply le_n_S.
  etrans; [apply (sum_elements_le _ _ ((a_interface_id <$> links s) ++ (b_interface_id <$> links s))); set_solver|].
  apply sum_list_with_mono. auto.
Qed.

Lemma owned_length s j : length (owned_counterparts s j) ≤ length (counterparts s j).
Proof. apply length_filter. Qed.

Lemma owned_outside s i :
  i ∉ (list_to_set ((a_interface_id <$> links s) ++ (b_interface_id <$> links s)) : gset string) →
  owned_counterparts s i = [].
Proof. intros Hi. unfold owned_counterparts. by rewrite counterparts_outside. Qed.

(** The ONTs counted for a port: those that own an interface, other than the
    port, at the end of a chain of links in which consecutive links share an
    interface. *)
Definition port_onts (s : DB) (i : string) (x : string) : Prop :=
  ∃ j, reaches (edge (owned_counterparts s)) [i] j ∧ j ≠ i ∧ owner s j = Some x ∧ is_ont s x = true.

Lemma onts_from_spec s i : ∃ O, onts_from s i = Some O ∧ ∀ x, x ∈ O ↔ port_onts s i x.
Proof.
  destruct (explore_total push_fifo (owned_counterparts s) push_fifo_length
    (list_to_set ((a_interface_id <$> links s) ++ (b_interface_id <$> links s))) (splitter_fuel s) ∅ [i]) as [V HV].
  - apply owned_outside.
  - apply splitter_fuel_enough, owned_length.
  - pose proof (ont_loop_explore s i (splitter_fuel s) ∅ [i] ∅) as Hl. rewrite HV in Hl.
    destruct Hl as (O & E & HO); [unfold counted; set_solver|by right|].
    exists O. split; [done|]. intros x. rewrite HO. unfold counted, port_onts.
    by setoid_rewrite (explore_reaches _ _ push_fifo_elem _ _ _ _ HV).
Qed.

(** The counts of [compute_splitter_usage]. *)
Lemma usage_run s d :
  dev_type d = SPLITTER →
  ∃ onts : string → gset string, (∀ i x, x ∈ onts i ↔ port_onts s i x) ∧
    let outs := out_interfaces s d in
    compute_splitter_usage s d =
      Some (length outs, length (filter (λ o, onts (if_id o) ≠ ∅) outs), size (⋃ ((λ o, onts (if_id o)) <$> outs))).
Proof.
  intros Ht. exists (λ i, default ∅ (onts_from s i)). split.
  { intros i x. destruct (onts_from_spec s i) as (O & -> & HO). apply HO. }
  intros outs. unfold compute_splitter_usage. rewrite bool_decide_true by done. cbn [negb]. fold outs.
  assert (∀ l u O, foldl (λ acc out_if,
    match acc, onts_from s (if_id out_if) with
    | Some (used, onts), Some o => Some ((if (0 <? size o)%nat then S used else used), o ∪ onts)
    | _, _ => None
    end) (Some (u, O)) l =
    Some (u + length (filter (λ o, default ∅ (onts_from s (if_id o)) ≠ ∅) l),
          (⋃ ((λ o, default ∅ (onts_from s (if_id o))) <$> l)) ∪ O)) as Hf.
  { induction l as [|o l IH]; intros u O; cbn [foldl].
    { cbn. f_equal. f_equal; [lia|set_solver]. }
    destruct (onts_from_spec s (if_id o)) as (X & EX & _). rewrite EX, IH, filter_cons, EX. simpl.
    rewrite EX. simpl. f_equal. f_equal; [|set_solver].
    destruct (Nat.ltb_spec 0 (size X)) as [Hs|Hs].
    - rewrite decide_True by (intros ->; rewrite size_empty in Hs; lia). simpl. lia.
    - rewrite decide_False; [lia|]. intros Hne. apply Hne, leibniz_equiv, size_empty_inv. lia. }
  destruct outs as [|o outs'] eqn:Eo; [done|]. rewrite Hf. simpl. f_equal. f_equal. by rewrite union_empty_r_L.
Qed.

(** What [compute_splitter_usage] counts: all the OUT ports; of these, the
    ports with at least one ONT at the end of a chain of links that starts at
    the port; and the distinct ONTs over all ports.  The traversals end. *)
Lemma splitter_usage_spec s d :
  dev_type d = SPLITTER →
  ∃ onts : string → gset string, (∀ i x, x ∈ onts i ↔ port_onts s i x) ∧
    let outs := out_interfaces s d in
    compute_splitter_usage s d =
      Some (length outs, length (filter (λ o, onts (if_id o) ≠ ∅) outs), size (⋃ ((λ o, onts (if_id o)) <$> outs))).
Proof. apply usage_run. Qed.

Lemma splitter_usage_spec_witness :
  ∃ onts : string → gset string, (∀ i x, x ∈ onts i ↔ port_onts demo i x) ∧
    compute_splitter_usage demo (demo_device "spl") = Some (2, 1, 1).
Proof.
  destruct (splitter_usage_spec demo (demo_device "spl")) as (onts & Ho & _); [reflexivity|].
  exists onts. split; [exact Ho|vm_compute; reflexivity].
Defined.

(** * Where the traversal stops *)

(** An interface carries at most one link, and no link joins it with itself. *)
Definition one_link_per_interface (s : DB) : Prop :=
  (∀ l, l ∈ links s → a_interface_id l ≠ b_interface_id l) ∧
  (∀ l k i, l ∈ links s → k ∈ links s → i ∈ [a_interface_id l; b_interface_id l] →
     i ∈ [a_interface_id k; b_interface_id k] → l = k).

Lemma single_link_reach s i j :
  one_link_per_interface s → reaches (edge (owned_counterparts s)) [i] j → j = i ∨ j ∈ counterparts s i.
Proof.
  intros [Hself Hone]. apply (reaches_closed _ _ (λ j, j = i ∨ j ∈ counterparts s i)).
  { intros x ->%list_elem_of_singleton. by left. }
  intros x y [->|Hx] [_ Hy]%list_elem_of_filter; [by right|left].
  apply counterparts_spec in Hx as (l & Hl & Hx), Hy as (k & Hk & Hy).
  pose proof (Hself l Hl). unfold peer_interface in *.
  assert (l = k) as <-.
  { apply (Hone l k x Hl Hk); destruct Hx as [[? ->]|[? ->]], Hy as [[? ?]|[? ?]]; repeat case_bool_decide; set_solver. }
  destruct Hx as [[Ha ->]|[Hb ->]], Hy as [[Hc ->]|[Hd ->]]; repeat case_bool_decide; congruence.
Qed.

(** Passive devices are not transparent for the usage count.  When every
    interface carries at most one link, the ONTs counted for a port are exactly
    those whose own interface is at the other end of the port's link: the
    traversal never continues from one interface of a device to another, so an
    ONT behind an ODF or a second splitter is not counted. *)
Lemma splitter_counts_direct_only s i x :
  one_link_per_interface s →
  port_onts s i x ↔
  ∃ l, l ∈ links s ∧ i ∈ [a_interface_id l; b_interface_id l] ∧
       owner s (peer_interface l i) = Some x ∧ is_ont s x = true.
Proof.
  intros H1. unfold port_onts. split.
  - intros (j & Hr & Hne & Ho & Hx). destruct (single_link_reach s i j H1 Hr) as [?|Hj]; [done|].
    apply counterparts_spec in Hj as (l & Hl & Hj). exists l. split; [done|].
    destruct Hj as [[Ha ->]|[Hb ->]]; (split; [set_solver|]); [|done].
    unfold peer_interface. rewrite bool_decide_true by done. done.
  - intros (l & Hl & Hi & Ho & Hx). exists (peer_interface l i). split; [|split; [|done]].
    + exists i. split; [set_solver|]. apply rtc_once. apply list_elem_of_filter. split; [by eexists|].
      apply counterparts_spec. exists l. split; [done|]. unfold peer_interface in *.
      apply elem_of_cons in Hi as [Hi|Hi%list_elem_of_singleton]; [left|].
      * rewrite bool_decide_true by done. done.
      * case_bool_decide; [left; done|right; done].
    + destruct H1 as [Hself _]. specialize (Hself l Hl). unfold peer_interface.
      case_bool_decide; [congruence|]. set_solver.
Qed.

(** A splitter whose only subscriber sits behind an ODF. *)
Definition behind_odf : DB :=
  mkDB [device0 "spl" SPLITTER; device0 "odf" ODF; device0 "ont" ONT]
    [interface0 "spl-out1" "spl" "out1"; interface0 "odf-if0" "odf" "if0"; interface0 "odf-if1" "odf" "if1";
     interface0 "ont-if0" "ont" "if0"]
    [link0 "l1" "spl-out1" "odf-if0"; link0 "l2" "odf-if1" "ont-if0"] [] [] [] [] [] [].

Lemma behind_odf_links : one_link_per_interface behind_odf.
Proof.
  split.
  - intros l Hl. repeat (apply elem_of_cons in Hl as [->|Hl]; [discriminate|]). by apply elem_of_nil in Hl.
  - intros l k i Hl Hk. repeat (apply elem_of_cons in Hl as [->|Hl]; [|try by apply elem_of_nil in Hl]);
      repeat (apply elem_of_cons in Hk as [->|Hk]; [|try by apply elem_of_nil in Hk]); simpl; set_solver.
Qed.

Lemma splitter_counts_direct_only_witness :
  ¬ port_onts behind_odf "spl-out1" "ont" ∧
  compute_splitter_usage behind_odf (device0 "spl" SPLITTER) = Some (1, 0, 0).
Proof.
  split; [|vm_compute; reflexivity].
  intros (l & Hl & Hi & Ho & _)%(splitter_counts_direct_only behind_odf "spl-out1" "ont" behind_odf_links).
  repeat (apply elem_of_cons in Hl as [->|Hl]; [|try by apply elem_of_nil in Hl]).
  - discriminate Ho.
  - discriminate Ho.
Defined.

(** * The other two queries *)

(** The verdict of [out_interface_has_ont]. *)
Lemma has_ont_run s i :
  (∀ d, owner s i = Some d → is_ont s d = false) →
  ∃ b, out_interface_has_ont s i = Some b ∧ (b = true ↔ ∃ x, port_onts s i x).
Proof.
  intros Hi. set (ont_if := λ j, ∃ d, owner s j = Some d ∧ is_ont s d = true).
  assert (¬ ont_if i) as Hni by (intros (d & Ho & Hd); rewrite (Hi d Ho) in Hd; done).
  set (found := λ x, ∃ j, j ∈ counterparts s x ∧ ont_if j).
  destruct (explore_until_run push_fifo (owned_counterparts s) (meets_ont s) push_fifo_elem (λ x, ¬ ont_if x) found)
    with (U := list_to_set ((a_interface_id <$> links s) ++ (b_interface_id <$> links s)) : gset string)
         (fuel := splitter_fuel s) (q := [i]) as (b & Hb & Hspec).
  - intros x y _ Hnf [_ Hy]%list_elem_of_filter Hont. apply Hnf. by exists y.
  - intros V x. unfold meets_ont. rewrite existsb_exists. intros (j & Hj%list_elem_of_In & Hc).
    apply andb_true_iff in Hc as [_ Hc]. exists j. split; [done|]. destruct (owner s j) eqn:E; [|done]. by eexists.
  - intros V x Hx HV (j & Hj & Hont). unfold meets_ont. apply existsb_exists. exists j.
    split; [by apply list_elem_of_In|]. pose proof Hont as (d & Ho & Hd). rewrite Ho, Hd, andb_true_r.
    apply bool_decide_eq_true. intros HjV. destruct (decide (j = x)) as [->|Hne]; [done|].
    by destruct (HV j HjV Hne) as [? _].
  - apply push_fifo_length.
  - apply owned_outside.
  - intros x ->%list_elem_of_singleton. done.
  - apply splitter_fuel_enough, owned_length.
  - exists b. split; [done|]. rewrite Hspec. unfold found, port_onts. split.
    + intros (x & (z & ->%list_elem_of_singleton & Hr) & j & Hj & d & Ho & Hd).
      exists d, j. split; [|split; [|done]].
      * exists i. split; [set_solver|]. eapply rtc_r; [exact Hr|].
        apply list_elem_of_filter. split; [by eexists|done].
      * intros ->. apply Hni. by exists d.
    + intros (d & j & (z & ->%list_elem_of_singleton & Hr) & Hne & Ho & Hd).
      apply rtc_inv_r in Hr as [->|(x & Hr & Hj)]; [done|]. apply list_elem_of_filter in Hj as [_ Hj].
      exists x. split; [exists i; set_solver|]. exists j. unfold ont_if. eauto.
Qed.

(** The two ONT searches agree: for an interface that does not itself belong
    to an ONT, [out_interface_has_ont] answers, and it answers yes exactly when
    [compute_splitter_usage] would count an ONT for that port. *)
Lemma has_ont_agrees s i :
  (∀ d, owner s i = Some d → is_ont s d = false) →
  ∃ b, out_interface_has_ont s i = Some b ∧ (b = true ↔ ∃ x, port_onts s i x).
Proof. apply has_ont_run. Qed.

Lemma has_ont_agrees_witness :
  ∃ b, out_interface_has_ont demo "spl-out1" = Some b ∧ (b = true ↔ ∃ x, port_onts demo "spl-out1" x).
Proof. apply (has_ont_agrees demo "spl-out1"). intros d. vm_compute. intros [= <-]. reflexivity. Defined.

Lemma reaches_loop_until fuel s goal V q :
  goal ∉ V →
  reaches_loop fuel s goal V q = explore_until push_fifo (counterparts s) (λ _ c, String.eqb c goal) fuel V q.
Proof.
  revert V q. induction fuel as [|fuel IH]; intros V [|cur rest] HV; simpl; try done.
  destruct (String.eqb_spec cur goal) as [->|Hne]; [by rewrite decide_False|].
  case_decide; apply IH; set_solver.
Qed.

Lemma reaches_loop_spec s start goal :
  ∃ b, reaches_loop (splitter_fuel s) s goal ∅ [start] = Some b ∧
       (b = true ↔ reaches (edge (counterparts s)) [start] goal).
Proof.
  rewrite reaches_loop_until by set_solver.
  destruct (explore_until_run push_fifo (counterparts s) (λ _ c, String.eqb c goal) push_fifo_elem (λ _, True) (λ x, x = goal))
    with (U := list_to_set ((a_interface_id <$> links s) ++ (b_interface_id <$> links s)) : gset string)
         (fuel := splitter_fuel s) (q := [start]) as (b & Hb & Hspec); try done.
  - intros _ x. by apply String.eqb_eq.
  - intros _ x _ _. by apply String.eqb_eq.
  - apply push_fifo_length.
  - apply counterparts_outside.
  - by apply splitter_fuel_enough.
  - exists b. split; [done|]. rewrite Hspec. naive_solver.
Qed.

(** The result of [find_out_interface_reaching]. *)
Lemma find_out_run s d target :
  dev_type d = SPLITTER →
  ∃ r, find_out_interface_reaching s d target = Some r ∧
    match r with
    | Some o => ∃ before after, out_interfaces s d = before ++ o :: after ∧
        reaches (edge (counterparts s)) [if_id o] target ∧
        ∀ p, p ∈ before → ¬ reaches (edge (counterparts s)) [if_id p] target
    | None => ∀ p, p ∈ out_interfaces s d → ¬ reaches (edge (counterparts s)) [if_id p] target
    end.
Proof.
  intros Ht. unfold find_out_interface_reaching. rewrite bool_decide_true by done. cbn [negb].
  induction (out_interfaces s d) as [|o outs (r & E & Hr)]; cbn [first_reaching].
  { exists None. split; [done|]. set_solver. }
  destruct (reaches_loop_spec s (if_id o) target) as (b & -> & Hb). destruct b.
  { exists (Some o). split; [done|]. exists [], outs. split; [done|]. split; [by apply Hb|set_solver]. }
  rewrite E. exists r. split; [done|].
  assert (¬ reaches (edge (counterparts s)) [if_id o] target) as Hn by (intros H%Hb; done).
  destruct r as [p|].
  - destruct Hr as (before & after & -> & Hp & Hbef). exists (o :: before), after. split; [done|].
    split; [done|]. intros q [->|?]%elem_of_cons; auto.
  - intros q [->|?]%elem_of_cons; auto.
Qed.

(** [find_out_interface_reaching] returns the first OUT port of the splitter
    from which a chain of links leads to the target interface, and [None] when
    there is no such port; the search ends for every topology. *)
Lemma find_out_first s d target :
  dev_type d = SPLITTER →
  ∃ r, find_out_interface_reaching s d target = Some r ∧
    match r with
    | Some o => ∃ before after, out_interfaces s d = before ++ o :: after ∧
        reaches (edge (counterparts s)) [if_id o] target ∧
        ∀ p, p ∈ before → ¬ reaches (edge (counterparts s)) [if_id p] target
    | None => ∀ p, p ∈ out_interfaces s d → ¬ reaches (edge (counterparts s)) [if_id p] target
    end.
Proof. apply find_out_run. Qed.

Lemma find_out_first_witness :
  ∃ o, find_out_interface_reaching demo (demo_device "spl") "ont-if0" = Some (Some o) ∧ if_id o = "spl-out1".
Proof.
  destruct (find_out_first demo (demo_device "spl") "ont-if0") as (r & E & _); [reflexivity|].
  vm_compute in E. injection E as <-. eexists. split; [vm_compute; reflexivity|reflexivity].
Defined.
