(* ===== verification/L3Auto.v ===== *)
(** Configuring router uplinks after provisioning:
    [services/provisioning_l3_auto.py].

    For every link from an edge router to a core router, or from a core router to
    a backbone gateway, both ends get one address of a /31 pair hashed from the
    link id, both get a neighbour entry, and the downstream router a default
    route, unless something of the kind is already there. *)

From S2P Require Import Prelude PyFloat Models IpAddr Sha1 Ipam MacAllocator LinkRules.

(** * Writing rows *)

Definition set_devices (ds : list Device) (s : DB) : DB :=
  mkDB ds (interfaces s) (links s) (media s) (addresses s) (routes s) (neighbors s) (bridge_domains s) (mac_entries s).
Definition set_if_rows (ifs : list Interface) (s : DB) : DB :=
  mkDB (devices s) ifs (links s) (media s) (addresses s) (routes s) (neighbors s) (bridge_domains s) (mac_entries s).
Definition set_addresses (l : list InterfaceAddress) (s : DB) : DB :=
  mkDB (devices s) (interfaces s) (links s) (media s) l (routes s) (neighbors s) (bridge_domains s) (mac_entries s).
Definition set_routes (l : list Route) (s : DB) : DB :=
  mkDB (devices s) (interfaces s) (links s) (media s) (addresses s) l (neighbors s) (bridge_domains s) (mac_entries s).
Definition set_neighbors (l : list Neighbor) (s : DB) : DB :=
  mkDB (devices s) (interfaces s) (links s) (media s) (addresses s) (routes s) l (bridge_domains s) (mac_entries s).

Definition write_device (d : Device) (s : DB) : DB :=
  set_devices (update_row (λ r, String.eqb (dev_id r) (dev_id d)) (λ _, d) (devices s)) s.

Definition set_admin_up (i : Interface) : Interface :=
  mkInterface (if_id i) (if_device_id i) (if_name i) (if_role i) ADMIN_UP (if_capacity i) (port_role i)
    (if_bridge_domain_id i) (profile_name i) (if_mac_address i).

(** The unique constraints of the address table; NULLs are distinct. *)
Record addr_constraints (l : list InterfaceAddress) : Prop := {
  ac_prefix : NoDup (omap (λ a, (λ p, (p, addr_ip a)) <$> addr_prefix_id a) l);
  ac_vrf : NoDup (omap (λ a, (λ v, (v, addr_ip a)) <$> addr_vrf_id a) l)
}.

#[export] Instance addr_constraints_dec l : Decision (addr_constraints l).
Proof.
  refine (cast_if (decide (NoDup (omap (λ a, (λ p, (p, addr_ip a)) <$> addr_prefix_id a) l) ∧
                           NoDup (omap (λ a, (λ v, (v, addr_ip a)) <$> addr_vrf_id a) l))));
  [abstract (destruct_and?; by split)|abstract (intros []; naive_solver)].
Defined.

(** * The deterministic pair *)

Definition byte_at (l : list Z) (i : nat) : Z := nth i l 0%Z.

Definition ptp_ip (x y : Z) : string :=
  String.append "172.18." (String.append (str_of_int x) (String.append "." (str_of_int y))).

Definition stable_ptp_pair (link_id : string) : string * string * Z :=
  let h := sha1 link_id in
  let x := byte_at h 0 in
  let y := Z.land (byte_at h 1) 0xFE in
  (ptp_ip x y, ptp_ip x (y + 1), 31%Z).

Section auto.
Context {row_ids : RowIds}.

Definition ensure_addr (iid ip : string) (mask vrf : Z) (s : DB) : DB :=
  if existsb (λ a, String.eqb (addr_interface_id a) iid && String.eqb (addr_ip a) ip) (addresses s) then s
  else if existsb (λ a, String.eqb (addr_interface_id a) iid) (addresses s) then s
  else set_addresses (addresses s ++ [mkInterfaceAddress (next_id (addr_id <$> addresses s)) iid ip mask (Some vrf) None]) s.

Definition colon_join (x y : string) : string := String.append x (String.append ":" y).

Definition ensure_neighbor (iid ip link_id : string) (s : DB) : DB :=
  if existsb (λ n, String.eqb (neigh_interface_id n) iid && String.eqb (neigh_ip_address n) ip) (neighbors s) then s
  else
    let d := sha1 (colon_join link_id (colon_join iid ip)) in
    let mac := join_colon ("02" :: (hex2 <$> take 5 d)) in
    set_neighbors (neighbors s ++ [mkNeighbor (next_id (neigh_id <$> neighbors s)) iid ip mac]) s.

Definition is_default (vrf : Z) (r : Route) : bool :=
  (route_vrf_id r =? vrf)%Z && String.eqb (route_prefix r) "0.0.0.0/0".

(** [mine]: the interfaces of the device. *)
Definition ensure_default_route (mine : list string) (vrf : Z) (iid nh : string) (s : DB) : DB :=
  if existsb (λ r, is_default vrf r && bool_decide (route_interface_id r = Some iid) &&
                   bool_decide (next_hop r = Some nh)) (routes s) then s
  else if existsb (λ r, is_default vrf r && match route_interface_id r with Some i => mem i mine | None => false end) (routes s) then s
  else set_routes (routes s ++ [mkRoute (Some (next_id (omap route_id (routes s)))) vrf "0.0.0.0/0" (Some nh) (Some iid) 1 0]) s.

(** An uplink from the device through the link: the two interfaces. *)
Definition upstream_ok (device peer : Device) : bool :=
  (is_type device EDGE_ROUTER && is_type peer CORE_ROUTER) ||
  (is_type device CORE_ROUTER && is_type peer BACKBONE_GATEWAY).

(** An interface that is down is set up. *)
Definition raise_admin (iid : string) (s : DB) : DB :=
  set_if_rows (update_row (λ i, String.eqb (if_id i) iid)
    (λ i, match if_admin_status i with ADMIN_DOWN => set_admin_up i | ADMIN_UP => i end) (interfaces s)) s.

(** [(my_if, peer_if, peer_dev)] *)
Definition uplink_of (s : DB) (device : Device) (mine : list string) (ln : Link) : option (string * string * Device) :=
  if negb (mem (a_interface_id ln) mine || mem (b_interface_id ln) mine) then None
  else
    let my_if := if mem (a_interface_id ln) mine then a_interface_id ln else b_interface_id ln in
    let peer_if := if String.eqb my_if (a_interface_id ln) then b_interface_id ln else a_interface_id ln in
    peer_row ← get_interface s peer_if;
    peer_dev ← get_device s (if_device_id peer_row);
    if upstream_ok device peer_dev then Some (my_if, peer_if, peer_dev) else None.

(** One turn of the loop; the flag is [changed]. *)
Definition configure_link (device : Device) (vrf : Z) (mine : list string) (st : DB * bool) (ln : Link) : DB * bool :=
  let '(s, changed) := st in
  match uplink_of s device mine ln with
  | None => st
  | Some (my_if, peer_if, peer_dev) =>
      let s := raise_admin peer_if (raise_admin my_if s) in
      let '(low, high, mask) := stable_ptp_pair
        (if nonempty (link_id ln) then link_id ln else String.append my_if (String.append "--" peer_if)) in
      let '(my_ip, peer_ip) := if str_ltb my_if peer_if then (low, high) else (high, low) in
      let s := ensure_addr my_if my_ip mask vrf s in
      let s := ensure_addr peer_if peer_ip mask (default vrf (truthy_key (dev_vrf_id peer_dev))) s in
      let s := ensure_neighbor my_if peer_ip (link_id ln) s in
      let s := ensure_neighbor peer_if my_ip (link_id ln) s in
      (ensure_default_route mine vrf my_if peer_ip s, true)
  end.

(** The rows of the session afterwards and whether they were committed; [None]: a
    row violates a constraint, a flush raises and the transaction is rolled back. *)
Definition auto_configure_l3_uplinks (w : IpamDB) (device : Device) : option (IpamDB * bool) :=
  if negb (mem (dev_type device) [EDGE_ROUTER; CORE_ROUTER]) then Some (w, false)
  else
    let w := match vrf_by_name "mgmt" (vrfs w) with Some _ => w | None => ensure_ipam_defaults w end in
    match vrf_by_name "mgmt" (vrfs w) with
    | None => Some (w, false)
    | Some mgmt =>
        let vrf := default (vrf_id mgmt) (dev_vrf_id device) in
        let device := set_vrf (Some vrf) device in
        let s := write_device device (base w) in
        let mine := if_id <$> interfaces_of s (dev_id device) in
        if bool_decide (mine = []) then Some (with_base s w, false)
        else
          let '(s, changed) := foldl (configure_link device vrf mine) (s, false) (links s) in
          if bool_decide (addr_constraints (addresses s)) then Some (with_base s w, changed) else None
    end.
End auto.

(** The pair of a link, checked against CPython. *)
Example ptp_example : stable_ptp_pair "core1__edge1" = ("172.18.240.210", "172.18.240.211", 31%Z).
Proof. vm_compute. done. Qed.
