(* ===== verification/L3AutoProofs.v ===== *)
(** The uplink configuration of [L3Auto.v] is idempotent, and what it adds. *)

From S2P Require Import Prelude PyFloat Models LinkRules IpAddr Sha1 Ipam IpamProofs L3Auto.

Lemma update_row_fix {A} (p : A → bool) f rows r : find_row p rows = Some r → f r = r → update_row p f rows = rows.
Proof.
  induction rows as [|x rows IH]; simpl; [done|]. destruct (p x); [intros [= ->] ->; done|].
  intros H1 H2. by rewrite IH.
Qed.

Lemma find_row_update {A} (p q : A → bool) f rows :
  (∀ r, p (f r) = p r) → find_row p (update_row q f rows) = find_row p rows ∨
  ∃ r, find_row p rows = Some r ∧ q r = true ∧ find_row p (update_row q f rows) = Some (f r).
Proof.
  intros Hp. induction rows as [|x rows IH]; simpl; [by left|]. destruct (q x) eqn:Eq; simpl.
  - rewrite Hp. destruct (p x); [|by left]. right. by exists x.
  - destruct (p x); [by left|]. destruct IH as [->|IH]; [by left|by right].
Qed.

(** * What a configuration step may do to the tables *)

(** Interface rows up to their state. *)
Definition if_keys (s : DB) : list (string * string * (string * option string)) :=
  (λ i, (if_id i, if_device_id i, (if_name i, if_mac_address i))) <$> interfaces s.

Record grows (s t : DB) : Prop := {
  gr_devices : devices t = devices s;
  gr_links : links t = links s;
  gr_bridge : bridge_domains t = bridge_domains s ∧ mac_entries t = mac_entries s ∧ media t = media s;
  gr_interfaces : ∀ k, match get_interface s k, get_interface t k with
    | Some i, Some j => j = i ∨ j = set_admin_up i
    | None, None => True
    | _, _ => False
    end;
  gr_if_ids : if_keys t = if_keys s;
  gr_addresses : ∃ l, addresses t = addresses s ++ l;
  gr_neighbors : ∃ l, neighbors t = neighbors s ++ l;
  gr_routes : ∃ l, routes t = routes s ++ l
}.

Lemma grows_refl s : grows s s.
Proof.
  constructor; try done; try by (exists []; rewrite app_nil_r).
  intros k. destruct (get_interface s k); [by left|done].
Qed.

Lemma grows_trans s t u : grows s t → grows t u → grows s u.
Proof.
  intros [D L (B & M & P) I K (a & A) (n & N) (r & R)] [D' L' (B' & M' & P') I' K' (a' & A') (n' & N') (r' & R')].
  constructor; rewrite ?D', ?L', ?B', ?M', ?P', ?K'; try done.
  - intros k. specialize (I k). specialize (I' k). destruct (get_interface s k), (get_interface t k), (get_interface u k); try done.
    naive_solver.
  - exists (a ++ a'). by rewrite A', A, app_assoc.
  - exists (n ++ n'). by rewrite N', N, app_assoc.
  - exists (r ++ r'). by rewrite R', R, app_assoc.
Qed.

Section auto.
Context {row_ids : RowIds}.

Lemma raise_admin_grows k s : grows s (raise_admin k s).
Proof.
  constructor; try done; try by (exists []; rewrite app_nil_r).
  2: { unfold if_keys, raise_admin. simpl. apply fmap_update_row. intros i. by destruct (if_admin_status i). }
  intros k'. unfold raise_admin, get_interface. simpl.
  set (f := λ i : Interface, match if_admin_status i with ADMIN_UP => i | ADMIN_DOWN => set_admin_up i end).
  change (λ i : Interface, match if_admin_status i with ADMIN_UP => i | ADMIN_DOWN => set_admin_up i end) with f.
  assert (∀ i, f i = i ∨ f i = set_admin_up i) as Hf by (intros i; unfold f; destruct (if_admin_status i); auto).
  destruct (find_row_update (λ i, String.eqb (if_id i) k') (λ i, String.eqb (if_id i) k) f (interfaces s)) as [->|(r & -> & _ & ->)].
  - intros r. by destruct (Hf r) as [-> | ->].
  - destruct (find_row _ _); [by left|done].
  - apply Hf.
Qed.

(** Appending rows to the three tables. *)
Lemma append_grows s a n r :
  grows s (mkDB (devices s) (interfaces s) (links s) (media s) (addresses s ++ a) (routes s ++ r) (neighbors s ++ n)
             (bridge_domains s) (mac_entries s)).
Proof.
  constructor; simpl; try done; try by eexists. intros k. unfold get_interface. simpl. destruct (find_row _ _); [by left|done].
Qed.

Lemma set_addresses_grows s l : grows s (set_addresses (addresses s ++ l) s).
Proof. pose proof (append_grows s l [] []) as H. by rewrite !app_nil_r in H. Qed.
Lemma set_neighbors_grows s l : grows s (set_neighbors (neighbors s ++ l) s).
Proof. pose proof (append_grows s [] l []) as H. by rewrite !app_nil_r in H. Qed.
Lemma set_routes_grows s l : grows s (set_routes (routes s ++ l) s).
Proof. pose proof (append_grows s [] [] l) as H. by rewrite !app_nil_r in H. Qed.

Lemma ensure_addr_grows i ip m v s : grows s (ensure_addr i ip m v s).
Proof. unfold ensure_addr. repeat case_match; auto using grows_refl, set_addresses_grows. Qed.
Lemma ensure_neighbor_grows i ip l s : grows s (ensure_neighbor i ip l s).
Proof. unfold ensure_neighbor. case_match; auto using grows_refl, set_neighbors_grows. Qed.
Lemma ensure_default_route_grows mine v i nh s : grows s (ensure_default_route mine v i nh s).
Proof. unfold ensure_default_route. repeat case_match; auto using grows_refl, set_routes_grows. Qed.

(** * Settled links *)

Definition has_addr (s : DB) (i : string) : bool := existsb (λ a, String.eqb (addr_interface_id a) i) (addresses s).
Definition has_neighbor (s : DB) (i ip : string) : bool :=
  existsb (λ n, String.eqb (neigh_interface_id n) i && String.eqb (neigh_ip_address n) ip) (neighbors s).
Definition has_default (s : DB) (mine : list string) (v : Z) : bool :=
  existsb (λ r, is_default v r && match route_interface_id r with Some i => mem i mine | None => false end) (routes s).
Definition not_down (s : DB) (k : string) : Prop := ∀ i, get_interface s k = Some i → if_admin_status i = ADMIN_UP.

(** The two addresses of a link as seen from the device. *)
Definition uplink_ips (ln : Link) (my_if peer_if : string) : string * string :=
  let '(low, high, _) := stable_ptp_pair (if nonempty (link_id ln) then link_id ln else String.append my_if (String.append "--" peer_if)) in
  if str_ltb my_if peer_if then (low, high) else (high, low).

Definition link_settled (device : Device) (vrf : Z) (mine : list string) (s : DB) (ln : Link) : Prop :=
  match uplink_of s device mine ln with
  | None => True
  | Some (my_if, peer_if, _) =>
      let '(my_ip, peer_ip) := uplink_ips ln my_if peer_if in
      not_down s my_if ∧ not_down s peer_if ∧ has_addr s my_if = true ∧ has_addr s peer_if = true ∧
      has_neighbor s my_if peer_ip = true ∧ has_neighbor s peer_if my_ip = true ∧ has_default s mine vrf = true
  end.

Lemma existsb_grow {A} (p : A → bool) l k : existsb p l = true → existsb p (l ++ k) = true.
Proof. intros H. by rewrite existsb_app, H. Qed.

Lemma grows_facts s t : grows s t →
  (∀ i, has_addr s i = true → has_addr t i = true) ∧ (∀ i ip, has_neighbor s i ip = true → has_neighbor t i ip = true) ∧
  (∀ mine v, has_default s mine v = true → has_default t mine v = true) ∧ (∀ k, not_down s k → not_down t k) ∧
  (∀ device mine ln, uplink_of t device mine ln = uplink_of s device mine ln).
Proof.
  intros [D L _ I _ (a & A) (n & N) (r & R)]. unfold has_addr, has_neighbor, has_default, not_down. rewrite A, N, R.
  split; [intros; by apply existsb_grow|]. split; [intros; by apply existsb_grow|]. split; [intros; by apply existsb_grow|]. split.
  - intros k Hk j Hj. specialize (I k). rewrite Hj in I. destruct (get_interface s k) as [i|]; [|done].
    destruct I as [-> | ->]; [by apply Hk|done].
  - intros device mine ln. unfold uplink_of, get_device. rewrite D. destruct (negb _); [done|].
    match goal with |- (get_interface t ?k ≫= _) = _ => specialize (I k) end.
    destruct (get_interface s _) as [i|], (get_interface t _) as [j|]; try done. simpl. destruct I as [-> | ->]; done.
Qed.

Lemma settled_grows device vrf mine s t ln : grows s t → link_settled device vrf mine s ln → link_settled device vrf mine t ln.
Proof.
  intros Hg. destruct (grows_facts s t Hg) as (H1 & H2 & H3 & H4 & H5). unfold link_settled. rewrite H5.
  destruct (uplink_of s device mine ln) as [[[my peer] d]|]; [|done]. destruct (uplink_ips ln my peer) as [a b].
  intros (? & ? & ? & ? & ? & ? & ?). split_and!; auto.
Qed.

Lemma raise_admin_up k s : not_down (raise_admin k s) k.
Proof.
  intros i. unfold raise_admin, get_interface. simpl. induction (interfaces s) as [|x l IH]; simpl; [done|].
  destruct (String.eqb (if_id x) k) eqn:E; simpl; [|rewrite E; apply IH].
  destruct (if_admin_status x) eqn:Ea; simpl; rewrite E; [|by intros [= <-]]. intros [= <-]. done.
Qed.

Lemma raise_admin_id k s : not_down s k → raise_admin k s = s.
Proof.
  intros Hk. unfold raise_admin. destruct (get_interface s k) as [i|] eqn:E.
  - rewrite (update_row_fix _ _ _ i E); [by destruct s|]. by rewrite (Hk i E).
  - rewrite update_row_none by exact E. by destruct s.
Qed.

Lemma ensure_addr_has i ip m v s : has_addr (ensure_addr i ip m v s) i = true.
Proof.
  unfold ensure_addr.
  destruct (existsb (λ a, String.eqb (addr_interface_id a) i && String.eqb (addr_ip a) ip) (addresses s)) eqn:E.
  - apply existsb_exists in E as (a & Ha & [Hi _]%andb_true_iff). apply existsb_exists. by exists a.
  - change (existsb (λ a, String.eqb (addr_interface_id a) i) (addresses s)) with (has_addr s i).
    destruct (has_addr s i) eqn:E'; [done|]. unfold has_addr, set_addresses. cbn [addresses].
    rewrite existsb_app. simpl. by rewrite String.eqb_refl, orb_true_r.
Qed.

Lemma ensure_addr_id i ip m v s : has_addr s i = true → ensure_addr i ip m v s = s.
Proof. intros H. unfold ensure_addr, has_addr in *. rewrite H. by case_match. Qed.

Lemma ensure_neighbor_has i ip l s : has_neighbor (ensure_neighbor i ip l s) i ip = true.
Proof.
  unfold ensure_neighbor, has_neighbor. destruct (existsb _ (neighbors s)) eqn:E; [done|]. unfold set_neighbors. cbn [neighbors]. rewrite existsb_app. simpl.
  by rewrite !String.eqb_refl, orb_true_r.
Qed.

Lemma ensure_default_has mine v i nh s : i ∈ mine → has_default (ensure_default_route mine v i nh s) mine v = true.
Proof.
  intros Hi. unfold ensure_default_route.
  destruct (existsb (λ r, is_default v r && bool_decide (route_interface_id r = Some i) && bool_decide (next_hop r = Some nh)) (routes s)) eqn:E.
  - apply existsb_exists in E as (r & Hr & [[Hd Hif%bool_decide_eq_true]%andb_true_iff _]%andb_true_iff). apply existsb_exists.
    exists r. split; [done|]. by rewrite Hd, Hif, (proj2 (mem_true _ _)).
  - change (existsb (λ r, is_default v r && match route_interface_id r with Some i => mem i mine | None => false end) (routes s))
      with (has_default s mine v). destruct (has_default s mine v) eqn:E'; [done|]. unfold has_default, set_routes. cbn [routes].
    rewrite existsb_app. simpl. unfold is_default. simpl. by rewrite Z.eqb_refl, (proj2 (mem_true _ _) Hi), orb_true_r.
Qed.

Lemma uplink_mine s device mine ln my peer d : uplink_of s device mine ln = Some (my, peer, d) → my ∈ mine.
Proof.
  unfold uplink_of. destruct (negb _) eqn:E; [done|]. apply negb_false_iff, orb_true_iff in E.
  intros (row & _ & (pd & _ & H)%bind_Some)%bind_Some. case_match; [|done]. injection H as <- _ _.
  destruct (mem (a_interface_id ln) mine) eqn:Ea; [by apply mem_true|]. destruct E as [E|E]; [congruence|by apply mem_true].
Qed.

(** One turn: it only grows the tables and settles its link. *)
Lemma configure_link_step device vrf mine s c ln :
  let r := configure_link device vrf mine (s, c) ln in
  grows s r.1 ∧ link_settled device vrf mine r.1 ln ∧
  r.2 = c || bool_decide (is_Some (uplink_of s device mine ln)).
Proof.
  unfold configure_link, link_settled. destruct (uplink_of s device mine ln) as [[[my peer] d]|] eqn:E.
  2: { simpl. rewrite E. split; [apply grows_refl|]. split; [done|]. by rewrite orb_false_r. }
  pose proof (uplink_mine _ _ _ _ _ _ _ E) as Hmine.
  destruct (stable_ptp_pair _) as [[low high] mask] eqn:Ep.
  destruct (if str_ltb my peer then (low, high) else (high, low)) as [my_ip peer_ip] eqn:Ei. cbn [fst snd].
  set (s1 := raise_admin my s). set (s2 := raise_admin peer s1). set (s3 := ensure_addr my my_ip mask vrf s2).
  set (s4 := ensure_addr peer peer_ip mask _ s3). set (s5 := ensure_neighbor my peer_ip (link_id ln) s4).
  set (s6 := ensure_neighbor peer my_ip (link_id ln) s5). set (s7 := ensure_default_route mine vrf my peer_ip s6).
  assert (grows s s1) as G1 by apply raise_admin_grows. assert (grows s1 s2) as G2 by apply raise_admin_grows.
  assert (grows s2 s3) as G3 by apply ensure_addr_grows. assert (grows s3 s4) as G4 by apply ensure_addr_grows.
  assert (grows s4 s5) as G5 by apply ensure_neighbor_grows. assert (grows s5 s6) as G6 by apply ensure_neighbor_grows.
  assert (grows s6 s7) as G7 by apply ensure_default_route_grows.
  assert (grows s5 s7) as G57 by eauto using grows_trans. assert (grows s4 s7) as G47 by eauto using grows_trans.
  assert (grows s3 s7) as G37 by eauto using grows_trans. assert (grows s2 s7) as G27 by eauto using grows_trans.
  assert (grows s1 s7) as G17 by eauto using grows_trans. assert (grows s s7) as G07 by eauto using grows_trans.
  split; [done|]. split; [|by rewrite orb_true_r].
  rewrite (proj2 (proj2 (proj2 (proj2 (grows_facts _ _ G07))))), E. unfold uplink_ips. rewrite Ep, Ei.
  split; [apply (grows_facts _ _ G17), raise_admin_up|]. split; [apply (grows_facts _ _ G27), raise_admin_up|].
  split; [apply (grows_facts _ _ G37), ensure_addr_has|]. split; [apply (grows_facts _ _ G47), ensure_addr_has|].
  split; [apply (grows_facts _ _ G57), ensure_neighbor_has|]. split; [apply (grows_facts _ _ G7), ensure_neighbor_has|].
  by apply ensure_default_has.
Qed.

(** On a settled link it does nothing. *)
Lemma configure_link_id device vrf mine s c ln :
  link_settled device vrf mine s ln →
  configure_link device vrf mine (s, c) ln = (s, c || bool_decide (is_Some (uplink_of s device mine ln))).
Proof.
  unfold configure_link, link_settled. destruct (uplink_of s device mine ln) as [[[my peer] d]|]; [|by rewrite orb_false_r].
  unfold uplink_ips. destruct (stable_ptp_pair _) as [[low high] mask].
  destruct (if str_ltb my peer then (low, high) else (high, low)) as [my_ip peer_ip].
  intros (H1 & H2 & H3 & H4 & H5 & H6 & H7).
  rewrite (raise_admin_id my) by done. rewrite (raise_admin_id peer) by done. rewrite (ensure_addr_id my) by done.
  rewrite (ensure_addr_id peer) by done. unfold ensure_neighbor. unfold has_neighbor in H5, H6. rewrite H5, H6.
  unfold ensure_default_route. unfold has_default in H7. rewrite H7, orb_true_r. by case_match.
Qed.

Lemma configure_all device vrf mine lns s c :
  let r := foldl (configure_link device vrf mine) (s, c) lns in
  grows s r.1 ∧ (∀ ln, ln ∈ lns → link_settled device vrf mine r.1 ln) ∧
  r.2 = c || existsb (λ ln, bool_decide (is_Some (uplink_of s device mine ln))) lns.
Proof.
  revert s c. induction lns as [|ln lns IH]; intros s c; cbn [foldl].
  { split; [apply grows_refl|]. split; [set_solver|]. by rewrite orb_false_r. }
  destruct (configure_link_step device vrf mine s c ln) as (Hg & Hs & Hc).
  destruct (configure_link device vrf mine (s, c) ln) as [s1 c1]. simpl in Hg, Hs, Hc.
  destruct (IH s1 c1) as (Hg' & Hs' & Hc'). split; [by eapply grows_trans|]. split.
  - intros k [-> |Hk]%elem_of_cons; [by eapply settled_grows|by apply Hs'].
  - rewrite Hc', Hc. cbn [existsb]. rewrite <-orb_assoc. f_equal. f_equal.
    destruct (grows_facts _ _ Hg) as (_ & _ & _ & _ & Hu). clear -Hu. induction lns as [|k lns IHl]; [done|].
    cbn [existsb]. by rewrite Hu, IHl.
Qed.

Lemma configure_all_id device vrf mine lns s c :
  (∀ ln, ln ∈ lns → link_settled device vrf mine s ln) →
  foldl (configure_link device vrf mine) (s, c) lns =
    (s, c || existsb (λ ln, bool_decide (is_Some (uplink_of s device mine ln))) lns).
Proof.
  revert c. induction lns as [|ln lns IH]; intros c Hs; cbn [foldl existsb]; [by rewrite orb_false_r|].
  rewrite configure_link_id by (apply Hs; set_solver). rewrite IH by set_solver. by rewrite orb_assoc.
Qed.

Lemma if_ids_of s d : if_id <$> interfaces_of s d = (λ p, p.1.1) <$> filter (λ p, p.1.2 = d) (if_keys s).
Proof.
  unfold interfaces_of, if_keys. induction (interfaces s) as [|i l IH]; [done|]. csimpl. rewrite !filter_cons. simpl.
  case_decide; csimpl; by rewrite IH.
Qed.

Lemma write_device_id d s : get_device s (dev_id d) = Some d → write_device d s = s.
Proof. intros H. unfold write_device. rewrite (update_row_fix _ _ _ d); [by destruct s|exact H|done]. Qed.

Lemma get_written d d' s :
  dev_id d' = dev_id d → get_device s (dev_id d) = Some d → get_device (write_device d' s) (dev_id d) = Some d'.
Proof.
  intros He. unfold get_device, write_device. simpl. rewrite He. induction (devices s) as [|x l IH]; simpl; [done|].
  destruct (String.eqb (dev_id x) (dev_id d)) eqn:E; simpl; [by rewrite He, String.eqb_refl|by rewrite E].
Qed.

(** The call on a router when the management VRF exists. *)
Lemma auto_eq w d mgmt :
  mem (dev_type d) [EDGE_ROUTER; CORE_ROUTER] = true → vrf_by_name "mgmt" (vrfs w) = Some mgmt →
  auto_configure_l3_uplinks w d =
    let vrf := default (vrf_id mgmt) (dev_vrf_id d) in
    let d1 := set_vrf (Some vrf) d in
    let s0 := write_device d1 (base w) in
    let mine := if_id <$> interfaces_of (base w) (dev_id d) in
    if bool_decide (mine = []) then Some (with_base s0 w, false)
    else
      let r := foldl (configure_link d1 vrf mine) (s0, false) (links (base w)) in
      if bool_decide (addr_constraints (addresses r.1)) then Some (with_base r.1 w, r.2) else None.
Proof.
  intros Ht Hm. unfold auto_configure_l3_uplinks. rewrite Ht, Hm. simpl negb. cbv iota. rewrite Hm. cbn zeta.
  set (d1 := set_vrf _ d).
  change (interfaces_of (write_device d1 (base w)) (dev_id d1)) with (interfaces_of (base w) (dev_id d)).
  change (links (write_device d1 (base w))) with (links (base w)). destruct (bool_decide (_ = [])); [done|].
  by destruct (foldl _ _ _).
Qed.

(** The addresses meet their constraints after a successful call. *)
Lemma auto_configure_addresses w d w' c :
  auto_configure_l3_uplinks w d = Some (w', c) → addr_constraints (addresses (base w)) → addr_constraints (addresses (base w')).
Proof.
  unfold auto_configure_l3_uplinks. case_match; [by intros [= <- _]|]. cbv zeta.
  set (w1 := match vrf_by_name "mgmt" (vrfs w) with Some _ => w | None => ensure_ipam_defaults w end).
  assert (base w1 = base w) as Hb1 by (unfold w1, ensure_ipam_defaults; repeat case_match; done).
  destruct (vrf_by_name "mgmt" (vrfs w1)) as [mgmt|]; [|intros [= <- _]; by rewrite Hb1].
  destruct (bool_decide (_ = [])); [intros [= <- _]; simpl; by rewrite Hb1|].
  destruct (foldl _ _ _) as [s b]. case_bool_decide; [|done]. by intros [= <- _].
Qed.

(** A successful call and the one that follows it. *)
Lemma auto_configure_facts w d w' c :
  get_device (base w) (dev_id d) = Some d →
  auto_configure_l3_uplinks w d = Some (w', c) →
  ∃ d', get_device (base w') (dev_id d) = Some d' ∧ (d' = d ∨ ∃ v, d' = set_vrf (Some v) d) ∧
    grows (write_device d' (base w)) (base w') ∧
    (w' = with_base (base w') w ∨ w' = with_base (base w') (ensure_ipam_defaults w)) ∧
    (c = true → ∃ vrf, dev_vrf_id d' = Some vrf ∧
       ∀ ln, ln ∈ links (base w) → link_settled d' vrf (if_id <$> interfaces_of (base w) (dev_id d)) (base w') ln) ∧
    auto_configure_l3_uplinks w' d' = Some (w', c).
Proof.
  intros Hd. destruct (mem (dev_type d) [EDGE_ROUTER; CORE_ROUTER]) eqn:Et.
  2: { unfold auto_configure_l3_uplinks at 1. rewrite Et. intros [= <- <-]. exists d. split; [done|]. split; [by left|]. rewrite write_device_id by done. split; [apply grows_refl|].
       split; [left; by destruct w|]. split; [done|]. unfold auto_configure_l3_uplinks. by rewrite Et. }
  set (w1 := match vrf_by_name "mgmt" (vrfs w) with Some _ => w | None => ensure_ipam_defaults w end).
  assert (base w1 = base w) as Hb1 by (unfold w1, ensure_ipam_defaults; repeat case_match; done).
  assert (w1 = w ∨ w1 = ensure_ipam_defaults w) as Hw1 by (unfold w1; case_match; auto).
  assert (∃ mgmt, vrf_by_name "mgmt" (vrfs w1) = Some mgmt) as [mgmt Em].
  { unfold w1. destruct (vrf_by_name "mgmt" (vrfs w)) as [v|] eqn:E; [by exists v|]. unfold ensure_ipam_defaults.
    destruct (vrf_ensured "mgmt" (vrfs w)) as [v Hv]. rewrite Hv. exists v. by apply vrf_kept. }
  assert (auto_configure_l3_uplinks w d = auto_configure_l3_uplinks w1 d) as ->.
  { unfold auto_configure_l3_uplinks. cbv zeta. fold w1. rewrite Et. by rewrite Em; cbn [negb]; rewrite Em. }
  clearbody w1. rewrite (auto_eq w1 d mgmt Et Em). cbv zeta. rewrite Hb1.
  set (vrf := default (vrf_id mgmt) (dev_vrf_id d)). set (d1 := set_vrf (Some vrf) d).
  set (s0 := write_device d1 (base w)).
  assert (get_device s0 (dev_id d) = Some d1) as Hd1 by by apply get_written.
  set (mine := if_id <$> interfaces_of (base w) (dev_id d)).
  assert (∀ t, grows s0 t → get_device t (dev_id d) = Some d1 ∧ write_device d1 t = t ∧
    if_id <$> interfaces_of t (dev_id d) = mine ∧ links t = links (base w)) as Hg.
  { intros t [D L _ _ K _ _ _]. assert (get_device t (dev_id d) = Some d1) as Ht by (unfold get_device; by rewrite D).
    split; [done|]. split; [by apply write_device_id|]. split; [|done]. unfold mine. by rewrite !if_ids_of, K. }
  assert (∀ t, grows s0 t → auto_configure_l3_uplinks (with_base t w1) d1 =
    if bool_decide (mine = []) then Some (with_base t w1, false)
    else
      let r := foldl (configure_link d1 vrf mine) (t, false) (links (base w)) in
      if bool_decide (addr_constraints (addresses r.1)) then Some (with_base r.1 w1, r.2) else None) as Hagain.
  { intros t Ht. destruct (Hg t Ht) as (_ & H2 & H3 & H4). rewrite (auto_eq (with_base t w1) d1 mgmt Et Em). cbn zeta.
    change (set_vrf (Some (default (vrf_id mgmt) (dev_vrf_id d1))) d1) with d1.
    change (default (vrf_id mgmt) (dev_vrf_id d1)) with vrf. change (base (with_base t w1)) with t.
    change (dev_id d1) with (dev_id d). by rewrite H2, H3, H4. }
  assert (∀ t, w' = with_base t w1 → grows s0 t → (c = true → ∀ ln, ln ∈ links (base w) → link_settled d1 vrf mine t ln) →
    auto_configure_l3_uplinks (with_base t w1) d1 = Some (with_base t w1, c) →
    ∃ d', get_device (base w') (dev_id d) = Some d' ∧ (d' = d ∨ ∃ v, d' = set_vrf (Some v) d) ∧
    grows (write_device d' (base w)) (base w') ∧
    (w' = with_base (base w') w ∨ w' = with_base (base w') (ensure_ipam_defaults w)) ∧
    (c = true → ∃ vrf, dev_vrf_id d' = Some vrf ∧ ∀ ln, ln ∈ links (base w) → link_settled d' vrf mine (base w') ln) ∧
    auto_configure_l3_uplinks w' d' = Some (w', c)) as Hgoal.
  { intros t -> Ht Hs Ha. exists d1. split; [apply Hg, Ht|]. split; [right; by exists vrf|]. split; [exact Ht|].
    split; [destruct Hw1 as [-> | ->]; [by left|by right]|]. split; [intros Hc; exists vrf; split; [done|by apply Hs]|]. exact Ha. }
  case_bool_decide as Hm.
  - intros [= <- <-]. apply (Hgoal s0); [done|apply grows_refl|done|]. by rewrite Hagain by apply grows_refl.
  - destruct (configure_all d1 vrf mine (links (base w)) s0 false) as (Hgr & Hs & Hc).
    destruct (foldl _ (s0, false) (links (base w))) as [t b] eqn:Ef. simpl in Hgr, Hs, Hc |- *.
    case_bool_decide as Hac; [|done]. intros [= <- <-]. apply (Hgoal t); [done..|].
    rewrite Hagain by done. rewrite configure_all_id by done. simpl.
    rewrite bool_decide_eq_true_2 by done. rewrite Hc. simpl. do 2 f_equal.
    destruct (grows_facts _ _ Hgr) as (_ & _ & _ & _ & Hu). clear -Hu. induction (links (base w)) as [|k lns IH]; [done|].
    cbn [existsb]. by rewrite Hu, IH.
Qed.

End auto.

(** An edge router with one uplink to a core router. *)
Definition uplink_db : DB :=
  mkDB [device0 "core1" CORE_ROUTER; device0 "edge1" EDGE_ROUTER]
    [interface0 "core1-p1" "core1" "p1"; interface0 "edge1-p1" "edge1" "p1"]
    [link0 "core1__edge1" "core1-p1" "edge1-p1"] [] [] [] [] [] [].

Definition uplink_ipam : IpamDB := ensure_ipam_defaults (row_ids := max_row_ids) (mkIpamDB uplink_db [] [] []).
Definition edge1 : Device := device0 "edge1" EDGE_ROUTER.

Definition configured : IpamDB :=
  match auto_configure_l3_uplinks (row_ids := max_row_ids) uplink_ipam edge1 with Some (w, _) => w | None => uplink_ipam end.


(** The pool has 2^15 pairs and the pair is a hash: two of the first 75 edge
    routers of a core collide, and configuring the second one fails. *)
Example uplink_collision :
  let k1 := "core1__edge70" in let k2 := "core1__edge75" in
  stable_ptp_pair k1 = stable_ptp_pair k2 ∧
  let w0 := mkIpamDB (mkDB [device0 "core1" CORE_ROUTER; device0 "edge70" EDGE_ROUTER; device0 "edge75" EDGE_ROUTER]
    [interface0 "core1-p1" "core1" "p1"; interface0 "core1-p2" "core1" "p2"; interface0 "edge70-p1" "edge70" "p1"; interface0 "edge75-p1" "edge75" "p1"]
    [link0 k1 "core1-p1" "edge70-p1"; link0 k2 "core1-p2" "edge75-p1"] [] [] [] [] [] []) [] [] [] in
  let run := auto_configure_l3_uplinks (row_ids := max_row_ids) in
  match run w0 (device0 "edge70" EDGE_ROUTER) with
  | Some (w1, true) => run w1 (device0 "edge75" EDGE_ROUTER) = None
  | _ => False
  end.
Proof. vm_compute. done. Qed.
