(* ===== verification/LinkPolicy.v ===== *)
(** Optical link policy: [services/link_policy_optical.py].

    Rules a new link must satisfy beyond its classification: where an ONT may be
    attached, how many ONTs a splitter port and a splitter serve, which OLT port
    the access segment may use, and how many upstreams an ODF or ONT may have. *)

From stdpp Require Import pretty.
From S2P Require Import Prelude PyFloat Models LinkRules Worklist Adjacency Scenario Splitter Errors.

Definition device_type_of (s : DB) (k : string) : option DeviceType := dev_type <$> get_device s k.

(** The device ids at the two ends, when both interface rows exist. *)
Definition end_ids (s : DB) (l : Link) : option (string * string) :=
  match get_interface s (a_interface_id l), get_interface s (b_interface_id l) with
  | Some ia, Some ib => Some (if_device_id ia, if_device_id ib)
  | _, _ => None
  end.

(** ... with the types of the devices, when those exist too. *)
Definition typed_ends (s : DB) (l : Link) : option ((string * DeviceType) * (string * DeviceType)) :=
  match end_ids s l with
  | Some (da, db) =>
      match device_type_of s da, device_type_of s db with
      | Some ta, Some tb => Some ((da, ta), (db, tb))
      | _, _ => None
      end
  | None => None
  end.

(** ** Anchoring *)

(** An edge of [adj]: two passive devices, or a passive device and an ODF. *)
Definition passive_arc (s : DB) (l : Link) : option (string * string) :=
  match typed_ends s l with
  | Some ((da, ta), (db, tb)) =>
      if (mem ta PASSIVE_INLINE && mem tb PASSIVE_INLINE) ||
         ((mem ta PASSIVE_INLINE && bool_decide (tb = ODF)) || (mem tb PASSIVE_INLINE && bool_decide (ta = ODF)))
      then Some (da, db) else None
  | None => None
  end.

Definition passive_adj (s : DB) : Adjacency :=
  foldl (λ m a, add_both a.1 a.2 m) ∅ (omap (passive_arc s) (links s)).

Definition odf_of_olt_link (s : DB) (l : Link) : option string :=
  match typed_ends s l with
  | Some ((da, ta), (db, tb)) =>
      if (bool_decide (ta = ODF) && bool_decide (tb = OLT)) || (bool_decide (tb = ODF) && bool_decide (ta = OLT))
      then Some (if bool_decide (ta = ODF) then da else db) else None
  | None => None
  end.

Definition odf_with_olt (s : DB) : gset string := list_to_set (omap (odf_of_olt_link s) (links s)).

Definition device_adj (s : DB) : Adjacency :=
  foldl (λ m a, add_both a.1 a.2 m) ∅ (omap (end_ids s) (links s)).

Definition has_device_type (s : DB) (t : DeviceType) (k : string) : bool :=
  bool_decide (device_type_of s k = Some t).

(** The fast path: a neighbouring ODF that itself neighbours an OLT. *)
Definition direct_anchor (s : DB) (k : string) : bool :=
  existsb (λ nb, has_device_type s ODF nb &&
                 existsb (has_device_type s OLT) (elements (adjacent (device_adj s) nb)))
    (elements (adjacent (device_adj s) k)).

Definition anchored (s : DB) (k : string) : option bool :=
  if direct_anchor s k then Some true
  else
    match search append_one (λ _, true)
            (λ cur, if has_device_type s ODF cur && bool_decide (cur ∈ odf_with_olt s) then Some tt else None)
            (λ cur, elements (adjacent (passive_adj s) cur))
            (search_fuel (dom (passive_adj s)) [k]) (list_to_set [k]) [k] with
    | Some (inl _) => Some true
    | Some (inr _) => Some false
    | None => None
    end.

(** ** enforce_ont_placement_rules *)

(** The OUT port that would serve the ONT: one that already reaches its
    interface, else an OUT-named interface of the splitter among the endpoints. *)
Definition serving_port (s : DB) (splitter : Device) (ont_if_id a_if_id b_if_id : string)
    : option (option Interface) :=
  match find_out_interface_reaching s splitter ont_if_id with
  | None => None
  | Some (Some o) => Some (Some o)
  | Some None =>
      let fits (i : option Interface) :=
        match i with
        | Some c => bool_decide (if_device_id c = dev_id splitter) && starts_with "out" (lower (if_name c))
        | None => false
        end in
      Some (if fits (get_interface s a_if_id) then get_interface s a_if_id
            else if fits (get_interface s b_if_id) then get_interface s b_if_id else None)
  end.

Definition enforce_splitter (s : DB) (splitter : Device) (ont_if_id a_if_id b_if_id : string) : Outcome unit :=
  out_if ← of_fuel (serving_port s splitter ont_if_id a_if_id b_if_id);
  _ ← match out_if with
      | Some o =>
          served ← of_fuel (out_interface_has_ont s (if_id o));
          raise_if served (raise_error LINK_INVALID_UPSTREAM
            (String.append "Splitter OUT '" (String.append (if_name o)
              "' already serves an ONT; over-subscription is not allowed")))
      | None => Ret tt
      end;
  usage ← of_fuel (compute_splitter_usage s splitter);
  raise_if ((0 <? usage.1.1) && (usage.1.1 <=? usage.2))%nat (raise_error LINK_INVALID_UPSTREAM
    (String.append "Splitter capacity exhausted: " (String.append (pretty usage.2)
      (String.append "/" (String.append (pretty usage.1.1) " ONTs already connected"))))).

Definition enforce_ont_placement_rules (s : DB) (a_dev b_dev : Device) (a_if_id b_if_id : string)
    : Outcome unit :=
  if negb (in_class a_dev ONT_CLASS) && negb (in_class b_dev ONT_CLASS) then Ret tt
  else
    let other := if in_class a_dev ONT_CLASS then b_dev else a_dev in
    if is_type other ODF then Ret tt
    else
      _ ← raise_if (negb (in_class other PASSIVE_INLINE)) (raise_error LINK_INVALID_UPSTREAM
            (String.append "ONT must connect upstream to an ODF or passive, not " (DeviceType_value (dev_type other))));
      ok ← of_fuel (anchored s (dev_id other));
      _ ← raise_if (negb ok) (raise_error LINK_INVALID_UPSTREAM
            "ONT may connect to passive NVT/SPLITTER/HOP only within an ODF-headed path that already anchors to an OLT (not SPLITTER directly)");
      if is_type other SPLITTER then
        enforce_splitter s other (if in_class a_dev ONT_CLASS then a_if_id else b_if_id) a_if_id b_if_id
      else Ret tt.

(** ** enforce_pon_role_if_declared *)

Definition enforce_pon_role_if_declared (s : DB) (a_dev b_dev : Device) (a_if b_if : Interface) : Outcome unit :=
  let access_side d := in_class d ONT_CLASS || in_class d PASSIVE_INLINE || is_type d ODF in
  if negb ((is_type a_dev OLT && access_side b_dev) || (is_type b_dev OLT && access_side a_dev)) then Ret tt
  else
    let olt_iface := if is_type a_dev OLT then a_if else b_if in
    let olt_dev := if is_type a_dev OLT then a_dev else b_dev in
    let olt_has_any_pon :=
      existsb (λ i, bool_decide (port_role i = Some PON)) (interfaces_of s (dev_id olt_dev)) in
    raise_if (olt_has_any_pon && negb (bool_decide (port_role olt_iface = Some PON)))
      (raise_error INVALID_LINK_TYPE "PON_PORT_REQUIRED").

(** ** enforce_single_upstream_rules *)

(** The contribution of one link to [_count_upstream_links]. *)
Definition is_upstream_link (s : DB) (dev : Device) (l : Link) : bool :=
  match end_ids s l with
  | None => false
  | Some (da, db) =>
      if negb (String.eqb da (dev_id dev) || String.eqb db (dev_id dev)) then false
      else
        match device_type_of s (if String.eqb da (dev_id dev) then db else da) with
        | None => false
        | Some t =>
            if is_type dev ODF && bool_decide (t = OLT) then true
            else in_class dev ONT_CLASS && mem t PASSIVE_INLINE
        end
  end.

Definition count_upstream_links (s : DB) (dev : Device) : nat :=
  length (filter (λ l, is_upstream_link s dev l = true) (links s)).

Definition multiple_upstreams (dev : Device) : HttpError :=
  raise_error LINK_MULTIPLE_UPSTREAMS
    (String.append (dev_id dev) " already has an upstream link. Only one upstream is allowed.").

Definition enforce_single_upstream_rules (s : DB) (a_dev b_dev : Device) : Outcome unit :=
  _ ← (if (is_type a_dev ODF && is_type b_dev OLT) || (is_type b_dev ODF && is_type a_dev OLT) then
         let odf := if is_type a_dev ODF then a_dev else b_dev in
         raise_if (1 <=? count_upstream_links s odf)%nat (multiple_upstreams odf)
       else Ret tt);
  if (in_class a_dev ONT_CLASS && is_type b_dev ODF) || (in_class b_dev ONT_CLASS && is_type a_dev ODF) then
    let ont := if in_class a_dev ONT_CLASS then a_dev else b_dev in
    raise_if (1 <=? count_upstream_links s ont)%nat (multiple_upstreams ont)
  else Ret tt.

(** * What the placement rules admit *)

Definition link_joins (s : DB) (l : Link) (x y : string) : Prop :=
  end_ids s l = Some (x, y) ∨ end_ids s l = Some (y, x).

Definition is_passive (s : DB) (k : string) : Prop := ∃ t, device_type_of s k = Some t ∧ t ∈ PASSIVE_INLINE.

(** Two passive devices joined by a link. *)
Definition passive_hop (s : DB) (x y : string) : Prop :=
  ∃ l, l ∈ links s ∧ link_joins s l x y ∧ is_passive s x ∧ is_passive s y.

(** An ODF with a link to an OLT. *)
Definition under_olt (s : DB) (k : string) : Prop :=
  device_type_of s k = Some ODF ∧
  ∃ l x, l ∈ links s ∧ link_joins s l k x ∧ device_type_of s x = Some OLT.

(** A chain of passive devices leads to an ODF under an OLT. *)
Definition headed_by_odf (s : DB) (k : string) : Prop :=
  ∃ c, reaches (passive_hop s) [k] c ∧ under_olt s c.

Lemma typed_ends_Some s l x tx y ty :
  typed_ends s l = Some ((x, tx), (y, ty)) ↔
  end_ids s l = Some (x, y) ∧ device_type_of s x = Some tx ∧ device_type_of s y = Some ty.
Proof.
  unfold typed_ends. destruct (end_ids s l) as [[da db]|]; [|naive_solver].
  destruct (device_type_of s da) eqn:Ea, (device_type_of s db) eqn:Eb; naive_solver.
Qed.

Lemma passive_arc_Some s l x y :
  passive_arc s l = Some (x, y) ↔ end_ids s l = Some (x, y) ∧ is_passive s x ∧ is_passive s y.
Proof.
  unfold passive_arc, is_passive. split.
  - destruct (typed_ends s l) as [[[da ta] [db tb]]|] eqn:E; [|done]. apply typed_ends_Some in E as (E & Ea & Eb).
    destruct (_ || _) eqn:Ec; [|done]. intros [= <- <-]. split; [done|].
    assert (ODF ∈ PASSIVE_INLINE) as Ho by (apply mem_true; reflexivity).
    rewrite !orb_true_iff, !andb_true_iff, !mem_true, !bool_decide_eq_true in Ec.
    split; [exists ta|exists tb]; (split; [done|]); naive_solver.
  - intros (E & (tx & Ex & Hx) & (ty & Ey & Hy)). rewrite (proj2 (typed_ends_Some s l x tx y ty)) by done.
    apply mem_true in Hx, Hy. by rewrite Hx, Hy.
Qed.

Lemma passive_adj_spec s x y : y ∈ adjacent (passive_adj s) x ↔ passive_hop s x y.
Proof.
  unfold passive_adj, passive_hop, link_joins. rewrite elem_of_add_arcs, !list_elem_of_omap.
  setoid_rewrite passive_arc_Some. unfold adjacent. rewrite lookup_empty. simpl. set_solver.
Qed.

Lemma device_adj_spec s x y : y ∈ adjacent (device_adj s) x ↔ ∃ l, l ∈ links s ∧ link_joins s l x y.
Proof.
  unfold device_adj, link_joins. rewrite elem_of_add_arcs, !list_elem_of_omap.
  unfold adjacent. rewrite lookup_empty. simpl. set_solver.
Qed.

Lemma odf_with_olt_spec s k :
  k ∈ odf_with_olt s ↔ under_olt s k.
Proof.
  unfold odf_with_olt, under_olt, link_joins. rewrite elem_of_list_to_set, list_elem_of_omap. split.
  - intros (l & Hl & E). unfold odf_of_olt_link in E.
    destruct (typed_ends s l) as [[[da ta] [db tb]]|] eqn:Et; [|done]. apply typed_ends_Some in Et as (Ee & Ea & Eb).
    destruct (_ || _) eqn:Ec; [|done]. injection E as <-.
    apply orb_true_iff in Ec as [[->%bool_decide_eq_true ->%bool_decide_eq_true]%andb_true_iff|
      [->%bool_decide_eq_true ->%bool_decide_eq_true]%andb_true_iff]; simpl; eauto 10.
  - intros (Hk & l & x & Hl & Hj & Hx). exists l. split; [done|]. unfold odf_of_olt_link.
    destruct Hj as [Hj|Hj].
    + by rewrite (proj2 (typed_ends_Some s l k ODF x OLT)).
    + by rewrite (proj2 (typed_ends_Some s l x OLT k ODF)).
Qed.

Lemma direct_anchor_headed s k : is_passive s k → direct_anchor s k = true → headed_by_odf s k.
Proof.
  intros Hk (nb & Hn%list_elem_of_In & Hb)%existsb_exists. apply andb_true_iff in Hb as [Ho Hb].
  apply existsb_exists in Hb as (x & Hx%list_elem_of_In & Ht). unfold has_device_type in *. bools.
  apply elem_of_elements, device_adj_spec in Hn as (l & Hl & Hj), Hx as (l' & Hl' & Hj').
  exists nb. split; [|split; [done|by exists l', x]].
  eapply reaches_step; [apply reaches_seed; by left|]. exists l. split; [done|]. split; [done|]. split; [done|].
  exists ODF. split; [done|]. apply mem_true. reflexivity.
Qed.

Lemma anchored_spec s k :
  is_passive s k → ∃ b, anchored s k = Some b ∧ (b = true ↔ headed_by_odf s k).
Proof.
  intros Hk. unfold anchored. destruct (direct_anchor s k) eqn:Ed.
  { exists true. split; [done|]. split; [intros _; by apply direct_anchor_headed|done]. }
  set (goal := λ cur, if has_device_type s ODF cur && bool_decide (cur ∈ odf_with_olt s) then Some tt else None).
  set (succ := λ cur, elements (adjacent (passive_adj s) cur)).
  assert (∀ x y, hop (λ _, true) succ x y ↔ passive_hop s x y) as Hhop.
  { intros x y. unfold hop, succ. rewrite elem_of_elements, passive_adj_spec. naive_solver. }
  assert (∀ x, goal x = Some tt ↔ under_olt s x) as Hgoal.
  { intros x. rewrite <-odf_with_olt_spec. unfold goal, has_device_type. rewrite <-bool_decide_and.
    case_bool_decide as Hx; [naive_solver|]. split; [done|]. intros Hx'. destruct Hx.
    split; [|done]. by apply odf_with_olt_spec in Hx' as [? _]. }
  destruct (search_run append_one (λ _, true) goal succ append_one_perm (dom (passive_adj s)) [k]) as [r Hr].
  { intros x y [l (Hl & Hj & Hx & Hy)]%Hhop. assert (x ∈ adjacent (passive_adj s) y) as Hxy.
    { apply passive_adj_spec. exists l. split; [done|]. split; [destruct Hj; [by right|by left]|done]. }
    unfold adjacent in Hxy. apply elem_of_dom. destruct (passive_adj s !! y); [done|]. set_solver. }
  rewrite Hr. pose proof (search_reaches append_one (λ _, true) goal succ append_one_perm _ _ _ Hr) as Hs.
  assert (∀ x, reaches (hop (λ _, true) succ) [k] x ↔ reaches (passive_hop s) [k] x) as Hre.
  { intros x. split; apply reaches_closed; try (intros z Hz; by apply reaches_seed);
      intros a b Ha Hab; (eapply reaches_step; [exact Ha|]); by apply Hhop. }
  destruct r as [[]|V].
  - exists true. split; [done|]. destruct Hs as (x & Hx & Hg). split; [intros _|done].
    exists x. split; [by apply Hre|by apply Hgoal].
  - exists false. split; [done|]. destruct Hs as [_ Hs]. split; [done|]. intros (c & Hc & Hu).
    apply Hre, Hs in Hc. apply Hgoal in Hu. congruence.
Qed.

(** The splitter can take one more ONT: the port that would serve it has none,
    and fewer ONTs than OUT ports are reachable from the OUT ports. *)
Definition splitter_free (s : DB) (sp : Device) (ont_if a_if_id b_if_id : string) : Prop :=
  (∀ o, serving_port s sp ont_if a_if_id b_if_id = Some (Some o) → ∀ x, ¬ port_onts s (if_id o) x) ∧
  (out_interfaces s sp = [] ∨
   ∃ onts : gset string, (∀ x, x ∈ onts ↔ ∃ o, o ∈ out_interfaces s sp ∧ port_onts s (if_id o) x) ∧
     size onts < length (out_interfaces s sp)).

Lemma out_interfaces_own s d o : o ∈ out_interfaces s d → o ∈ interfaces s ∧ if_device_id o = dev_id d.
Proof.
  unfold out_interfaces. intros Ho. assert (o ∈ interfaces_of s (dev_id d)) as Hi.
  { revert Ho. case_match eqn:E; [by intros [_ ?]%list_elem_of_filter|].
    rewrite <-E. by intros [_ ?]%list_elem_of_filter. }
  apply list_elem_of_filter in Hi as [? ?]. done.
Qed.

(** A port chosen by [serving_port] is an interface of the splitter. *)
Lemma serving_port_own s sp i a b :
  dev_type sp = SPLITTER → ∃ r, serving_port s sp i a b = Some r ∧
    ∀ o, r = Some o → o ∈ interfaces s ∧ if_device_id o = dev_id sp.
Proof.
  intros Ht. unfold serving_port. destruct (find_out_run s sp i Ht) as (r & -> & Hr).
  destruct r as [o|].
  { destruct Hr as (bef & aft & Ho & _). exists (Some o). split; [done|]. intros o' [= <-].
    apply out_interfaces_own. rewrite Ho. set_solver. }
  eexists. split; [done|]. intros o.
  destruct (get_interface s a) as [ia|] eqn:Ea, (get_interface s b) as [ib|] eqn:Eb; simpl; repeat case_match;
    intros; simplify_eq; bools;
    repeat match goal with H : get_interface s _ = Some _ |- _ => apply get_interface_Some in H as [? _] end; done.
Qed.

(** An interface of a splitter does not belong to an ONT. *)
Lemma splitter_port_not_ont s sp o d :
  keys_ok s → sp ∈ devices s → dev_type sp = SPLITTER → o ∈ interfaces s → if_device_id o = dev_id sp →
  owner s (if_id o) = Some d → is_ont s d = false.
Proof.
  intros Hk Hsp Ht Ho Hd Hw. unfold owner in Hw. apply truthy_Some in Hw as [Hw _].
  rewrite if_to_dev_get, get_interface_key in Hw by done. simplify_eq/=. unfold is_ont.
  rewrite Hd, get_device_key by done. rewrite Ht. reflexivity.
Qed.

Lemma size_served s sp :
  dev_type sp = SPLITTER →
  ∃ used (onts : gset string), compute_splitter_usage s sp = Some (length (out_interfaces s sp), used, size onts) ∧
    ∀ x, x ∈ onts ↔ ∃ o, o ∈ out_interfaces s sp ∧ port_onts s (if_id o) x.
Proof.
  intros Ht. destruct (usage_run s sp Ht) as (f & Hf & E). cbv zeta in E. rewrite E.
  eexists _, _. split; [reflexivity|]. intros x. rewrite elem_of_union_list. split.
  - intros (X & (o & -> & Ho)%list_elem_of_fmap & Hx). exists o. split; [done|]. by apply Hf.
  - intros (o & Ho & Hx). exists (f (if_id o)). split; [|by apply Hf].
    apply (list_elem_of_fmap_2 (λ o, f (if_id o)) _ o Ho).
Qed.

Lemma enforce_splitter_spec s sp i a b :
  keys_ok s → sp ∈ devices s → dev_type sp = SPLITTER →
  enforce_splitter s sp i a b ≠ Diverge ∧
  (enforce_splitter s sp i a b = Ret tt ↔ splitter_free s sp i a b).
Proof.
  intros Hk Hsp Ht. unfold enforce_splitter, splitter_free.
  destruct (serving_port_own s sp i a b Ht) as (r & -> & Hr).
  destruct (size_served s sp Ht) as (used & onts & -> & Honts). simpl.
  assert (∀ u, raise_if ((0 <? length (out_interfaces s sp)) && (length (out_interfaces s sp) <=? size onts))%nat u = Ret tt ↔
    (out_interfaces s sp = [] ∨ ∃ onts : gset string,
      (∀ x, x ∈ onts ↔ ∃ o, o ∈ out_interfaces s sp ∧ port_onts s (if_id o) x) ∧ size onts < length (out_interfaces s sp))) as Hcap.
  { intros u. rewrite raise_if_Ret, andb_false_iff, Nat.ltb_ge, Nat.leb_gt. split.
    - intros [H0|Hlt]; [left; apply length_zero_iff_nil; lia|right; by exists onts].
    - intros [->|(onts' & Ho' & Hlt)]; [by left|right].
      assert (onts' = onts) as -> by (apply set_eq; intros x; by rewrite Ho', Honts). done. }
  assert (∀ b e, raise_if b e ≠ Diverge) as Hnd by (by intros []).
  destruct r as [o|]; simpl.
  - destruct (Hr o eq_refl) as [Ho Hd].
    destruct (has_ont_run s (if_id o)) as (bo & -> & Hbo); [intros d; by eapply splitter_port_not_ont|].
    simpl. destruct bo; simpl.
    + split; [done|]. split; [done|]. intros [Hn _]. destruct (proj1 Hbo eq_refl) as [x Hx]. by destruct (Hn o eq_refl x).
    + split; [apply Hnd|]. rewrite Hcap. split; [|by intros [_ ?]]. intros Hc. split; [|done].
      intros o' [= <-] x Hx. discriminate (proj2 Hbo (ex_intro _ x Hx)).
  - split; [apply Hnd|]. rewrite Hcap. naive_solver.
Qed.

Lemma ont_placement_run s a b a_if_id b_if_id :
  keys_ok s → a ∈ devices s → b ∈ devices s →
  let other := if in_class a ONT_CLASS then b else a in
  let ont_if := if in_class a ONT_CLASS then a_if_id else b_if_id in
  enforce_ont_placement_rules s a b a_if_id b_if_id ≠ Diverge ∧
  (enforce_ont_placement_rules s a b a_if_id b_if_id = Ret tt ↔
     ((dev_type a ∉ ONT_CLASS) ∧ (dev_type b ∉ ONT_CLASS)) ∨ dev_type other = ODF ∨
     (dev_type other ∈ PASSIVE_INLINE ∧ headed_by_odf s (dev_id other) ∧
      (dev_type other = SPLITTER → splitter_free s other ont_if a_if_id b_if_id))).
Proof.
  intros Hk Ha Hb other ont_if. unfold enforce_ont_placement_rules.
  assert (other ∈ devices s) as Ho by (unfold other; by case_match).
  destruct (negb (in_class a ONT_CLASS) && negb (in_class b ONT_CLASS)) eqn:En.
  { apply andb_true_iff in En as [Ea%negb_true_iff%mem_false Eb%negb_true_iff%mem_false]. naive_solver. }
  assert (¬ ((dev_type a ∉ ONT_CLASS) ∧ (dev_type b ∉ ONT_CLASS))) as Hont.
  { intros [Ea%mem_false Eb%mem_false]. unfold in_class in En. by rewrite Ea, Eb in En. }
  fold other. fold ont_if. unfold is_type. case_bool_decide as Hodf; [naive_solver|].
  destruct (in_class other PASSIVE_INLINE) eqn:Ep; cbn [negb raise_if].
  2:{ apply mem_false in Ep. simpl. split; [done|]. split; [done|naive_solver]. }
  apply mem_true in Ep. simpl.
  assert (is_passive s (dev_id other)) as Hp.
  { exists (dev_type other). split; [|done]. unfold device_type_of. by rewrite get_device_key. }
  destruct (anchored_spec s _ Hp) as (ok & -> & Hok). simpl. destruct ok; simpl.
  2:{ split; [done|]. split; [done|]. naive_solver. }
  case_bool_decide as Hsp.
  - destruct (enforce_splitter_spec s other ont_if a_if_id b_if_id Hk Ho Hsp) as [Hd He].
    split; [done|]. rewrite He. naive_solver.
  - split; [done|]. naive_solver.
Qed.

(** What the ONT placement rules admit.  The check always ends, and it
    passes exactly when no ONT is involved, or the other end is an ODF, or the
    other end is a passive device from which a chain of passive devices leads to
    an ODF linked to an OLT and, if it is a splitter, the serving port has no
    ONT yet and the splitter has fewer ONTs than OUT ports. *)
Lemma ont_placement_spec s a b a_if_id b_if_id :
  keys_ok s → a ∈ devices s → b ∈ devices s →
  let other := if in_class a ONT_CLASS then b else a in
  let ont_if := if in_class a ONT_CLASS then a_if_id else b_if_id in
  enforce_ont_placement_rules s a b a_if_id b_if_id ≠ Diverge ∧
  (enforce_ont_placement_rules s a b a_if_id b_if_id = Ret tt ↔
     ((dev_type a ∉ ONT_CLASS) ∧ (dev_type b ∉ ONT_CLASS)) ∨ dev_type other = ODF ∨
     (dev_type other ∈ PASSIVE_INLINE ∧ headed_by_odf s (dev_id other) ∧
      (dev_type other = SPLITTER → splitter_free s other ont_if a_if_id b_if_id))).
Proof.
  intros Hk Ha Hb other ont_if. apply ont_placement_run; done.
Qed.

(** The sample network before its ONT is connected. *)
Definition demo_free : DB :=
  mkDB demo_devices demo_interfaces (take 4 demo_links) [] [] [] [] [] [].

Lemma demo_free_keys : keys_ok demo_free.
Proof. constructor; vm_compute; repeat (constructor; [set_solver|]); constructor. Qed.

Lemma ont_placement_spec_witness :
  headed_by_odf demo_free "spl" ∧ splitter_free demo_free (demo_device "spl") "ont-if0" "spl-out1" "ont-if0".
Proof.
  destruct (ont_placement_spec demo_free (demo_device "spl") (demo_device "ont") "spl-out1" "ont-if0" demo_free_keys)
    as [_ H]; [change (demo_device "spl" ∈ devices demo); demo_row|change (demo_device "ont" ∈ devices demo); demo_row|].
  destruct (proj1 H) as [[_ Hn]|[Hn|(_ & Hh & Hs)]].
  - vm_compute. reflexivity.
  - exfalso. apply Hn, mem_true. reflexivity.
  - discriminate Hn.
  - split; [exact Hh|]. apply Hs. reflexivity.
Defined.
