(* ===== verification/Forwarding.v ===== *)
(** Forwarding: [services/l3_service.py], [services/l2_service.py] and
    [services/forwarding_service.py].

    A router forwards by the longest matching route of its VRF, a switch by the
    MAC table of its default bridge domain, which it fills as frames come in.  A
    flow is moved from device to device by [resolve_flow_path].  Only the MAC table
    changes; it is a table of the database, so the database is passed along. *)

From S2P Require Import Prelude PyFloat Models IpAddr LinkRules Splitter.

(** * l3_service.py *)

(** A route with the prefix length of its network, when the target is in it. *)
Definition route_match (target : IpAddress) (r : Route) : option Z :=
  match ip_network false (route_prefix r) with
  | Some net => if ip_in target net then Some (prefixlen net) else None
  | None => None
  end.

(** One turn of the loop over the routes. *)
Definition best_route (target : IpAddress) (best : option (Z * Route)) (r : Route) : option (Z * Route) :=
  match route_match target r with
  | Some plen =>
      match best with
      | None => Some (plen, r)
      | Some (p, _) => if (p <? plen)%Z then Some (plen, r) else best
      end
  | None => best
  end.

Definition scan_routes (target : IpAddress) (rs : list Route) : option (Z * Route) :=
  foldl (best_route target) None rs.

Definition routes_of_vrf (s : DB) (vrf : Z) : list Route := filter (λ r, route_vrf_id r = vrf) (routes s).

Definition longest_prefix_match (s : DB) (vrf_id : Z) (dst_ip : string) : option Route :=
  match ip_address dst_ip with
  | None => None
  | Some target => snd <$> scan_routes target (routes_of_vrf s vrf_id)
  end.

Definition find_neighbor (s : DB) (interface_id ip : string) : option Neighbor :=
  find_row (λ n, String.eqb (neigh_interface_id n) interface_id && String.eqb (neigh_ip_address n) ip) (neighbors s).

Definition resolve_next_hop_mac (s : DB) (interface_id next_hop_ip : string) : option string :=
  neigh_mac_address <$> find_neighbor s interface_id next_hop_ip.

Definition device_default_vrf_id (s : DB) (device_id : string) : option Z := get_device s device_id ≫= dev_vrf_id.

Inductive ForwardDecision :=
  | L3Drop (reason : string)
  | L3Forward (egress_interface_id : string) (next_hop_mac : option string).

(** [dst] is [packet.get("destination_ip")]. *)
Definition get_forwarding_decision (s : DB) (device_id : string) (dst : option string) : ForwardDecision :=
  match truthy dst with
  | None => L3Drop "invalid_packet"
  | Some dst =>
      match device_default_vrf_id s device_id with
      | None => L3Drop "no_device_vrf"
      | Some vrf =>
          match longest_prefix_match s vrf dst with
          | None => L3Drop "no_route_found"
          | Some route =>
              match truthy (route_interface_id route), truthy (next_hop route) with
              | Some i, None => L3Forward i None
              | Some i, Some nh =>
                  match truthy (resolve_next_hop_mac s i nh) with
                  | None => L3Drop "next_hop_unresolved"
                  | Some mac => L3Forward i (Some mac)
                  end
              | None, Some _ => L3Drop "egress_interface_unknown"
              | None, None => L3Drop "invalid_route"
              end
          end
      end
  end.

(** * l2_service.py *)

(** A [Frame] needs both keys; [None]: ValueError. *)
Record Frame := mkFrame { source_mac : string; destination_mac : string }.

Definition make_frame (d : list (string * string)) : option Frame :=
  match dict_get d "source_mac", dict_get d "destination_mac" with
  | Some src, Some dst => Some (mkFrame src dst)
  | _, _ => None
  end.

Definition BROADCAST_MACS : list string := ["ff:ff:ff:ff:ff:ff"; "FF:FF:FF:FF:FF:FF"].

Definition get_device_default_bd_id (s : DB) (device_id : string) : option Z :=
  bd_id <$> find_row (λ b, String.eqb (bd_device_id b) device_id && String.eqb (bd_name b) "default") (bridge_domains s).

Definition interfaces_in_bd (s : DB) (bd : Z) : list Interface :=
  filter (λ i, if_bridge_domain_id i = Some bd) (interfaces s).

Definition is_mac_entry (bd : Z) (mac : string) (e : MacAddressEntry) : bool :=
  (mac_bridge_domain_id e =? bd)%Z && String.eqb (mac_address e) mac.

Definition lookup_mac (bd : Z) (mac : string) (es : list MacAddressEntry) : option MacAddressEntry :=
  find_row (is_mac_entry bd mac) es.

Definition set_mac_interface (i : string) (e : MacAddressEntry) : MacAddressEntry :=
  mkMacAddressEntry (mac_address e) i (mac_bridge_domain_id e) (mac_type e).

(** Learning the source address. *)
Definition learn_mac (bd : Z) (src ingress : string) (es : list MacAddressEntry) : list MacAddressEntry :=
  match lookup_mac bd src es with
  | Some e =>
      if String.eqb (mac_interface_id e) ingress then es
      else update_row (is_mac_entry bd src) (set_mac_interface ingress) es
  | None => es ++ [mkMacAddressEntry src ingress bd DYNAMIC]
  end.

Definition set_mac_entries (es : list MacAddressEntry) (s : DB) : DB :=
  mkDB (devices s) (interfaces s) (links s) (media s) (addresses s) (routes s) (neighbors s) (bridge_domains s) es.

Inductive L2Result :=
  | L2Drop (reason : string)
  | L2Forward (egress_interface_id : string)
  | L2Flood (egress_interface_ids : list string).

Definition flood_bd (s : DB) (bd : Z) (ingress : string) : L2Result :=
  L2Flood (filter (λ i, i ≠ ingress) (if_id <$> interfaces_in_bd s bd)).

Definition process_frame (s : DB) (device_id ingress : string) (f : Frame) : L2Result * DB :=
  let src := lower (source_mac f) in
  let dst := lower (destination_mac f) in
  match get_device_default_bd_id s device_id with
  | None => (L2Drop "no_bridge_domain", s)
  | Some bd =>
      let s := set_mac_entries (learn_mac bd src ingress (mac_entries s)) s in
      if mem dst (lower <$> BROADCAST_MACS) then (flood_bd s bd ingress, s)
      else
        match lookup_mac bd dst (mac_entries s) with
        | Some e => (L2Forward (mac_interface_id e), s)
        | None => (flood_bd s bd ingress, s)
        end
  end.

(** * forwarding_service.py *)

Record Flow := mkFlow {
  source_ip : string; destination_ip : string;
  current_device_id : string; current_interface_id : option string
}.

Definition set_flow_interface (i : option string) (f : Flow) : Flow :=
  mkFlow (source_ip f) (destination_ip f) (current_device_id f) i.

(** The frame the forwarding service hands to a switch. *)
Definition placeholder_frame : Frame := mkFrame "00:00:00:00:00:00" "ff:ff:ff:ff:ff:ff".

Definition ingress_of (f : Flow) : string := default "" (current_interface_id f).

Definition forward_flow (s : DB) (flow : Flow) : Flow * DB :=
  match get_device s (current_device_id flow) with
  | None => (flow, s)
  | Some dev =>
      if mem (dev_type dev) ROUTER_CLASS then
        match get_forwarding_decision s (current_device_id flow) (Some (destination_ip flow)) with
        | L3Forward i _ => if nonempty i then (set_flow_interface (Some i) flow, s) else (flow, s)
        | L3Drop _ => (flow, s)
        end
      else if is_type dev AON_SWITCH then
        let '(res, s) := process_frame s (dev_id dev) (ingress_of flow) placeholder_frame in
        match res with
        | L2Forward i => (set_flow_interface (Some i) flow, s)
        | _ => (flow, s)
        end
      else (flow, s)
  end.

(** [(peer_interface_id, peer_device_id, link_id)] *)
Definition find_peer_interface (s : DB) (egress : string) : option (string * string * string) :=
  match links_of_interface s egress with
  | [] => None
  | ln :: _ =>
      if negb (bool_decide (link_status ln = UP)) then None
      else
        match get_interface s (peer_interface ln egress) with
        | None => None
        | Some i => Some (if_id i, if_device_id i, link_id ln)
        end
  end.

(** The result of [_step]: forward through an interface, delivered there or not. *)
Inductive StepResult :=
  | StepDrop (reason meta : string)
  | StepForward (egress : string) (deliver_here : bool) (meta : string).

(** The routes of the VRF that leave through an interface of the device. *)
Definition local_routes (s : DB) (dev : Device) : list Route :=
  let vrf := match dev_vrf_id dev with Some 0%Z | None => (-1)%Z | Some v => v end in
  let if_ids := if_id <$> interfaces_of s (dev_id dev) in
  filter (λ r, default "" (route_interface_id r) ∈ if_ids) (routes_of_vrf s vrf).

(** The fallback of a router whose best route leaves through another device. *)
Definition local_step (s : DB) (dev : Device) (flow : Flow) : StepResult :=
  match ip_address (destination_ip flow) with
  | None => StepDrop "invalid_packet" "l3_drop"
  | Some target =>
      match scan_routes target (local_routes s dev) with
      | None => StepDrop "no_route_found" "l3_drop"
      | Some (_, local) =>
          match truthy (route_interface_id local) with
          | None => StepDrop "egress_interface_unknown" "l3_drop"
          | Some i =>
              match truthy (next_hop local) with
              | Some nh =>
                  match find_neighbor s i nh with
                  | None => StepDrop "next_hop_unresolved" "l3_drop"
                  | Some _ => StepForward i false "l3_route"
                  end
              | None => StepForward i true "l3_route"
              end
          end
      end
  end.

Definition router_step (s : DB) (dev : Device) (flow : Flow) : StepResult :=
  match get_forwarding_decision s (current_device_id flow) (Some (destination_ip flow)) with
  | L3Drop reason => StepDrop (if nonempty reason then reason else "l3_drop") "l3_drop"
  | L3Forward egress mac =>
      if negb (nonempty egress) then StepDrop "no_egress_interface" "l3_drop"
      else
        match get_interface s egress with
        | Some i =>
            if bool_decide (if_device_id i = dev_id dev)
            then StepForward egress (bool_decide (mac = None)) "l3_route"
            else local_step s dev flow
        | None => local_step s dev flow
        end
  end.

Definition switch_step (s : DB) (dev : Device) (flow : Flow) : StepResult * DB :=
  let '(res, s) := process_frame s (dev_id dev) (ingress_of flow) placeholder_frame in
  (match res with
   | L2Forward eg => if nonempty eg then StepForward eg false "l2_forward" else StepDrop "l2_no_egress" "l2_drop"
   | L2Flood [eg] => StepForward eg false "l2_flood_single"
   | L2Flood _ => StepDrop "l2_ambiguous_flood" "l2_drop"
   | L2Drop reason => StepDrop (if nonempty reason then reason else "l2_drop") "l2_drop"
   end, s).

Definition flow_step (s : DB) (flow : Flow) : StepResult * DB :=
  match get_device s (current_device_id flow) with
  | None => (StepDrop "device_not_found" "error", s)
  | Some dev =>
      if mem (dev_type dev) ROUTER_CLASS then (router_step s dev flow, s)
      else if is_type dev AON_SWITCH then switch_step s dev flow
      else (StepDrop "unsupported_device_type" "error", s)
  end.

Record HopMeta := mkHopMeta {
  hm_device_id : string; hm_device_type : string; hm_action : string;
  hm_egress : option string; hm_deliver_here : bool; hm_reason : option string; hm_link : option string
}.

Record FlowResult := mkFlowResult {
  delivered : bool; reason : option string; hops : list Flow; hop_metadata : list HopMeta;
  final_device_id : string; final_interface_id : option string
}.

(** The loop of [resolve_flow_path]; [cur] is [hops[-1]]. *)
Fixpoint path_loop (remaining : nat) (s : DB) (init cur : Flow) (hs : list Flow) (ms : list HopMeta)
    : FlowResult * DB :=
  match remaining with
  | O => (mkFlowResult false (Some "ttl_exceeded") hs ms (current_device_id cur) (current_interface_id cur), s)
  | S remaining' =>
      let dev_type_name :=
        match get_device s (current_device_id cur) with Some d => DeviceType_value (dev_type d) | None => "UNKNOWN" end in
      let meta := mkHopMeta (current_device_id cur) dev_type_name in
      let '(res, s) := flow_step s cur in
      let drop reason action egress :=
        (mkFlowResult false (Some (if nonempty reason then reason else "unknown")) hs
           (ms ++ [meta action egress false (Some (if nonempty reason then reason else "unknown")) None])
           (current_device_id cur) (current_interface_id cur), s) in
      let deliver egress action :=
        (mkFlowResult true None (hs ++ [set_flow_interface (Some egress) cur])
           (ms ++ [meta action (Some egress) true None None]) (current_device_id cur) (Some egress), s) in
      match res with
      | StepDrop reason action => drop reason action None
      | StepForward egress here action =>
          if negb (nonempty egress) then drop "unknown" action (Some egress)
          else if here then deliver egress action
          else
            match find_peer_interface s egress with
            | Some (peer_if, peer_dev, lid) =>
                if negb (nonempty peer_if) || negb (nonempty peer_dev) then deliver egress action
                else
                  let nxt := mkFlow (source_ip init) (destination_ip init) peer_dev (Some peer_if) in
                  path_loop remaining' s init nxt (hs ++ [nxt])
                    (ms ++ [meta action (Some egress) false None (Some lid)])
            | None => deliver egress action
            end
      end
  end.

Definition resolve_flow_path (s : DB) (initial_flow : Flow) (ttl : Z) : FlowResult * DB :=
  path_loop (Z.to_nat ttl) s initial_flow initial_flow [initial_flow] [].
