(* ===== verification/ForwardingProofs.v ===== *)
(** What forwarding computes: the longest matching prefix, MAC learning as a map,
    and the soundness of a resolved flow path. *)

From stdpp Require Import pretty.
From S2P Require Import Prelude PyFloat Models IpAddr LinkRules Scenario Splitter Forwarding.

(** * Longest prefix match *)

(** A prefix string denotes a network that shares its first [plen] bits with the target. *)
Definition shares_prefix (target : IpAddress) (prefix : string) (plen : Z) : Prop :=
  ∃ net, ip_network false prefix = Some net ∧ prefixlen net = plen ∧ net_version net = ip_version target ∧
    prefix_bits plen (ip_version target) (ip_int target) = prefix_bits plen (ip_version target) (net_int net).

Lemma route_match_Some target r p :
  ip_ok target → route_match target r = Some p ↔ shares_prefix target (route_prefix r) p.
Proof.
  intros Ht. unfold route_match, shares_prefix. destruct (ip_network false (route_prefix r)) as [net|] eqn:E; [|naive_solver].
  pose proof (ip_in_prefix target net Ht (ip_network_ok _ _ _ E)) as Hin.
  destruct (ip_in target net).
  - destruct (proj1 Hin eq_refl) as [Hv Hb]. split.
    + intros [= <-]. exists net. rewrite Hv. done.
    + intros (net' & [= <-] & <- & _). done.
  - split; [done|]. intros (net' & [= <-] & <- & Hv & Hb). rewrite <-Hv in Hb.
    discriminate (proj2 Hin (conj (eq_sym Hv) Hb)).
Qed.

(** The loop keeps the first of the longest matches. *)
Lemma scan_routes_spec target rs :
  match scan_routes target rs with
  | None => ∀ r, r ∈ rs → route_match target r = None
  | Some (p, r) => ∃ bef aft, rs = bef ++ r :: aft ∧ route_match target r = Some p ∧
      (∀ q k, q ∈ bef → route_match target q = Some k → (k < p)%Z) ∧
      (∀ q k, q ∈ aft → route_match target q = Some k → (k ≤ p)%Z)
  end.
Proof.
  unfold scan_routes. induction rs as [|x rs IH] using rev_ind; [set_solver|]. rewrite foldl_app. simpl.
  unfold best_route at 1. destruct (foldl (best_route target) None rs) as [[p r]|].
  - destruct IH as (bef & aft & -> & Hr & Hb & Ha). destruct (route_match target x) as [k|] eqn:Ex.
    + destruct (Z.ltb_spec p k).
      * exists (bef ++ r :: aft), []. split; [done|]. split; [done|]. split; [|set_solver].
        intros q j [Hq|[-> | Hq]%elem_of_cons]%elem_of_app Hj; [specialize (Hb q j Hq Hj)|simplify_eq|specialize (Ha q j Hq Hj)]; lia.
      * exists bef, (aft ++ [x]). rewrite <-app_assoc. split; [done|]. split; [done|]. split; [done|].
        intros q j [Hq| ->%list_elem_of_singleton]%elem_of_app Hj; [by apply (Ha q)|]. simplify_eq. lia.
    + exists bef, (aft ++ [x]). rewrite <-app_assoc. split; [done|]. split; [done|]. split; [done|].
      intros q j [Hq| ->%list_elem_of_singleton]%elem_of_app Hj; [by apply (Ha q)|congruence].
  - destruct (route_match target x) as [k|] eqn:Ex.
    + exists rs, []. split; [done|]. split; [done|]. split; [|set_solver]. intros q j Hq Hj. by rewrite IH in Hj.
    + intros q [Hq| ->%list_elem_of_singleton]%elem_of_app; auto.
Qed.

(** Longest prefix match.  For a destination that is an IP address the
    lookup returns the first route of the VRF whose network shares the most
    leading bits with it (a route with an unreadable prefix never matches), and
    [None] exactly when no route of the VRF matches; for anything else it returns
    [None]. *)
Lemma longest_prefix_match_spec s vrf dst :
  match ip_address dst with
  | None => longest_prefix_match s vrf dst = None
  | Some target =>
      match longest_prefix_match s vrf dst with
      | None => ∀ r p, r ∈ routes s → route_vrf_id r = vrf → ¬ shares_prefix target (route_prefix r) p
      | Some r => ∃ bef aft p, routes_of_vrf s vrf = bef ++ r :: aft ∧ shares_prefix target (route_prefix r) p ∧
          (∀ q k, q ∈ bef → shares_prefix target (route_prefix q) k → (k < p)%Z) ∧
          (∀ q k, q ∈ aft → shares_prefix target (route_prefix q) k → (k ≤ p)%Z)
      end
  end.
Proof.
  unfold longest_prefix_match. destruct (ip_address dst) as [target|] eqn:E; [|done].
  apply ip_address_ok in E. pose proof (scan_routes_spec target (routes_of_vrf s vrf)) as Hs.
  destruct (scan_routes target (routes_of_vrf s vrf)) as [[p r]|]; simpl.
  - destruct Hs as (bef & aft & Hrs & Hr & Hb & Ha). exists bef, aft, p. split; [done|].
    setoid_rewrite <-(route_match_Some target) ; [|done..]. done.
  - intros r p Hr Hv Hp. apply route_match_Some in Hp; [|done]. rewrite Hs in Hp; [done|].
    by apply list_elem_of_filter.
Qed.

(** * MAC learning *)

Definition learned (es : list MacAddressEntry) (bd : Z) (mac : string) : option string :=
  mac_interface_id <$> lookup_mac bd mac es.

Definition mac_key (e : MacAddressEntry) : Z * string := (mac_bridge_domain_id e, mac_address e).

Lemma is_mac_entry_true bd mac e : is_mac_entry bd mac e = true ↔ mac_key e = (bd, mac).
Proof. unfold is_mac_entry, mac_key. rewrite andb_true_iff, Z.eqb_eq, String.eqb_eq. naive_solver. Qed.

Lemma is_mac_entry_other bd mac e :
  (bd, mac) ≠ mac_key e → is_mac_entry bd mac e = false.
Proof. intros Hne. destruct (is_mac_entry bd mac e) eqn:E; [|done]. by apply is_mac_entry_true in E. Qed.

Lemma update_row_keys bd src i es : mac_key <$> update_row (is_mac_entry bd src) (set_mac_interface i) es = mac_key <$> es.
Proof. induction es as [|e es IH]; simpl; [done|]. case_match; simpl; [done|]. by f_equal. Qed.

(** Learning overwrites the entry of the source address and no other. *)
Lemma learned_learn bd src i es bd' mac :
  learned (learn_mac bd src i es) bd' mac = if decide ((bd', mac) = (bd, src)) then Some i else learned es bd' mac.
Proof.
  assert (∀ f es', (∀ e, mac_key (f e) = mac_key e) → lookup_mac bd' mac (update_row (is_mac_entry bd src) f es') =
    if decide ((bd', mac) = (bd, src)) then f <$> lookup_mac bd' mac es' else lookup_mac bd' mac es') as Hup.
  { intros f es' Hf. induction es' as [|e es' IH]; simpl; [by case_decide|].
    destruct (is_mac_entry bd src e) eqn:E; unfold lookup_mac in *; simpl.
    - apply is_mac_entry_true in E. case_decide as Hd.
      + injection Hd as -> ->. rewrite !(proj2 (is_mac_entry_true bd src _)); [done|done|by rewrite Hf].
      + rewrite !is_mac_entry_other; [done|by rewrite E|by rewrite Hf, E].
    - destruct (is_mac_entry bd' mac e) eqn:E'; [|done]. case_decide as Hd; [|done]. injection Hd as -> ->. congruence. }
  unfold learned, learn_mac. destruct (lookup_mac bd src es) as [e|] eqn:E.
  - destruct (String.eqb_spec (mac_interface_id e) i) as [<-|Hne].
    + case_decide as Hd; [|done]. injection Hd as -> ->. by rewrite E.
    + rewrite Hup by done. case_decide as Hd; [|done]. injection Hd as -> ->. by rewrite E.
  - unfold lookup_mac in *. rewrite find_row_app. case_decide as Hd.
    + injection Hd as -> ->. rewrite E. simpl. rewrite (proj2 (is_mac_entry_true bd src _)); done.
    + case_match; [done|]. simpl. rewrite is_mac_entry_other by done. done.
Qed.

Lemma learn_mac_NoDup bd src i es : NoDup (mac_key <$> es) → NoDup (mac_key <$> learn_mac bd src i es).
Proof.
  intros Hnd. unfold learn_mac. destruct (lookup_mac bd src es) as [e|] eqn:E.
  - case_match; [done|]. by rewrite update_row_keys.
  - rewrite fmap_app. apply NoDup_app. split; [done|]. split; [|apply NoDup_singleton].
    intros k (e & -> & He)%list_elem_of_fmap Hk%list_elem_of_singleton.
    eapply find_row_None in E; [|exact He]. rewrite (proj2 (is_mac_entry_true bd src e)) in E; done.
Qed.

(** The abstract switch: a map from domain and address to interface. *)
Abbreviation MacTable := (gmap (Z * string) string).

Definition spec_frame (s : DB) (t : MacTable) (device_id ingress : string) (f : Frame) : L2Result * MacTable :=
  match get_device_default_bd_id s device_id with
  | None => (L2Drop "no_bridge_domain", t)
  | Some bd =>
      let t := <[(bd, lower (source_mac f)) := ingress]> t in
      let dst := lower (destination_mac f) in
      (if String.eqb dst "ff:ff:ff:ff:ff:ff" then flood_bd s bd ingress
       else match t !! (bd, dst) with Some i => L2Forward i | None => flood_bd s bd ingress end, t)
  end.

Definition FrameIn : Type := string * string * Frame.

Fixpoint run_frames (s : DB) (fs : list FrameIn) : list L2Result * DB :=
  match fs with
  | [] => ([], s)
  | (d, i, f) :: fs' =>
      let '(r, s') := process_frame s d i f in
      let '(rs, s'') := run_frames s' fs' in (r :: rs, s'')
  end.

Fixpoint run_spec (s : DB) (t : MacTable) (fs : list FrameIn) : list L2Result * MacTable :=
  match fs with
  | [] => ([], t)
  | (d, i, f) :: fs' =>
      let '(r, t') := spec_frame s t d i f in
      let '(rs, t'') := run_spec s t' fs' in (r :: rs, t'')
  end.

Lemma process_frame_refines s t d i f :
  (∀ bd mac, learned (mac_entries s) bd mac = t !! (bd, mac)) →
  let '(r, s') := process_frame s d i f in
  let '(r', t') := spec_frame s t d i f in
  r = r' ∧ (∀ bd mac, learned (mac_entries s') bd mac = t' !! (bd, mac)) ∧ s' = set_mac_entries (mac_entries s') s ∧
  (NoDup (mac_key <$> mac_entries s) → NoDup (mac_key <$> mac_entries s')).
Proof.
  intros Ht. unfold process_frame, spec_frame.
  destruct (get_device_default_bd_id s d) as [bd|]; [|by destruct s].
  set (es := learn_mac bd (lower (source_mac f)) i (mac_entries s)).
  assert (∀ bd' mac, learned es bd' mac = <[(bd, lower (source_mac f)) := i]> t !! (bd', mac)) as Hes.
  { intros bd' mac. unfold es. rewrite learned_learn. case_decide as Hd.
    - injection Hd as -> ->. by rewrite lookup_insert_eq.
    - by rewrite lookup_insert_ne, Ht by done. }
  pose proof (Hes bd (lower (destination_mac f))) as Hdst.
  change (lower <$> BROADCAST_MACS) with ["ff:ff:ff:ff:ff:ff"; "ff:ff:ff:ff:ff:ff"].
  assert (mem (lower (destination_mac f)) ["ff:ff:ff:ff:ff:ff"; "ff:ff:ff:ff:ff:ff"] =
    String.eqb (lower (destination_mac f)) "ff:ff:ff:ff:ff:ff") as ->.
  { destruct (String.eqb_spec (lower (destination_mac f)) "ff:ff:ff:ff:ff:ff") as [->|Hne]; [done|].
    apply mem_false. set_solver. }
  destruct (String.eqb (lower (destination_mac f)) "ff:ff:ff:ff:ff:ff").
  - split; [done|]. split; [done|]. split; [done|]. apply learn_mac_NoDup.
  - cbn [mac_entries set_mac_entries]. fold es. rewrite <-Hdst. unfold learned.
    destruct (lookup_mac bd _ es) as [e|]; simpl;
      (split; [done|]); (split; [done|]); (split; [done|]); apply learn_mac_NoDup.
Qed.

(** C32. The switches implement a map.  Over any sequence of frames entering any
    devices, the row table learned so far stands for a map from (bridge domain,
    lower-case address) to the interface of the last frame with that source, and
    every verdict - drop without a domain, flood for broadcast and unknown
    destinations, forward to the learned interface otherwise - is the one the map
    gives; no row is duplicated and no other table changes. *)
Theorem switch_refines_map s t fs :
  (∀ bd mac, learned (mac_entries s) bd mac = t !! (bd, mac)) → NoDup (mac_key <$> mac_entries s) →
  let '(rs, s') := run_frames s fs in
  let '(rs', t') := run_spec s t fs in
  rs = rs' ∧ (∀ bd mac, learned (mac_entries s') bd mac = t' !! (bd, mac)) ∧
  NoDup (mac_key <$> mac_entries s') ∧ s' = set_mac_entries (mac_entries s') s.
Proof.
  revert s t. induction fs as [|[[d i] f] fs IH]; intros s t Ht Hnd; simpl; [by destruct s|].
  pose proof (process_frame_refines s t d i f Ht) as Hf.
  destruct (process_frame s d i f) as [r s1], (spec_frame s t d i f) as [r' t1]. destruct Hf as (-> & Ht1 & Hs1 & Hnd1).
  specialize (IH s1 t1 Ht1 (Hnd1 Hnd)). destruct (run_frames s1 fs) as [rs s2].
  assert (run_spec s1 t1 fs = run_spec s t1 fs) as Heq.
  { rewrite Hs1. clear. revert t1. induction fs as [|[[d i] f] fs IH]; intros t1; simpl; [done|].
    change (spec_frame (set_mac_entries (mac_entries s1) s) t1 d i f) with (spec_frame s t1 d i f).
    destruct (spec_frame s t1 d i f). by rewrite IH. }
  rewrite Heq in IH. destruct (run_spec s t1 fs) as [rs' t2]. destruct IH as (-> & Ht2 & Hnd2 & Hs2).
  split; [done|]. split; [done|]. split; [done|]. rewrite Hs2, Hs1. done.
Qed.

(** A switch with three ports: the second frame is forwarded to the port of the first. *)
Definition switch_db : DB :=
  mkDB [device0 "sw" AON_SWITCH]
    [mkInterface "p1" "sw" "p1" None ADMIN_UP None None (Some 1%Z) None None;
     mkInterface "p2" "sw" "p2" None ADMIN_UP None None (Some 1%Z) None None;
     mkInterface "p3" "sw" "p3" None ADMIN_UP None None (Some 1%Z) None None]
    [] [] [] [] [] [mkBridgeDomain 1 "default" "sw"] [].

Lemma switch_refines_map_witness :
  let fs := [("sw", "p1", mkFrame "AA:01" "aa:02"); ("sw", "p2", mkFrame "aa:02" "aa:01")] in
  (run_frames switch_db fs).1 = (run_spec switch_db ∅ fs).1 ∧
  (run_frames switch_db fs).1 = [L2Flood ["p2"; "p3"]; L2Forward "p1"].
Proof.
  intros fs. split; [|vm_compute; reflexivity].
  assert (∀ bd mac, learned (mac_entries switch_db) bd mac = (∅ : MacTable) !! (bd, mac)) as Ht
    by (intros; by rewrite lookup_empty).
  pose proof (switch_refines_map switch_db ∅ fs Ht NoDup_nil_2) as H.
  destruct (run_frames switch_db fs) as [rs s'], (run_spec switch_db ∅ fs) as [rs' t']. exact (proj1 H).
Defined.

(** * Flow paths *)

Lemma peer_interface_mac es s eg : find_peer_interface (set_mac_entries es s) eg = find_peer_interface s eg.
Proof. done. Qed.

(** A step writes the MAC table only. *)
Lemma flow_step_db s f : ∃ es, (flow_step s f).2 = set_mac_entries es s.
Proof.
  assert (∃ es, s = set_mac_entries es s) as Hid by (exists (mac_entries s); by destruct s).
  unfold flow_step, switch_step, process_frame.
  destruct (get_device s (current_device_id f)) as [d|]; [|done]. case_match; [done|]. case_match; [|done].
  destruct (get_device_default_bd_id s (dev_id d)) as [bd|]; [|done]. simpl. by eexists.
Qed.

(** The interface through which a device may forward: one of its own for a
    router, another port of the default bridge domain for a switch. *)
Definition exit_ok (s : DB) (f : Flow) (eg : string) : Prop :=
  ∃ d, get_device s (current_device_id f) = Some d ∧
    ((dev_type d ∈ ROUTER_CLASS ∧ ∃ i, i ∈ interfaces s ∧ if_id i = eg ∧ if_device_id i = dev_id d) ∨
     (dev_type d = AON_SWITCH ∧ ∃ bd, get_device_default_bd_id s (dev_id d) = Some bd ∧
        filter (λ i, i ≠ ingress_of f) (if_id <$> interfaces_in_bd s bd) = [eg])).

Lemma local_step_exit s d f eg here a :
  local_step s d f = StepForward eg here a → ∃ i, i ∈ interfaces s ∧ if_id i = eg ∧ if_device_id i = dev_id d.
Proof.
  unfold local_step. destruct (ip_address _) as [target|]; [|done].
  pose proof (scan_routes_spec target (local_routes s d)) as Hs.
  destruct (scan_routes target (local_routes s d)) as [[p r]|]; [|done]. destruct Hs as (bef & aft & Hrs & _).
  assert (r ∈ local_routes s d) as [Hin _]%list_elem_of_filter by (rewrite Hrs; set_solver).
  destruct (truthy (route_interface_id r)) as [i|] eqn:Ei; [|done]. apply truthy_Some in Ei as [Ei _].
  rewrite Ei in Hin. simpl in Hin. apply list_elem_of_fmap in Hin as (j & Hj & [Hd Hin]%list_elem_of_filter).
  repeat case_match; intros; simplify_eq; by exists j.
Qed.

Lemma flow_step_exit s f eg here a s' : flow_step s f = (StepForward eg here a, s') → exit_ok s f eg.
Proof.
  unfold flow_step, exit_ok. destruct (get_device s (current_device_id f)) as [d|] eqn:Hd; [|done].
  destruct (mem (dev_type d) ROUTER_CLASS) eqn:Hr; [|unfold is_type; case_bool_decide as Hsw; [|done]].
  - apply mem_true in Hr. intros [= Hs <-]. exists d. split; [done|]. left. split; [done|]. revert Hs.
    unfold router_step. destruct (get_forwarding_decision _ _ _) as [|e mac]; [done|]. case_match; [done|].
    destruct (get_interface s e) as [i|] eqn:Ei; [|by apply local_step_exit].
    case_bool_decide as Hi; [|by apply local_step_exit]. intros [= <- _ _].
    apply get_interface_Some in Ei as [Hin <-]. by exists i.
  - intros Hs. exists d. split; [done|]. right. split; [done|]. revert Hs. unfold switch_step, process_frame.
    destruct (get_device_default_bd_id s (dev_id d)) as [bd|]; [|done].
    change (mem (lower (destination_mac placeholder_frame)) (lower <$> BROADCAST_MACS)) with true. cbv beta iota zeta.
    unfold flood_bd. change (interfaces_in_bd (set_mac_entries _ s) bd) with (interfaces_in_bd s bd).
    destruct (filter _ _) as [|e []] eqn:E; [done| |done]. intros [= <- _ _ _]. by exists bd.
Qed.

(** One hop: out of an interface of the device, along an active link. *)
Definition hop_along (s : DB) (f f' : Flow) (m : HopMeta) : Prop :=
  source_ip f' = source_ip f ∧ destination_ip f' = destination_ip f ∧
  ∃ eg ln i, hm_device_id m = current_device_id f ∧ hm_egress m = Some eg ∧ hm_link m = Some (link_id ln) ∧
    exit_ok s f eg ∧ ln ∈ links s ∧ link_status ln = UP ∧ eg ∈ [a_interface_id ln; b_interface_id ln] ∧
    get_interface s (peer_interface ln eg) = Some i ∧
    current_interface_id f' = Some (if_id i) ∧ current_device_id f' = if_device_id i.

Inductive walk (s : DB) : Flow → list Flow → list HopMeta → Flow → Prop :=
  | walk_nil f : walk s f [] [] f
  | walk_step f f' m hs ms z : hop_along s f f' m → walk s f' hs ms z → walk s f (f' :: hs) (m :: ms) z.

(** How a resolution ends after the hops [hs] to [z]. *)
Inductive path_end (s : DB) (ttl : nat) (pre hs : list Flow) (pm ms : list HopMeta) (z : Flow) (r : FlowResult) : Prop :=
  | end_delivered eg m :
      length hs < ttl → hm_device_id m = current_device_id z → hm_egress m = Some eg → exit_ok s z eg →
      r = mkFlowResult true None (pre ++ hs ++ [set_flow_interface (Some eg) z]) (pm ++ ms ++ [m]) (current_device_id z) (Some eg) →
      path_end s ttl pre hs pm ms z r
  | end_dropped why m :
      length hs < ttl → why ≠ "" → hm_device_id m = current_device_id z → hm_reason m = Some why → hm_link m = None →
      r = mkFlowResult false (Some why) (pre ++ hs) (pm ++ ms ++ [m]) (current_device_id z) (current_interface_id z) →
      path_end s ttl pre hs pm ms z r
  | end_ttl :
      length hs = ttl →
      r = mkFlowResult false (Some "ttl_exceeded") (pre ++ hs) (pm ++ ms) (current_device_id z) (current_interface_id z) →
      path_end s ttl pre hs pm ms z r.

Lemma find_peer_Some s eg j dv lid :
  find_peer_interface s eg = Some (j, dv, lid) →
  ∃ ln i, ln ∈ links s ∧ link_status ln = UP ∧ eg ∈ [a_interface_id ln; b_interface_id ln] ∧
    get_interface s (peer_interface ln eg) = Some i ∧ j = if_id i ∧ dv = if_device_id i ∧ lid = link_id ln.
Proof.
  unfold find_peer_interface. destruct (links_of_interface s eg) as [|ln lns] eqn:El; [done|].
  assert (ln ∈ links_of_interface s eg) as [Hor Hin]%list_elem_of_filter by (rewrite El; by left).
  case_bool_decide as Hup; [|done]. simpl. destruct (get_interface s _) as [i|] eqn:Ei; [|done]. intros [= <- <- <-].
  exists ln, i. split; [done|]. split; [done|]. split; [set_solver|done].
Qed.

Lemma path_loop_spec s init ttl es cur pre pm r s' :
  source_ip cur = source_ip init → destination_ip cur = destination_ip init →
  path_loop ttl (set_mac_entries es s) init cur pre pm = (r, s') →
  ∃ hs ms z, walk s cur hs ms z ∧ path_end s ttl pre hs pm ms z r.
Proof.
  revert es cur pre pm. induction ttl as [|ttl IH]; intros es cur pre pm Hsrc Hdst; cbn [path_loop].
  { intros [= <- _]. exists [], [], cur. split; [constructor|]. apply end_ttl; [done|]. by rewrite !app_nil_r. }
  destruct (flow_step_db (set_mac_entries es s) cur) as [es' Hdb].
  destruct (flow_step (set_mac_entries es s) cur) as [res s1] eqn:Hstep. simpl in Hdb. subst s1.
  assert (∀ why, nonempty why = true → why ≠ "") as Hne by (by intros []).
  assert (∀ why m, hm_device_id m = current_device_id cur → hm_link m = None → hm_reason m = Some why → why ≠ "" →
    ∃ hs ms z, walk s cur hs ms z ∧ path_end s (S ttl) pre hs pm ms z
      (mkFlowResult false (Some why) pre (pm ++ [m]) (current_device_id cur) (current_interface_id cur))) as Hdrop.
  { intros why m ? ? ? ?. exists [], [], cur. split; [constructor|].
    apply (end_dropped _ _ _ _ _ _ _ _ why m); try done; [simpl; lia|by rewrite app_nil_r]. }
  destruct res as [why a|eg here a].
  { intros [= <- _]. apply Hdrop; try done. case_match; [auto|done]. }
  apply flow_step_exit in Hstep.
  destruct (nonempty eg) eqn:Hn; cbn [negb]; [|intros [= <- _]; by apply Hdrop].
  assert (∀ m, hm_device_id m = current_device_id cur → hm_egress m = Some eg →
    ∃ hs ms z, walk s cur hs ms z ∧ path_end s (S ttl) pre hs pm ms z
      (mkFlowResult true None (pre ++ [set_flow_interface (Some eg) cur]) (pm ++ [m]) (current_device_id cur) (Some eg))) as Hdel.
  { intros m ? ?. exists [], [], cur. split; [constructor|].
    apply (end_delivered _ _ _ _ _ _ _ _ eg m); try done. simpl. lia. }
  destruct here; [intros [= <- _]; by apply Hdel|].
  rewrite !peer_interface_mac. destruct (find_peer_interface s eg) as [[[j dv] lid]|] eqn:Hp; [|intros [= <- _]; by apply Hdel].
  case_match; [intros [= <- _]; by apply Hdel|].
  intros Hr. apply (IH es') in Hr as (hs & ms & z & Hw & He); [|done..].
  apply find_peer_Some in Hp as (ln & i & Hl & Hup & Hin & Hi & -> & -> & ->).
  eexists (_ :: hs), (_ :: ms), z. apply and_comm. split.
  - destruct He as [eg' m Hlt ? ? ? ->|why m Hlt ? ? ? ? ->|Hlen ->].
    + apply (end_delivered _ _ _ _ _ _ _ _ eg' m); try done; [simpl; lia|by rewrite <-!app_assoc].
    + apply (end_dropped _ _ _ _ _ _ _ _ why m); try done; [simpl; lia|by rewrite <-!app_assoc].
    + apply end_ttl; [simpl; lia|by rewrite <-!app_assoc].
  - eapply walk_step; [|exact Hw]. split; [exact (eq_sym Hsrc)|]. split; [exact (eq_sym Hdst)|]. exists eg, ln, i. done.
Qed.

