(* ===== verification/Links.v ===== *)
(** Creating and deleting links: [api/endpoints/links_helpers_create.py],
    [api/endpoints/links_helpers_delete.py], [services/links_service.py],
    [ensure_default_interface] of [backend/utils.py] and [ensure_physical_media]
    of [services/seed_service.py].

    A handler runs in one transaction: checks, pending rows, domain events, one
    commit; then it bumps the topology version, publishes, schedules a
    recomputation and calls the Go services.  The world is what these effects
    touch.  Third-party behaviour is an argument ([Env]): the clock, the outcome
    of the MAC table's own transactions, the MD5 digest, whether a [session.get]
    that has to query flushes the pending rows, and what the Go services do to
    the database. *)

From stdpp Require Import pretty.
From S2P Require Import Prelude PyFloat Models LinkRules Worklist Adjacency Scenario LinkStatus.
From S2P Require Import EventStore Errors MacAllocator Splitter LinkPolicy.

(** * Data *)

(** api/schemas.LinkCreate.  The handler ignores [kind] and [protection_mode]. *)
Record LinkCreate := mkLinkCreate {
  lc_id : string; lc_a_interface_id : string; lc_b_interface_id : string;
  lc_kind : LinkType; lc_status : Status; lc_override : option Status;
  lc_protection_mode : option string; lc_length_km : option float; lc_physical_medium_id : option Z
}.

(** api/schemas.LinkResolvedOut *)
Record LinkResolvedOut := mkOut {
  out_id : string; out_a_interface_id : string; out_b_interface_id : string;
  out_a_device_id : string; out_b_device_id : string;
  out_status : Status; out_effective_status : Status; out_kind : LinkType; out_override : option Status;
  out_length_km : option float; out_physical_medium_id : option Z; out_rule_id : option string
}.

Record Env := mkEnv {
  env_now : string;
  env_mac_a : DbOutcome; env_mac_b : DbOutcome;
  env_append_ok : bool;               (* runtime copies of events can be stored *)
  env_md5 : string → Z;
  env_get_flushes : bool;
  env_go : DB → DB * bool             (* the database afterwards; false: a call before the events raised *)
}.

Record World := mkWorld {
  w_db : DB;
  w_mac : MacState;
  w_rows : list EventStoreRecord;     (* the event store *)
  w_history : list Event;             (* published events *)
  w_topo : Z;                         (* PATHFINDING_STORE.version() *)
  w_requests : list (string * string) (* coalescer.schedule(scope, key) *)
}.

Definition set_interfaces_media_links (ifs : list Interface) (ms : list PhysicalMedium) (ls : list Link)
    (s : DB) : DB :=
  mkDB (devices s) ifs ls ms (addresses s) (routes s) (neighbors s) (bridge_domains s) (mac_entries s).

Definition add_interface (i : Interface) (s : DB) : DB :=
  set_interfaces_media_links (interfaces s ++ [i]) (media s) (links s) s.
Definition set_media (ms : list PhysicalMedium) (s : DB) : DB :=
  set_interfaces_media_links (interfaces s) ms (links s) s.
Definition set_links (ls : list Link) (s : DB) : DB :=
  set_interfaces_media_links (interfaces s) (media s) ls s.

(** The unique constraints of the tables a link creation writes. *)
Record constraints (s : DB) : Prop := {
  c_keys : keys_ok s;
  c_interface_name : NoDup ((λ i, (if_device_id i, if_name i)) <$> interfaces s);
  c_interface_mac : NoDup (omap if_mac_address (interfaces s));
  c_link_ends : NoDup ((λ l, (a_interface_id l, b_interface_id l)) <$> links s);
  c_medium_code : NoDup (pm_code <$> media s)
}.

#[export] Instance constraints_dec s : Decision (constraints s).
Proof.
  refine (cast_if (decide (
    ((NoDup (dev_id <$> devices s) ∧ NoDup (if_id <$> interfaces s)) ∧
     (NoDup (link_id <$> links s) ∧ NoDup (pm_id <$> media s))) ∧
    (NoDup ((λ i, (if_device_id i, if_name i)) <$> interfaces s) ∧ NoDup (omap if_mac_address (interfaces s))) ∧
    (NoDup ((λ l, (a_interface_id l, b_interface_id l)) <$> links s) ∧ NoDup (pm_code <$> media s)))));
  [abstract (destruct_and?; split; [split|..]; done)
  |abstract (intros [[????] ????]; naive_solver)].
Defined.

(** * links_service.py *)

Definition derive_dev (iface_id : string) : string :=
  if ends_with "-if0" iface_id then drop_last 4 iface_id else iface_id.

Definition join_ids (x y : string) : string := String.append x (String.append "__" y).

(** [(a_id, b_id, canonical_id, user_order_id)] *)
Definition canonical_link_id (a_iface_id b_iface_id : string) : string * string * string * string :=
  let '(a_id, b_id) := if str_ltb b_iface_id a_iface_id then (b_iface_id, a_iface_id) else (a_iface_id, b_iface_id) in
  let dev_a_raw := derive_dev a_iface_id in
  let dev_b_raw := derive_dev b_iface_id in
  let canonical_id := if str_leb dev_a_raw dev_b_raw then join_ids dev_a_raw dev_b_raw else join_ids dev_b_raw dev_a_raw in
  (a_id, b_id, canonical_id, join_ids dev_a_raw dev_b_raw).

(** seed_service.ensure_physical_media; the table assigns the next integer key. *)
Definition CANONICAL_MEDIA : list (string * string * string * option float) := [
  ("SMF_G652D", "Single-mode G.652.D", "optical", None);
  ("SMF_G657A1", "Single-mode G.657.A1", "optical", None);
  ("SMF_G657A2", "Single-mode G.657.A2", "optical", None);
  ("MMF_OM3", "Multi-mode OM3", "optical", None);
  ("MMF_OM4", "Multi-mode OM4", "optical", None);
  ("CAT6A_UTP", "Category 6A UTP", "copper", Some (dec 1 10))].

Definition next_medium_id (ms : list PhysicalMedium) : Z := (foldr (λ m acc, Z.max (pm_id m) acc) 0 ms + 1)%Z.

Definition ensure_physical_media (s : DB) : DB :=
  let existing_codes := pm_code <$> media s in
  set_media (foldl (λ ms d,
    let '(code, name, kind, max_km) := d in
    if mem code existing_codes then ms
    else ms ++ [mkPhysicalMedium (next_medium_id ms) code name kind max_km]) (media s) CANONICAL_MEDIA) s.

Definition medium_by_code (s : DB) (code : string) : option Z :=
  pm_id <$> find_row (λ m, String.eqb (pm_code m) code) (media s).

Definition pick_default_physical_medium_id (md5 : string → Z) (s : DB) (link_id : string) (a_dev b_dev : Device)
    : option Z * DB :=
  let codes := sorted_strs (allowed_media_codes_for_class (res_link_class (classify_link a_dev b_dev))) in
  let '(selected, s1) :=
    match codes with
    | [] => (None, s)
    | _ =>
        let s1 := ensure_physical_media s in
        (codes !! Z.to_nat (md5 link_id mod Z.of_nat (length codes)) ≫= medium_by_code s1, s1)
    end in
  match selected with
  | Some i => (Some i, s1)
  | None => let s2 := ensure_physical_media s1 in (medium_by_code s2 "SMF_G652D", s2)
  end.

Definition derive_default_length_km (md5 : string → Z) (s : DB) (link_id : string) (pm : Z) : option float :=
  match get_medium s pm with
  | None => None
  | Some m =>
      match (if String.eqb (pm_kind m) "optical" then None else max_range_km m) with
      | Some range => Some (round_digits (fmul range (dec 8 10)) 3)
      | None =>
          let hv := md5 (String.append link_id ":len") in
          let frac := fdiv (of_Z (hv mod 190)) (of_Z 100) in
          Some (round_digits (fadd (dec 11 100) frac) 2)
      end
  end.

(** * Interfaces *)

(** [iid.rsplit("-", 1)[0]], when there is a dash. *)
Fixpoint before_last_dash (k : string) : option string :=
  match k with
  | EmptyString => None
  | String c k' =>
      match before_last_dash k' with
      | Some r => Some (String c r)
      | None => if (Ascii.nat_of_ascii c =? 45)%nat then Some EmptyString else None
      end
  end.

Definition dev_from_iface_id (s : DB) (iid : string) : option string :=
  match get_interface s iid with
  | Some i => Some (if_device_id i)
  | None =>
      if ends_with "-if0" iid then Some (drop_last 4 iid)
      else
        match before_last_dash iid with
        | Some dev_part => if bool_decide (is_Some (get_device s dev_part)) then Some dev_part else None
        | None => None
        end
  end.

(** The interface, the session's rows, the rows still pending, the allocator. *)
Definition ensure_default_interface (dbo : DbOutcome) (k : string) (st : DB * list Interface * MacState)
    : Outcome (option Interface * (DB * list Interface * MacState)) :=
  let '(s, pending, m) := st in
  match get_interface s k with
  | Some i => Ret (Some i, st)
  | None =>
      if ends_with "-if0" k then
        match get_device s (drop_last 4 k) with
        | Some d =>
            match next_mac dbo m with
            | None => Diverge
            | Some (mac, m') =>
                let i := mkInterface k (dev_id d) "if0" None ADMIN_UP None None None None (Some mac) in
                Ret (Some i, (add_interface i s, pending ++ [i], m'))
            end
        | None => Ret (None, st)
        end
      else Ret (None, st)
  end.

(** * create_link_impl *)

Definition bad_request (d : string) : HttpError := HttpException 400 d.
Definition no_interface : HttpError := bad_request "Interface not found (and auto-create failed)".
Definition already_exists : HttpError := HttpException 409 "Link already exists".

(** The pair rules between the classification and the placement rules. *)
Definition check_pairing (a_dev b_dev : Device) : Outcome unit :=
  _ ← raise_if (is_type a_dev ODF && is_type b_dev ODF)
        (raise_error LINK_INVALID_PAIRING "Direct ODF↔ODF links (cascades) are not supported.");
  _ ← raise_if ((is_type a_dev OLT && in_class b_dev ONT_CLASS) || (is_type b_dev OLT && in_class a_dev ONT_CLASS))
        (raise_error LINK_INVALID_PAIRING "Direct OLT↔ONT links are not allowed. Connect via an ODF.");
  if is_type a_dev OLT || is_type b_dev OLT then
    let other := if is_type a_dev OLT then b_dev else a_dev in
    raise_if ((in_class other PASSIVE_INLINE || in_class other ONT_CLASS) && negb (is_type other ODF))
      (raise_error LINK_INVALID_UPSTREAM
         (String.append "ODF must connect upstream to an OLT PON-port, not " (DeviceType_value (dev_type other))))
  else Ret tt.

(** Everything that is checked before an interface is created. *)
Definition check_request (s : DB) (p : LinkCreate) : Outcome (Device * Device * LinkRuleResult) :=
  _ ← raise_if (String.eqb (lc_a_interface_id p) (lc_b_interface_id p)) (bad_request "Endpoints must differ");
  _ ← raise_if (bool_decide (is_Some (get_link s (lc_id p)))) already_exists;
  a_dev ← or_raise (truthy (dev_from_iface_id s (lc_a_interface_id p)) ≫= get_device s) no_interface;
  b_dev ← or_raise (truthy (dev_from_iface_id s (lc_b_interface_id p)) ≫= get_device s) no_interface;
  _ ← raise_if (is_type a_dev POP || is_type b_dev POP) (raise_error POP_LINK_DISALLOWED "POP container endpoint");
  let cls := classify a_dev b_dev in
  _ ← raise_if (negb (res_allowed cls)) (raise_error INVALID_LINK_TYPE (res_rule_id cls));
  _ ← check_pairing a_dev b_dev;
  _ ← enforce_ont_placement_rules s a_dev b_dev (lc_a_interface_id p) (lc_b_interface_id p);
  Ret (a_dev, b_dev, cls).

(** The medium: the requested one, or a default picked by hash; a requested
    medium must exist, and must fit the class when the class names any media. *)
Definition choose_medium (env : Env) (p : LinkCreate) (s : DB) (a_dev b_dev : Device) (cls : LinkRuleResult)
    : Outcome (option Z * DB) :=
  let '(selected, s1) :=
    match lc_physical_medium_id p with
    | None => pick_default_physical_medium_id (env_md5 env) s (lc_id p) a_dev b_dev
    | Some i => (None, s)
    end in
  let pm := match lc_physical_medium_id p with Some i => Some i | None => selected end in
  match pm with
  | None => Ret (None, s1)
  | Some i =>
      m ← or_raise (get_medium s1 i) (bad_request "Invalid physical_medium_id");
      let allowed := allowed_media_codes_for_class (res_link_class cls) in
      _ ← raise_if (negb (bool_decide (allowed = [])) && negb (mem (pm_code m) allowed))
            (bad_request (String.append "Physical medium '" (String.append (pm_code m)
              (String.append "' not allowed for link class '" (String.append (res_link_class cls)
                (String.append "' (rule " (String.append (res_rule_id cls) ")")))))));
      Ret (Some i, s1)
  end.

(** What is checked once the interfaces exist; the link to insert and the
    session's rows, to which default media may have been added. *)
Definition prepare_link (env : Env) (p : LinkCreate) (s : DB) (a_dev b_dev : Device) (cls : LinkRuleResult)
    (a_if b_if : Interface) : Outcome (Link * DB) :=
  _ ← raise_if (String.eqb (if_name a_if) "mgmt0" || String.eqb (if_name b_if) "mgmt0")
        (raise_error INVALID_LINK_TYPE "management interface");
  let '(a_id, b_id, canonical_id, user_order_id) := canonical_link_id (lc_a_interface_id p) (lc_b_interface_id p) in
  _ ← raise_if (negb (mem (lc_id p) [canonical_id; user_order_id]))
        (if bool_decide (is_Some (get_link s (lc_id p))) then already_exists
         else bad_request (String.append "Link id not canonical; expected '" (String.append canonical_id "'")));
  _ ← raise_if (match lc_length_km p with Some x => fltb x fzero | None => false end)
        (bad_request "length_km must be >= 0");
  _ ← match lc_physical_medium_id p with
      | Some i => raise_if (bool_decide (get_medium s i = None)) (bad_request "Invalid physical_medium_id")
      | None => Ret tt
      end;
  _ ← enforce_pon_role_if_declared s a_dev b_dev a_if b_if;
  _ ← enforce_single_upstream_rules s a_dev b_dev;
  let derived_kind := if String.eqb (res_link_class cls) "routed_p2p" then P2P else FIBER in
  chosen ← choose_medium env p s a_dev b_dev cls;
  let '(pm, s1) := chosen in
  let derived_length :=
    match lc_length_km p with
    | Some x => Some x
    | None =>
        match truthy_key pm with
        | Some i => derive_default_length_km (env_md5 env) s1 (lc_id p) i
        | None => None
        end
    end in
  Ret (mkLink (lc_id p) a_id b_id (lc_status p) derived_kind (lc_override p) None derived_length pm, s1).

(** Whether the PON and upstream rules run a [select]. *)
Definition rules_query (a_dev b_dev : Device) : bool :=
  (is_type a_dev OLT && (in_class b_dev ONT_CLASS || in_class b_dev PASSIVE_INLINE)) ||
  (is_type b_dev OLT && (in_class a_dev ONT_CLASS || in_class a_dev PASSIVE_INLINE)) ||
  (in_class a_dev ONT_CLASS && is_type b_dev ODF) || (in_class b_dev ONT_CLASS && is_type a_dev ODF).

(** The rows of [s.new] when the events are written: a [select] flushes the
    pending interfaces (the rules may run one, and the default medium is looked
    up by one); a requested medium is looked up by a [session.get]. *)
Definition still_pending (env : Env) (p : LinkCreate) (a_dev b_dev : Device) (pending : list Interface) : list Interface :=
  match lc_physical_medium_id p with
  | None => []
  | Some _ => if env_get_flushes env || rules_query a_dev b_dev then [] else pending
  end.

Definition kind_str (k : LinkType) : string := String.append "LinkType." (LinkType_value k).

(** [PORT_CONNECTED] for the pending interfaces. *)
Definition port_events (now : string) (pending : list Interface) (rows : list EventStoreRecord)
    : option (list EventStoreRecord) :=
  foldl (λ acc i, acc ≫= append_domain_event now "PORT_CONNECTED" (if_id i)
           [("device_id", JStr (if_device_id i)); ("name", JStr (if_name i))] None)
    (Some rows) pending.

Lemma port_events_gapless now pending rows rows' :
  port_events now pending rows = Some rows' → gapless rows → gapless rows'.
Proof.
  unfold port_events. revert rows. induction pending as [|i pending IH]; intros rows; simpl; [by intros [= <-]|].
  intros Hr Hg. eapply IH; [exact Hr|]. by apply gapless_snoc; [|apply mem_true].
Qed.

(** Domain events of the transaction. *)
Definition creation_events (env : Env) (pending : list Interface) (l : Link) (cls : LinkRuleResult)
    (rows : list EventStoreRecord) : option (list EventStoreRecord) :=
  rows1 ← port_events (env_now env) pending rows;
  append_domain_event (env_now env) "LINK_CREATED" (link_id l)
    [("a_interface_id", JStr (a_interface_id l)); ("b_interface_id", JStr (b_interface_id l));
     ("kind", JStr (kind_str (kind l))); ("rule_id", JStr (res_rule_id cls))] None rows1.

Definition created_event (l : Link) (cls : LinkRuleResult) (tv : Z) : Event :=
  mkBusEvent "link.created"
    [("id", JStr (link_id l)); ("a_interface_id", JStr (a_interface_id l)); ("b_interface_id", JStr (b_interface_id l));
     ("kind", JStr (kind_str (kind l))); ("rule_id", JStr (res_rule_id cls));
     ("length_km", opt_json JFloat (length_km l)); ("physical_medium_id", opt_json JInt (physical_medium_id l))] (Some tv).

Definition optical_event (dev reason : string) (tv : Z) : Event :=
  mkBusEvent "device.optical.updated" [("id", JStr dev); ("reason", JStr reason)] (Some tv).

Definition publish_all (env : Env) (evs : list Event) (st : list Event * list EventStoreRecord)
    : list Event * list EventStoreRecord :=
  foldl (λ st ev, publish (env_append_ok env) (env_now env) ev st) st evs.

(** After the commit. *)
Definition after_create (env : Env) (l : Link) (cls : LinkRuleResult) (a_if b_if : Interface) (w : World)
    : LinkResolvedOut * World :=
  let tv_create := (w_topo w + 1)%Z in
  let st := publish_all env [created_event l cls tv_create] (w_history w, w_rows w) in
  let tv := (tv_create + 1)%Z in
  let '(s', go_ok) := env_go env (w_db w) in
  let affected := filter (λ d, nonempty d = true) [if_device_id a_if; if_device_id b_if] in
  let '(history, rows) := if go_ok then publish_all env ((λ d, optical_event d "link_created" tv) <$> affected) st else st in
  let out := mkOut (link_id l) (a_interface_id l) (b_interface_id l) (if_device_id a_if) (if_device_id b_if)
               (link_status l) (evaluate_link_status s' l) (kind l) (link_override l) (length_km l)
               (physical_medium_id l) (Some (res_rule_id cls)) in
  (out, mkWorld s' (w_mac w) rows history tv (w_requests w ++ [("links", link_id l)])).

(** The insertion and its commit: a violated constraint rolls everything back. *)
Definition commit_link (env : Env) (cls : LinkRuleResult) (pending : list Interface) (l : Link) (s : DB)
    (a_if b_if : Interface) (w : World) : Outcome LinkResolvedOut * World :=
  let s' := set_links (links s ++ [l]) s in
  if negb (bool_decide (constraints s')) then (Raise ConstraintViolation, w)
  else
    match creation_events env pending l cls (w_rows w) with
    | None => (Raise (HttpException 500 "Unexpected link create error"), w)
    | Some rows =>
        let '(out, w') := after_create env l cls a_if b_if
          (mkWorld s' (w_mac w) rows (w_history w) (w_topo w) (w_requests w)) in
        (Ret out, w')
    end.

Definition with_mac (m : MacState) (w : World) : World :=
  mkWorld (w_db w) m (w_rows w) (w_history w) (w_topo w) (w_requests w).

Definition create_link_impl (env : Env) (p : LinkCreate) (w : World) : Outcome LinkResolvedOut * World :=
  match check_request (w_db w) p with
  | Raise e => (Raise e, w)
  | Diverge => (Diverge, w)
  | Ret (a_dev, b_dev, cls) =>
      match (ia ← ensure_default_interface (env_mac_a env) (lc_a_interface_id p) (w_db w, [], w_mac w);
             ib ← ensure_default_interface (env_mac_b env) (lc_b_interface_id p) ia.2;
             Ret (ia.1, ib.1, ib.2)) with
      | Raise e => (Raise e, w)
      | Diverge => (Diverge, w)
      | Ret (oa, ob, (s, pending, m)) =>
          match oa, ob with
          | Some a_if, Some b_if =>
              match prepare_link env p s a_dev b_dev cls a_if b_if with
              | Raise e => (Raise e, with_mac m w)
              | Diverge => (Diverge, with_mac m w)
              | Ret (l, s') => commit_link env cls (still_pending env p a_dev b_dev pending) l s' a_if b_if (with_mac m w)
              end
          | _, _ => (Raise no_interface, with_mac m w)
          end
      end
  end.

(** * delete_link_impl *)

Definition delete_link_impl (env : Env) (lid : string) (w : World) : Outcome unit * World :=
  match get_link (w_db w) lid with
  | None => (Raise (HttpException 404 "Not found"), w)
  | Some l =>
      let s := w_db w in
      let a_if := get_interface s (a_interface_id l) in
      let b_if := get_interface s (b_interface_id l) in
      match append_domain_event (env_now env) "LINK_DELETED" lid
              [("a_interface_id", opt_json (λ i, JStr (if_id i)) a_if);
               ("b_interface_id", opt_json (λ i, JStr (if_id i)) b_if)] None (w_rows w) with
      | None => (Raise (HttpException 500 "unknown domain event type"), w)
      | Some rows =>
          let s1 := set_links (filter (λ k, link_id k ≠ lid) (links s)) s in
          let tv := (w_topo w + 1)%Z in
          let st := publish_all env [mkBusEvent "link.deleted" [("id", JStr lid)] (Some tv)] (w_history w, rows) in
          let '(s2, go_ok) := env_go env s1 in
          let '(history, rows') :=
            if go_ok then publish_all env
              [mkBusEvent "device.optical.updated" [("affected_link_ids", JList [lid]); ("reason", JStr "link_deleted")] (Some tv)] st
            else st in
          (Ret tt, mkWorld s2 (w_mac w) rows' history tv (w_requests w ++ [("links", lid)]))
      end
  end.
