(* ===== verification/Congestion.v ===== *)
(** Congestion detection with hysteresis: [services/traffic/v2_congestion.py].

    At every tick the engine hands over the utilisation of the entities that
    carried traffic and the set of entities congested so far; the handler
    returns the new set and publishes an event per change.  The device and the
    link handler are the same code with another event prefix. *)

From S2P Require Import Prelude PyFloat.

(** An item of [device_changes] or [link_changes]; [utilization] defaults to 0. *)
Record TrafficItem := mkItem { item_id : string; bps : float; utilization : float }.

Record CongestionEvent := mkCongestionEvent {
  cev_type : string; cev_id : string; aggregated_bps : float; capacity_bps : float;
  overload_percentage : option float; cev_tick : Z
}.

Definition capacity_of (b util : float) : float := if fltb fzero util then fdiv b util else b.

Definition overload_pct (util : float) : float :=
  if feqb util finf then finf else fmul (fsub util (of_Z 1)) (of_Z 100).

Section handler.
Context (entity : string) (detect_threshold clear_threshold : float) (tick : Z).

Definition detected_event (it : TrafficItem) : CongestionEvent :=
  mkCongestionEvent (String.append entity ".congestion.detected") (item_id it) (bps it)
    (capacity_of (bps it) (utilization it)) (Some (overload_pct (utilization it))) tick.

Definition cleared_event (changes : list TrafficItem) (k : string) : CongestionEvent :=
  let '(b, cap) :=
    match find_row (λ it, String.eqb (item_id it) k) changes with
    | Some it => (bps it, capacity_of (bps it) (utilization it))
    | None => (fzero, fzero)
    end in
  mkCongestionEvent (String.append entity ".congestion.cleared") k b cap None tick.

(** The body of the first loop. *)
Definition scan_item (prev : gset string) (st : gset string * list CongestionEvent) (it : TrafficItem)
    : gset string * list CongestionEvent :=
  let '(current, evs) := st in
  if decide (item_id it ∈ prev) then
    if fleb clear_threshold (utilization it) then ({[item_id it]} ∪ current, evs) else (current, evs)
  else if fleb detect_threshold (utilization it) then
    ({[item_id it]} ∪ current, evs ++ [detected_event it])
  else (current, evs).

Definition handle_congestion (prev : gset string) (changes : list TrafficItem)
    : gset string * list CongestionEvent :=
  let '(current, detected) := foldl (scan_item prev) (∅, []) changes in
  (current, detected ++ (cleared_event changes <$> filter (λ k, k ∉ current) (elements prev))).
End handler.

Definition handle_device_congestion := handle_congestion "device".
Definition handle_link_congestion := handle_congestion "link".

(** * One tick *)

Section tick.
Context (entity : string) (dt ct : float) (tick : Z).

(** The threshold an entity is compared with depends on its previous state. *)
Definition over (prev : gset string) (it : TrafficItem) : bool :=
  fleb (if decide (item_id it ∈ prev) then ct else dt) (utilization it).

Lemma scan_spec prev changes C E C' E' :
  foldl (scan_item entity dt ct tick prev) (C, E) changes = (C', E') →
  (∀ k, k ∈ C' ↔ k ∈ C ∨ ∃ it, it ∈ changes ∧ item_id it = k ∧ over prev it = true) ∧
  E' = E ++ (detected_event entity tick <$> filter (λ it, (item_id it ∉ prev) ∧ over prev it = true) changes).
Proof.
  revert C E. induction changes as [|it l IH]; intros C E; cbn [foldl].
  { intros [= <- <-]. rewrite filter_nil. cbn [fmap list_fmap]. rewrite app_nil_r. set_solver. }
  unfold scan_item at 2. rewrite filter_cons.
  assert (over prev it = fleb (if decide (item_id it ∈ prev) then ct else dt) (utilization it)) as Eo by done.
  destruct (decide (item_id it ∈ prev)) as [Hp|Hp]; destruct (fleb _ _) eqn:Ef; intros [HC HE]%IH;
    (split; [intros k; rewrite HC; clear HC HE IH; setoid_rewrite elem_of_cons;
              rewrite ?elem_of_union, ?elem_of_singleton; naive_solver congruence|]).
  - by rewrite decide_False by tauto.
  - by rewrite decide_False by tauto.
  - rewrite decide_True by (split; [done|congruence]). cbn [fmap list_fmap]. by rewrite HE, <-app_assoc.
  - rewrite decide_False by (intros [_ ?]; congruence). done.
Qed.

Lemma handle_spec prev changes :
  let '(current, evs) := handle_congestion entity dt ct tick prev changes in
  (∀ k, k ∈ current ↔ ∃ it, it ∈ changes ∧ item_id it = k ∧ over prev it = true) ∧
  evs = (detected_event entity tick <$> filter (λ it, (item_id it ∉ prev) ∧ over prev it = true) changes) ++
        (cleared_event entity tick changes <$> filter (λ k, k ∉ current) (elements prev)).
Proof.
  unfold handle_congestion. destruct (foldl _ _ _) as [C E] eqn:Ef.
  destruct (scan_spec _ _ _ _ _ _ Ef) as [HC HE]. simpl in HE. subst E. split; [|done].
  intros k. rewrite HC. set_solver.
Qed.
End tick.

(** The event types published for entity [k], in order. *)
Definition log_of (k : string) (evs : list CongestionEvent) : list string :=
  cev_type <$> filter (λ e, cev_id e = k) evs.

Lemma log_of_app k l m : log_of k (l ++ m) = log_of k l ++ log_of k m.
Proof. unfold log_of. by rewrite filter_app, fmap_app. Qed.

Lemma log_of_cons k e l :
  log_of k (e :: l) = if decide (cev_id e = k) then cev_type e :: log_of k l else log_of k l.
Proof. unfold log_of. rewrite filter_cons. by case_decide. Qed.

Section log.
Context (entity : string) (dt ct : float) (tick : Z).

(** [k] was not congested and one of its items passes the threshold. *)
Definition detects (prev : gset string) (changes : list TrafficItem) (k : string) : Prop :=
  (k ∉ prev) ∧ ∃ it, it ∈ changes ∧ item_id it = k ∧ over dt ct prev it = true.

Lemma log_detected k prev (changes : list TrafficItem) :
  NoDup (item_id <$> changes) →
  let log := log_of k (detected_event entity tick <$>
               filter (λ it, (item_id it ∉ prev) ∧ over dt ct prev it = true) changes) in
  (detects prev changes k → log = [String.append entity ".congestion.detected"]) ∧
  (¬ detects prev changes k → log = []).
Proof.
  unfold detects. induction changes as [|it l IH]; cbn [fmap list_fmap].
  { intros _. rewrite filter_nil. split; [set_solver|done]. }
  intros [Hid Hnd]%NoDup_cons. specialize (IH Hnd). setoid_rewrite elem_of_cons. rewrite filter_cons.
  destruct (decide (item_id it = k)) as [Hk|Hk].
  - assert (¬ ∃ x, x ∈ l ∧ item_id x = k ∧ over dt ct prev x = true) as Hno.
    { intros (x & Hx & Hxk & _). apply Hid. rewrite Hk, <-Hxk. by apply list_elem_of_fmap_2. }
    destruct IH as [_ IH]. specialize (IH ltac:(tauto)). case_decide as Hc; cbn [fmap list_fmap].
    + rewrite log_of_cons, decide_True by done. rewrite IH. split; [done|]. naive_solver.
    + rewrite IH. split; [naive_solver|done].
  - case_decide as Hc; cbn [fmap list_fmap]; rewrite ?log_of_cons, ?(decide_False (P := cev_id _ = k)) by done;
      (split; [intros (Hp & x & [->|Hx] & Hxk & Ho)|intros Hn]; [congruence|apply IH; eauto|apply IH; naive_solver]).
Qed.

Lemma log_cleared k (prev current : gset string) changes :
  log_of k (cleared_event entity tick changes <$> filter (λ k, k ∉ current) (elements prev)) =
    if bool_decide (k ∈ prev ∧ k ∉ current) then [String.append entity ".congestion.cleared"] else [].
Proof.
  assert (∀ (l : list string), NoDup l →
    log_of k (cleared_event entity tick changes <$> filter (λ k, k ∉ current) l) =
    if bool_decide (k ∈ l ∧ k ∉ current) then [String.append entity ".congestion.cleared"] else []) as Hl.
  2:{ rewrite Hl by apply NoDup_elements. apply bool_decide_ext_if. by rewrite elem_of_elements. }
  induction l as [|x l IH]; [intros _; by rewrite filter_nil, bool_decide_false by set_solver|].
  intros [Hx Hnd]%NoDup_cons. specialize (IH Hnd). rewrite filter_cons.
  assert (∀ e, e = cleared_event entity tick changes x →
    cev_id e = x ∧ cev_type e = String.append entity ".congestion.cleared") as He.
  { intros e ->. unfold cleared_event. by destruct (find_row _ _). }
  destruct (He _ eq_refl) as [Ei Et].
  destruct (decide (x = k)) as [->|Hne].
  - rewrite bool_decide_false in IH by tauto. case_decide as Hc; cbn [fmap list_fmap].
    + rewrite log_of_cons, decide_True by done. rewrite IH, Et, bool_decide_true by set_solver. done.
    + rewrite IH, bool_decide_false by set_solver. done.
  - assert (bool_decide (k ∈ x :: l ∧ k ∉ current) = bool_decide (k ∈ l ∧ k ∉ current)) as ->
      by (apply bool_decide_ext; set_solver).
    rewrite <-IH. clear IH. case_decide; cbn [fmap list_fmap]; [rewrite log_of_cons, decide_False by congruence|]; done.
Qed.
End log.

(** * Along a run *)

(** The log alternates between detection and clearing, starting from the state
    [congested]; [final] is the state it ends in. *)
Fixpoint alternates (entity : string) (congested : bool) (log : list string) (final : bool) : Prop :=
  match log with
  | [] => final = congested
  | t :: log' =>
      t = String.append entity (if congested then ".congestion.cleared" else ".congestion.detected") ∧
      alternates entity (negb congested) log' final
  end.

Lemma alternates_app entity a l b m c :
  alternates entity a l b → alternates entity b m c → alternates entity a (l ++ m) c.
Proof.
  revert a. induction l as [|t l IH]; intros a; simpl; [by intros ->|].
  intros [-> Hl] Hm. split; [done|]. by apply IH.
Qed.

Section run.
Context (entity : string) (dt ct : float).

(** The items of each tick, with its number. *)
Fixpoint run_ticks (prev : gset string) (ticks : list (Z * list TrafficItem))
    : gset string * list CongestionEvent :=
  match ticks with
  | [] => (prev, [])
  | (n, changes) :: ticks' =>
      let '(current, evs) := handle_congestion entity dt ct n prev changes in
      let '(final, evs') := run_ticks current ticks' in
      (final, evs ++ evs')
  end.

Lemma tick_alternates prev n changes current evs k :
  NoDup (item_id <$> changes) → handle_congestion entity dt ct n prev changes = (current, evs) →
  alternates entity (bool_decide (k ∈ prev)) (log_of k evs) (bool_decide (k ∈ current)).
Proof.
  intros Hnd E. pose proof (handle_spec entity dt ct n prev changes) as Hs. rewrite E in Hs.
  destruct Hs as [HC ->]. rewrite log_of_app, log_cleared.
  destruct (log_detected entity dt ct n k prev changes Hnd) as [Hyes Hno].
  assert (detects dt ct prev changes k ↔ (k ∉ prev) ∧ k ∈ current) as Hd
    by (unfold detects; by rewrite HC).
  rewrite Hd in Hyes, Hno. clear HC Hd E.
  destruct (decide (k ∈ prev)) as [Hp|Hp], (decide (k ∈ current)) as [Hc|Hc];
    rewrite ?(bool_decide_true (k ∈ prev)), ?(bool_decide_false (k ∈ prev)),
            ?(bool_decide_true (k ∈ current)), ?(bool_decide_false (k ∈ current)) by done.
  - rewrite Hno, bool_decide_false by tauto. done.
  - rewrite Hno, bool_decide_true by tauto. done.
  - rewrite Hyes, bool_decide_false by tauto. done.
  - rewrite Hno, bool_decide_false by tauto. done.
Qed.

Lemma run_alternates ticks prev k :
  Forall (λ t, NoDup (item_id <$> t.2)) ticks →
  alternates entity (bool_decide (k ∈ prev)) (log_of k (run_ticks prev ticks).2)
    (bool_decide (k ∈ (run_ticks prev ticks).1)).
Proof.
  intros Hf. revert prev. induction Hf as [|[n changes] ticks Hnd Hf IH]; intros prev; [done|].
  cbn [run_ticks]. destruct (handle_congestion entity dt ct n prev changes) as [current evs] eqn:E.
  specialize (IH current). destruct (run_ticks current ticks) as [final evs'].
  simpl in *. rewrite log_of_app. eapply alternates_app; [by eapply tick_alternates|done].
Qed.
End run.

(** Hysteresis.  In one tick an entity is congested exactly when one of its
    items reaches the clear threshold (if it was congested before) or the detect
    threshold (if it was not); an entity that carries no traffic is not
    congested. *)
Lemma congestion_hysteresis entity dt ct n prev changes k :
  k ∈ (handle_congestion entity dt ct n prev changes).1 ↔
  ∃ it, it ∈ changes ∧ item_id it = k ∧
        fleb (if decide (k ∈ prev) then ct else dt) (utilization it) = true.
Proof.
  pose proof (handle_spec entity dt ct n prev changes) as Hs.
  destruct (handle_congestion entity dt ct n prev changes) as [C E]. simpl. destruct Hs as [-> _].
  unfold over. naive_solver.
Qed.

(** Congestion events alternate.  Over any sequence of ticks, starting with
    nothing congested and with one item per entity and tick, the events of an
    entity are detected, cleared, detected, ... without repetition, and the
    entity is congested at the end exactly when its last event was a detection. *)
Lemma congestion_events_alternate entity dt ct ticks k :
  Forall (λ t, NoDup (item_id <$> t.2)) ticks →
  alternates entity false (log_of k (run_ticks entity dt ct ∅ ticks).2)
    (bool_decide (k ∈ (run_ticks entity dt ct ∅ ticks).1)).
Proof.
  intros Hf. pose proof (run_alternates entity dt ct ticks ∅ k Hf) as Ha.
  by rewrite (bool_decide_false (k ∈ ∅)) in Ha by set_solver.
Qed.

Lemma congestion_events_alternate_witness :
  alternates "link" false
    (log_of "l1" (run_ticks "link" (of_Z 1) (dec 95 100) ∅
       [(1%Z, [mkItem "l1" (of_Z 2) (dec 3 2)]); (2%Z, [mkItem "l1" (of_Z 1) (dec 1 2)])]).2) false.
Proof.
  apply (congestion_events_alternate "link" (of_Z 1) (dec 95 100)
    [(1%Z, [mkItem "l1" (of_Z 2) (dec 3 2)]); (2%Z, [mkItem "l1" (of_Z 1) (dec 1 2)])] "l1").
  repeat constructor; set_solver.
Defined.
