(* ===== verification/TrafficRand.v ===== *)
(** The deterministic generator of the traffic engine: [services/traffic/rand.py].

    64-bit words are integers kept below 2^64 by masking, as in the source. *)

From Stdlib Require Import Ascii.
From S2P Require Import Prelude PyFloat.
Local Open Scope Z_scope.

Definition mask64 (x : Z) : Z := Z.land x (Z.shiftl 1 64 - 1).

Definition xorshift64star (x : Z) : Z :=
  let x := mask64 x in
  let x := Z.lxor x (mask64 (Z.shiftr x 12)) in
  let x := Z.lxor x (mask64 (Z.shiftl x 25)) in
  let x := Z.lxor x (mask64 (Z.shiftr x 27)) in
  mask64 (x * 0x2545F4914F6CDD1D).

(** FNV-1a over the bytes of the device id. *)
Fixpoint fnv1a (h : Z) (device_id : string) : Z :=
  match device_id with
  | EmptyString => h
  | String ch rest => fnv1a (mask64 (Z.lxor h (Z.of_N (N_of_ascii ch)) * 0x100000001B3)) rest
  end.

(** The 53-bit numerator of the result. *)
Definition rand53 (base_seed tick_seq : Z) (device_id : string) : Z :=
  let h := fnv1a 0xCBF29CE484222325 device_id in
  let x := Z.lxor (Z.lxor (mask64 base_seed) (mask64 tick_seq)) h in
  Z.shiftr (xorshift64star x) 11.

Definition deterministic_rand01 (base_seed tick_seq : Z) (device_id : string) : float :=
  fdiv (of_Z (rand53 base_seed tick_seq device_id)) (of_Z (Z.shiftl 1 53)).

(** * Words *)

Definition word (x : Z) : Prop := 0 ≤ x < 2 ^ 64.

Lemma mask64_mod x : mask64 x = x mod 2 ^ 64.
Proof. unfold mask64. rewrite Z.shiftl_1_l. change (2 ^ 64 - 1) with (Z.ones 64). by rewrite Z.land_ones. Qed.

Lemma mask64_word x : word (mask64 x).
Proof. rewrite mask64_mod. by apply Z.mod_pos_bound. Qed.

Lemma mask64_id x : word x → mask64 x = x.
Proof. intros Hx. rewrite mask64_mod. by apply Z.mod_small. Qed.

Lemma word_testbit x i : word x → 64 ≤ i → Z.testbit x i = false.
Proof.
  intros Hx Hi. destruct (decide (x = 0)) as [->|]; [apply Z.bits_0|].
  apply Z.bits_above_log2; [apply Hx|]. apply Z.log2_lt_pow2; [destruct Hx; lia|].
  destruct Hx as [_ Hx]. eapply Z.lt_le_trans; [exact Hx|]. apply Z.pow_le_mono_r; lia.
Qed.

Lemma lxor_word x y : word x → word y → word (Z.lxor x y).
Proof.
  intros Hx Hy. assert (Z.lxor x y = mask64 (Z.lxor x y)) as ->; [|apply mask64_word].
  apply Z.bits_inj'. intros i Hi. rewrite mask64_mod.
  destruct (Z.ltb_spec i 64).
  - by rewrite Z.mod_pow2_bits_low by lia.
  - by rewrite Z.mod_pow2_bits_high, Z.lxor_spec, !word_testbit by (done || lia).
Qed.

Lemma shiftr_word x n : word x → 0 ≤ n → word (Z.shiftr x n).
Proof.
  intros [Hx1 Hx2] Hn. split; [by apply Z.shiftr_nonneg|]. rewrite Z.shiftr_div_pow2 by done.
  assert (0 < 2 ^ n) by (by apply Z.pow_pos_nonneg). apply Z.div_lt_upper_bound; [done|]. nia.
Qed.

(** * Each round is injective on words *)

Lemma lxor_eq_0 x y : Z.lxor x y = 0 → x = y.
Proof. apply Z.lxor_eq. Qed.

Lemma xor_cancel x y a b : Z.lxor x a = Z.lxor y b → Z.lxor x y = Z.lxor a b.
Proof.
  intros E. assert (Z.lxor (Z.lxor x a) (Z.lxor a y) = Z.lxor (Z.lxor y b) (Z.lxor a y)) as E'
    by (by rewrite E).
  rewrite Z.lxor_assoc, <-(Z.lxor_assoc a a y), Z.lxor_nilpotent, Z.lxor_0_l in E'. rewrite E'.
  rewrite (Z.lxor_comm a y), Z.lxor_assoc, <-(Z.lxor_assoc b y a), (Z.lxor_comm b y).
  rewrite Z.lxor_assoc, <-!(Z.lxor_assoc y y), Z.lxor_nilpotent, Z.lxor_0_l. apply Z.lxor_comm.
Qed.

Lemma shiftr_round_inj n x y :
  word x → word y → 0 < n → Z.lxor x (Z.shiftr x n) = Z.lxor y (Z.shiftr y n) → x = y.
Proof.
  intros Hx Hy Hn E%xor_cancel. rewrite <-Z.shiftr_lxor in E. apply lxor_eq_0.
  destruct (lxor_word x y Hx Hy) as [Hd _]. set (d := Z.lxor x y) in *.
  destruct (decide (d = 0)) as [|Hd0]; [done|]. exfalso.
  rewrite Z.shiftr_div_pow2 in E by lia. assert (1 < 2 ^ n) by (apply Z.pow_gt_1; lia).
  assert (d / 2 ^ n < d) by (apply Z.div_lt; lia). lia.
Qed.

Lemma shiftl_round_inj n x y :
  word x → word y → 0 < n → Z.lxor x (mask64 (Z.shiftl x n)) = Z.lxor y (mask64 (Z.shiftl y n)) → x = y.
Proof.
  intros Hx Hy Hn E%xor_cancel. apply lxor_eq_0. pose proof (lxor_word x y Hx Hy) as Hd.
  assert (∀ i, 0 ≤ i → Z.testbit (Z.lxor x y) i = false) as Hb.
  { intros i Hi. apply (Z_lt_induction (λ i, Z.testbit (Z.lxor x y) i = false)); [|done].
    clear i Hi. intros i IH. destruct (Z.ltb_spec i 0); [by rewrite Z.testbit_neg_r|].
    destruct (Z.ltb_spec i 64); [|by apply word_testbit].
    rewrite E, !mask64_mod, Z.lxor_spec, !Z.mod_pow2_bits_low by lia.
    rewrite !Z.shiftl_spec, <-Z.lxor_spec by lia.
    destruct (Z.ltb_spec i n); [by rewrite Z.testbit_neg_r by lia|]. apply IH; lia. }
  apply Z.bits_inj'. intros i Hi. by rewrite Hb, Z.bits_0.
Qed.

(** The multiplier is odd: this is its inverse modulo 2^64. *)
Definition MULT_INV : Z := 6415128727920758069.

Lemma mult_round_inj x y :
  word x → word y → mask64 (x * 0x2545F4914F6CDD1D) = mask64 (y * 0x2545F4914F6CDD1D) → x = y.
Proof.
  intros Hx Hy. rewrite !mask64_mod. intros E.
  assert ((x * 0x2545F4914F6CDD1D * MULT_INV) mod 2 ^ 64 = (y * 0x2545F4914F6CDD1D * MULT_INV) mod 2 ^ 64) as E'.
  { by rewrite <-(Z.mul_mod_idemp_l (x * _)), E, Z.mul_mod_idemp_l. }
  assert (∀ z, word z → (z * 0x2545F4914F6CDD1D * MULT_INV) mod 2 ^ 64 = z) as Hz.
  { intros z Hz. rewrite <-Z.mul_assoc, <-Z.mul_mod_idemp_r by done.
    replace ((0x2545F4914F6CDD1D * MULT_INV) mod 2 ^ 64) with 1 by (vm_compute; reflexivity).
    rewrite Z.mul_1_r. by apply Z.mod_small. }
  by rewrite !Hz in E'.
Qed.

(** The mixing step of the generator loses nothing: on 64-bit words
    [_xorshift64star] is injective (every xor-shift round and the
    multiplication can be undone) and stays within 64 bits, so two different
    words, in particular two different ticks of the same device and seed, never
    lead to the same generator word. *)
Lemma xorshift_injective x y :
  word x → word y → word (xorshift64star x) ∧ (xorshift64star x = xorshift64star y → x = y).
Proof.
  intros Hx Hy. split; [apply mask64_word|]. unfold xorshift64star.
  rewrite (mask64_id x), (mask64_id y) by done.
  assert (∀ z n, word z → 0 ≤ n → mask64 (Z.shiftr z n) = Z.shiftr z n) as Hr.
  { intros z n Hz Hn. by apply mask64_id, shiftr_word. }
  rewrite !(Hr _ 12) by (done || lia).
  set (x1 := Z.lxor x (Z.shiftr x 12)). set (y1 := Z.lxor y (Z.shiftr y 12)).
  assert (word x1) as Hx1 by (apply lxor_word; [done|by apply shiftr_word]).
  assert (word y1) as Hy1 by (apply lxor_word; [done|by apply shiftr_word]).
  set (x2 := Z.lxor x1 (mask64 (Z.shiftl x1 25))). set (y2 := Z.lxor y1 (mask64 (Z.shiftl y1 25))).
  assert (word x2) as Hx2 by (apply lxor_word; [done|apply mask64_word]).
  assert (word y2) as Hy2 by (apply lxor_word; [done|apply mask64_word]).
  rewrite !(Hr _ 27) by (done || lia).
  intros E%mult_round_inj; [|by apply lxor_word; [|apply shiftr_word]..].
  apply shiftr_round_inj in E; [|done..]. apply shiftl_round_inj in E; [|done..].
  by apply (shiftr_round_inj 12).
Qed.

Lemma xorshift_injective_witness :
  word (xorshift64star 1) ∧ (xorshift64star 1 = xorshift64star 2 → 1 = 2).
Proof. apply (xorshift_injective 1 2); split; vm_compute; congruence. Defined.

(** The number that is divided by 2^53 to give the draw is a natural number
    below 2^53, for every seed, tick and device id: the draw is a fraction of the
    unit interval with an integer numerator that a double represents exactly. *)
Lemma rand53_bounds seed tick d : 0 ≤ rand53 seed tick d < 2 ^ 53.
Proof.
  unfold rand53. pose proof (mask64_word) as Hm. unfold xorshift64star.
  match goal with |- context [Z.shiftr (mask64 ?t) 11] => destruct (Hm t) as [H1 H2]; set (y := mask64 t) in * end.
  split; [by apply Z.shiftr_nonneg|]. rewrite Z.shiftr_div_pow2 by lia.
  apply Z.div_lt_upper_bound; [lia|]. change (2 ^ 11 * 2 ^ 53) with (2 ^ 64). lia.
Qed.
