(* ===== verification/L3Trace.v ===== *)
(** L3 path tracing: [services/dependency_resolver_trace.py].

    [trace_l3_path_to_anchor] follows, hop by hop, the default route of routers
    and the preferred uplink of access devices until it meets a backbone
    gateway.  The mutable [visited]/[chain] of the Python closure [_step] are
    passed explicitly.  CPython's recursion limit is not modelled: the bound
    proved below ([trace_fuel]) is the recursion depth the interpreter needs. *)

From S2P Require Import Prelude PyFloat Models LinkStatus Scenario.

(** DependencyCheckResult *)
Record DependencyCheckResult := mkCheck {
  ok : bool;
  reason : option string;
  chain : list string
}.

Definition ROUTER_TYPES : list DeviceType := [CORE_ROUTER; EDGE_ROUTER].
Definition L3_TYPES : list DeviceType := [CORE_ROUTER; EDGE_ROUTER; BACKBONE_GATEWAY].

(** [session.get(Device, i.device_id) if i.device_id else None] *)
Definition device_of_interface (s : DB) (i : Interface) : option Device :=
  if nonempty (if_device_id i) then get_device s (if_device_id i) else None.

(** _link_passable *)
Definition trace_link_passable (s : DB) (ln : Link) : bool :=
  if negb (admin_passable ln) then false
  else
    match get_interface s (a_interface_id ln), get_interface s (b_interface_id ln) with
    | Some a_if, Some b_if =>
        forallb (λ dv : option Device,
          match dv with
          | None => false
          | Some d => negb (is_forced DOWN (dev_override d))
          end) [device_of_interface s a_if; device_of_interface s b_if]
    | _, _ => false
    end.

Definition link_id_leb (l k : Link) : bool := str_leb (link_id l) (link_id k).

(** The interface with that id carries the expected next-hop address. *)
Definition has_ip (s : DB) (if_id ip : string) : bool :=
  existsb (λ a, String.eqb (addr_interface_id a) if_id && String.eqb (addr_ip a) ip) (addresses s).

(** The link chosen by [_resolve_peer_via_if]: among the links whose far end
    carries the expected address, else among all of them, the smallest id. *)
Definition choose_link (s : DB) (lnks : list Link) (i : string) (expect_ip : option string)
    : option Link :=
  let matching :=
    match expect_ip with
    | Some ip =>
        filter (λ l, nonempty (peer_interface l i) && has_ip s (peer_interface l i) ip = true) lnks
    | None => []
    end in
  match sort_by link_id_leb matching with
  | l :: _ => Some l
  | [] => head (sort_by link_id_leb lnks)
  end.

(** _resolve_peer_via_if *)
Definition resolve_peer_via_if (s : DB) (i : string) (expect_ip : option string) : option Device :=
  let lnks := filter (λ l, trace_link_passable s l = true) (links_of_interface s i) in
  match choose_link s lnks i expect_ip with
  | None => None
  | Some l =>
      match get_interface s (peer_interface l i) with
      | None => None
      | Some peer_if => device_of_interface s peer_if
      end
  end.

(** ** One hop *)

(** Uplink candidates of an access device, in interface and link order. *)
Definition upstream_candidates (s : DB) (dev : Device) : list (Z * Device) :=
  ifc ← interfaces_of s (dev_id dev);
  l ← filter (λ l, trace_link_passable s l = true) (links_of_interface s (if_id ifc));
  match get_interface s (peer_interface l (if_id ifc)) ≫= device_of_interface s with
  | Some peer_dev =>
      if negb (nonempty (peer_interface l (if_id ifc))) then []
      else if mem (dev_type peer_dev) L3_TYPES then [(1%Z, peer_dev)]
      else [(2%Z, peer_dev)]
  | None => []
  end.

Definition priority_leb (x y : Z * Device) : bool := (x.1 <=? y.1)%Z.

Definition access_uplink (s : DB) (dev : Device) : string + Device :=
  match interfaces_of s (dev_id dev) with
  | [] => inl "no_interfaces"
  | _ =>
      match sort_by priority_leb (upstream_candidates s dev) with
      | [] => inl "no_upstream_router"
      | (_, peer_dev) :: _ =>
          if is_forced DOWN (dev_override peer_dev) then inl "peer_forced_down" else inr peer_dev
      end
  end.

(** The loop over the default routes, with its two early returns. *)
Fixpoint eligible_routes (s : DB) (dev : Device) (rs : list Route) : string + list Route :=
  match rs with
  | [] => inr []
  | r :: rs' =>
      match route_interface_id r ≫= get_interface s with
      | None => eligible_routes s dev rs'
      | Some eg_if =>
          if negb (String.eqb (if_device_id eg_if) (dev_id dev)) then eligible_routes s dev rs'
          else if negb (bool_decide (if_admin_status eg_if = ADMIN_UP)) then inl "egress_admin_down"
          else
            match truthy (next_hop r) with
            | None => inl "no_next_hop"
            | Some _ =>
                match eligible_routes s dev rs' with
                | inl e => inl e
                | inr cand => inr (r :: cand)
                end
            end
      end
  end.

(** Route preference: administrative distance, metric, id. *)
Definition route_leb (r q : Route) : bool :=
  if negb (admin_distance r =? admin_distance q)%Z then (admin_distance r <? admin_distance q)%Z
  else if negb (metric r =? metric q)%Z then (metric r <? metric q)%Z
  else (default (-1) (route_id r) <=? default (-1) (route_id q))%Z.

Definition default_routes (s : DB) (dev : Device) : list Route :=
  filter (λ r, dev_vrf_id dev = Some (route_vrf_id r) ∧ route_prefix r = "0.0.0.0/0") (routes s).

Definition router_uplink (s : DB) (dev : Device) : string + Device :=
  match default_routes s dev with
  | [] => inl "no_default_route"
  | rs =>
      match eligible_routes s dev rs with
      | inl e => inl e
      | inr cand =>
          match sort_by route_leb cand with
          | [] => inl "no_eligible_route"
          | chosen :: _ =>
              match route_interface_id chosen ≫= get_interface s with
              | None => inl "egress_missing"
              | Some eg_if =>
                  match resolve_peer_via_if s (if_id eg_if) (next_hop chosen) with
                  | None => inl "peer_unresolved"
                  | Some peer_dev =>
                      if is_forced DOWN (dev_override peer_dev) then inl "peer_forced_down"
                      else inr peer_dev
                  end
              end
          end
      end
  end.

Definition uplink (s : DB) (dev : Device) : string + Device :=
  if mem (dev_type dev) L3_TYPES then router_uplink s dev else access_uplink s dev.

(** ** The trace *)

(** _step *)
Fixpoint trace_step (fuel : nat) (s : DB) (visited : gset string) (ch : list string)
    (dev : Device) : option DependencyCheckResult :=
  if decide (dev_id dev ∈ visited) then Some (mkCheck false (Some "loop") ch)
  else if is_forced DOWN (dev_override dev) then Some (mkCheck false (Some "forced_down") ch)
  else if bool_decide (dev_type dev = BACKBONE_GATEWAY) then Some (mkCheck true None ch)
  else if mem (dev_type dev) ROUTER_TYPES && bool_decide (dev_vrf_id dev = None)
  then Some (mkCheck false (Some "no_vrf") ch)
  else
    match uplink s dev with
    | inl e => Some (mkCheck false (Some e) ch)
    | inr peer_dev =>
        match fuel with
        | O => None
        | S fuel' =>
            trace_step fuel' s ({[dev_id dev]} ∪ visited) (ch ++ [dev_id peer_dev]) peer_dev
        end
    end.

Definition trace_fuel (s : DB) : nat := S (length (devices s)).

Definition trace_l3_path_to_anchor (s : DB) (device : Device) : DependencyCheckResult :=
  if is_forced DOWN (dev_override device)
  then mkCheck false (Some "self_forced_down") [dev_id device]
  else if mem (dev_type device) ROUTER_TYPES && bool_decide (dev_vrf_id device = None)
  then mkCheck false (Some "no_vrf") [dev_id device]
  else
    match trace_step (trace_fuel s) s ∅ [dev_id device] device with
    | Some r => r
    | None => mkCheck false (Some "exception") [dev_id device]
    end.

(** has_l3_reachability_to_anchor (its metrics observations aside) *)
Definition has_l3_reachability_to_anchor (s : DB) (device : Device) : bool :=
  ok (trace_l3_path_to_anchor s device).

(** * What one hop guarantees *)

(** Devices [x] and [y] are joined by a passable link between two of their interfaces. *)
Definition joined (s : DB) (x y : string) : Prop :=
  ∃ l i j, l ∈ links s ∧ trace_link_passable s l = true ∧
    i ∈ interfaces s ∧ if_device_id i = x ∧ (a_interface_id l = if_id i ∨ b_interface_id l = if_id i) ∧
    j ∈ interfaces s ∧ if_device_id j = y ∧ peer_interface l (if_id i) = if_id j.

Lemma device_of_interface_Some s i d :
  device_of_interface s i = Some d → d ∈ devices s ∧ dev_id d = if_device_id i.
Proof.
  unfold device_of_interface. case_match; [|done]. by apply get_device_Some.
Qed.

Lemma link_peer_joined s i l d :
  i ∈ interfaces s → l ∈ links_of_interface s (if_id i) → trace_link_passable s l = true →
  get_interface s (peer_interface l (if_id i)) ≫= device_of_interface s = Some d →
  d ∈ devices s ∧ joined s (if_device_id i) (dev_id d).
Proof.
  unfold links_of_interface. rewrite list_elem_of_filter. intros Hi [Hl Hin] Hp.
  destruct (get_interface _ _) as [j|] eqn:Hj; [|done]. simpl.
  intros [Hd He]%device_of_interface_Some. apply get_interface_Some in Hj as [Hj Hje].
  split; [done|]. exists l, i, j. repeat split; auto.
Qed.

Lemma access_uplink_sound s dev p :
  access_uplink s dev = inr p →
  p ∈ devices s ∧ is_forced DOWN (dev_override p) = false ∧ joined s (dev_id dev) (dev_id p).
Proof.
  unfold access_uplink. destruct (interfaces_of s (dev_id dev)) as [|i0 is0]; [done|].
  destruct (sort_by _ _) as [|[n p'] r] eqn:Es; [done|]. case_match eqn:Hf; [done|].
  intros [= ->]. assert ((n, p) ∈ upstream_candidates s dev) as Hin.
  { rewrite <-(elem_of_sort_by priority_leb), Es. set_solver. }
  unfold upstream_candidates in Hin.
  apply list_elem_of_bind in Hin as (i & Hin & Hi). unfold interfaces_of in Hi.
  apply list_elem_of_filter in Hi as [Hid Hi]. apply list_elem_of_bind in Hin as (l & Hin & Hl).
  apply list_elem_of_filter in Hl as [Hp Hl]. case_match eqn:Hg; [|set_solver].
  assert (p = d) as -> by (repeat case_match; set_solver).
  destruct (link_peer_joined _ _ _ _ Hi Hl Hp Hg) as [Hd Hj]. by rewrite Hid in Hj.
Qed.

Lemma eligible_routes_sound s dev rs cand r :
  eligible_routes s dev rs = inr cand → r ∈ cand →
  ∃ eg, route_interface_id r ≫= get_interface s = Some eg ∧ if_device_id eg = dev_id dev ∧
    if_admin_status eg = ADMIN_UP ∧ is_Some (truthy (next_hop r)).
Proof.
  revert cand. induction rs as [|q rs IH]; intros cand; simpl; [set_solver|].
  destruct (route_interface_id q ≫= get_interface s) as [eg|] eqn:Hq; [|apply IH].
  destruct (String.eqb_spec (if_device_id eg) (dev_id dev)) as [Hd|]; simpl; [|apply IH].
  case_bool_decide; simpl; [|done]. destruct (truthy (next_hop q)) eqn:Ht; [|done].
  destruct (eligible_routes s dev rs) as [|cand']; [done|]. intros [= <-] [->|Hr]%elem_of_cons; [|by eapply IH].
  exists eg. rewrite Hq, Ht. repeat split; eauto.
Qed.

Lemma choose_link_elem s lnks i ip l : choose_link s lnks i ip = Some l → l ∈ lnks.
Proof.
  unfold choose_link. destruct (sort_by _ _) as [|l' r] eqn:Em.
  - intros Hc%head_Some_elem_of. by rewrite elem_of_sort_by in Hc.
  - intros [= ->]. assert (l ∈ l :: r) as Hm by set_solver.
    rewrite <-Em, elem_of_sort_by in Hm. destruct ip; [|set_solver].
    by apply list_elem_of_filter in Hm as [_ ?].
Qed.

Lemma resolve_peer_sound s i ip p :
  i ∈ interfaces s → resolve_peer_via_if s (if_id i) ip = Some p →
  p ∈ devices s ∧ joined s (if_device_id i) (dev_id p).
Proof.
  intros Hi. unfold resolve_peer_via_if. case_match eqn:Hc; [|done]. case_match eqn:Hg; [|done].
  intros Hd. apply choose_link_elem, list_elem_of_filter in Hc as [Hp Hl].
  apply (link_peer_joined s i l p); try done. by rewrite Hg.
Qed.

Lemma router_uplink_sound s dev p :
  router_uplink s dev = inr p →
  p ∈ devices s ∧ is_forced DOWN (dev_override p) = false ∧ joined s (dev_id dev) (dev_id p).
Proof.
  unfold router_uplink. destruct (default_routes s dev) as [|r0 rs]; [done|].
  destruct (eligible_routes s dev (r0 :: rs)) as [|cand] eqn:Ec; [done|].
  destruct (sort_by route_leb cand) as [|r q] eqn:Es; [done|].
  assert (r ∈ cand) as Hr by (rewrite <-(elem_of_sort_by route_leb), Es; set_solver).
  destruct (eligible_routes_sound _ _ _ _ _ Ec Hr) as (eg & Hg & Hd & _). rewrite Hg.
  destruct (resolve_peer_via_if _ _ _) as [p'|] eqn:Hp; [|done]. case_match eqn:Hf; [done|].
  intros [= ->]. destruct (route_interface_id r) as [k|]; [|done]. simpl in Hg.
  apply get_interface_Some in Hg as [Hi _].
  destruct (resolve_peer_sound _ _ _ _ Hi Hp) as [? Hj]. by rewrite Hd in Hj.
Qed.

Lemma uplink_sound s dev p :
  uplink s dev = inr p →
  p ∈ devices s ∧ is_forced DOWN (dev_override p) = false ∧ joined s (dev_id dev) (dev_id p).
Proof.
  unfold uplink. case_match; eauto using router_uplink_sound, access_uplink_sound.
Qed.

(** * Termination *)

Definition device_ids (s : DB) : gset string := list_to_set (dev_id <$> devices s).

Lemma elem_of_device_ids s d : d ∈ devices s → dev_id d ∈ device_ids s.
Proof. intros. apply elem_of_list_to_set. by apply list_elem_of_fmap_2. Qed.

Lemma size_list_to_set (l : list string) : size (list_to_set l : gset string) ≤ length l.
Proof.
  induction l as [|x l IH]; simpl; [done|].
  rewrite size_union_alt, size_singleton.
  assert (size (list_to_set l ∖ {[x]} : gset string) ≤ size (list_to_set l : gset string))
    by (apply subseteq_size; set_solver). lia.
Qed.

Lemma size_device_ids s : size (device_ids s) ≤ length (devices s).
Proof. unfold device_ids. rewrite <-(length_fmap dev_id (devices s)). apply size_list_to_set. Qed.

Lemma size_diff_mark (D V : gset string) x :
  x ∈ D → x ∉ V → S (size (D ∖ ({[x]} ∪ V))) = size (D ∖ V).
Proof.
  intros HD HV. replace (D ∖ V) with ({[x]} ∪ D ∖ ({[x]} ∪ V)).
  - rewrite (size_union {[x]} (D ∖ ({[x]} ∪ V))) by set_solver. by rewrite size_singleton.
  - apply set_eq. intros y. destruct (decide (y = x)); set_solver.
Qed.

Lemma trace_step_total s fuel V ch dev :
  dev_id dev ∈ device_ids s → size (device_ids s ∖ V) ≤ fuel →
  is_Some (trace_step fuel s V ch dev).
Proof.
  revert V ch dev. induction fuel as [|fuel IH]; intros V ch dev HD Hf; simpl;
    (case_decide as HV; [done|]); repeat (case_match; try done).
  - pose proof (size_diff_mark _ _ _ HD HV). lia.
  - apply IH.
    + apply elem_of_device_ids. eapply uplink_sound. eauto.
    + pose proof (size_diff_mark _ _ _ HD HV). lia.
Qed.

Lemma trace_total s dev : is_Some (trace_step (trace_fuel s) s ∅ [dev_id dev] dev).
Proof.
  unfold trace_fuel. simpl. repeat (case_match; try done). apply trace_step_total.
  - apply elem_of_device_ids. eapply uplink_sound. eauto.
  - etransitivity; [|apply size_device_ids]. apply subseteq_size. set_solver.
Qed.

(** * Refinement: the trace finds the forwarding chain *)

(** A device takes part in forwarding: not forced down, and with a VRF if it routes. *)
Definition forwards (dev : Device) : bool :=
  negb (is_forced DOWN (dev_override dev)) &&
  negb (mem (dev_type dev) ROUTER_TYPES && bool_decide (dev_vrf_id dev = None)).

(** The abstract contract: following uplinks from [dev] ends at a backbone
    gateway, and the visited devices are [c]. *)
Inductive leads_to_anchor (s : DB) : Device → list string → Prop :=
  | lead_here dev :
      forwards dev = true → dev_type dev = BACKBONE_GATEWAY →
      leads_to_anchor s dev [dev_id dev]
  | lead_via dev peer c :
      forwards dev = true → dev_type dev ≠ BACKBONE_GATEWAY → uplink s dev = inr peer →
      leads_to_anchor s peer c → leads_to_anchor s dev (dev_id dev :: c).

#[export] Hint Constructors leads_to_anchor : unoc.

Lemma leads_unique s dev c c' :
  leads_to_anchor s dev c → leads_to_anchor s dev c' → c = c'.
Proof.
  intros H. revert c'. induction H as [dev ? Ht|dev peer c ? Ht Hu Hl IH]; intros c' H';
    inversion H'; subst; try done. f_equal. apply IH. congruence.
Qed.

Lemma trace_step_sound s fuel V ch dev r :
  trace_step fuel s V ch dev = Some r → ok r = true →
  ∃ c, leads_to_anchor s dev (dev_id dev :: c) ∧ chain r = ch ++ c.
Proof.
  revert V ch dev. induction fuel as [|fuel IH]; intros V ch dev; simpl;
    (case_decide; [by intros [= <-]|]);
    (destruct (is_forced DOWN _) eqn:Hf; [by intros [= <-]|]);
    (case_bool_decide as Ht;
      [intros [= <-] _; exists []; rewrite app_nil_r; split; [|done];
       constructor; [|done]; unfold forwards; by rewrite Hf, Ht|]);
    (destruct (mem _ _ && _) eqn:Hv; [by intros [= <-]|]);
    (destruct (uplink s dev) as [e|p] eqn:Hu; [by intros [= <-]|]); [done|].
  intros Hr Ho. destruct (IH _ _ _ Hr Ho) as (c & Hc & Hch).
  exists (dev_id p :: c). split.
  - eapply lead_via; eauto. unfold forwards. by rewrite Hf, Hv.
  - by rewrite Hch, <-app_assoc.
Qed.

(** A trace that fails says why. *)
Lemma trace_step_reason s fuel V ch dev r :
  trace_step fuel s V ch dev = Some r → ok r = false → ∃ e, reason r = Some e.
Proof.
  revert V ch dev. induction fuel as [|fuel IH]; intros V ch dev Hr Ho; simpl in Hr;
    repeat (case_match; simplify_eq/=; try by eauto).
Qed.

(** Visited devices sit strictly before the current one on the chain. *)
Lemma trace_step_complete s fuel V ch dev c r :
  keys_ok s → dev ∈ devices s →
  leads_to_anchor s dev (dev_id dev :: c) →
  (∀ v, v ∈ V → ∃ d c', d ∈ devices s ∧ dev_id d = v ∧ leads_to_anchor s d c' ∧ S (length c) < length c') →
  trace_step fuel s V ch dev = Some r → r = mkCheck true None (ch ++ c).
Proof.
  intros Hk. revert V ch dev c. induction fuel as [|fuel IH]; intros V ch dev c Hd Hl HV; simpl.
  all: case_decide as Hin.
  1, 3: destruct (HV _ Hin) as (d & c' & Hd' & He & Hl' & Hlt);
    assert (d = dev) as -> by (apply (get_device_key s) in Hd, Hd'; [congruence|done..]);
    rewrite (leads_unique _ _ _ _ Hl' Hl) in Hlt; simpl in Hlt; lia.
  all: inversion Hl as [? Hfw Ht|? peer c0 Hfw Ht Hu Hl']; subst;
    unfold forwards in Hfw; apply andb_true_iff in Hfw as [Hf Hv];
    apply negb_true_iff in Hf, Hv; rewrite Hf.
  1, 3: rewrite bool_decide_eq_true_2 by done; intros [= <-]; by rewrite app_nil_r.
  all: rewrite bool_decide_eq_false_2, Hv, Hu by done; try done.
  assert (∃ c1, c = dev_id peer :: c1) as [c1 ->] by (inversion Hl'; subst; eauto).
  intros Hr. rewrite (IH ({[dev_id dev]} ∪ V) (ch ++ [dev_id peer]) peer c1); try done.
  - by rewrite <-app_assoc.
  - by eapply uplink_sound.
  - intros v [->%elem_of_singleton|Hv']%elem_of_union.
    + exists dev, (dev_id dev :: dev_id peer :: c1). simpl. repeat split; auto with lia.
    + destruct (HV _ Hv') as (d & c' & ? & ? & ? & Hlt). exists d, c'. simpl in Hlt.
      repeat split; auto with lia.
Qed.

(** * The chain *)

Lemma leads_head s dev c : leads_to_anchor s dev c → head c = Some (dev_id dev).
Proof. by destruct 1. Qed.

Lemma leads_trace s dev c :
  leads_to_anchor s dev c →
  trace_l3_path_to_anchor s dev =
    match trace_step (trace_fuel s) s ∅ [dev_id dev] dev with
    | Some r => r
    | None => mkCheck false (Some "exception") [dev_id dev]
    end.
Proof.
  intros H. assert (forwards dev = true) as Hf by by destruct H.
  unfold forwards in Hf. apply andb_true_iff in Hf as [H1%negb_true_iff H2%negb_true_iff].
  unfold trace_l3_path_to_anchor. by rewrite H1, H2.
Qed.

(** Devices further down the chain have strictly shorter chains of their own. *)
Lemma leads_tail s dev c x :
  leads_to_anchor s dev c → x ∈ tail c →
  ∃ d c', d ∈ devices s ∧ dev_id d = x ∧ leads_to_anchor s d c' ∧ length c' < length c.
Proof.
  induction 1 as [dev|dev peer c Hf Ht Hu Hl IH]; simpl; [set_solver|]. intros Hx.
  pose proof (leads_head _ _ _ Hl) as Hh. destruct c as [|y c]; [done|]. simplify_eq/=.
  apply elem_of_cons in Hx as [->|Hx].
  - exists peer, (dev_id peer :: c). repeat split; auto; by eapply uplink_sound.
  - destruct (IH Hx) as (d & c' & ? & ? & ? & ?). exists d, c'. repeat split; auto with lia.
Qed.

Lemma leads_nodup s dev c :
  keys_ok s → dev ∈ devices s → leads_to_anchor s dev c → NoDup c.
Proof.
  intros Hk Hd Hl. induction Hl as [dev|dev peer c Hf Ht Hu Hl IH]; [apply NoDup_singleton|].
  assert (leads_to_anchor s dev (dev_id dev :: c)) as Hl' by eauto with unoc.
  constructor; [|by apply IH; eapply uplink_sound]. intros Hin.
  destruct (leads_tail s dev (dev_id dev :: c) (dev_id dev) Hl' Hin) as (d & c' & Hd' & He & Hc' & Hlt).
  assert (d = dev) as -> by (apply (get_device_key s) in Hd, Hd'; [congruence|done..]).
  rewrite (leads_unique _ _ _ _ Hc' Hl') in Hlt. lia.
Qed.

(** Every hop of a chain crosses a passable link. *)
Lemma leads_joined s dev c i x y :
  leads_to_anchor s dev c → c !! i = Some x → c !! S i = Some y → joined s x y.
Proof.
  intros Hl. revert i. induction Hl as [dev|dev peer c Hf Ht Hu Hl IH]; intros i Hx Hy; [done|].
  destruct i as [|i]; [|by eapply IH]. simplify_eq/=.
  pose proof (leads_head _ _ _ Hl) as Hh. destruct c; simplify_eq/=. by eapply uplink_sound.
Qed.

Lemma leads_last s dev c :
  dev ∈ devices s → leads_to_anchor s dev c →
  ∃ g, g ∈ devices s ∧ dev_type g = BACKBONE_GATEWAY ∧ forwards g = true ∧ last c = Some (dev_id g).
Proof.
  intros Hd Hl. induction Hl as [dev Hf Ht|dev peer c Hf Ht Hu Hl IH]; [by exists dev|].
  destruct IH as (g & ? & ? & ? & Hg); [by eapply uplink_sound|]. exists g. repeat split; try done.
  rewrite last_cons, Hg. done.
Qed.

(** The trace and the contract agree, and a failing trace has a reason. *)
Lemma trace_spec s dev :
  keys_ok s → dev ∈ devices s →
  (∀ c, trace_l3_path_to_anchor s dev = mkCheck true None c ↔ leads_to_anchor s dev c) ∧
  (ok (trace_l3_path_to_anchor s dev) = true →
     ∃ c, trace_l3_path_to_anchor s dev = mkCheck true None c).
Proof.
  intros Hk Hd. destruct (trace_total s dev) as [r Hr].
  assert (∀ c, leads_to_anchor s dev (dev_id dev :: c) → r = mkCheck true None (dev_id dev :: c))
    as Hdone.
  { intros c Hc. eapply (trace_step_complete s _ ∅ [dev_id dev]); eauto. set_solver. }
  assert (ok (trace_l3_path_to_anchor s dev) = true →
          ∃ c, trace_l3_path_to_anchor s dev = mkCheck true None c ∧ leads_to_anchor s dev c) as Hok.
  { unfold trace_l3_path_to_anchor. do 2 (case_match; [done|]). rewrite Hr. intros Ho.
    destruct (trace_step_sound _ _ _ _ _ _ Hr Ho) as (c & Hc & Hch).
    exists (dev_id dev :: c). split; [|done]. by eapply Hdone. }
  split; [|naive_solver]. intros c. split; intros H.
  - rewrite H in Hok. destruct Hok as (c' & [= <-] & ?); done.
  - rewrite (leads_trace s dev c H), Hr.
    pose proof (leads_head _ _ _ H). destruct c as [|x c]; simplify_eq/=. by apply Hdone.
Qed.

Lemma trace_leads s dev c :
  keys_ok s → dev ∈ devices s →
  trace_l3_path_to_anchor s dev = mkCheck true None c → leads_to_anchor s dev c.
Proof. intros Hk Hd. by apply trace_spec. Qed.

Lemma trace_reason s dev :
  ok (trace_l3_path_to_anchor s dev) = false →
  ∃ e, reason (trace_l3_path_to_anchor s dev) = Some e.
Proof.
  unfold trace_l3_path_to_anchor. repeat (case_match; [by eauto|]).
  destruct (trace_step _ _ _ _ _) eqn:E; [|by eauto]. by eapply trace_step_reason.
Qed.

(** C10. The L3 trace implements its contract.  For a stored device, the
    resolver answers "ok" with chain [c] exactly when following uplinks (default
    route of a router, preferred uplink of an access device) from that device
    reaches a backbone gateway through the devices [c]; a failing trace always
    names a reason, and the answer "exception" (running out of recursion) never
    occurs. *)
Theorem trace_refines s dev :
  keys_ok s → dev ∈ devices s →
  (∀ c, trace_l3_path_to_anchor s dev = mkCheck true None c ↔ leads_to_anchor s dev c) ∧
  (ok (trace_l3_path_to_anchor s dev) = true →
     ∃ c, trace_l3_path_to_anchor s dev = mkCheck true None c) ∧
  (ok (trace_l3_path_to_anchor s dev) = false →
     ∃ e, reason (trace_l3_path_to_anchor s dev) = Some e) ∧
  is_Some (trace_step (trace_fuel s) s ∅ [dev_id dev] dev).
Proof.
  intros Hk Hd. destruct (trace_spec s dev Hk Hd) as [H1 H2]. split; [done|]. split; [done|].
  split; [apply trace_reason|apply trace_total].
Qed.

Lemma trace_refines_witness :
  trace_l3_path_to_anchor demo (demo_device "olt") = mkCheck true None ["olt"; "cr"; "bb"] ∧
  leads_to_anchor demo (demo_device "olt") ["olt"; "cr"; "bb"].
Proof.
  assert (trace_l3_path_to_anchor demo (demo_device "olt")
          = mkCheck true None ["olt"; "cr"; "bb"]) as E by (vm_compute; reflexivity).
  split; [exact E|].
  apply (proj1 (trace_refines demo (demo_device "olt") demo_keys ltac:(demo_row)) _). exact E.
Defined.

(** A successful trace is a sound forwarding path: the chain starts at the
    device and ends at a backbone gateway that is not forced down, visits no
    device twice, and any two consecutive devices are joined by a passable link
    (so none of its links or devices is administratively down). *)
Lemma trace_chain_sound s dev c :
  keys_ok s → dev ∈ devices s → trace_l3_path_to_anchor s dev = mkCheck true None c →
  head c = Some (dev_id dev) ∧ NoDup c ∧
  (∃ g, g ∈ devices s ∧ dev_type g = BACKBONE_GATEWAY ∧
        is_forced DOWN (dev_override g) = false ∧ last c = Some (dev_id g)) ∧
  (∀ i x y, c !! i = Some x → c !! S i = Some y → joined s x y).
Proof.
  intros Hk Hd Ht. assert (leads_to_anchor s dev c) as Hl by (by apply trace_leads).
  split; [by eapply leads_head|]. split; [by eapply leads_nodup|]. split.
  - destruct (leads_last s dev c Hd Hl) as (g & ? & ? & [? _]%andb_true_iff & ?).
    exists g. by rewrite <-negb_true_iff.
  - intros. by eapply leads_joined.
Qed.

Lemma trace_chain_sound_witness :
  NoDup ["olt"; "cr"; "bb"] ∧ joined demo "cr" "bb".
Proof.
  destruct (trace_chain_sound demo (demo_device "olt") ["olt"; "cr"; "bb"] demo_keys
              ltac:(demo_row) ltac:(vm_compute; reflexivity)) as (_ & Hn & _ & Hj).
  split; [exact Hn|]. apply (Hj 1 "cr" "bb"); reflexivity.
Defined.

(** * Passability as the resolver sees it *)

(** Device ids are never empty strings. *)
Definition ids_nonempty (s : DB) : Prop := ∀ d, d ∈ devices s → dev_id d ≠ "".

Lemma device_of_interface_get s i :
  ids_nonempty s → device_of_interface s i = get_device s (if_device_id i).
Proof.
  intros Hn. unfold device_of_interface, nonempty. case_bool_decide as Hi; [done|].
  destruct (get_device s (if_device_id i)) as [d|] eqn:E; [|done].
  apply get_device_Some in E as [Hd He]. destruct (Hn d Hd). destruct (decide (if_device_id i = "")); congruence.
Qed.

(** Two notions of passability.  On stored links the resolver's
    [_link_passable] is the status module's [is_link_passable] plus the demand
    that both end devices exist and are not forced down; the two differ only on
    a link whose override is UP while an end device is missing or forced down. *)
Lemma trace_passable_strict s l :
  keys_ok s → ids_nonempty s → l ∈ links s → nonempty (link_id l) = true →
  trace_link_passable s l = is_link_passable s l && ends_available s l ∧
  (trace_link_passable s l ≠ is_link_passable s l →
     link_override l = Some UP ∧ ends_available s l = false).
Proof.
  intros Hk Hn Hl Hi.
  assert (trace_link_passable s l = admin_passable l && ends_available s l) as ->.
  { unfold trace_link_passable, ends_available, link_ends. destruct (admin_passable l); [|done]. simpl.
    destruct (get_interface s (a_interface_id l)), (get_interface s (b_interface_id l)); try done.
    rewrite !device_of_interface_get by done.
    repeat case_match; simplify_eq; by rewrite ?andb_true_r, ?andb_false_r. }
  rewrite is_link_passable_row by done. unfold admin_passable.
  destruct (ends_available s l); rewrite ?andb_true_r, ?andb_false_r;
    destruct (link_override l) as [[]|]; done.
Qed.

Lemma trace_passable_strict_witness :
  trace_link_passable demo (demo_link "l2") = true ∧ is_link_passable demo (demo_link "l2") = true.
Proof.
  assert (is_link_passable demo (demo_link "l2") = true) as E by (vm_compute; reflexivity).
  split; [|exact E].
  rewrite (proj1 (trace_passable_strict demo (demo_link "l2") demo_keys
     ltac:(intros d Hd; vm_compute in Hd; set_solver) ltac:(demo_row) ltac:(vm_compute; reflexivity))).
  vm_compute. reflexivity.
Defined.
