(* ===== verification/NxGraph.v ===== *)
(** The networkx interface.

    The simulator keeps its graphs in [networkx.Graph] objects and calls
    [add_node], [add_edge], [nodes(data=True)], [get_edge_data], [has_path] and
    [shortest_path].  networkx is not part of this repository, so it appears as
    a typeclass: the operations, and the documented laws the code relies on.
    [AssocGraph] is an executable instance, which shows that the laws can be
    met and lets the examples compute. *)

From S2P Require Import Prelude PyFloat Worklist.

(** Attributes the code attaches to an edge; [None]: the keyword was not given. *)
Record EdgeAttrs := mkAttrs {
  edge_id : string;
  edge_class : string;
  edge_loss : option float;
  edge_synthetic : option bool
}.

(** [add_edge] updates the attribute dictionary of an existing edge. *)
Definition merge_attrs (old : option EdgeAttrs) (new : EdgeAttrs) : EdgeAttrs :=
  match old with
  | None => new
  | Some o =>
      mkAttrs (edge_id new) (edge_class new)
        (match edge_loss new with Some x => Some x | None => edge_loss o end)
        (match edge_synthetic new with Some b => Some b | None => edge_synthetic o end)
  end.

Class NxGraph (G : Type) := {
  nx_empty : G;
  add_node : string → string → G → G;                 (* add_node(n, type=t) *)
  add_edge : string → string → EdgeAttrs → G → G;
  nodes : G → list (string * string);                 (* nodes(data=True) *)
  get_edge : G → string → string → option EdgeAttrs;  (* get_edge_data *)
  has_path : G → string → string → bool;
  shortest_path : G → string → string → option (list string)
}.

Section derived.
Context {G : Type} `{NxGraph G}.

Definition node_type (g : G) (n : string) : option string := dict_get (nodes g) n.
Definition has_node (g : G) (n : string) : bool := bool_decide (is_Some (node_type g n)).
Definition has_edge (g : G) (u v : string) : bool := bool_decide (is_Some (get_edge g u v)).

Definition connected (g : G) (u v : string) : Prop := is_Some (get_edge g u v).

(** [p] is a walk from [u] to [v] along edges. *)
Inductive walk (g : G) : string → string → list string → Prop :=
  | walk_one u : walk g u u [u]
  | walk_cons u w v p : connected g u w → walk g w v p → walk g u v (u :: p).
End derived.

(** The documented behaviour of those operations. *)
Class NxLaws (G : Type) `{NxGraph G} : Prop := {
  nodes_empty : nodes (G:=G) nx_empty = [];
  get_edge_empty u v : get_edge (G:=G) nx_empty u v = None;
  nodes_add_node n t (g : G) : nodes (add_node n t g) = dict_set n t (nodes g);
  get_edge_add_node n t (g : G) u v : get_edge (add_node n t g) u v = get_edge g u v;
  nodes_add_edge u v a (g : G) :
    is_Some (node_type g u) → is_Some (node_type g v) → nodes (add_edge u v a g) = nodes g;
  get_edge_add_edge u v a (g : G) x y :
    get_edge (add_edge u v a g) x y =
      if bool_decide ((x = u ∧ y = v) ∨ (x = v ∧ y = u))
      then Some (merge_attrs (get_edge g u v) a) else get_edge g x y;
  has_path_spec (g : G) u v :
    has_path g u v = true ↔ ∃ p, walk g u v p;
  shortest_path_walk (g : G) u v p : shortest_path g u v = Some p → walk g u v p;
  shortest_path_least (g : G) u v p q :
    shortest_path g u v = Some p → walk g u v q → length p ≤ length q;
  shortest_path_exists (g : G) u v p : walk g u v p → is_Some (shortest_path g u v)
}.

(** * Walks *)

Section walks.
Context {G : Type} `{NxGraph G} (g : G).

Lemma walk_head u v p : walk g u v p → head p = Some u.
Proof. by destruct 1. Qed.

Lemma walk_last u v p : walk g u v p → last p = Some v.
Proof.
  induction 1 as [|u w v p Hc Hw IH]; [done|]. by rewrite last_cons, IH.
Qed.

Lemma walk_suffix u v p x : walk g u v p → x ∈ p → ∃ q, q `suffix_of` p ∧ walk g x v q.
Proof.
  intros Hw. induction Hw as [u|u w v p Hc Hw IH]; intros Hx.
  - apply list_elem_of_singleton in Hx as ->. exists [u]. split; [done|constructor].
  - apply elem_of_cons in Hx as [->|Hx].
    + exists (u :: p). split; [done|]. by eapply walk_cons.
    + destruct (IH Hx) as (q & Hq & ?). exists q. split; [by apply suffix_cons_r|done].
Qed.

(** Cutting the cycles out of a walk. *)
Lemma walk_nodup u v p : walk g u v p → ∃ q, walk g u v q ∧ NoDup q ∧ q ⊆ p.
Proof.
  induction 1 as [u|u w v p Hc Hw (q & Hq & Hn & Hs)].
  - exists [u]. split; [constructor|]. split; [apply NoDup_singleton|done].
  - destruct (decide (u ∈ q)) as [Hu|Hu].
    + destruct (walk_suffix _ _ _ _ Hq Hu) as (r & Hr & Hwr). exists r. split; [done|].
      destruct Hr as [k ->]. apply NoDup_app in Hn as (_ & _ & Hn). split; [done|set_solver].
    + exists (u :: q). split; [by eapply walk_cons|]. split; [by constructor|set_solver].
Qed.
End walks.

(** * An executable instance *)

Record AssocGraph := mkAssoc {
  ag_nodes : list (string * string);
  ag_edges : list (string * string * EdgeAttrs)     (* newest first *)
}.

Module Assoc.
Definition same_ends (e : string * string * EdgeAttrs) (x y : string) : bool :=
  bool_decide ((x = e.1.1 ∧ y = e.1.2) ∨ (x = e.1.2 ∧ y = e.1.1)).

Definition edge_data (es : list (string * string * EdgeAttrs)) (x y : string) : option EdgeAttrs :=
  snd <$> find_row (λ e, same_ends e x y) es.

Definition adjacent (es : list (string * string * EdgeAttrs)) (x : string) : list string :=
  e ← es;
  (if String.eqb e.1.1 x then [e.1.2] else []) ++ (if String.eqb e.1.2 x then [e.1.1] else []).

(** The first walk with exactly [k] edges. *)
Fixpoint walk_of (es : list (string * string * EdgeAttrs)) (k : nat) (u v : string)
    : option (list string) :=
  match k with
  | O => if String.eqb u v then Some [u] else None
  | S k' => head (omap (λ w, cons u <$> walk_of es k' w v) (adjacent es u))
  end.

Definition endpoints (es : list (string * string * EdgeAttrs)) : list string :=
  e ← es; [e.1.1; e.1.2].

Definition shortest (es : list (string * string * EdgeAttrs)) (u v : string) : option (list string) :=
  head (omap (λ k, walk_of es k u v) (seq 0 (S (length (endpoints es))))).
End Assoc.

#[export] Instance AssocGraph_nx : NxGraph AssocGraph := {
  nx_empty := mkAssoc [] [];
  add_node n t g := mkAssoc (dict_set n t (ag_nodes g)) (ag_edges g);
  add_edge u v a g :=
    mkAssoc (ag_nodes g) ((u, v, merge_attrs (Assoc.edge_data (ag_edges g) u v) a) :: ag_edges g);
  nodes g := ag_nodes g;
  get_edge g u v := Assoc.edge_data (ag_edges g) u v;
  has_path g u v := bool_decide (is_Some (Assoc.shortest (ag_edges g) u v));
  shortest_path g u v := Assoc.shortest (ag_edges g) u v
}.

Section assoc_laws.
Context (g : AssocGraph).

Lemma adjacent_spec x y : y ∈ Assoc.adjacent (ag_edges g) x ↔ connected g x y.
Proof.
  unfold connected, Assoc.adjacent. simpl. unfold Assoc.edge_data. split.
  - intros ([[a b] at'] & He & Hin)%list_elem_of_bind. simpl in He.
    assert (Assoc.same_ends (a, b, at') x y = true) as Hs.
    { unfold Assoc.same_ends. apply bool_decide_eq_true. simpl.
      destruct (String.eqb_spec a x), (String.eqb_spec b x); set_solver. }
    destruct (find_row_is_Some (λ e, Assoc.same_ends e x y) _ _ Hin Hs) as [e' He'].
    rewrite He'. by eexists.
  - intros [a' Ha]. apply fmap_Some in Ha as (e & He & _). apply find_row_Some in He as [Hin Hs].
    apply bool_decide_eq_true in Hs. apply list_elem_of_bind. exists e. split; [|done].
    destruct Hs as [[-> ->]|[-> ->]]; rewrite String.eqb_refl; set_solver.
Qed.

Lemma walk_of_sound k u v p :
  Assoc.walk_of (ag_edges g) k u v = Some p → walk g u v p ∧ length p = S k.
Proof.
  revert u p. induction k as [|k IH]; intros u p; simpl.
  - destruct (String.eqb_spec u v) as [->|]; [|done]. intros [= <-]. split; [constructor|done].
  - intros (w & Hw & Hp)%head_Some_elem_of%list_elem_of_omap.
    apply fmap_Some in Hp as (q & Hq & ->). destruct (IH _ _ Hq) as [Hwk Hl].
    split; [|simpl; lia]. eapply walk_cons; [|done]. by apply adjacent_spec.
Qed.

Lemma walk_of_complete u v p :
  walk g u v p → is_Some (Assoc.walk_of (ag_edges g) (pred (length p)) u v).
Proof.
  induction 1 as [u|u w v p Hc Hw [q Hq]]; simpl; [by rewrite String.eqb_refl|].
  destruct p as [|x p]; [by inversion Hw|]. simpl in *.
  assert (u :: q ∈ omap (λ w0, cons u <$> Assoc.walk_of (ag_edges g) (length p) w0 v)
            (Assoc.adjacent (ag_edges g) u)) as Hin.
  { apply list_elem_of_omap. exists w. rewrite Hq. split; [by apply adjacent_spec|done]. }
  destruct (omap _ _); [set_solver|by eexists].
Qed.

Lemma connected_endpoint x y : connected g x y → y ∈ Assoc.endpoints (ag_edges g).
Proof.
  intros (e & He & Hin)%adjacent_spec%list_elem_of_bind. apply list_elem_of_bind. exists e.
  split; [|done]. destruct (String.eqb_spec e.1.1 x), (String.eqb_spec e.1.2 x); set_solver.
Qed.

Lemma walk_tail_endpoints u v p x :
  walk g u v p → x ∈ tail p → x ∈ Assoc.endpoints (ag_edges g).
Proof.
  induction 1 as [u|u w v p Hc Hw IH]; simpl; [set_solver|]. intros Hx.
  pose proof (walk_head _ _ _ _ Hw). destruct p as [|y p]; simplify_eq/=.
  apply elem_of_cons in Hx as [->|Hx]; [by eapply connected_endpoint|auto].
Qed.

(** A walk never needs more edges than there are edge ends. *)
Lemma walk_bounded u v p :
  walk g u v p → ∃ q, walk g u v q ∧ pred (length q) ≤ length (Assoc.endpoints (ag_edges g)).
Proof.
  intros (q & Hq & Hn & _)%walk_nodup. exists q. split; [done|].
  destruct q as [|x q]; [simpl; lia|]. simpl. apply NoDup_cons in Hn as [_ Hn].
  apply submseteq_length, NoDup_submseteq; [done|]. intros y Hy. by eapply walk_tail_endpoints.
Qed.
End assoc_laws.

Lemma head_omap_seq {A} (f : nat → option A) i n x :
  head (omap f (seq i n)) = Some x →
  ∃ k, i ≤ k ∧ f k = Some x ∧ ∀ j, i ≤ j → j < k → f j = None.
Proof.
  revert i. induction n as [|n IH]; intros i; simpl; [done|].
  destruct (f i) eqn:E; simpl.
  - intros [= ->]. exists i. split; [lia|]. split; [done|lia].
  - intros (k & Hk & Hf & Hj)%IH. exists k. split; [lia|]. split; [done|].
    intros j ??. destruct (decide (j = i)) as [->|]; [done|]. apply Hj; lia.
Qed.

#[export] Instance AssocGraph_laws : NxLaws AssocGraph.
Proof.
  assert (∀ (g : AssocGraph) u v p, walk g u v p → is_Some (Assoc.shortest (ag_edges g) u v)) as Hex.
  { intros g u v p (q & Hq & Hl)%walk_bounded. destruct (walk_of_complete _ _ _ _ Hq) as [r Hr].
    unfold Assoc.shortest.
    assert (r ∈ omap (λ k, Assoc.walk_of (ag_edges g) k u v)
                  (seq 0 (S (length (Assoc.endpoints (ag_edges g)))))) as Hin.
    { apply list_elem_of_omap. exists (pred (length q)). split; [|done].
      apply elem_of_seq. lia. }
    destruct (omap _ _); [set_solver|by eexists]. }
  split; try done.
  - intros u v a g x y. simpl. unfold Assoc.edge_data at 1. simpl.
    unfold Assoc.same_ends at 1. simpl. by case_bool_decide.
  - intros g u v. simpl. rewrite bool_decide_eq_true. split.
    + intros [p Hp]. destruct (head_omap_seq _ _ _ _ Hp) as (k & _ & Hk & _).
      exists p. by eapply walk_of_sound.
    + intros [p Hp]. by eapply Hex.
  - intros g u v p Hp. destruct (head_omap_seq _ _ _ _ Hp) as (k & _ & Hk & _). by eapply walk_of_sound.
  - intros g u v p q Hp Hq. destruct (head_omap_seq _ _ _ _ Hp) as (k & _ & Hk & Hj).
    apply walk_of_sound in Hk as [_ ->]. destruct (walk_of_complete _ _ _ _ Hq) as [r Hr].
    assert (length q ≠ 0) by (by destruct q; [inversion Hq|]).
    destruct (decide (k ≤ pred (length q))); [lia|].
    by rewrite Hj in Hr by lia.
Qed.
