(* ===== verification/Pathfinding.v ===== *)
(** Graph construction: [services/pathfinding.py].

    [build_optical_graph] and [build_logical_graph] project the topology on two
    graphs; the logical graph also gets one synthetic edge per ONT that can
    reach an OLT optically ("collapsed optical access"), and, in relaxed mode,
    edges to a core router.  The builders work on device and link records
    holding type and kind strings. *)

From S2P Require Import Prelude PyFloat Models NxGraph.

Definition OPTICAL_ACTIVE : list string := ["OLT"].
Definition OPTICAL_TERMINATORS : list string := ["ONT"; "BUSINESS_ONT"].
Definition PASSIVE_NODES : list string := ["ODF"; "NVT"; "SPLITTER"; "HOP"].
Definition LOGICAL_ANCHORS : list string := ["BACKBONE_GATEWAY"; "CORE_ROUTER"].
Definition LOGICAL_ACTIVE : list string :=
  LOGICAL_ANCHORS ++ ["EDGE_ROUTER"; "OLT"; "AON_SWITCH"; "AON_CPE"; "ONT"; "BUSINESS_ONT"].
Definition OPTICAL_EDGE_CLASSES : list string := ["optical_segment"; "optical_termination"].
Definition LOGICAL_EDGE_CLASSES : list string := ["routed_p2p"; "access_edge"; "access_optical_term"].
Definition OPTICAL_NODE_TYPES : list string := OPTICAL_ACTIVE ++ OPTICAL_TERMINATORS ++ PASSIVE_NODES.

Record DeviceRecord := mkDeviceRecord { rec_id : string; rec_type : string }.

Record LinkRecord := mkLinkRecord {
  lrec_id : string; a_device_id : string; b_device_id : string;
  lrec_kind : string; link_loss_db : option float
}.

Section builders.
Context {G : Type} `{NxGraph G}.

(** Both builders start by adding the devices whose type belongs to the projection. *)
Definition add_devices (types : list string) (ds : list DeviceRecord) (g : G) : G :=
  foldl (λ g d, if mem (rec_type d) types then add_node (rec_id d) (rec_type d) g else g) g ds.

(** Two node types are both in the given set ([pair <= types]). *)
Definition pair_within (g : G) (l : LinkRecord) (types : list string) : bool :=
  match node_type g (a_device_id l), node_type g (b_device_id l) with
  | Some ta, Some tb => mem ta types && mem tb types
  | _, _ => false
  end.

(** [("OLT" in pair and ("ONT" in pair or "BUSINESS_ONT" in pair))] *)
Definition pair_olt_ont (g : G) (l : LinkRecord) : bool :=
  match node_type g (a_device_id l), node_type g (b_device_id l) with
  | Some ta, Some tb =>
      mem "OLT" [ta; tb] && (mem "ONT" [ta; tb] || mem "BUSINESS_ONT" [ta; tb])
  | _, _ => false
  end.

Definition add_optical_link (g : G) (l : LinkRecord) : G :=
  if negb (has_node g (a_device_id l)) || negb (has_node g (b_device_id l)) then g
  else if mem (lrec_kind l) OPTICAL_EDGE_CLASSES then
    add_edge (a_device_id l) (b_device_id l)
      (mkAttrs (lrec_id l) (lrec_kind l) (link_loss_db l) None) g
  else if String.eqb (lrec_kind l) "FIBER" then
    if pair_olt_ont g l || pair_within g l OPTICAL_NODE_TYPES then
      add_edge (a_device_id l) (b_device_id l)
        (mkAttrs (lrec_id l) "optical_segment" None None) g
    else g
  else g.

Definition build_optical_graph (ds : list DeviceRecord) (ls : list LinkRecord) : G :=
  foldl add_optical_link (add_devices OPTICAL_NODE_TYPES ds nx_empty) ls.

Definition add_logical_link (g : G) (l : LinkRecord) : G :=
  if negb (has_node g (a_device_id l)) || negb (has_node g (b_device_id l)) then g
  else if mem (lrec_kind l) LOGICAL_EDGE_CLASSES then
    add_edge (a_device_id l) (b_device_id l)
      (mkAttrs (lrec_id l) (lrec_kind l) None (Some false)) g
  else if mem (lrec_kind l) ["FIBER"; "P2P"] then
    if String.eqb (lrec_kind l) "FIBER" && pair_within g l (LOGICAL_ACTIVE ++ LOGICAL_ANCHORS) then
      add_edge (a_device_id l) (b_device_id l)
        (mkAttrs (lrec_id l) "routed_p2p" None (Some false)) g
    else if String.eqb (lrec_kind l) "P2P" then
      add_edge (a_device_id l) (b_device_id l)
        (mkAttrs (lrec_id l) "routed_p2p" None (Some false)) g
    else g
  else g.
End builders.

(** * Collapsed optical access *)

(** [optical_nodes]: id to type, a dictionary. *)
Definition optical_nodes (ds : list DeviceRecord) : list (string * string) :=
  foldl (λ m d, if mem (rec_type d) OPTICAL_NODE_TYPES then dict_set (rec_id d) (rec_type d) m else m)
    [] ds.

(** [sorted(opt_adj.get(node, ()))]: distinct neighbours over the links whose two
    ends are optical nodes. *)
Definition opt_neighbors (onodes : list (string * string)) (ls : list LinkRecord) (n : string)
    : list string :=
  let in_nodes k := bool_decide (is_Some (dict_get onodes k)) in
  sorted_strs (remove_dups (
    l ← ls;
    if negb (in_nodes (a_device_id l)) || negb (in_nodes (b_device_id l)) then []
    else (if String.eqb (a_device_id l) n then [b_device_id l] else []) ++
         (if String.eqb (b_device_id l) n then [a_device_id l] else []))).

(** Heap entries and labels: [(hops, path)], compared as Python tuples. *)
Abbreviation label := (nat * list string)%type.

Definition label_leb (x y : label) : bool :=
  if (x.1 =? y.1)%nat then strs_leb x.2 y.2 else (x.1 <? y.1)%nat.

Definition label_ltb (x y : label) : bool := negb (label_leb y x).

(** [heapq.heappop]: remove a least entry. *)
Fixpoint heap_pop (e : label) (heap : list label) : label * list label :=
  match heap with
  | [] => (e, [])
  | e' :: heap' =>
      if label_leb e e' then let '(m, r) := heap_pop e heap' in (m, e' :: r)
      else let '(m, r) := heap_pop e' heap' in (m, e :: r)
  end.

(** One pass over the neighbours: keep a strictly better label and push it. *)
Definition relax (visited : gset string) (cur : label)
    (st : gmap string label * list label) (nb : string) : gmap string label * list label :=
  if decide (nb ∈ visited) then st
  else
    let cand : label := (S cur.1, cur.2 ++ [nb]) in
    match st.1 !! nb with
    | Some prev => if label_ltb cand prev then (<[nb := cand]> st.1, cand :: st.2) else st
    | None => (<[nb := cand]> st.1, cand :: st.2)
    end.

(** The loop of [_shortest_optical_path]; an entry's node is the end of its path. *)
Fixpoint optical_dijkstra (fuel : nat) (adj : string → list string) (dst : list string) (src : string)
    (visited : gset string) (best : gmap string label) (heap : list label) (targets : list label)
    : option (list label) :=
  match heap with
  | [] => Some targets
  | e0 :: heap0 =>
      match fuel with
      | O => None
      | S fuel' =>
          let '(cur, rest) := heap_pop e0 heap0 in
          let node := default src (last cur.2) in
          if decide (node ∈ visited) then
            optical_dijkstra fuel' adj dst src visited best rest targets
          else
            let visited' := {[node]} ∪ visited in
            let targets' :=
              if negb (String.eqb node src) && mem node dst then targets ++ [cur] else targets in
            let '(best', heap') := foldl (relax visited' cur) (best, rest) (adj node) in
            optical_dijkstra fuel' adj dst src visited' best' heap' targets'
      end
  end.

(** Every pop of an unmarked node pushes at most its degree. *)
Definition dijkstra_fuel (adj : string → list string) (ns : list string) : nat :=
  S (sum_list_with (λ n, length (adj n)) ns).

Definition shortest_optical_path (onodes : list (string * string)) (ls : list LinkRecord)
    (src : string) (dst : list string) : option (list string) :=
  match dict_get onodes src with
  | None => None
  | Some _ =>
      let adj := opt_neighbors onodes ls in
      match optical_dijkstra (dijkstra_fuel adj (fst <$> onodes)) adj dst src
              ∅ {[src := (0, [src])]} [(0, [src])] [] with
      | None => None
      | Some targets =>
          match sort_by label_leb targets with
          | [] => None
          | t :: _ => Some t.2
          end
      end
  end.

Section logical.
Context {G : Type} `{NxGraph G}.

Definition collapse_ont (onodes : list (string * string)) (ls : list LinkRecord)
    (olt_ids : list string) (g : G) (n : string * string) : G :=
  if negb (mem n.2 ["ONT"; "BUSINESS_ONT"]) then g
  else
    match shortest_optical_path onodes ls n.1 olt_ids with
    | None => g
    | Some path =>
        if (length path <? 2)%nat then g
        else
          let olt := default "" (last path) in
          if has_node g n.1 && has_node g olt && negb (has_edge g n.1 olt) then
            add_edge n.1 olt
              (mkAttrs (String.append "collapsed_optical:" (String.append n.1 (String.append "->" olt)))
                 "access_optical_term" None (Some true)) g
          else g
    end.

Definition collapse_optical (ds : list DeviceRecord) (ls : list LinkRecord) (g : G) : G :=
  let onodes := optical_nodes ds in
  let olt_ids := fst <$> filter (λ n, n.2 = "OLT") onodes in
  match olt_ids with
  | [] => g
  | _ => foldl (collapse_ont onodes ls olt_ids) g onodes
  end.

Definition relax_upstream (g : G) : G :=
  match sorted_strs (fst <$> filter (λ n, n.2 = "CORE_ROUTER") (nodes g)) with
  | [] => g
  | core_anchor :: _ =>
      foldl (λ g n,
        if mem n.2 ["OLT"; "AON_SWITCH"] && negb (has_edge g n.1 core_anchor) then
          add_edge n.1 core_anchor
            (mkAttrs (String.append "synthetic:" (String.append n.1 (String.append "->" core_anchor)))
               "synthetic_relaxed" None (Some true)) g
        else g) g (nodes g)
  end.

Definition build_logical_graph (ds : list DeviceRecord) (ls : list LinkRecord) (relaxed : bool) : G :=
  let g := foldl add_logical_link (add_devices LOGICAL_ACTIVE ds nx_empty) ls in
  let g := collapse_optical ds ls g in
  if relaxed then relax_upstream g else g.

(** * PathfindingStore *)

Record PathfindingStore := mkStore {
  topo_version : Z;
  optical_graph : option G;
  logical_graph : option G;
  relaxed_flag : option bool
}.

Definition new_store : PathfindingStore := mkStore 0 None None None.

(** The clearing of the optical path cache is part of that cache's model. *)
Definition bump_version (st : PathfindingStore) : Z * PathfindingStore :=
  let v := (topo_version st + 1)%Z in (v, mkStore v None None None).

Definition get_optical_graph (st : PathfindingStore) (ds : list DeviceRecord) (ls : list LinkRecord)
    : (Z * G) * PathfindingStore :=
  let g := match optical_graph st with Some g => g | None => build_optical_graph ds ls end in
  ((topo_version st, g), mkStore (topo_version st) (Some g) (logical_graph st) (relaxed_flag st)).

Definition get_logical_graph (st : PathfindingStore) (ds : list DeviceRecord) (ls : list LinkRecord)
    (relaxed : bool) : (Z * G) * PathfindingStore :=
  match logical_graph st, bool_decide (relaxed_flag st = Some relaxed) with
  | Some g, true => ((topo_version st, g), st)
  | _, _ =>
      let g := build_logical_graph ds ls relaxed in
      ((topo_version st, g), mkStore (topo_version st) (optical_graph st) (Some g) (Some relaxed))
  end.
End logical.
