(* ===== verification/OpticalCollapse.v ===== *)
(** Correctness of [_shortest_optical_path] (services/pathfinding.py).

    The loop is Dijkstra's algorithm on labels [(hops, path)] ordered as Python
    tuples, with lazy deletion.  It is shown to return the least label among
    all optical paths from the ONT to an OLT: the fewest hops, and among those
    the lexicographically first sequence of device ids. *)

From S2P Require Import Prelude PyFloat Models Worklist NxGraph Pathfinding.

(** * The order on labels *)

Lemma strs_leb_refl l : strs_leb l l = true.
Proof. induction l; simpl; [done|]. by rewrite String.eqb_refl. Qed.

Lemma strs_leb_antisym l k : strs_leb l k = true → strs_leb k l = true → l = k.
Proof.
  revert k. induction l as [|x l IH]; intros [|y k]; simpl; try done.
  rewrite (String.eqb_sym y x). destruct (String.eqb_spec x y) as [->|]; [by intros; f_equal; auto|].
  rewrite !str_ltb_leb. intros H1%negb_true_iff H2%negb_true_iff.
  destruct (str_leb_total x y); congruence.
Qed.

Lemma str_ltb_trans x y z : str_ltb x y = true → str_ltb y z = true → str_ltb x z = true.
Proof.
  rewrite !str_ltb_leb, !negb_true_iff. intros H1 H2. destruct (str_leb z x) eqn:E; [|done].
  destruct (str_leb_total y z) as [E'|E']; [|congruence].
  rewrite (str_leb_trans y z x) in H1; congruence.
Qed.

Lemma strs_leb_trans l k m : strs_leb l k = true → strs_leb k m = true → strs_leb l m = true.
Proof.
  revert k m. induction l as [|x l IH]; intros [|y k] [|z m]; simpl; try done.
  destruct (String.eqb_spec x y) as [->|], (String.eqb_spec y z) as [->|]; intros H1 H2.
  - eauto.
  - done.
  - by destruct (String.eqb_spec x z).
  - destruct (String.eqb_spec x z) as [->|]; [|by eapply str_ltb_trans].
    pose proof (str_ltb_trans _ _ _ H1 H2) as H3. rewrite str_ltb_leb, str_leb_refl in H3. done.
Qed.

(** Appending the same node to paths of equal length keeps their order. *)
Lemma strs_leb_snoc l k x :
  length l = length k → strs_leb l k = true → strs_leb (l ++ [x]) (k ++ [x]) = true.
Proof.
  revert k. induction l as [|y l IH]; intros [|z k]; simpl; try done.
  - intros _ _. by rewrite String.eqb_refl.
  - intros [= Hl]. destruct (String.eqb y z); auto.
Qed.

Lemma label_leb_le x y :
  label_leb x y = true ↔ x.1 < y.1 ∨ (x.1 = y.1 ∧ strs_leb x.2 y.2 = true).
Proof.
  unfold label_leb. destruct (Nat.eqb_spec x.1 y.1), (Nat.ltb_spec x.1 y.1); naive_solver lia.
Qed.

Lemma label_leb_refl x : label_leb x x = true.
Proof. apply label_leb_le. right. split; [done|apply strs_leb_refl]. Qed.

Lemma label_leb_total x y : label_leb x y = true ∨ label_leb y x = true.
Proof.
  rewrite !label_leb_le. destruct (lt_eq_lt_dec x.1 y.1) as [[?|?]|?]; auto.
  destruct (strs_leb_total x.2 y.2); auto.
Qed.

Lemma label_leb_trans x y z : label_leb x y = true → label_leb y z = true → label_leb x z = true.
Proof.
  rewrite !label_leb_le. intros [?|[? ?]] [?|[? ?]]; [left; lia..|]. right. split; [lia|].
  by eapply strs_leb_trans.
Qed.

Lemma label_leb_antisym x y : label_leb x y = true → label_leb y x = true → x = y.
Proof.
  rewrite !label_leb_le. destruct x, y; simpl. intros [?|[? ?]] [?|[? ?]]; try lia.
  f_equal; [done|by apply strs_leb_antisym].
Qed.

#[local] Hint Resolve label_leb_refl : unoc.

(** [heap_pop] removes a least entry. *)
Lemma heap_pop_spec e h m r :
  heap_pop e h = (m, r) → e :: h ≡ₚ m :: r ∧ ∀ x, x ∈ e :: h → label_leb m x = true.
Proof.
  revert e m r. induction h as [|e' h IH]; intros e m r; simpl.
  { intros [= <- <-]. split; [done|]. intros x ->%list_elem_of_singleton. auto with unoc. }
  destruct (label_leb e e') eqn:E.
  - destruct (heap_pop e h) as [m' r'] eqn:Hp. intros [= <- <-].
    destruct (IH _ _ _ Hp) as [Hperm Hmin]. split; [by rewrite Permutation_swap, Hperm, Permutation_swap|].
    intros x [->|[->|Hx]%elem_of_cons]%elem_of_cons.
    + apply Hmin. set_solver.
    + eapply label_leb_trans; [|exact E]. apply Hmin. set_solver.
    + apply Hmin. set_solver.
  - destruct (heap_pop e' h) as [m' r'] eqn:Hp. intros [= <- <-].
    destruct (IH _ _ _ Hp) as [Hperm Hmin]. split; [by rewrite Hperm, Permutation_swap|].
    assert (label_leb e' e = true) as E' by (destruct (label_leb_total e e'); congruence).
    intros x [->|[->|Hx]%elem_of_cons]%elem_of_cons.
    + eapply label_leb_trans; [|exact E']. apply Hmin. set_solver.
    + apply Hmin. set_solver.
    + apply Hmin. set_solver.
Qed.

(** * Optical paths *)

Section paths.
Context (adj : string → list string) (src : string).

(** [p] is a path from [src] whose last device is [n]. *)
Inductive opath : string → list string → Prop :=
  | opath_src : opath src [src]
  | opath_snoc n m p : opath n p → m ∈ adj n → opath m (p ++ [m]).

Definition lab (p : list string) : label := (pred (length p), p).

Lemma opath_length n p : opath n p → length p ≠ 0.
Proof. destruct 1; rewrite ?length_app; simpl; lia. Qed.

Lemma opath_last n p : opath n p → last p = Some n.
Proof. destruct 1; [done|]. apply last_snoc. Qed.

Lemma lab_snoc n p m : opath n p → lab (p ++ [m]) = (S (lab p).1, p ++ [m]).
Proof.
  intros Hl%opath_length. unfold lab. rewrite length_app. simpl. f_equal. lia.
Qed.

Lemma lab_mono n p k q x :
  opath n p → opath k q → label_leb (lab p) (lab q) = true →
  label_leb (lab (p ++ [x])) (lab (q ++ [x])) = true.
Proof.
  intros Hp Hq. rewrite (lab_snoc n p x Hp), (lab_snoc k q x Hq), !label_leb_le. simpl.
  pose proof (opath_length _ _ Hp). pose proof (opath_length _ _ Hq).
  intros [?|[? ?]]; [left; lia|]. right. split; [lia|]. apply strs_leb_snoc; [lia|done].
Qed.

Lemma lab_grow n p x : opath n p → label_leb (lab p) (lab (p ++ [x])) = true.
Proof. intros Hp. rewrite (lab_snoc n p x Hp), label_leb_le. simpl. left. lia. Qed.

(** * The loop invariant *)

(** An entry of the heap or of [best] is the label of a real path. *)
Definition entry (n : string) (e : label) : Prop := opath n e.2 ∧ e = lab e.2.

(** [R n m]: the edge from the marked node [n] to [m] has been relaxed. *)
Record dij_inv (R : string → string → Prop) (V : gset string)
    (best : gmap string label) (heap : list label) : Prop := {
  inv_heap : ∀ e, e ∈ heap → ∃ n l, entry n e ∧ best !! n = Some l ∧ label_leb l e = true;
  inv_best : ∀ n l, best !! n = Some l → entry n l ∧ (n ∉ V → l ∈ heap);
  inv_opt : ∀ n, n ∈ V → ∃ l, best !! n = Some l ∧ ∀ q, opath n q → label_leb l (lab q) = true;
  inv_next : ∀ n m l, R n m → n ∈ V → m ∈ adj n → m ∉ V → best !! n = Some l →
    ∃ l', best !! m = Some l' ∧ label_leb l' (lab (l.2 ++ [m])) = true;
  inv_src : (src ∈ V) ∨ best !! src = Some (lab [src])
}.

Definition all_relaxed (n m : string) : Prop := True.

(** A path to an unmarked node has an unmarked node with a label no larger. *)
Lemma frontier V best heap n q :
  dij_inv all_relaxed V best heap → opath n q → n ∉ V →
  ∃ m l, (m ∉ V) ∧ best !! m = Some l ∧ label_leb l (lab q) = true.
Proof.
  intros Hi Hq. induction Hq as [|k m p Hp IH Hm]; intros Hn.
  - destruct (inv_src _ _ _ _ Hi) as [?|Hs]; [done|]. exists src, (lab [src]). auto with unoc.
  - destruct (decide (k ∈ V)) as [Hk|Hk].
    + destruct (inv_opt _ _ _ _ Hi k Hk) as (l & Hl & Hopt).
      destruct (inv_next _ _ _ _ Hi k m l I Hk Hm Hn Hl) as (l' & Hl' & Hle).
      exists m, l'. split; [done|]. split; [done|].
      destruct (inv_best _ _ _ _ Hi k l Hl) as [[Hpl El] _].
      eapply label_leb_trans; [exact Hle|]. eapply lab_mono; eauto. rewrite <-El. auto.
    + destruct (IH Hk) as (m' & l & ? & ? & ?). exists m', l. split; [done|]. split; [done|].
      eapply label_leb_trans; [done|]. by eapply lab_grow.
Qed.

(** The popped entry is the least label of its node. *)
Lemma pop_optimal V best heap cur rest n :
  dij_inv all_relaxed V best heap → heap ≡ₚ cur :: rest → (∀ x, x ∈ heap → label_leb cur x = true) →
  entry n cur → n ∉ V →
  best !! n = Some cur ∧ ∀ q, opath n q → label_leb cur (lab q) = true.
Proof.
  intros Hi Hperm Hmin [Hp Ec] Hn.
  assert (cur ∈ heap) as Hcur by (rewrite Hperm; set_solver).
  destruct (inv_heap _ _ _ _ Hi cur Hcur) as (n' & l & [Hp' _] & Hb & Hle).
  assert (n' = n) as -> by (apply opath_last in Hp, Hp'; congruence).
  destruct (inv_best _ _ _ _ Hi n l Hb) as [_ Hl]. split.
  - rewrite (label_leb_antisym cur l); auto.
  - intros q Hq. destruct (frontier _ _ _ _ _ Hi Hq Hn) as (m & l' & Hm & Hl' & Hle').
    eapply label_leb_trans; [|exact Hle']. apply Hmin. by eapply (inv_best _ _ _ _ Hi).
Qed.

Lemma lab_src_least n p : opath n p → label_leb (lab [src]) (lab p) = true.
Proof.
  destruct 1 as [|k m p Hp]; [apply label_leb_refl|].
  rewrite (lab_snoc k p m Hp), label_leb_le. left. simpl. lia.
Qed.

(** Recording a better label for an unmarked node keeps the invariant. *)
Lemma improve_inv R V best heap nb cand :
  dij_inv R V best heap → nb ∉ V → entry nb cand →
  (∀ prev, best !! nb = Some prev → label_leb cand prev = true) →
  dij_inv R V (<[nb := cand]> best) (cand :: heap).
Proof.
  intros Hi Hn He Hle. split.
  - intros e [->|Hin]%elem_of_cons.
    + exists nb, cand. rewrite lookup_insert_eq. auto with unoc.
    + destruct (inv_heap _ _ _ _ Hi e Hin) as (n & l & Hen & Hb & Hl).
      destruct (decide (n = nb)) as [->|Hne].
      * exists nb, cand. rewrite lookup_insert_eq. eauto using label_leb_trans.
      * exists n, l. by rewrite lookup_insert_ne.
  - intros n l. destruct (decide (n = nb)) as [->|Hne].
    + rewrite lookup_insert_eq. intros [= <-]. split; [done|set_solver].
    + rewrite lookup_insert_ne by done. intros [? ?]%(inv_best _ _ _ _ Hi). split; [done|set_solver].
  - intros n Hn'. rewrite lookup_insert_ne by set_solver. by apply (inv_opt _ _ _ _ Hi).
  - intros n m l HR HnV Hm HmV. rewrite lookup_insert_ne by set_solver. intros Hb.
    destruct (inv_next _ _ _ _ Hi n m l HR HnV Hm HmV Hb) as (l' & Hl' & Hll).
    destruct (decide (m = nb)) as [->|Hne].
    + exists cand. rewrite lookup_insert_eq. eauto using label_leb_trans.
    + exists l'. by rewrite lookup_insert_ne.
  - destruct (inv_src _ _ _ _ Hi) as [?|Hs]; [by left|right].
    destruct (decide (nb = src)) as [->|Hne]; [|by rewrite lookup_insert_ne].
    rewrite lookup_insert_eq. f_equal. destruct He as [Hp Ec].
    apply label_leb_antisym; [auto|]. rewrite Ec. by eapply lab_src_least.
Qed.

(** Relaxing one more neighbour of the node [n] just marked with label [cur]. *)
Lemma relax_inv V best heap n cur ns nb :
  dij_inv (λ k m, k ≠ n ∨ m ∈ ns) V best heap →
  n ∈ V → best !! n = Some cur → nb ∈ adj n →
  let st := relax V cur (best, heap) nb in
  dij_inv (λ k m, k ≠ n ∨ m ∈ ns ++ [nb]) V st.1 st.2 ∧
  (∀ k, k ∈ V → st.1 !! k = best !! k) ∧ length st.2 ≤ S (length heap).
Proof.
  intros Hi Hn Hc Hnb. unfold relax. destruct (inv_best _ _ _ _ Hi n cur Hc) as [[Hp Ec] _].
  assert (∀ b h, dij_inv (λ k m, k ≠ n ∨ m ∈ ns) V b h →
    b !! n = Some cur →
    (nb ∉ V → ∃ l', b !! nb = Some l' ∧ label_leb l' (lab (cur.2 ++ [nb])) = true) →
    dij_inv (λ k m, k ≠ n ∨ m ∈ ns ++ [nb]) V b h) as Hext.
  { intros b h Hb Hbn Hnext. split; try apply Hb. intros k m l HR Hk Hm HmV Hl.
    destruct (decide (k ≠ n ∨ m ∈ ns)) as [HR'|HR'];
      [by eapply (inv_next _ _ _ _ Hb)|].
    assert (k = n ∧ m = nb) as [-> ->] by (destruct (decide (k = n)); set_solver).
    assert (l = cur) as -> by congruence. by apply Hnext. }
  assert ((S cur.1, cur.2 ++ [nb]) = lab (cur.2 ++ [nb])) as Ecand.
  { rewrite (lab_snoc n cur.2 nb Hp). by rewrite <-Ec. }
  case_decide as HV; simpl; [split; [by apply Hext|auto]|].
  assert (entry nb (S cur.1, cur.2 ++ [nb])) as Hent by (split; [by econstructor|done]).
  assert ((∀ prev, best !! nb = Some prev → label_leb (S cur.1, cur.2 ++ [nb]) prev = true) →
    dij_inv (λ k m, k ≠ n ∨ m ∈ ns ++ [nb]) V
      (<[nb := (S cur.1, cur.2 ++ [nb])]> best) ((S cur.1, cur.2 ++ [nb]) :: heap) ∧
    (∀ k, k ∈ V → <[nb := (S cur.1, cur.2 ++ [nb])]> best !! k = best !! k)) as Himp.
  { intros Hle. split; [|intros; apply lookup_insert_ne; set_solver].
    apply Hext; [by apply improve_inv|by rewrite lookup_insert_ne by set_solver|].
    intros _. exists (S cur.1, cur.2 ++ [nb]). rewrite lookup_insert_eq, Ecand. auto with unoc. }
  destruct (best !! nb) as [prev|] eqn:Hprev; simpl.
  - unfold label_ltb. destruct (label_leb prev (S cur.1, cur.2 ++ [nb])) eqn:El; simpl.
    + split; [|auto]. apply Hext; [done..|]. intros _. exists prev. by rewrite <-Ecand.
    + destruct Himp as [? ?]; [|auto]. intros ? [= <-].
      destruct (label_leb_total prev (S cur.1, cur.2 ++ [nb])); congruence.
  - destruct Himp as [? ?]; [done|auto].
Qed.

(** Relaxing all the neighbours. *)
Lemma relax_all V best heap n cur ns done best' heap' :
  dij_inv (λ k m, k ≠ n ∨ m ∈ done) V best heap →
  n ∈ V → best !! n = Some cur → ns ⊆ adj n →
  foldl (relax V cur) (best, heap) ns = (best', heap') →
  dij_inv (λ k m, k ≠ n ∨ m ∈ done ++ ns) V best' heap' ∧
  (∀ k, k ∈ V → best' !! k = best !! k) ∧ length heap' ≤ length heap + length ns.
Proof.
  revert best heap done. induction ns as [|nb ns IH]; intros best heap dn Hi Hn Hc Hsub; simpl.
  - intros [= <- <-]. rewrite app_nil_r. auto with lia.
  - destruct (relax_inv V best heap n cur dn nb Hi Hn Hc) as (Hi' & Hk & Hl); [set_solver|].
    destruct (relax V cur (best, heap) nb) as [b h]; simpl in *. intros Hf.
    destruct (IH b h (dn ++ [nb])) as (Hi'' & Hk' & Hl'); try done; [by rewrite Hk|set_solver|].
    rewrite <-app_assoc in Hi''. split; [done|]. split; [|lia].
    intros k HkV. by rewrite Hk', Hk.
Qed.

(** Marking the popped node: its own edges remain to be relaxed. *)
Lemma mark_inv V best heap cur rest n :
  dij_inv all_relaxed V best heap → heap ≡ₚ cur :: rest →
  (∀ x, x ∈ heap → label_leb cur x = true) → entry n cur → n ∉ V →
  dij_inv (λ k m, k ≠ n ∨ m ∈ []) ({[n]} ∪ V) best rest ∧ best !! n = Some cur.
Proof.
  intros Hi Hperm Hmin He Hn. destruct (pop_optimal _ _ _ _ _ _ Hi Hperm Hmin He Hn) as [Hb Hopt].
  split; [|done]. split.
  - intros e Hin. apply (inv_heap _ _ _ _ Hi). rewrite Hperm. set_solver.
  - intros m l Hl. destruct (inv_best _ _ _ _ Hi m l Hl) as [Hen Hin]. split; [done|].
    intros HmV. assert (l ∈ cur :: rest) as Hlr by (rewrite <-Hperm; apply Hin; set_solver).
    apply elem_of_cons in Hlr as [->|?]; [|done]. destruct He as [He _], Hen as [Hen _].
    apply opath_last in He, Hen. assert (m = n) by congruence. set_solver.
  - intros m [->%elem_of_singleton|Hm]%elem_of_union; [eauto|]. by apply (inv_opt _ _ _ _ Hi).
  - intros k m l [Hk|Hm0] HkV Hm HmV Hl; [|set_solver].
    apply (inv_next _ _ _ _ Hi k m l I); set_solver.
  - destruct (inv_src _ _ _ _ Hi) as [?|Hs]; [left; set_solver|by right].
Qed.

(** Dropping a stale entry. *)
Lemma skip_inv V best heap cur rest n :
  dij_inv all_relaxed V best heap → heap ≡ₚ cur :: rest → entry n cur → n ∈ V →
  dij_inv all_relaxed V best rest.
Proof.
  intros Hi Hperm [He _] Hn. split; try apply Hi.
  - intros e Hin. apply (inv_heap _ _ _ _ Hi). rewrite Hperm. set_solver.
  - intros m l Hl. destruct (inv_best _ _ _ _ Hi m l Hl) as [Hen Hin]. split; [done|].
    intros HmV. assert (l ∈ cur :: rest) as Hlr by (rewrite <-Hperm; by apply Hin).
    apply elem_of_cons in Hlr as [->|?]; [|done]. destruct Hen as [Hen _].
    apply opath_last in He, Hen. assert (m = n) by congruence. set_solver.
Qed.

(** * The loop *)

Context (dst : list string).

(** The collected entries are the final labels of the marked destinations. *)
Definition targets_ok (V : gset string) (best : gmap string label) (ts : list label) : Prop :=
  ∀ t, t ∈ ts ↔ ∃ n, n ∈ V ∧ n ≠ src ∧ n ∈ dst ∧ best !! n = Some t.

(** The least label of a destination other than the source. *)
Definition least_target (t : label) : Prop :=
  ∃ n, n ≠ src ∧ n ∈ dst ∧ entry n t ∧ ∀ q, opath n q → label_leb t (lab q) = true.

(** What the collected entries must be: the least label of every destination
    that has a path, and nothing else. *)
Definition all_targets (ts : list label) : Prop :=
  (∀ t, t ∈ ts ↔ least_target t) ∧
  (∀ n q, n ≠ src → n ∈ dst → opath n q → ∃ t, t ∈ ts ∧ label_leb t (lab q) = true).

Lemma targets_step V best cur n ts best' :
  targets_ok V best ts → n ∉ V → best !! n = Some cur →
  (∀ k, k ∈ {[n]} ∪ V → best' !! k = best !! k) →
  targets_ok ({[n]} ∪ V) best'
    (if negb (String.eqb n src) && mem n dst then ts ++ [cur] else ts).
Proof.
  intros Ht Hn Hb Hk t.
  assert ((∃ k, k ∈ {[n]} ∪ V ∧ k ≠ src ∧ k ∈ dst ∧ best' !! k = Some t) ↔
          t ∈ ts ∨ (n ≠ src ∧ n ∈ dst ∧ t = cur)) as ->.
  { rewrite (Ht t). split.
    - intros (k & HkV & ? & ? & Hbk). rewrite Hk in Hbk by done.
      apply elem_of_union in HkV as [->%elem_of_singleton|HkV]; [right|left; eauto].
      split; [done|]. split; [done|congruence].
    - intros [(k & ? & ? & ? & ?)|(? & ? & ->)]; [exists k|exists n]; rewrite Hk by set_solver; set_solver. }
  unfold mem. destruct (String.eqb_spec n src); simpl; [naive_solver|].
  case_bool_decide; rewrite ?elem_of_app, ?list_elem_of_singleton; naive_solver.
Qed.

(** With an empty heap every reachable node is marked, with its least label. *)
Lemma final_targets V best ts :
  dij_inv all_relaxed V best [] → targets_ok V best ts → all_targets ts.
Proof.
  intros Hi Ht.
  assert (∀ n p, opath n p → n ∈ V) as Hall.
  { intros n p Hp. destruct (decide (n ∈ V)) as [|HnV]; [done|].
    destruct (frontier _ _ _ _ _ Hi Hp HnV) as (m & l & Hm & Hl & _).
    destruct (inv_best _ _ _ _ Hi m l Hl) as [_ Hin]. specialize (Hin Hm). set_solver. }
  split.
  2:{ intros n q Hs Hd Hq. destruct (inv_opt _ _ _ _ Hi n (Hall n q Hq)) as (l & Hl & Hopt).
      exists l. split; [|auto]. apply Ht. exists n. split; [by eapply Hall|done]. }
  intros t. rewrite (Ht t). split.
  - intros (n & HnV & Hs & Hd & Hb). destruct (inv_opt _ _ _ _ Hi n HnV) as (l & Hl & Hopt).
    simplify_eq. exists n. split; [done|]. split; [done|]. split; [|done].
    by apply (inv_best _ _ _ _ Hi).
  - intros (n & Hs & Hd & [Hp Et] & Hmin).
    destruct (inv_opt _ _ _ _ Hi n (Hall n _ Hp)) as (l & Hl & Hopt).
    destruct (inv_best _ _ _ _ Hi n l Hl) as [[Hpl El] _].
    assert (l = t) as -> by (apply label_leb_antisym; [rewrite Et|rewrite El]; auto).
    exists n. split; [by eapply Hall|done].
Qed.

Lemma dijkstra_sound fuel V best heap ts ts' :
  dij_inv all_relaxed V best heap → targets_ok V best ts →
  optical_dijkstra fuel adj dst src V best heap ts = Some ts' →
  all_targets ts'.
Proof.
  revert V best heap ts. induction fuel as [|fuel IH]; intros V best heap ts Hi Ht.
  all: destruct heap as [|e0 heap0]; simpl; try done.
  1-2: intros [= <-]; by eapply final_targets.
  destruct (heap_pop e0 heap0) as [cur rest] eqn:Hpop.
  destruct (heap_pop_spec _ _ _ _ Hpop) as [Hperm Hmin].
  assert (cur ∈ e0 :: heap0) as Hcur by (rewrite Hperm; set_solver).
  destruct (inv_heap _ _ _ _ Hi cur Hcur) as (n & _ & Hen & _ & _).
  rewrite (opath_last _ _ (proj1 Hen)). simpl. case_decide as HV.
  { apply IH; [by eapply skip_inv|done]. }
  destruct (mark_inv _ _ _ _ _ _ Hi Hperm Hmin Hen HV) as [Hi' Hb].
  destruct (foldl _ _ _) as [best' heap'] eqn:Hf.
  destruct (relax_all _ _ _ _ _ _ _ _ _ Hi' ltac:(set_solver) Hb ltac:(done) Hf) as (Hi'' & Hk & _).
  apply IH; [|by eapply targets_step].
  split; try apply Hi''. intros k m l _ HkV Hm HmV Hl.
  apply (inv_next _ _ _ _ Hi'' k m l); try done. destruct (decide (k = n)) as [->|]; [by right|by left].
Qed.

Lemma dijkstra_total U fuel V best heap ts :
  (∀ x, x ∉ U → adj x = []) → dij_inv all_relaxed V best heap →
  length heap + pending_work adj U V ≤ fuel →
  is_Some (optical_dijkstra fuel adj dst src V best heap ts).
Proof.
  intros HU. revert V best heap ts. induction fuel as [|fuel IH]; intros V best [|e0 heap0] ts Hi Hf;
    simpl in *; try done; try lia.
  destruct (heap_pop e0 heap0) as [cur rest] eqn:Hpop.
  destruct (heap_pop_spec _ _ _ _ Hpop) as [Hperm Hmin].
  pose proof (Permutation_length Hperm) as Hlen. simpl in Hlen.
  assert (cur ∈ e0 :: heap0) as Hcur by (rewrite Hperm; set_solver).
  destruct (inv_heap _ _ _ _ Hi cur Hcur) as (n & _ & Hen & _ & _).
  rewrite (opath_last _ _ (proj1 Hen)). simpl. case_decide as HV.
  { apply IH; [by eapply skip_inv|lia]. }
  destruct (mark_inv _ _ _ _ _ _ Hi Hperm Hmin Hen HV) as [Hi' Hb].
  destruct (foldl _ _ _) as [best' heap'] eqn:Hfo.
  destruct (relax_all _ _ _ _ _ _ _ _ _ Hi' ltac:(set_solver) Hb ltac:(done) Hfo) as (Hi'' & Hk & Hl).
  apply IH.
  - split; try apply Hi''. intros k m l _ HkV Hm HmV Hl'.
    apply (inv_next _ _ _ _ Hi'' k m l); try done. destruct (decide (k = n)) as [->|]; [by right|by left].
  - pose proof (pending_work_mark adj U V n HV (HU n)). lia.
Qed.

(** The state before the first iteration. *)
Lemma dij_init : dij_inv all_relaxed ∅ {[src := (0, [src])]} [(0, [src])].
Proof.
  assert (entry src (0, [src])) as He by (split; [apply opath_src|done]).
  split.
  - intros e ->%list_elem_of_singleton. exists src, (0, [src]).
    rewrite lookup_singleton_eq. auto with unoc.
  - intros m l [<- <-]%lookup_singleton_Some. set_solver.
  - set_solver.
  - set_solver.
  - right. apply lookup_singleton_eq.
Qed.
End paths.

(** * The routine *)

(** The routine's result, when there is one: the least label among the paths
    from [src] to another device of [dst]. *)
Definition least_path (adj : string → list string) (src : string) (dst p : list string) : Prop :=
  (∃ n, n ≠ src ∧ n ∈ dst ∧ opath adj src n p) ∧
  ∀ m q, m ≠ src → m ∈ dst → opath adj src m q → label_leb (lab p) (lab q) = true.

Lemma opt_neighbors_spec onodes ls n m :
  m ∈ opt_neighbors onodes ls n ↔
  ∃ l, l ∈ ls ∧ is_Some (dict_get onodes (a_device_id l)) ∧ is_Some (dict_get onodes (b_device_id l)) ∧
       ((a_device_id l = n ∧ b_device_id l = m) ∨ (b_device_id l = n ∧ a_device_id l = m)).
Proof.
  unfold opt_neighbors, sorted_strs. rewrite elem_of_sort_by, elem_of_remove_dups, list_elem_of_bind.
  apply exist_proper. intros l. do 2 case_bool_decide; simpl; try (split; [set_solver|naive_solver]).
  destruct (String.eqb_spec (a_device_id l) n), (String.eqb_spec (b_device_id l) n);
    rewrite ?elem_of_app, ?list_elem_of_singleton, ?elem_of_nil; naive_solver.
Qed.

Lemma opt_neighbors_nodes onodes ls n m :
  m ∈ opt_neighbors onodes ls n → is_Some (dict_get onodes n).
Proof. rewrite opt_neighbors_spec. naive_solver. Qed.

Lemma opt_neighbors_outside onodes ls n :
  n ∉ (list_to_set (fst <$> onodes) : gset string) → opt_neighbors onodes ls n = [].
Proof.
  intros Hn. destruct (opt_neighbors onodes ls n) as [|m ms] eqn:E; [done|]. exfalso. apply Hn.
  apply elem_of_list_to_set, dict_get_key, (opt_neighbors_nodes onodes ls n m).
  rewrite E. set_solver.
Qed.

Lemma opath_off_source adj src n q : opath adj src n q → n ≠ src → adj src ≠ [].
Proof.
  induction 1 as [|n m p Hp IH Hm]; [done|]. intros _.
  destruct (decide (n = src)) as [->|]; [|auto]. intros E. rewrite E in Hm. by apply elem_of_nil in Hm.
Qed.

Lemma dijkstra_run onodes ls src dst :
  ∃ ts, optical_dijkstra (dijkstra_fuel (opt_neighbors onodes ls) (fst <$> onodes))
          (opt_neighbors onodes ls) dst src ∅ {[src := (0, [src])]} [(0, [src])] [] = Some ts ∧
        all_targets (opt_neighbors onodes ls) src dst ts.
Proof.
  set (adj := opt_neighbors onodes ls).
  destruct (dijkstra_total adj src dst (list_to_set (fst <$> onodes))
              (dijkstra_fuel adj (fst <$> onodes)) ∅ {[src := (0, [src])]} [(0, [src])] [])
    as [ts Hts].
  - apply opt_neighbors_outside.
  - apply dij_init.
  - unfold dijkstra_fuel, pending_work. simpl. apply le_n_S, sum_elements_le. set_solver.
  - exists ts. split; [done|]. eapply dijkstra_sound; [apply dij_init| |exact Hts]. intros t. set_solver.
Qed.

Lemma least_path_unique adj src dst p q :
  least_path adj src dst p → least_path adj src dst q → p = q.
Proof.
  intros [(n & ? & ? & Hp) Hpm] [(m & ? & ? & Hq) Hqm].
  assert (lab p = lab q) as E by (apply label_leb_antisym; eauto). by injection E.
Qed.

Lemma shortest_cases onodes ls src dst :
  let adj := opt_neighbors onodes ls in
  (∃ p, shortest_optical_path onodes ls src dst = Some p ∧ least_path adj src dst p) ∨
  (shortest_optical_path onodes ls src dst = None ∧
   ∀ n q, n ≠ src → n ∈ dst → ¬ opath adj src n q).
Proof.
  intros adj. unfold shortest_optical_path. destruct (dict_get onodes src) as [t|] eqn:Et.
  2:{ right. split; [done|]. intros n q Hn _ Hq. apply (opath_off_source _ _ _ _ Hq Hn).
      apply opt_neighbors_outside. rewrite elem_of_list_to_set, <-dict_get_key, Et. by intros [? ?]. }
  destruct (dijkstra_run onodes ls src dst) as (ts & -> & Hall & Hreach).
  destruct (sort_by label_leb ts) as [|t0 rest] eqn:Es.
  - apply sort_by_nil in Es as ->. right. split; [done|]. intros n q Hn Hd Hq.
    destruct (Hreach n q Hn Hd Hq) as (? & ? & _). set_solver.
  - left. exists t0.2. split; [done|].
    assert (t0 ∈ ts) as Hin by (apply (elem_of_sort_by label_leb); rewrite Es; set_solver).
    assert (∀ t, t ∈ ts → label_leb t0 t = true) as Hmin.
    { intros t'. apply (sort_by_head_min label_leb label_leb_total label_leb_trans ts t0 rest t' Es). }
    destruct (proj1 (Hall t0) Hin) as (n & Hn & Hd & [Hp El] & _). split; [eauto|].
    intros m q Hm Hdm Hq. destruct (Hreach m q Hm Hdm Hq) as (t1 & Ht1 & Hle).
    rewrite <-El. eapply label_leb_trans; [by apply Hmin|done].
Qed.

(** [_shortest_optical_path] returns a path exactly when it is the least one
    from the source to another device of the candidate set, by number of hops
    and then lexicographically by device ids, and returns [None] exactly when
    no such device can be reached.  The loop always ends. *)
Lemma shortest_optical_path_least onodes ls src dst :
  (∀ p, shortest_optical_path onodes ls src dst = Some p ↔
        least_path (opt_neighbors onodes ls) src dst p) ∧
  (shortest_optical_path onodes ls src dst = None ↔
   ∀ n q, n ≠ src → n ∈ dst → ¬ opath (opt_neighbors onodes ls) src n q).
Proof.
  destruct (shortest_cases onodes ls src dst) as [(p & E & Hp)|[E Hn]].
  - rewrite E. split.
    + intros p'. split; [by intros [= <-]|]. intros Hp'. f_equal. by eapply least_path_unique.
    + split; [done|]. destruct Hp as [(n & ? & ? & ?) _]. naive_solver.
  - rewrite E. split; [|done]. intros p. split; [done|].
    intros [(n & ? & ? & ?) _]. by destruct (Hn n p).
Qed.
