(* ===== verification/Dependency.v ===== *)
(** Upstream dependency evaluation: [services/dependency_resolver_core.py].

    [has_upstream_l3_or_anchor] answers, for any device, whether it has an
    upstream L3 path to an anchor.  Four caches stand between the question and
    the database, all of them keyed by the topology version of the pathfinding
    store: two in the session ([_dep_cache], [_router_l3_cache]), two in the
    module ([_LOGICAL_GRAPH_CACHE], [_UPSTREAM_CACHE]), beside the store's own
    graph.  The cached routine is modelled as it is written, on a state that
    holds all of them, and compared with the routine without caches. *)

From S2P Require Import Prelude PyFloat Models Worklist LinkRules LinkStatus Scenario L3Trace.
From S2P Require Import NxGraph Pathfinding.

(** * Data *)

Record UpstreamL3Result := mkUpstream {
  up_ok : bool;
  up_anchor : option string;
  up_chain : list string;
  up_reasons : list string
}.

(** ** _collect_devices_links, without the session cache *)

(** The device at one end of a link: by its interface row, else by the legacy
    '-if0' suffix; [None] when neither gives a non-empty id. *)
Definition resolve_end (s : DB) (k : string) : option string :=
  match truthy (if_to_dev s k) with
  | Some d => Some d
  | None => if nonempty k && ends_with "-if0" k then truthy (Some (drop_last 4 k)) else None
  end.

Definition dev_allowed (s : DB) : list Device :=
  filter (λ d, is_forced DOWN (dev_override d) = false) (devices s).

Definition link_record (s : DB) (l : Link) : option LinkRecord :=
  if negb (admin_passable l) then None
  else
    match resolve_end s (a_interface_id l), resolve_end s (b_interface_id l) with
    | Some a, Some b =>
        let allowed_ids := dev_id <$> dev_allowed s in
        if negb (mem a allowed_ids) || negb (mem b allowed_ids) then None
        else Some (mkLinkRecord (link_id l) a b (LinkType_value (kind l)) None)
    | _, _ => None
    end.

Definition Inputs : Type := list DeviceRecord * list LinkRecord * (string → option string).

Definition read_devices_links (s : DB) : Inputs :=
  ((λ d, mkDeviceRecord (dev_id d) (DeviceType_value (dev_type d))) <$> dev_allowed s,
   omap (link_record s) (links s), if_to_dev s).

Definition ROUTER_NODE_TYPES : list string := ["CORE_ROUTER"; "EDGE_ROUTER"; "BACKBONE_GATEWAY"].

Definition is_router (d : Device) : bool := mem (dev_type d) L3_TYPES.

(** The order [candidates.sort(key=lambda t: (t[0], t[1]))]. *)
Definition candidate_leb (x y : list string) : bool := label_leb (length x, x) (length y, y).

(** The result for a router, from its trace. *)
Definition router_result (d : Device) (res : DependencyCheckResult) : UpstreamL3Result :=
  mkUpstream (ok res)
    (if ok res then last (chain res) else None)
    (match chain res with [] => [dev_id d] | c => c end)
    (if ok res then [] else [default "unknown" (truthy (reason res))]).

Section graph.
Context {G : Type} `{NxGraph G}.

(** ** Caches *)

Record DepState := mkDep {
  store : PathfindingStore (G := G);
  graph_cache : Z * option (Inputs * G);                    (* _LOGICAL_GRAPH_CACHE *)
  upstream_cache : Z * gmap string UpstreamL3Result;        (* _UPSTREAM_CACHE *)
  dep_cache : option (Z * Inputs);                          (* session.info["_dep_cache"] *)
  router_cache : option (Z * gmap string DependencyCheckResult)  (* session.info["_router_l3_cache"] *)
}.

Definition new_state : DepState := mkDep new_store (-1, None)%Z ((-1)%Z, ∅) None None.

Definition version (st : DepState) : Z := topo_version (store st).

Definition collect_devices_links (use_cache : bool) (s : DB) (st : DepState) : Inputs * DepState :=
  match (if use_cache then dep_cache st else None) with
  | Some (v, inp) =>
      if (v =? version st)%Z then (inp, st)
      else
        let inp := read_devices_links s in
        (inp, mkDep (store st) (graph_cache st) (upstream_cache st)
                (Some (version st, inp)) (router_cache st))
  | None =>
      let inp := read_devices_links s in
      (inp, if use_cache
            then mkDep (store st) (graph_cache st) (upstream_cache st)
                   (Some (version st, inp)) (router_cache st)
            else st)
  end.

(** [_get_versioned_logical_graph_snapshot].  The loop goes round again only
    when another thread bumped the version meanwhile. *)
Fixpoint logical_graph_snapshot (fuel : nat) (use_cache : bool) (s : DB) (st : DepState)
    : option ((Inputs * G) * DepState) :=
  match fuel with
  | O => None
  | S fuel' =>
      let topo_v := version st in
      match (if (fst (graph_cache st) =? topo_v)%Z then snd (graph_cache st) else None) with
      | Some cached => Some (cached, st)
      | None =>
          let '(inp, st1) := collect_devices_links use_cache s st in
          let '((graph_v, g), store') := get_logical_graph (store st1) inp.1.1 inp.1.2 false in
          let st2 := mkDep store' (graph_cache st1) (upstream_cache st1) (dep_cache st1) (router_cache st1) in
          if (graph_v =? topo_v)%Z && (topo_v =? version st2)%Z then
            Some ((inp, g), mkDep (store st2) (topo_v, Some (inp, g)) (upstream_cache st2)
                              (dep_cache st2) (router_cache st2))
          else
            logical_graph_snapshot fuel' use_cache s
              (mkDep (store st2) (-1, None)%Z (upstream_cache st2) (dep_cache st2) (router_cache st2))
      end
  end.

Definition router_l3_chain (s : DB) (router : Device) (st : DepState)
    : DependencyCheckResult * DepState :=
  let cmap :=
    match router_cache st with
    | Some (v, m) => if (v =? version st)%Z then m else ∅
    | None => ∅
    end in
  match cmap !! dev_id router with
  | Some res => (res, mkDep (store st) (graph_cache st) (upstream_cache st) (dep_cache st)
                        (Some (version st, cmap)))
  | None =>
      let res := trace_l3_path_to_anchor s router in
      (res, mkDep (store st) (graph_cache st) (upstream_cache st) (dep_cache st)
              (Some (version st, <[dev_id router := res]> cmap)))
  end.

(** The routers of the graph that a device is connected to, in node order. *)
Definition reachable_routers (g : G) (d : string) : list string :=
  fst <$> filter (λ n, mem n.2 ROUTER_NODE_TYPES && has_path g d n.1 = true) (nodes g).

(** The chain through one router, given its trace. *)
Definition candidate (g : G) (d r_id : string) (rr : DependencyCheckResult) : option (list string) :=
  if negb (ok rr) then None
  else
    match shortest_path g d r_id with
    | None => None
    | Some dev_to_r => Some (dev_to_r ++ tail (chain rr))
    end.

Fixpoint collect_candidates (s : DB) (g : G) (d : string) (rs : list string) (st : DepState)
    : list (list string) * DepState :=
  match rs with
  | [] => ([], st)
  | r_id :: rs' =>
      match get_device s r_id with
      | None => collect_candidates s g d rs' st
      | Some r_dev =>
          let '(rr, st1) := router_l3_chain s r_dev st in
          let '(cs, st2) := collect_candidates s g d rs' st1 in
          (match candidate g d r_id rr with Some c => c :: cs | None => cs end, st2)
      end
  end.

(** The best candidate, or the reason there is none. *)
Definition pick_candidate (d : string) (cs : list (list string)) : UpstreamL3Result :=
  match sort_by candidate_leb cs with
  | [] => mkUpstream false None [d] ["routers_no_l3"]
  | best :: _ => mkUpstream true (Some (default "" (last best))) best []
  end.

(** The computation on a cache miss. *)
Definition evaluate_upstream (use_cache : bool) (s : DB) (device : Device) (st : DepState)
    : UpstreamL3Result * DepState :=
  if is_router device then
    let '(res, st') := router_l3_chain s device st in (router_result device res, st')
  else
    match logical_graph_snapshot 1 use_cache s st with
    | None => (mkUpstream false None [dev_id device] ["exception"], st)
    | Some ((_, g), st1) =>
        if negb (has_node g (dev_id device)) then
          (mkUpstream false None [dev_id device] ["device_not_in_graph"], st1)
        else
          match sorted_strs (reachable_routers g (dev_id device)) with
          | [] => (mkUpstream false None [dev_id device] ["no_router_path"], st1)
          | rs =>
              let '(cs, st2) := collect_candidates s g (dev_id device) rs st1 in
              (pick_candidate (dev_id device) cs, st2)
          end
    end.

Definition has_upstream_l3_or_anchor (use_cache : bool) (s : DB) (device : Device) (st : DepState)
    : UpstreamL3Result * DepState :=
  if is_router device then evaluate_upstream use_cache s device st
  else
    let cmap := if (fst (upstream_cache st) =? version st)%Z then snd (upstream_cache st) else ∅ in
    let st0 := mkDep (store st) (graph_cache st) (version st, cmap) (dep_cache st) (router_cache st) in
    match cmap !! dev_id device with
    | Some r => (r, st0)
    | None =>
        let '(r, st1) := evaluate_upstream use_cache s device st0 in
        (r, mkDep (store st1) (graph_cache st1)
              (fst (upstream_cache st1), <[dev_id device := r]> (snd (upstream_cache st1)))
              (dep_cache st1) (router_cache st1))
    end.

(** The deprecated wrapper. *)
Definition evaluate_upstream_dependencies (use_cache : bool) (s : DB) (device : Device)
    (st : DepState) : DependencyCheckResult * DepState :=
  if is_router device then (trace_l3_path_to_anchor s device, st)
  else
    let '(diag, st') := has_upstream_l3_or_anchor use_cache s device st in
    (mkCheck (up_ok diag) (head (up_reasons diag)) (up_chain diag), st').

(** ** [_shortest_logical_path] of api/endpoints/tools.py

    The ping tool builds its own records and goes through the same store. *)

Definition ping_end (k : string) : string := if ends_with "-if0" k then drop_last 4 k else k.

Definition ping_records (s : DB) : list DeviceRecord * list LinkRecord :=
  ((λ d, mkDeviceRecord (dev_id d) (DeviceType_value (dev_type d))) <$> devices s,
   (λ l, mkLinkRecord (link_id l) (ping_end (a_interface_id l)) (ping_end (b_interface_id l))
           (LinkType_value (kind l)) None) <$> links s).

Definition shortest_logical_path (s : DB) (src dst : string) (st : DepState)
    : option (list string) * DepState :=
  let '(d_recs, l_recs) := ping_records s in
  let '((_, lg), store') := get_logical_graph (store st) d_recs l_recs false in
  (if negb (has_node lg src) || negb (has_node lg dst) then None else shortest_path lg src dst,
   mkDep store' (graph_cache st) (upstream_cache st) (dep_cache st) (router_cache st)).
End graph.
Arguments DepState : clear implicits.
