(* ===== verification/DependencyProofs.v ===== *)
(** The caches of the dependency resolver are transparent, and what the
    resolver computes.

    [upstream_fresh] is [has_upstream_l3_or_anchor] without any cache.  The
    cached routine is shown to give the same answers along every sequence of
    topology changes, session changes and queries, as long as each change bumps
    the topology version; [ping_poisons_upstream] shows the one caller of the
    store for which this fails. *)

From S2P Require Import Prelude PyFloat Models Worklist LinkRules LinkStatus Scenario L3Trace.
From S2P Require Import NxGraph Pathfinding OpticalCollapse Dependency.

Section coherence.
Context {G : Type} `{NxGraph G}.
Context (use_cache : bool).

(** * The routine without caches *)

Definition logical_graph_of (s : DB) : G :=
  build_logical_graph (read_devices_links s).1.1 (read_devices_links s).1.2 false.

Definition fresh_candidates (s : DB) (d : string) (rs : list string) : list (list string) :=
  omap (λ r_id, r_dev ← get_device s r_id;
                candidate (logical_graph_of s) d r_id (trace_l3_path_to_anchor s r_dev)) rs.

Definition upstream_fresh (s : DB) (device : Device) : UpstreamL3Result :=
  if is_router device then router_result device (trace_l3_path_to_anchor s device)
  else
    let g := logical_graph_of s in
    if negb (has_node g (dev_id device)) then
      mkUpstream false None [dev_id device] ["device_not_in_graph"]
    else
      match sorted_strs (reachable_routers g (dev_id device)) with
      | [] => mkUpstream false None [dev_id device] ["no_router_path"]
      | rs => pick_candidate (dev_id device) (fresh_candidates s (dev_id device) rs)
      end.

(** * Coherence *)

(** Every cache entry of the current version is what a fresh computation on
    the current database gives. *)
Record coherent (s : DB) (st : DepState G) : Prop := {
  co_store : ∀ g, logical_graph (store st) = Some g → relaxed_flag (store st) = Some false →
    g = logical_graph_of s;
  co_graph : ∀ inp g, graph_cache st = (version st, Some (inp, g)) → g = logical_graph_of s;
  co_upstream : ∀ m k r d, upstream_cache st = (version st, m) → m !! k = Some r →
    get_device s k = Some d → is_router d = false → r = upstream_fresh s d;
  co_dep : ∀ inp, dep_cache st = Some (version st, inp) → inp = read_devices_links s;
  co_router : ∀ m k r d, router_cache st = Some (version st, m) → m !! k = Some r →
    get_device s k = Some d → r = trace_l3_path_to_anchor s d
}.

(** No cache entry belongs to a future version. *)
Record bounded (st : DepState G) : Prop := {
  bd_graph : (fst (graph_cache st) ≤ version st)%Z;
  bd_upstream : (fst (upstream_cache st) ≤ version st)%Z;
  bd_dep : ∀ v inp, dep_cache st = Some (v, inp) → (v ≤ version st)%Z;
  bd_router : ∀ v m, router_cache st = Some (v, m) → (v ≤ version st)%Z
}.

Definition good (s : DB) (st : DepState G) : Prop := coherent s st ∧ bounded st.

Lemma collect_ok s st inp st' :
  good s st → collect_devices_links use_cache s st = (inp, st') →
  inp = read_devices_links s ∧ good s st' ∧ version st' = version st ∧
  store st' = store st ∧ graph_cache st' = graph_cache st ∧ upstream_cache st' = upstream_cache st.
Proof.
  intros [Hc Hb]. unfold collect_devices_links.
  assert (good s (mkDep (store st) (graph_cache st) (upstream_cache st)
                    (Some (version st, read_devices_links s)) (router_cache st))) as Hg.
  { split; split; simpl; try apply Hc; try apply Hb; naive_solver. }
  destruct use_cache.
  - destruct (dep_cache st) as [[v i]|] eqn:Ed.
    + destruct (Z.eqb_spec v (version st)) as [->|]; intros [= <- <-]; [|done].
      split; [by apply (co_dep _ _ Hc)|done].
    + by intros [= <- <-].
  - by intros [= <- <-].
Qed.

Lemma snapshot_ok s st :
  good s st → ∃ inp st', logical_graph_snapshot 1 use_cache s st = Some ((inp, logical_graph_of s), st') ∧
    good s st' ∧ version st' = version st ∧ upstream_cache st' = upstream_cache st.
Proof.
  intros Hg. simpl. destruct (graph_cache st) as [v data] eqn:Ec. simpl.
  destruct (if (v =? version st)%Z then data else None) as [[inp g]|] eqn:Ed.
  { destruct (Z.eqb_spec v (version st)) as [->|]; [|done]. subst data.
    rewrite (co_graph _ _ (proj1 Hg) inp g Ec). eexists _, _. done. }
  destruct (collect_devices_links use_cache s st) as [inp st1] eqn:E1.
  destruct (collect_ok _ _ _ _ Hg E1) as (-> & [Hc1 Hb1] & Hv1 & Hs1 & Hg1 & Hu1).
  assert (∃ str, get_logical_graph (store st1) (read_devices_links s).1.1 (read_devices_links s).1.2 false =
            ((version st, logical_graph_of s), str) ∧ topo_version str = version st ∧
            ∀ g, logical_graph str = Some g → relaxed_flag str = Some false → g = logical_graph_of s)
    as (str & -> & Hvs & Hcs).
  { unfold get_logical_graph. fold (version st1). rewrite Hv1.
    destruct (logical_graph (store st1)) as [g|] eqn:Eg; [case_bool_decide as Ef|].
    - rewrite (co_store _ _ Hc1 g Eg Ef). exists (store st1). split; [done|]. split; [done|].
      by apply (co_store _ _ Hc1).
    - eexists. split; [done|]. split; [done|]. by intros g' [= <-] _.
    - eexists. split; [done|]. split; [done|]. by intros g' [= <-] _. }
  assert (∀ a b c d, version (mkDep str a b c d) = version st1) as Hver
    by (intros; unfold version at 1; simpl; congruence).
  rewrite Hver, Hv1, Z.eqb_refl. simpl.
  eexists _, _. split; [done|]. split; [|by rewrite Hver].
  split; split; simpl; rewrite ?Hver.
  - done.
  - intros inp g E. congruence.
  - apply Hc1.
  - apply Hc1.
  - apply Hc1.
  - lia.
  - apply Hb1.
  - apply Hb1.
  - apply Hb1.
Qed.

Lemma router_chain_ok s d st res st' :
  good s st → get_device s (dev_id d) = Some d → router_l3_chain s d st = (res, st') →
  res = trace_l3_path_to_anchor s d ∧ good s st' ∧ version st' = version st ∧
  upstream_cache st' = upstream_cache st.
Proof.
  intros [Hc Hb] Hd. unfold router_l3_chain.
  set (cmap := match router_cache st with
               | Some (v, m) => if (v =? version st)%Z then m else ∅ | None => ∅ end).
  assert (∀ k r d, cmap !! k = Some r → get_device s k = Some d → r = trace_l3_path_to_anchor s d) as Hm.
  { intros k r d'. subst cmap. destruct (router_cache st) as [[v m]|] eqn:Er; [|by rewrite lookup_empty].
    destruct (Z.eqb_spec v (version st)) as [->|]; [|by rewrite lookup_empty]. by eapply co_router. }
  assert (∀ m, (∀ k r d, m !! k = Some r → get_device s k = Some d → r = trace_l3_path_to_anchor s d) →
    good s (mkDep (store st) (graph_cache st) (upstream_cache st) (dep_cache st) (Some (version st, m)))) as Hg.
  { intros m Hm'. split; split; simpl; try apply Hc; try apply Hb; naive_solver. }
  destruct (cmap !! dev_id d) as [r|] eqn:E; intros [= <- <-].
  - split; [by eapply Hm|]. auto.
  - split; [done|]. split; [|done]. apply Hg. intros k r d'.
    destruct (decide (k = dev_id d)) as [->|Hne]; [rewrite lookup_insert_eq|rewrite lookup_insert_ne by done].
    + congruence.
    + apply Hm.
Qed.

Lemma candidates_ok s d rs st cs st' :
  good s st → collect_candidates s (logical_graph_of s) d rs st = (cs, st') →
  cs = fresh_candidates s d rs ∧ good s st' ∧ version st' = version st ∧
  upstream_cache st' = upstream_cache st.
Proof.
  revert st cs st'. unfold fresh_candidates.
  induction rs as [|r rs IH]; intros st cs st' Hg; simpl.
  { by intros [= <- <-]. }
  destruct (get_device s r) as [r_dev|] eqn:Er; simpl; [|by apply IH].
  destruct (router_l3_chain s r_dev st) as [rr st1] eqn:E1.
  destruct (get_device_Some _ _ _ Er) as [_ <-].
  destruct (router_chain_ok _ _ _ _ _ Hg Er E1) as (-> & Hg1 & Hv1 & Hu1).
  destruct (collect_candidates s _ d rs st1) as [cs' st2] eqn:E2.
  destruct (IH _ _ _ Hg1 E2) as (-> & Hg2 & Hv2 & Hu2). intros [= <- <-].
  split; [by destruct (candidate _ _ _ _)|]. split; [done|]. split; congruence.
Qed.

Lemma evaluate_ok s d st r st' :
  good s st → get_device s (dev_id d) = Some d → evaluate_upstream use_cache s d st = (r, st') →
  r = upstream_fresh s d ∧ good s st' ∧ version st' = version st ∧
  (is_router d = true ∨ upstream_cache st' = upstream_cache st).
Proof.
  intros Hg Hd. unfold evaluate_upstream, upstream_fresh. destruct (is_router d).
  { destruct (router_l3_chain s d st) as [res st1] eqn:E1. intros [= <- <-].
    destruct (router_chain_ok _ _ _ _ _ Hg Hd E1) as (-> & ? & ? & ?). auto. }
  destruct (snapshot_ok s st Hg) as (inp & st1 & -> & Hg1 & Hv1 & Hu1).
  destruct (has_node _ _); cbn [negb]; [|intros [= <- <-]; auto].
  destruct (sorted_strs _) as [|r0 rs]; [intros [= <- <-]; auto|].
  destruct (collect_candidates s _ _ (r0 :: rs) _) as [cs st2] eqn:E2. intros [= <- <-].
  destruct (candidates_ok _ _ _ _ _ _ Hg1 E2) as (-> & ? & ? & ?). split; [done|].
  split; [done|]. split; [congruence|right; congruence].
Qed.

Lemma upstream_ok s d st r st' :
  good s st → get_device s (dev_id d) = Some d →
  has_upstream_l3_or_anchor use_cache s d st = (r, st') →
  r = upstream_fresh s d ∧ good s st' ∧ version st' = version st.
Proof.
  intros Hg Hd. unfold has_upstream_l3_or_anchor. destruct (is_router d) eqn:Er.
  { intros E. destruct (evaluate_ok _ _ _ _ _ Hg Hd E) as (? & ? & ? & _). auto. }
  set (cmap := if (fst (upstream_cache st) =? version st)%Z then snd (upstream_cache st) else ∅).
  set (st0 := mkDep (store st) (graph_cache st) (version st, cmap) (dep_cache st) (router_cache st)).
  assert (∀ m k r d, (version st, m) = (version st, cmap) → m !! k = Some r →
    get_device s k = Some d → is_router d = false → r = upstream_fresh s d) as Hm.
  { intros m k r' d' [= ->]. subst cmap. destruct (upstream_cache st) as [v m] eqn:Eu. simpl.
    destruct (Z.eqb_spec v (version st)) as [->|]; [|by rewrite lookup_empty].
    by apply (co_upstream _ _ (proj1 Hg)). }
  assert (good s st0) as Hg0.
  { destruct Hg as [Hc Hb]. split; split; simpl; try apply Hc; try apply Hb; [|reflexivity].
    intros m k r' d' E. by apply Hm. }
  destruct (cmap !! dev_id d) as [r'|] eqn:Ec.
  { intros [= <- <-]. split; [by eapply (Hm cmap)|done]. }
  destruct (evaluate_upstream use_cache s d st0) as [r1 st1] eqn:E1. intros [= <- <-].
  destruct (evaluate_ok _ _ _ _ _ Hg0 Hd E1) as (-> & [Hc1 Hb1] & Hv1 & [?|Hu1]); [congruence|].
  split; [done|]. split; [|done]. rewrite Hu1. simpl.
  split; split; simpl; try apply Hc1; try apply Hb1.
  - intros m k r' d' [= Ev <-]. destruct (decide (k = dev_id d)) as [->|Hne];
      [rewrite lookup_insert_eq|rewrite lookup_insert_ne by done].
    + intros. congruence.
    + by apply (Hm cmap).
  - change (version st ≤ version st1)%Z. change (version st1 = version st) in Hv1. lia.
Qed.

(** * Runs *)

(** What happens to the resolver: a change of the database, always with a bump
    of the topology version; a fresh session; a query for a device id. *)
Inductive dep_op :=
  | Mutate (s' : DB)
  | NewSession
  | Query (k : string).

Definition dep_bump (st : DepState G) : DepState G :=
  mkDep (snd (bump_version (store st))) (graph_cache st) (upstream_cache st) (dep_cache st)
    (router_cache st).

Definition dep_new_session (st : DepState G) : DepState G :=
  mkDep (store st) (graph_cache st) (upstream_cache st) None None.

(** The answers of the cached resolver along a sequence of operations. *)
Fixpoint run (s : DB) (st : DepState G) (ops : list dep_op) : list (option UpstreamL3Result) :=
  match ops with
  | [] => []
  | Mutate s' :: ops' => run s' (dep_bump st) ops'
  | NewSession :: ops' => run s (dep_new_session st) ops'
  | Query k :: ops' =>
      match get_device s k with
      | None => None :: run s st ops'
      | Some d =>
          let '(r, st') := has_upstream_l3_or_anchor use_cache s d st in Some r :: run s st' ops'
      end
  end.

(** The answers computed afresh every time. *)
Fixpoint run_fresh (s : DB) (ops : list dep_op) : list (option UpstreamL3Result) :=
  match ops with
  | [] => []
  | Mutate s' :: ops' => run_fresh s' ops'
  | NewSession :: ops' => run_fresh s ops'
  | Query k :: ops' => (upstream_fresh s <$> get_device s k) :: run_fresh s ops'
  end.

Lemma bump_good s s' st : good s st → good s' (dep_bump st).
Proof.
  intros [_ [H1 H2 H3 H4]].
  assert (version (dep_bump st) = version st + 1)%Z as Hv by done.
  split; split; rewrite ?Hv; simpl; try done.
  - intros inp g E. rewrite E in H1. simpl in H1. lia.
  - intros m k r d E. rewrite E in H2. simpl in H2. lia.
  - intros inp E. specialize (H3 _ _ E). lia.
  - intros m k r d E. specialize (H4 _ _ E). lia.
  - lia.
  - lia.
  - intros v inp E. specialize (H3 _ _ E). lia.
  - intros v m E. specialize (H4 _ _ E). lia.
Qed.

Lemma session_good s st : good s st → good s (dep_new_session st).
Proof. intros [Hc Hb]. split; split; simpl; try done; try apply Hc; try apply Hb. Qed.

Lemma new_state_good s : good s new_state.
Proof. split; split; simpl; try done; unfold version; simpl; try lia. Qed.

Lemma run_good s st ops : good s st → run s st ops = run_fresh s ops.
Proof.
  revert s st. induction ops as [|[s'| |k] ops IH]; intros s st Hg; simpl; [done|..].
  - by eapply IH, bump_good.
  - by apply IH, session_good.
  - destruct (get_device s k) as [d|] eqn:Ek; simpl; [|by rewrite IH].
    destruct (get_device_Some _ _ _ Ek) as [_ <-].
    destruct (has_upstream_l3_or_anchor use_cache s d st) as [r st'] eqn:E.
    destruct (upstream_ok _ _ _ _ _ Hg Ek E) as (-> & Hg' & _). by rewrite IH.
Qed.
End coherence.

(** C2. The four caches of the resolver are transparent: from a fresh process,
    along every sequence of database changes (each followed by a version bump),
    session changes and queries, [has_upstream_l3_or_anchor] gives the answers
    that a computation without caches gives on the database of the moment. *)
Theorem upstream_caches_transparent {G} `{NxGraph G} use_cache s ops :
  run use_cache s (new_state (G := G)) ops = run_fresh (G := G) s ops.
Proof. apply run_good, new_state_good. Qed.

(** The ping tool breaks that transparency: it fills the store's graph slot
    for the current version with a graph of its own, built from other records.
    On the sample network the OLT reaches the gateway, but if a ping comes
    between the version bump and the query, the resolver reports that the OLT
    has no path to a router. *)
Lemma ping_poisons_upstream :
  let st := (shortest_logical_path demo "bb" "cr" (new_state (G := AssocGraph))).2 in
  (has_upstream_l3_or_anchor true demo (demo_device "olt") st).1 =
    mkUpstream false None ["olt"] ["no_router_path"] ∧
  (has_upstream_l3_or_anchor true demo (demo_device "olt") (new_state (G := AssocGraph))).1 =
    upstream_fresh (G := AssocGraph) demo (demo_device "olt") ∧
  upstream_fresh (G := AssocGraph) demo (demo_device "olt") =
    mkUpstream true (Some "bb") ["olt"; "cr"; "bb"] [].
Proof. split; [|split]; vm_compute; reflexivity. Qed.

(** * What the resolver computes *)

Section meaning.
Context {G : Type} `{NxLaws G}.

(** A walk of the logical graph from [d] to a router, continued by the
    router's own trace to an anchor. *)
Definition upstream_route (s : DB) (d : string) (full : list string) : Prop :=
  ∃ r t rd p c, (r, t) ∈ nodes (logical_graph_of (G := G) s) ∧ t ∈ ROUTER_NODE_TYPES ∧
    get_device s r = Some rd ∧ walk (logical_graph_of (G := G) s) d r p ∧
    leads_to_anchor s rd c ∧ full = p ++ tail c.

Lemma reachable_routers_spec (g : G) d r :
  r ∈ reachable_routers g d ↔ ∃ t, (r, t) ∈ nodes g ∧ t ∈ ROUTER_NODE_TYPES ∧ ∃ p, walk g d r p.
Proof.
  unfold reachable_routers. rewrite list_elem_of_fmap. split.
  - intros ([r' t] & -> & [Ht Hin]%list_elem_of_filter). apply andb_true_iff in Ht as [Ht Hp].
    exists t. split; [done|]. split; [by apply mem_true|by apply has_path_spec].
  - intros (t & Hin & Ht & Hp). exists (r, t). split; [done|]. apply list_elem_of_filter.
    split; [|done]. apply andb_true_iff. split; [by apply mem_true|by apply has_path_spec].
Qed.

Lemma get_device_row s k d : get_device s k = Some d → keys_ok s → d ∈ devices s.
Proof. by intros [? _]%get_device_Some. Qed.

(** Every candidate is a route, and every route has a candidate no longer. *)
Lemma fresh_candidates_sound s d rs full :
  keys_ok s → (∀ r, r ∈ rs → r ∈ reachable_routers (logical_graph_of (G := G) s) d) →
  full ∈ fresh_candidates (G := G) s d rs → upstream_route s d full.
Proof.
  intros Hk Hrs (r & Hr & (rd & Hrd & Hc)%bind_Some)%list_elem_of_omap.
  apply Hrs, reachable_routers_spec in Hr as (t & Hin & Ht & _).
  unfold candidate in Hc. destruct (ok _) eqn:Hok; [|done]. simpl in Hc.
  destruct (shortest_path _ d r) as [p|] eqn:Hp; [|done]. injection Hc as <-.
  exists r, t, rd, p, (chain (trace_l3_path_to_anchor s rd)). do 3 (split; [done|]).
  split; [by apply shortest_path_walk|]. split; [|done].
  assert (rd ∈ devices s) as Hd by (by eapply get_device_row).
  destruct (proj2 (trace_spec s rd Hk Hd) Hok) as [c Hc]. rewrite Hc. by apply trace_leads.
Qed.

Lemma fresh_candidates_complete s d rs r rd t p c :
  keys_ok s → r ∈ rs → (r, t) ∈ nodes (logical_graph_of (G := G) s) →
  get_device s r = Some rd → walk (logical_graph_of (G := G) s) d r p → leads_to_anchor s rd c →
  ∃ full, full ∈ fresh_candidates (G := G) s d rs ∧ length full ≤ length (p ++ tail c).
Proof.
  intros Hk Hr Hin Hrd Hp Hc. assert (rd ∈ devices s) as Hd by (by eapply get_device_row).
  destruct (shortest_path_exists _ _ _ _ Hp) as [q Hq].
  exists (q ++ tail c). split.
  - apply list_elem_of_omap. exists r. split; [done|]. rewrite Hrd. simpl.
    apply (trace_spec s rd Hk Hd) in Hc. unfold candidate. rewrite Hc. simpl. by rewrite Hq.
  - rewrite !length_app. pose proof (shortest_path_least _ _ _ _ _ Hq Hp). lia.
Qed.

Lemma candidate_total x y : candidate_leb x y = true ∨ candidate_leb y x = true.
Proof. apply label_leb_total. Qed.

Lemma candidate_trans x y z :
  candidate_leb x y = true → candidate_leb y z = true → candidate_leb x z = true.
Proof. apply label_leb_trans. Qed.

Lemma candidate_length x y : candidate_leb x y = true → length x ≤ length y.
Proof. unfold candidate_leb. rewrite label_leb_le. simpl. lia. Qed.

(** The picked candidate is a shortest one. *)
Lemma pick_candidate_spec d cs :
  (cs = [] ∧ pick_candidate d cs = mkUpstream false None [d] ["routers_no_l3"]) ∨
  (∃ best, best ∈ cs ∧ pick_candidate d cs = mkUpstream true (Some (default "" (last best))) best [] ∧
     ∀ c, c ∈ cs → length best ≤ length c).
Proof.
  unfold pick_candidate. destruct (sort_by candidate_leb cs) as [|best rest] eqn:E.
  - left. apply sort_by_nil in E. done.
  - right. exists best. split; [apply (elem_of_sort_by candidate_leb); rewrite E; set_solver|].
    split; [done|]. intros c Hc. apply candidate_length.
    by apply (sort_by_head_min candidate_leb candidate_total candidate_trans cs best rest).
Qed.

(** A route ends at a gateway. *)
Lemma route_last s d full :
  keys_ok s → upstream_route s d full →
  ∃ gw, gw ∈ devices s ∧ dev_type gw = BACKBONE_GATEWAY ∧ last full = Some (dev_id gw).
Proof.
  intros Hk (r & t & rd & p & c & _ & _ & Hrd & Hw & Hl & ->).
  destruct (get_device_Some _ _ _ Hrd) as [Hd <-].
  destruct (leads_last s rd c Hd Hl) as (gw & Hg & Ht & _ & Hlast). exists gw.
  split; [done|]. split; [done|]. pose proof (leads_head _ _ _ Hl) as Hh.
  destruct c as [|x [|y c]]; simplify_eq/=.
  - rewrite app_nil_r. rewrite (walk_last _ _ _ _ Hw). congruence.
  - by rewrite last_app, Hlast.
Qed.

Lemma upstream_fresh_cases s d :
  keys_ok s → is_router d = false →
  let g := logical_graph_of (G := G) s in
  let r := upstream_fresh (G := G) s d in
  (has_node g (dev_id d) = false ∧ r = mkUpstream false None [dev_id d] ["device_not_in_graph"]) ∨
  (has_node g (dev_id d) = true ∧ reachable_routers g (dev_id d) = [] ∧
     r = mkUpstream false None [dev_id d] ["no_router_path"]) ∨
  (has_node g (dev_id d) = true ∧ reachable_routers g (dev_id d) ≠ [] ∧
     (∀ full, ¬ upstream_route s (dev_id d) full) ∧
     r = mkUpstream false None [dev_id d] ["routers_no_l3"]) ∨
  (∃ best, has_node g (dev_id d) = true ∧ upstream_route s (dev_id d) best ∧
     (∀ full, upstream_route s (dev_id d) full → length best ≤ length full) ∧
     r = mkUpstream true (last best) best []).
Proof.
  intros Hk Hr g r. subst r. unfold upstream_fresh. rewrite Hr. fold g.
  destruct (has_node g (dev_id d)) eqn:Hn; cbn [negb]; [right|by left].
  destruct (sorted_strs _) as [|r0 rs] eqn:Es.
  { left. by apply sort_by_nil in Es. }
  right. assert (∀ x, x ∈ r0 :: rs ↔ x ∈ reachable_routers g (dev_id d)) as Hrs.
  { intros x. rewrite <-Es. apply elem_of_sort_by. }
  assert (reachable_routers g (dev_id d) ≠ []) as Hne.
  { intros E. rewrite E in Hrs. destruct (proj1 (elem_of_nil r0)). apply Hrs. set_solver. }
  assert (∀ full, upstream_route s (dev_id d) full →
    ∃ c, c ∈ fresh_candidates (G := G) s (dev_id d) (r0 :: rs) ∧ length c ≤ length full) as Hcomp.
  { intros full (x & t & rd & p & c & Hin & Ht & Hrd & Hw & Hl & ->).
    eapply fresh_candidates_complete; eauto. apply Hrs, reachable_routers_spec. eauto. }
  destruct (pick_candidate_spec (dev_id d) (fresh_candidates (G := G) s (dev_id d) (r0 :: rs)))
    as [[E ->]|(best & Hb & -> & Hmin)].
  - left. do 2 (split; [done|]). split; [|done]. intros full (c & Hc & _)%Hcomp. rewrite E in Hc. set_solver.
  - right. exists best. split; [done|].
    assert (upstream_route s (dev_id d) best) as Hroute.
    { eapply fresh_candidates_sound; [done| |done]. intros x. apply Hrs. }
    split; [done|]. split.
    + intros full (c & Hc & Hlen)%Hcomp. specialize (Hmin c Hc). lia.
    + destruct (route_last _ _ _ Hk Hroute) as (gw & _ & _ & ->). done.
Qed.
End meaning.

(** C1. What [has_upstream_l3_or_anchor] decides for a device that is not a
    router.  It answers yes exactly when the device is a node of the logical
    graph and some route exists: a walk to a router followed by that router's L3
    trace; the chain it returns is such a route, no route is shorter, and its
    last device, reported as the anchor, is a backbone gateway.  Otherwise the
    reason tells apart a device outside the graph, a device without any
    connected router, and connected routers none of which reaches an anchor. *)
Theorem upstream_refines {G} `{NxLaws G} s d :
  keys_ok s → is_router d = false →
  let g := logical_graph_of (G := G) s in
  let r := upstream_fresh (G := G) s d in
  (up_ok r = true ↔ has_node g (dev_id d) = true ∧ ∃ full, upstream_route (G := G) s (dev_id d) full) ∧
  (up_ok r = true →
     upstream_route (G := G) s (dev_id d) (up_chain r) ∧
     (∀ full, upstream_route (G := G) s (dev_id d) full → length (up_chain r) ≤ length full) ∧
     ∃ gw, gw ∈ devices s ∧ dev_type gw = BACKBONE_GATEWAY ∧ up_anchor r = Some (dev_id gw)) ∧
  (up_reasons r = if up_ok r then []
     else if negb (has_node g (dev_id d)) then ["device_not_in_graph"]
     else match reachable_routers g (dev_id d) with [] => ["no_router_path"] | _ => ["routers_no_l3"] end).
Proof.
  intros Hk Hr g r.
  destruct (upstream_fresh_cases (G := G) s d Hk Hr)
    as [[Hn E]|[(Hn & Hrr & E)|[(Hn & Hrr & Hno & E)|(best & Hn & Hb & Hmin & E)]]];
    fold g in Hn; subst r; rewrite E; simpl; rewrite Hn; simpl.
  - split; [naive_solver|]. done.
  - fold g in Hrr. rewrite Hrr. split; [|done]. split; [done|]. intros [_ (full & x & t & rd & p & c & ? & ? & _ & ? & _)].
    assert (x ∈ reachable_routers g (dev_id d)) as Hx by (apply reachable_routers_spec; eauto).
    rewrite Hrr in Hx. set_solver.
  - split; [|split; [done|]]; [naive_solver|]. fold g in Hrr. by destruct (reachable_routers g (dev_id d)).
  - split; [naive_solver|]. split; [|done]. intros _. split; [done|]. split; [done|].
    destruct (route_last _ _ _ Hk Hb) as (gw & ? & ? & ?). eauto.
Qed.

Lemma upstream_refines_witness :
  ∃ full, upstream_route (G := AssocGraph) demo "ont" full ∧
    up_chain (upstream_fresh (G := AssocGraph) demo (demo_device "ont")) = full ∧
    up_anchor (upstream_fresh (G := AssocGraph) demo (demo_device "ont")) = Some "bb".
Proof.
  destruct (upstream_refines (G := AssocGraph) demo (demo_device "ont") demo_keys) as (_ & Hok & _);
    [vm_compute; reflexivity|].
  destruct Hok as (Hroute & _); [vm_compute; reflexivity|].
  eexists. split; [exact Hroute|]. split; [reflexivity|vm_compute; reflexivity].
Defined.
