(* ===== verification/Provisioning.v ===== *)
(** Provisioning: [services/provisioning_service.py],
    [services/provisioning_dependency.py] and the tables of
    [constants/provisioning.py].

    Provisioning a device checks its type, its container and its upstream, gives
    it a management interface with an address of its role's prefix, marks it
    provisioned and records that, in one transaction; then it bumps the topology
    version, publishes an event and configures the uplinks of a router.  The
    session is expected to have no pending rows when the call begins.  The clock,
    the environment variables and the outcome of the MAC table's own transactions
    are arguments ([PEnv]). *)

From S2P Require Import Prelude PyFloat Models LinkRules Worklist EventStore Errors IpAddr Ipam MacAllocator L3Auto Links.
From S2P Require Import LinkStatus Scenario L3Trace NxGraph Pathfinding Dependency.

(** * constants/provisioning.py *)

Definition PROVISIONABLE_TYPES : list DeviceType :=
  [CORE_ROUTER; EDGE_ROUTER; OLT; AON_SWITCH; ONT; BUSINESS_ONT; AON_CPE].

(** [(requires_parent, parent_type)] *)
Definition DEVICE_PARENT_POOL_MAP (t : DeviceType) : option (bool * DeviceType) :=
  match t with OLT | AON_SWITCH => Some (false, POP) | _ => None end.

Definition is_provisionable (t : DeviceType) : bool := mem t PROVISIONABLE_TYPES.

(** * provisioning_dependency.py *)

Definition OPTICAL_INLINE_TYPES : list string := ["ODF"; "SPLITTER"; "NVT"; "HOP"].

Definition provisioned_upstream_available (d : option Device) : bool :=
  match d with
  | Some d => provisioned d && negb (is_forced DOWN (dev_override d))
  | None => false
  end.

Section dependency.
Context {G : Type} `{NxGraph G}.

(** [_collect_current_devices_links]: the session's cache is dropped first. *)
Definition collect_current (use_cache : bool) (s : DB) (st : DepState G) : Inputs * DepState G :=
  collect_devices_links use_cache s (mkDep (store st) (graph_cache st) (upstream_cache st) None (router_cache st)).

(** [g.neighbors(n)] of [optical_graph.subgraph(allowed)], sorted. *)
Definition access_neighbors (g : G) (allowed : list string) (n : string) : list string :=
  if mem n allowed then sorted_strs (filter (λ m, has_edge g n m = true ∧ m ∈ allowed) ((nodes g).*1)) else [].

(** [_shortest_path]: queue entries are [(node, path)]. *)
Definition enter (path : list string) (st : gset string * list (string * list string)) (nb : string)
    : gset string * list (string * list string) :=
  let '(seen, q) := st in
  if decide (nb ∈ seen) then st else ({[nb]} ∪ seen, q ++ [(nb, path ++ [nb])]).

Fixpoint bfs_path (succ : string → list string) (dst : string) (fuel : nat) (seen : gset string)
    (q : list (string * list string)) : option (option (list string)) :=
  match q with
  | [] => Some None
  | (node, path) :: q' =>
      match fuel with
      | O => None
      | S fuel' =>
          if String.eqb node dst then Some (Some path)
          else let '(seen', q'') := foldl (enter path) (seen, q') (succ node) in bfs_path succ dst fuel' seen' q''
      end
  end.

(** A node is queued at most once. *)
Definition access_path (g : G) (allowed : list string) (src dst : string) : option (option (list string)) :=
  let present k := has_node g k && mem k allowed in
  if negb (present src) || negb (present dst) then Some None
  else bfs_path (access_neighbors g allowed) dst (S (length (nodes g))) {[src]} [(src, [src])].

Definition allowed_node (d : string) (r : DeviceRecord) : bool :=
  String.eqb (rec_id r) d || String.eqb (rec_type r) "OLT" || mem (rec_type r) OPTICAL_INLINE_TYPES.

(** The provisioned OLTs with their paths. *)
Fixpoint olt_candidates (s : DB) (g : G) (allowed : list string) (src : string) (recs : list DeviceRecord)
    : option (list (nat * list string * string)) :=
  match recs with
  | [] => Some []
  | r :: recs' =>
      if negb (String.eqb (rec_type r) "OLT") || negb (provisioned_upstream_available (get_device s (rec_id r)))
      then olt_candidates s g allowed src recs'
      else
        path ← access_path g allowed src (rec_id r);
        cs ← olt_candidates s g allowed src recs';
        Some (match path with
              | Some (p :: ps) => (length (p :: ps), p :: ps, rec_id r) :: cs
              | _ => cs
              end)
  end.

Definition has_valid_provisioned_olt_path (use_cache : bool) (s : DB) (device : Device) (st : DepState G)
    : option (bool * DepState G) :=
  if negb (in_class device ONT_CLASS) then Some (false, st)
  else
    let '(inp, st1) := collect_current use_cache s st in
    let g : G := build_optical_graph inp.1.1 inp.1.2 in
    if negb (has_node g (dev_id device)) then Some (false, st1)
    else
      let allowed := rec_id <$> filter (λ r, allowed_node (dev_id device) r = true) inp.1.1 in
      cs ← olt_candidates s g allowed (dev_id device) inp.1.1;
      Some (negb (bool_decide (length cs = 0)), st1).

(** The other device of a link record that ends at [d]. *)
Definition other_end (d : string) (l : LinkRecord) : option string :=
  if String.eqb (a_device_id l) d then Some (b_device_id l)
  else if String.eqb (b_device_id l) d then Some (a_device_id l) else None.

Definition has_valid_provisioned_aon_switch_path (use_cache : bool) (s : DB) (device : Device)
    (st : DepState G) : bool * DepState G :=
  if negb (is_type device AON_CPE) then (false, st)
  else
    let '(inp, st1) := collect_current use_cache s st in
    let candidates := filter (λ d, is_type d AON_SWITCH && provisioned_upstream_available (Some d) = true)
                        (omap (λ l, other_end (dev_id device) l ≫= get_device s) inp.1.2) in
    (negb (bool_decide (candidates = [])), st1).

Definition dependency_ok (use_cache : bool) (s : DB) (device : Device) (st : DepState G)
    : option (bool * DepState G) :=
  if mem (dev_type device) ROUTER_CLASS then Some (true, st)
  else if in_class device ONT_CLASS then has_valid_provisioned_olt_path use_cache s device st
  else if is_type device AON_CPE then Some (has_valid_provisioned_aon_switch_path use_cache s device st)
  else
    let '(res, st1) := has_upstream_l3_or_anchor use_cache s device st in
    if up_ok res then Some (true, st1)
    else
      let has_backbone := existsb (λ d, is_type d BACKBONE_GATEWAY) (devices s) in
      if negb has_backbone && forallb (String.eqb "routers_no_l3") (up_reasons res) &&
         mem (dev_type device) [OLT; AON_SWITCH; ONT; BUSINESS_ONT; AON_CPE]
      then Some (true, st1)
      else Some (mem (dev_type device) ROUTER_CLASS, st1).
End dependency.

(** * provisioning_service.py *)

Record PEnv := mkPEnv {
  penv_now : string;
  penv_mac : DbOutcome;
  penv_append_ok : bool;
  penv_actor : option string;          (* UNOC_ACTOR *)
  penv_correlation : option string     (* UNOC_CORRELATION_ID *)
}.

Definition access_dependency_error_message (t : DeviceType) : string :=
  match t with
  | ONT => "Cannot provision ONT: no valid provisioned OLT path found."
  | BUSINESS_ONT => "Cannot provision BUSINESS_ONT: no valid provisioned OLT path found."
  | _ => "Cannot provision AON_CPE: upstream AON_SWITCH is missing or not provisioned."
  end.

(** [raise_error(code)] without a suffix. *)
Definition raise_code (c : ErrorCode) : HttpError := HttpException (default_status c) (ErrorCode_value c).

(** A prefix that is no network: ValueError from [ipaddress]. *)
Definition value_error : HttpError := HttpException 500 "ValueError".

Definition type_suffix (t : DeviceType) : string :=
  String.append "expected parent DeviceType." (DeviceType_value t).

(** The container rule. *)
Definition check_parent (s : DB) (device : Device) : Outcome unit :=
  match DEVICE_PARENT_POOL_MAP (dev_type device) with
  | Some (requires_parent, parent_type) =>
      match truthy (parent_container_id device) with
      | None => raise_if requires_parent (raise_error CONTAINER_REQUIRED "missing parent")
      | Some p =>
          raise_if (negb match get_device s p with Some parent => is_type parent parent_type | None => false end)
            (raise_error CONTAINER_REQUIRED (type_suffix parent_type))
      end
  | None =>
      raise_if (bool_decide (is_Some (truthy (parent_container_id device))))
        (raise_error INVALID_PROVISION_PATH "unexpected parent")
  end.

Definition role_to_cidr : list (string * string) := [
  ("core_mgmt", "10.252.0.0/24"); ("olt_mgmt", "10.251.0.0/24"); ("ont_mgmt", "10.250.0.0/16");
  ("aon_mgmt", "10.253.0.0/24"); ("cpe_mgmt", "10.254.0.0/24")].

(** By label, else by the well-known network. *)
Definition find_prefix (ps : list Prefix) (role : string) : option Prefix :=
  match find_row (λ p, bool_decide (description p = Some role)) ps with
  | Some p => Some p
  | None => net ← dict_get role_to_cidr role; find_row (λ p, String.eqb (prefix p) net) ps
  end.

Definition get_vrf (vs : list VRF) (k : Z) : option VRF := find_row (λ v, (vrf_id v =? k)%Z) vs.
Definition get_prefix (ps : list Prefix) (k : Z) : option Prefix := find_row (λ p, (prefix_id p =? k)%Z) ps.

Definition addr_of (s : DB) (iface : string) : option InterfaceAddress :=
  find_row (λ a, String.eqb (addr_interface_id a) iface) (addresses s).

Definition mgmt_name (d : string) : string := String.append d "-mgmt0".

(** What the allocation settles: address, prefix, VRF. *)
Record Allocation := mkAlloc { al_ip : string; al_prefix : Prefix; al_vrf : option VRF }.

Section service.
Context {row_ids : RowIds}.

Definition find_prefix_seeding (w : IpamDB) (role : string) : option Prefix * IpamDB :=
  match find_prefix (prefixes w) role with
  | Some p => (Some p, w)
  | None => let w' := ensure_ipam_defaults w in (find_prefix (prefixes w') role, w')
  end.

Definition next_or_raise (s : DB) (p : Prefix) : Outcome (string * Z) :=
  r ← or_raise (next_free_ip_in_prefix s p) value_error;
  or_raise r (raise_code POOL_EXHAUSTED).

Definition vrf_has_ip (s : DB) (v : VRF) (ip : string) : bool :=
  existsb (λ a, bool_decide (addr_vrf_id a = Some (vrf_id v)) && String.eqb (addr_ip a) ip) (addresses s).

Definition add_address (iface : string) (p : Prefix) (v : option VRF) (c : string * Z) (w : IpamDB) : IpamDB :=
  let s := base w in
  with_base (set_addresses (addresses s ++
    [mkInterfaceAddress (next_id (addr_id <$> addresses s)) iface c.1 c.2 (vrf_id <$> v) (Some (prefix_id p))]) s) w.

(** The retry loop.  [db0] is what a rollback leaves; [retries] counts down from four. *)
Fixpoint insert_address (retries : nat) (db0 w : IpamDB) (iface : string) (p : Prefix) (v : option VRF)
    (c : string * Z) : Outcome (string * IpamDB) :=
  c ← (if match v with Some v => vrf_has_ip (base w) v c.1 | None => false end
       then next_or_raise (base w) p else Ret c);
  let w' := add_address iface p v c w in
  if bool_decide (addr_constraints (addresses (base w'))) then Ret (c.1, w')
  else
    c ← next_or_raise (base db0) p;
    match retries with
    | O => Raise (raise_code POOL_EXHAUSTED)
    | S retries' => insert_address retries' db0 db0 iface p v c
    end.

(** The management interface: reuse or create it. *)
Definition ensure_mgmt_interface (env : PEnv) (device : Device) (w : IpamDB) (m : MacState)
    : Outcome IpamDB * MacState :=
  match get_interface (base w) (mgmt_name (dev_id device)) with
  | Some _ => (Ret w, m)
  | None =>
      match next_mac (penv_mac env) m with
      | None => (Diverge, m)
      | Some (mac, m') =>
          let i := mkInterface (mgmt_name (dev_id device)) (dev_id device) "mgmt0" (Some MANAGEMENT) ADMIN_UP
                     None None None None (Some mac) in
          let s := add_interface i (base w) in
          (if bool_decide (constraints s) then Ret (with_base s w) else Raise ConstraintViolation, m')
      end
  end.

(** An interface that already has an address: routers keep it, others fail. *)
Definition reuse_or_refuse (device : Device) (w : IpamDB) (found : Allocation) : Outcome Allocation :=
  let iface := mgmt_name (dev_id device) in
  match (_ ← get_interface (base w) iface; addr_of (base w) iface) with
  | None => Ret found
  | Some a =>
      if mem (dev_type device) [CORE_ROUTER; EDGE_ROUTER] then
        let p := default (al_prefix found) (addr_prefix_id a ≫= get_prefix (prefixes w)) in
        Ret (mkAlloc (addr_ip a) p (if (prefix_vrf_id p =? 0)%Z then None else get_vrf (vrfs w) (prefix_vrf_id p)))
      else Raise (raise_code DUPLICATE_MGMT_INTERFACE)
  end.

(** Everything between the checks and the domain event; [db0]: the committed database. *)
Definition allocate_mgmt (env : PEnv) (device : Device) (role : string) (db0 w : IpamDB) (m : MacState)
    : Outcome (Allocation * IpamDB) * MacState :=
  let '(found, w) := find_prefix_seeding w role in
  match (p ← or_raise found (raise_error INVALID_PROVISION_PATH (String.append "missing prefix " role));
         c ← next_or_raise (base w) p;
         a ← reuse_or_refuse device w (mkAlloc c.1 p (get_vrf (vrfs w) (prefix_vrf_id p)));
         Ret (c, a)) with
  | Raise e => (Raise e, m)
  | Diverge => (Diverge, m)
  | Ret (c, a) =>
      let '(r, m') := ensure_mgmt_interface env device w m in
      (w1 ← r;
       match addr_of (base w1) (mgmt_name (dev_id device)) with
       | Some _ => Ret (a, w1)
       | None =>
           r ← insert_address 4 db0 w1 (mgmt_name (dev_id device)) (al_prefix a) (al_vrf a) (al_ip a, c.2);
           Ret (mkAlloc r.1 (al_prefix a) (al_vrf a), r.2)
       end, m')
  end.

Definition provisioned_row (d : Device) : Device :=
  mkDevice (dev_id d) (dev_name d) (dev_type d) (dev_status d) true (dev_override d)
    (if is_type d OLT then Some (default (of_Z 5) (tx_power_dbm d)) else tx_power_dbm d)
    (if in_class d ONT_CLASS then Some (default (of_Z (-30)) (sensitivity_min_dbm d)) else sensitivity_min_dbm d)
    (insertion_loss_db d) (dev_capacity d) (signal_power_dbm d) (signal_margin_db d) (attenuation_db d)
    (signal_status d) (parent_container_id d) (slot_id d) (tariff_id d) (dev_vrf_id d) (hardware_model_id d).

Definition provisioning_record (env : PEnv) (w : IpamDB) (d : Device) (a : Allocation) : ProvisioningRecord :=
  mkRecord (next_id (pr_id <$> prov_records w)) (penv_now env) ASSIGN_MGMT_IP (dev_id d) (mgmt_name (dev_id d))
    (al_ip a) (vrf_id <$> al_vrf a) (Some (prefix_id (al_prefix a))) (Some (default "system" (penv_actor env)))
    (penv_correlation env).

Definition ip_json (a : option Allocation) : Json := match a with Some a => JStr (al_ip a) | None => JNull end.

Definition updated_event_payload (d : Device) (a : option Allocation) : Payload :=
  [("device_type", JStr (DeviceType_value (dev_type d))); ("provisioned", JBool true); ("ip", ip_json a)].

(** The rows of the transaction's end: event, device, audit record. *)
Definition finish (env : PEnv) (device : Device) (a : option Allocation) (w : IpamDB) (rows : list EventStoreRecord)
    : Outcome (IpamDB * list EventStoreRecord) :=
  rows ← or_raise (append_domain_event (penv_now env) "PROVISIONING_UPDATED" (dev_id device)
                     (updated_event_payload device a) None rows) (HttpException 500 "unknown domain event type");
  let s := write_device (provisioned_row device) (base w) in
  let recs := match a with
              | Some a => if nonempty (al_ip a) then prov_records w ++ [provisioning_record env w device a] else prov_records w
              | None => prov_records w
              end in
  Ret (mkIpamDB s (vrfs w) (prefixes w) recs, rows).

Definition provisioned_event (d : Device) (a : option Allocation) (tv : Z) : Event :=
  mkBusEvent "device.provisioned"
    [("id", JStr (dev_id d)); ("type", JStr (DeviceType_value (dev_type d))); ("ip", ip_json a)] (Some tv).
End service.

Section provision.
Context {row_ids : RowIds} {G : Type} `{NxGraph G}.

Record PWorld := mkPWorld {
  pw_db : IpamDB;                     (* committed *)
  pw_mac : MacState;
  pw_rows : list EventStoreRecord;
  pw_history : list Event;
  pw_dep : DepState G                 (* pathfinding store and dependency caches *)
}.

(** What the session holds when the call returns. *)
Inductive SessionState :=
  | Clean
  | Pending (w : IpamDB)              (* rows not committed *)
  | Broken.                           (* a flush failed and was not rolled back *)

(** The checks: [Ret] carries the caches they leave. *)
Definition check_provision (use_cache : bool) (s : DB) (device : Device) (st : DepState G) : Outcome (DepState G) :=
  _ ← raise_if (negb (is_provisionable (dev_type device))) (raise_code INVALID_PROVISION_PATH);
  _ ← raise_if (provisioned device) (raise_code ALREADY_PROVISIONED);
  _ ← check_parent s device;
  st ← (if in_class device ONT_CLASS then
          r ← of_fuel (has_valid_provisioned_olt_path use_cache s device st);
          _ ← raise_if (negb r.1) (HttpException 400 (access_dependency_error_message (dev_type device)));
          Ret r.2
        else if is_type device AON_CPE then
          let r := has_valid_provisioned_aon_switch_path use_cache s device st in
          _ ← raise_if (negb r.1) (HttpException 400 (access_dependency_error_message (dev_type device)));
          Ret r.2
        else Ret st);
  if is_type device OLT then
    let '(inp, st) := collect_devices_links use_cache s st in
    _ ← raise_if (negb (existsb (λ l,
            match other_end (dev_id device) l ≫= get_device s with
            | Some o => in_class o ROUTER_CLASS
            | None => false
            end) inp.1.2)) (raise_error INVALID_PROVISION_PATH "no router adjacency");
    Ret st
  else if mem (dev_type device) [OLT; ONT; BUSINESS_ONT; AON_CPE] then Ret st
  else
    r ← of_fuel (dependency_ok use_cache s device st);
    _ ← raise_if (negb r.1) (raise_error INVALID_PROVISION_PATH "upstream dependency failed");
    Ret r.2.

(** The transaction. *)
Definition provision_rows (env : PEnv) (device : Device) (db0 : IpamDB) (m : MacState) (rows : list EventStoreRecord)
    : Outcome (option Allocation * IpamDB * list EventStoreRecord) * MacState :=
  let w := ensure_ipam_defaults db0 in
  let '(r, m') :=
    match classify_prefix_role (dev_type device) with
    | None => (Ret (None, w), m)
    | Some role =>
        let '(r, m') := allocate_mgmt env device role db0 w m in
        (aw ← r; Ret (Some aw.1, aw.2), m')
    end in
  (aw ← r; f ← finish env device aw.1 aw.2 rows; Ret (aw.1, f.1, f.2), m').

Definition provision_device (env : PEnv) (use_cache : bool) (device : Device) (pw : PWorld)
    : Outcome SessionState * PWorld :=
  match check_provision use_cache (base (pw_db pw)) device (pw_dep pw) with
  | Raise e => (Raise e, pw)
  | Diverge => (Diverge, pw)
  | Ret st =>
      let '(r, m) := provision_rows env device (pw_db pw) (pw_mac pw) (pw_rows pw) in
      match r with
      | Raise e => (Raise e, mkPWorld (pw_db pw) m (pw_rows pw) (pw_history pw) st)
      | Diverge => (Diverge, mkPWorld (pw_db pw) m (pw_rows pw) (pw_history pw) st)
      | Ret (a, db, rows) =>
          let '(tv, store') := bump_version (store st) in
          let st := mkDep store' (graph_cache st) (upstream_cache st) (dep_cache st) (router_cache st) in
          let '(history, rows) := publish (penv_append_ok env) (penv_now env) (provisioned_event device a tv)
                                    (pw_history pw, rows) in
          match auto_configure_l3_uplinks db (provisioned_row device) with
          | None => (Ret Broken, mkPWorld db m rows history st)
          | Some (db', true) => (Ret Clean, mkPWorld db' m rows history st)
          | Some (db', false) => (Ret (Pending db'), mkPWorld db m rows history st)
          end
      end
  end.
End provision.
