(* ===== verification/OltPathProofs.v ===== *)
(** The access check of an ONT ([has_valid_provisioned_olt_path] of
    [Provisioning.v]): the breadth-first search is total and finds a path exactly
    when there is one, and the graph it runs on is the passable fibre between
    the ONT, the passive devices and the OLTs. *)

From S2P Require Import Prelude PyFloat Models LinkRules Worklist LinkStatus Scenario.
From S2P Require Import NxGraph Pathfinding Dependency Provisioning.

(** * The search with paths *)

Section bfs.
Context (succ : string → list string) (dst : string).

Definition goal_at (x : string) : option unit := if String.eqb x dst then Some () else None.

Abbreviation plain := (search (append_one (A:=string)) (λ _, true) goal_at succ).

Lemma enter_visit path ns seen q :
  let r := foldl (enter path) (seen, q) ns in
  foldl (visit append_one (λ _, true)) (seen, q.*1) ns = (r.1, r.2.*1).
Proof.
  revert seen q. induction ns as [|n ns IH]; intros seen q; simpl; [done|]. case_decide; [apply IH|].
  rewrite <-IH. unfold append_one. by rewrite fmap_app.
Qed.

(** Without the paths it is the generic search. *)
Lemma bfs_plain fuel seen q :
  match bfs_path succ dst fuel seen q with
  | None => plain fuel seen q.*1 = None
  | Some None => ∃ V, plain fuel seen q.*1 = Some (inr V)
  | Some (Some p) => plain fuel seen q.*1 = Some (inl ())
  end.
Proof.
  revert seen q. induction fuel as [|fuel IH]; intros seen [|[n p] q]; csimpl; [by eexists|done|by eexists|].
  unfold goal_at at 1 3 5. destruct (String.eqb n dst); [done|].
  pose proof (enter_visit p (succ n) seen q) as E. simpl in E.
  destruct (foldl (enter p) (seen, q) (succ n)) as [seen' q']. csimpl in E. rewrite E. apply IH.
Qed.

Lemma enter_paths (P : string * list string → Prop) path ns seen q :
  Forall P q → (∀ x, x ∈ ns → P (x, path ++ [x])) → Forall P (foldl (enter path) (seen, q) ns).2.
Proof.
  revert seen q. induction ns as [|n ns IH]; intros seen q Hq Hn; simpl; [done|].
  case_decide; apply IH; try set_solver. apply Forall_app. split; [done|]. constructor; [|done]. apply Hn. set_solver.
Qed.

(** Only non-empty paths are returned. *)
Lemma bfs_path_nonempty fuel seen q p :
  Forall (λ e : string * list string, e.2 ≠ []) q → bfs_path succ dst fuel seen q = Some (Some p) → p ≠ [].
Proof.
  revert seen q. induction fuel as [|fuel IH]; intros seen [|[n r] q]; simpl; try done.
  intros Hq. apply Forall_cons in Hq as [Hr Hq]. destruct (String.eqb n dst); [intros [= ->]; done|].
  pose proof (enter_paths (λ e, e.2 ≠ []) r (succ n) seen q Hq) as Hp.
  destruct (foldl (enter r) (seen, q) (succ n)) as [seen' q']. apply IH, Hp.
  intros x _. simpl. by destruct r.
Qed.

Lemma bfs_path_spec (U : list string) src :
  (∀ x y, y ∈ succ x → y ∈ U) →
  ∃ r, bfs_path succ dst (S (length U)) {[src]} [(src, [src])] = Some r ∧
    (is_Some r ↔ rtc (λ x y, y ∈ succ x) src dst) ∧ ∀ p, r = Some p → p ≠ [].
Proof.
  intros HU. pose proof (bfs_plain (S (length U)) {[src]} [(src, [src])]) as Hb. simpl fmap in Hb.
  assert (Hperm : ∀ q x, append_one (A:=string) q x ≡ₚ x :: q) by apply append_one_perm.
  assert (is_Some (plain (S (length U)) {[src]} [src])) as [r Hr].
  { apply (search_total _ _ _ _ Hperm (list_to_set U)).
    - intros x y [Hy _]. apply elem_of_list_to_set. by eapply HU.
    - simpl. assert (size ((list_to_set U : gset string) ∖ {[src]}) ≤ length U); [|lia].
      etrans; [apply subseteq_size, subseteq_difference_l; reflexivity|].
      clear. induction U as [|u U IH]; simpl; [done|]. pose proof (size_union_alt {[u]} (list_to_set U : gset string)).
      rewrite size_singleton in H. assert (size ((list_to_set U : gset string) ∖ {[u]}) ≤ size (list_to_set U : gset string)) by (apply subseteq_size; set_solver). lia. }
  replace ({[src]} : gset string) with (list_to_set [src] : gset string) in Hr by set_solver.
  apply (search_reaches _ _ _ _ Hperm) in Hr as Hs.
  replace (list_to_set [src] : gset string) with ({[src]} : gset string) in Hr by set_solver.
  assert (∀ x, reaches (hop (λ _, true) succ) [src] x ↔ rtc (λ x y, y ∈ succ x) src x) as Hre.
  { intros x. unfold reaches. split.
    - intros (s & ->%list_elem_of_singleton & Hx). revert Hx. apply rtc_subrel. by intros a b [? _].
    - intros Hx. exists src. split; [set_solver|]. revert Hx. apply rtc_subrel. by intros a b ?. }
  assert (∀ p, bfs_path succ dst (S (length U)) {[src]} [(src, [src])] = Some (Some p) → p ≠ []) as Hne.
  { intros p. apply bfs_path_nonempty. by repeat constructor. }
  destruct (bfs_path _ _ _ _ _) as [[p|]|]; [| |congruence]; eexists; (split; [done|]); (split; [|intros q Hq; apply Hne; congruence]).
  - split; [intros _|by eexists]. rewrite Hb in Hr. injection Hr as <-. destruct Hs as (x & Hx & Hg).
    unfold goal_at in Hg. destruct (String.eqb_spec x dst) as [->|]; [|done]. by apply Hre.
  - destruct Hb as [V HV]. rewrite HV in Hr. injection Hr as <-. destruct Hs as [_ Hs].
    split; [by intros []|]. intros Hd%Hre. specialize (Hs _ Hd). unfold goal_at in Hs. by rewrite String.eqb_refl in Hs.
Qed.
End bfs.

(** * The optical graph *)

Section optical.
Context {G : Type} `{NxLaws G}.

Lemma add_devices_get_edge types ds (g : G) u v : get_edge (add_devices types ds g) u v = get_edge g u v.
Proof.
  unfold add_devices. revert g. induction ds as [|r ds IH]; intros g; simpl; [done|]. rewrite IH.
  case_match; [apply get_edge_add_node|done].
Qed.

Lemma node_type_add_devices types ds (g : G) n t :
  NoDup (rec_id <$> ds) → (∀ r, r ∈ ds → node_type g (rec_id r) = None) →
  node_type (add_devices types ds g) n = Some t ↔
    node_type g n = Some t ∨ ∃ r, r ∈ ds ∧ rec_id r = n ∧ rec_type r = t ∧ t ∈ types.
Proof.
  unfold add_devices. revert g. induction ds as [|r ds IH]; intros g; simpl; [set_solver|].
  intros [Hr Hnd]%NoDup_cons Hg.
  assert (∀ m, node_type (add_node (rec_id r) (rec_type r) g) m = if String.eqb m (rec_id r) then Some (rec_type r) else node_type g m) as Hadd.
  { intros m. unfold node_type. by rewrite nodes_add_node, dict_get_set. }
  destruct (mem (rec_type r) types) eqn:E; [apply mem_true in E|apply mem_false in E]; rewrite IH; try done.
  - rewrite Hadd. setoid_rewrite elem_of_cons. destruct (String.eqb_spec n (rec_id r)) as [->|Hne].
    + rewrite Hg by set_solver. split; [intros [?|?]; right; [exists r|]; naive_solver|].
      intros [?|(q & [->|Hq] & Hid & <- & Ht)]; [done|by left|]. destruct Hr. rewrite <-Hid. by apply list_elem_of_fmap_2.
    + split; [intros [?|?]; naive_solver|]. intros [?|(q & [->|Hq] & Hid & Ht)]; [by left|done|right; by exists q].
  - intros q Hq. rewrite Hadd. destruct (String.eqb_spec (rec_id q) (rec_id r)) as [He|]; [|apply Hg; set_solver].
    destruct Hr. rewrite <-He. by apply list_elem_of_fmap_2.
  - setoid_rewrite elem_of_cons. split; [intros [?|?]; naive_solver|].
    intros [?|(q & [->|Hq] & Hid & <- & Ht)]; [by left|done|right; by exists q].
  - intros q Hq. apply Hg. set_solver.
Qed.

(** When a link record becomes an edge. *)
Definition optical_edge (g : G) (l : LinkRecord) : bool :=
  has_node g (a_device_id l) && has_node g (b_device_id l) &&
  (mem (lrec_kind l) OPTICAL_EDGE_CLASSES ||
   (String.eqb (lrec_kind l) "FIBER" && (pair_olt_ont g l || pair_within g l OPTICAL_NODE_TYPES))).

Definition joins (l : LinkRecord) (x y : string) : Prop :=
  (a_device_id l = x ∧ b_device_id l = y) ∨ (a_device_id l = y ∧ b_device_id l = x).

Lemma add_optical_link_nodes (g : G) l : nodes (add_optical_link g l) = nodes g.
Proof.
  unfold add_optical_link, has_node. destruct (node_type g (a_device_id l)) eqn:Ea, (node_type g (b_device_id l)) eqn:Eb;
    simpl; repeat case_match; try done; apply nodes_add_edge; rewrite ?Ea, ?Eb; by eexists.
Qed.

Lemma add_optical_link_edge (g : G) l x y :
  connected (add_optical_link g l) x y ↔ connected g x y ∨ (optical_edge g l = true ∧ joins l x y).
Proof.
  assert (∀ a, connected (add_edge (a_device_id l) (b_device_id l) a g) x y ↔ connected g x y ∨ joins l x y) as Hadd.
  { intros a. unfold connected, joins. rewrite get_edge_add_edge. case_bool_decide as Hc.
    - split; [intros _; right; naive_solver|intros _; by eexists].
    - split; [by left|]. intros [?|?]; [done|]. destruct Hc. naive_solver. }
  unfold add_optical_link, optical_edge.
  destruct (has_node g (a_device_id l)), (has_node g (b_device_id l)); simpl; try naive_solver.
  destruct (mem (lrec_kind l) OPTICAL_EDGE_CLASSES); simpl; [rewrite Hadd; naive_solver|].
  destruct (String.eqb (lrec_kind l) "FIBER"); simpl; [|naive_solver].
  destruct (pair_olt_ont g l || pair_within g l OPTICAL_NODE_TYPES); [rewrite Hadd|]; naive_solver.
Qed.

Lemma same_nodes_edge (g h : G) l : nodes g = nodes h → optical_edge g l = optical_edge h l.
Proof. intros E. unfold optical_edge, pair_olt_ont, pair_within, has_node, node_type. by rewrite E. Qed.

Lemma fold_optical_links ls (g : G) :
  nodes (foldl add_optical_link g ls) = nodes g ∧
  ∀ x y, connected (foldl add_optical_link g ls) x y ↔
    connected g x y ∨ ∃ l, l ∈ ls ∧ optical_edge g l = true ∧ joins l x y.
Proof.
  revert g. induction ls as [|l ls IH]; intros g; simpl; [set_solver|].
  destruct (IH (add_optical_link g l)) as [Hn Hc]. rewrite Hn, add_optical_link_nodes. split; [done|].
  intros x y. rewrite Hc, add_optical_link_edge. setoid_rewrite elem_of_cons.
  setoid_rewrite (same_nodes_edge (add_optical_link g l) g); [|apply add_optical_link_nodes]. naive_solver.
Qed.

(** In terms of the tables: a device of the optical layer that is not forced down. *)
Definition optical_device (s : DB) (x : string) : Prop :=
  ∃ d, d ∈ devices s ∧ dev_id d = x ∧ is_forced DOWN (dev_override d) = false ∧
       (is_type d OLT || in_class d ONT_CLASS || in_class d PASSIVE_INLINE = true).

(** A passable fibre whose ends resolve to the two devices. *)
Definition fibre (s : DB) (x y : string) : Prop :=
  ∃ l, l ∈ links s ∧ admin_passable l = true ∧ kind l = FIBER ∧
    ((resolve_end s (a_interface_id l) = Some x ∧ resolve_end s (b_interface_id l) = Some y) ∨
     (resolve_end s (a_interface_id l) = Some y ∧ resolve_end s (b_interface_id l) = Some x)).

Lemma optical_types d :
  DeviceType_value (dev_type d) ∈ OPTICAL_NODE_TYPES ↔ is_type d OLT || in_class d ONT_CLASS || in_class d PASSIVE_INLINE = true.
Proof. unfold is_type, in_class. rewrite <-mem_true. destruct (dev_type d); vm_compute; naive_solver. Qed.

Lemma elem_dev_allowed s d : d ∈ dev_allowed s ↔ is_forced DOWN (dev_override d) = false ∧ d ∈ devices s.
Proof. unfold dev_allowed. by rewrite list_elem_of_filter. Qed.

Definition graph_of (s : DB) : G := build_optical_graph (read_devices_links s).1.1 (read_devices_links s).1.2.

Lemma allowed_ids_NoDup s : keys_ok s → NoDup (dev_id <$> dev_allowed s).
Proof. intros Hk. eapply sublist_NoDup; [apply Hk|]. apply fmap_sublist, sublist_filter. Qed.

Lemma optical_node_type s x t :
  keys_ok s →
  node_type (graph_of s) x = Some t ↔ ∃ d, d ∈ devices s ∧ dev_id d = x ∧ is_forced DOWN (dev_override d) = false ∧
    t = DeviceType_value (dev_type d) ∧ t ∈ OPTICAL_NODE_TYPES.
Proof.
  intros Hk. unfold graph_of, build_optical_graph, node_type. rewrite (proj1 (fold_optical_links _ _)).
  change (dict_get (nodes ?g) x) with (node_type g x). rewrite node_type_add_devices.
  - unfold node_type. rewrite nodes_empty. split.
    + intros [?|(r & Hr & <- & <- & Ht)]; [done|]. simpl in Hr. apply list_elem_of_fmap in Hr as (d & -> & [Hf Hd]%elem_dev_allowed).
      by exists d.
    + intros (d & Hd & <- & Hf & -> & Ht). right. exists (mkDeviceRecord (dev_id d) (DeviceType_value (dev_type d))). split; [|done]. simpl.
      apply list_elem_of_fmap. exists d. split; [done|]. by apply elem_dev_allowed.
  - simpl. rewrite <-list_fmap_compose. by apply allowed_ids_NoDup.
  - intros r _. unfold node_type. by rewrite nodes_empty.
Qed.

Lemma optical_node s x : keys_ok s → has_node (graph_of s) x = true ↔ optical_device s x.
Proof.
  intros Hk. unfold has_node. rewrite bool_decide_eq_true. split.
  - intros [t (d & Hd & <- & Hf & -> & Ht)%optical_node_type]; [|done]. exists d. by rewrite <-optical_types.
  - intros (d & Hd & <- & Hf & Ht). exists (DeviceType_value (dev_type d)). apply optical_node_type; [done|].
    exists d. by rewrite optical_types.
Qed.

Lemma optical_connected s x y :
  keys_ok s → connected (graph_of s) x y ↔ optical_device s x ∧ optical_device s y ∧ fibre s x y.
Proof.
  intros Hk. set (g0 := add_devices OPTICAL_NODE_TYPES (read_devices_links s).1.1 nx_empty : G).
  destruct (fold_optical_links (read_devices_links s).1.2 g0) as [Hn Hc].
  change (foldl add_optical_link g0 (read_devices_links s).1.2) with (graph_of s) in Hn, Hc.
  rewrite Hc. clear Hc. setoid_rewrite (λ l, same_nodes_edge g0 (graph_of s) l (eq_sym Hn)). subst g0.
  unfold connected at 1. rewrite add_devices_get_edge, get_edge_empty.
  assert (∀ l k, k ∈ links s → link_record s k = Some l → optical_edge (graph_of s) l = true ↔
    optical_device s (a_device_id l) ∧ optical_device s (b_device_id l) ∧ kind k = FIBER) as Hedge.
  { intros l k Hk' Hl. unfold optical_edge. rewrite !andb_true_iff, !optical_node by done.
    assert (lrec_kind l = LinkType_value (kind k)) as ->.
    { revert Hl. unfold link_record. repeat (case_match; try done). by intros [= <-]. }
    assert (has_node (graph_of s) (a_device_id l) = true → has_node (graph_of s) (b_device_id l) = true →
      pair_within (graph_of s) l OPTICAL_NODE_TYPES = true) as Hw.
    { unfold has_node, pair_within. rewrite !bool_decide_eq_true. intros [ta Ha] [tb Hb]. rewrite Ha, Hb.
      apply optical_node_type in Ha as (? & _ & _ & _ & _ & Ha), Hb as (? & _ & _ & _ & _ & Hb); try done.
      by rewrite !(proj2 (mem_true _ _)). }
    rewrite !optical_node in Hw by done. destruct (kind k); simpl; [|naive_solver..].
    split; [naive_solver|]. intros (Ha & Hb & _). by rewrite Hw, orb_true_r. }
  assert (∀ k l, link_record s k = Some l → admin_passable k = true ∧
    resolve_end s (a_interface_id k) = Some (a_device_id l) ∧ resolve_end s (b_interface_id k) = Some (b_device_id l)) as Hrec.
  { intros k l. unfold link_record. destruct (admin_passable k); [|done]. simpl. repeat (case_match; try done). by intros [= <-]. }
  split.
  - intros [[? ?]|(l & Hl & He & Hj)]; [done|]. simpl in Hl. apply list_elem_of_omap in Hl as (k & Hlk & Hl).
    apply (Hedge l k Hlk Hl) in He as (Ha & Hb & Hkind). destruct (Hrec _ _ Hl) as (Hp & Hra & Hrb).
    destruct Hj as [[<- <-]|[<- <-]]; (split; [done|]); (split; [done|]); exists k; naive_solver.
  - intros (Hx & Hy & k & Hlk & Hp & Hkind & Hends). right.
    assert (∀ z, optical_device s z → mem z (dev_id <$> dev_allowed s) = true) as Hall.
    { intros z (d & Hd & <- & Hf & _). apply mem_true, list_elem_of_fmap_2, elem_dev_allowed. done. }
    assert (∃ l, link_record s k = Some l ∧ joins l x y) as (l & Hl & Hj).
    { unfold link_record. rewrite Hp. simpl. destruct Hends as [[-> ->]|[-> ->]]; rewrite !Hall by done; simpl; (eexists; split; [done|]);
        [by left|by right]. }
    exists l. split; [apply list_elem_of_omap; by exists k|]. split; [|done].
    apply (Hedge l k Hlk Hl). destruct Hj as [[-> ->]|[-> ->]]; done.
Qed.
End optical.

(** * The access check *)

(** What a path may cross: the ONT itself, OLTs and passive devices, none of them forced down. *)
Definition access_node (s : DB) (src x : string) : Prop :=
  ∃ d, d ∈ devices s ∧ dev_id d = x ∧ is_forced DOWN (dev_override d) = false ∧
       ((x = src ∧ in_class d ONT_CLASS = true) ∨ dev_type d = OLT ∨ in_class d PASSIVE_INLINE = true).

Definition access_step (s : DB) (src x y : string) : Prop :=
  access_node s src x ∧ access_node s src y ∧ fibre s x y.

Section check.
Context {G : Type} `{NxLaws G} (s : DB) (Hk : keys_ok s).

Lemma same_device d e : d ∈ devices s → e ∈ devices s → dev_id d = dev_id e → d = e.
Proof. intros Hd He E. apply get_device_key in Hd, He; [|done..]. congruence. Qed.

Abbreviation allowed src := (rec_id <$> filter (λ r, allowed_node src r = true) (read_devices_links s).1.1).

Lemma elem_allowed src x :
  x ∈ allowed src ↔ ∃ d, d ∈ devices s ∧ dev_id d = x ∧ is_forced DOWN (dev_override d) = false ∧
    (x = src ∨ dev_type d = OLT ∨ in_class d PASSIVE_INLINE = true).
Proof.
  assert (∀ d, allowed_node src (mkDeviceRecord (dev_id d) (DeviceType_value (dev_type d))) = true ↔
    dev_id d = src ∨ dev_type d = OLT ∨ in_class d PASSIVE_INLINE = true) as Ht.
  { intros d. unfold allowed_node, in_class. cbn [rec_id rec_type].
    rewrite !orb_true_iff, String.eqb_eq. destruct (dev_type d); vm_compute; naive_solver. }
  rewrite list_elem_of_fmap. simpl. split.
  - intros (r & -> & [Hr (d & -> & [Hf Hd]%elem_dev_allowed)%list_elem_of_fmap]%list_elem_of_filter). apply Ht in Hr. by exists d.
  - intros (d & Hd & <- & Hf & Hx). exists (mkDeviceRecord (dev_id d) (DeviceType_value (dev_type d))). split; [done|].
    apply list_elem_of_filter. split; [by apply Ht|]. apply list_elem_of_fmap. exists d. split; [done|]. by apply elem_dev_allowed.
Qed.

(** The source of a search is an ONT. *)
Lemma access_node_allowed src d x :
  d ∈ devices s → dev_id d = src → in_class d ONT_CLASS = true →
  access_node s src x ↔ x ∈ allowed src ∧ optical_device s x.
Proof.
  intros Hd Hid Hont. rewrite elem_allowed. split.
  - intros (e & He & Hx & Hf & Ht). split; exists e; repeat (split; [done|]); [naive_solver|].
    unfold is_type. rewrite !orb_true_iff, bool_decide_eq_true. naive_solver.
  - intros [(e & He & Hx & Hf & Ht) _]. exists e. repeat (split; [done|]).
    destruct Ht as [->|Ht]; [|by right]. left. split; [done|]. by rewrite (same_device e d) by congruence.
Qed.

Lemma access_neighbors_step src d x y :
  d ∈ devices s → dev_id d = src → in_class d ONT_CLASS = true →
  y ∈ access_neighbors (graph_of (G:=G) s) (allowed src) x ↔ access_step s src x y.
Proof.
  intros Hd Hid Hont. unfold access_neighbors, access_step.
  rewrite !(access_node_allowed src d) by done.
  destruct (mem x (allowed src)) eqn:E; [apply mem_true in E|apply mem_false in E]; [|set_solver].
  rewrite elem_of_sorted_strs, list_elem_of_filter. unfold has_edge. rewrite bool_decide_eq_true.
  change (is_Some (get_edge (graph_of s) x y)) with (connected (graph_of (G:=G) s) x y).
  rewrite optical_connected by done. split; [naive_solver|].
  intros ((_ & Hx) & (Hy & Hoy) & Hfib). split; [done|]. apply (dict_get_key y).
  apply (optical_node (G:=G)) in Hoy; [|done]. unfold has_node in Hoy. by rewrite bool_decide_eq_true in Hoy.
Qed.

Lemma access_path_spec src d dst :
  d ∈ devices s → dev_id d = src → in_class d ONT_CLASS = true → src ≠ dst →
  ∃ r, access_path (graph_of (G:=G) s) (allowed src) src dst = Some r ∧
    ((∃ p ps, r = Some (p :: ps)) ↔ rtc (access_step s src) src dst).
Proof.
  intros Hd Hid Hont Hne. unfold access_path.
  assert (∀ k, has_node (graph_of (G:=G) s) k && mem k (allowed src) = true ↔ access_node s src k) as Hp.
  { intros k. rewrite andb_true_iff, mem_true, optical_node, (access_node_allowed src d) by done. tauto. }
  destruct (has_node (graph_of (G:=G) s) src && mem src (allowed src)) eqn:Es;
    [|eexists; split; [done|]; split; [by intros (? & ? & ?)|];
      intros (y & [Hs _] & _)%rtc_inv_r || (intros Hr; apply rtc_inv in Hr as [|(y & [Hs _] & _)]; [done|]; apply Hp in Hs; congruence)].
  destruct (has_node (graph_of (G:=G) s) dst && mem dst (allowed src)) eqn:Ed.
  2: { eexists. split; [done|]. split; [by intros (? & ? & ?)|]. intros Hr. apply rtc_inv_r in Hr as [|(y & _ & (_ & Hs & _))]; [done|].
       apply Hp in Hs. congruence. }
  cbn [negb orb].
  destruct (bfs_path_spec (access_neighbors (graph_of (G:=G) s) (allowed src)) dst ((nodes (graph_of (G:=G) s)).*1) src)
    as (r & Hr & Hiff & Hnil).
  { intros x y. unfold access_neighbors. case_match; [|set_solver]. rewrite elem_of_sorted_strs, list_elem_of_filter. tauto. }
  rewrite length_fmap in Hr. exists r. split; [done|].
  assert (rtc (access_step s src) src dst ↔ rtc (λ x y, y ∈ access_neighbors (graph_of (G:=G) s) (allowed src) x) src dst) as ->.
  { split; apply rtc_subrel; intros a b; by rewrite access_neighbors_step. }
  rewrite <-Hiff. split; [intros (p & ps & ->); by eexists|]. intros [[|p ps] ->]; [by destruct (Hnil [] eq_refl)|by eexists _, _].
Qed.

(** A record of a provisioned OLT that is reached. *)
Definition usable_olt (src : string) (r : DeviceRecord) : Prop :=
  rec_type r = "OLT" ∧ provisioned_upstream_available (get_device s (rec_id r)) = true ∧
  rtc (access_step s src) src (rec_id r).

Lemma exists_cons {A} (P : A → Prop) x l : (∃ y, y ∈ x :: l ∧ P y) ↔ P x ∨ ∃ y, y ∈ l ∧ P y.
Proof. setoid_rewrite elem_of_cons. naive_solver. Qed.

Lemma olt_candidates_spec src d recs :
  d ∈ devices s → dev_id d = src → in_class d ONT_CLASS = true → (∀ r, r ∈ recs → rec_type r = "OLT" → rec_id r ≠ src) →
  ∃ cs, olt_candidates s (graph_of (G:=G) s) (allowed src) src recs = Some cs ∧
    (cs ≠ [] ↔ ∃ r, r ∈ recs ∧ usable_olt src r).
Proof.
  intros Hd Hid Hont.
  set (Q := usable_olt src).
  induction recs as [|r recs IH]; intros Hne; cbn [olt_candidates]; [exists []; set_solver|].
  destruct IH as (cs & Hcs & Hiff); [set_solver|]. setoid_rewrite (exists_cons Q r recs).
  assert (¬ Q r → ∃ cs, olt_candidates s (graph_of (G:=G) s) (allowed src) src recs = Some cs ∧ (cs ≠ [] ↔ Q r ∨ ∃ q, q ∈ recs ∧ Q q)) as Hskip.
  { intros Hq. exists cs. split; [done|]. rewrite Hiff. tauto. }
  destruct (String.eqb_spec (rec_type r) "OLT") as [Ht|Ht]; cbn [negb orb]; [|apply Hskip; by intros [? _]].
  destruct (provisioned_upstream_available (get_device s (rec_id r))) eqn:Ea; cbn [negb orb]; [|apply Hskip; intros (_ & ? & _); congruence].
  destruct (access_path_spec src d (rec_id r) Hd Hid Hont) as (p & Hp & Hpi); [intros E; symmetry in E; revert E; apply Hne; set_solver|].
  assert (Q r ↔ ∃ x ps, p = Some (x :: ps)) as HQ by (unfold Q, usable_olt; split; [by intros (_ & _ & Hr); apply Hpi|by intros Hr; apply Hpi in Hr]).
  rewrite Hp, Hcs. cbn [mbind option_bind]. eexists. split; [done|]. rewrite HQ. destruct p as [[|x p]|]; rewrite ?Hiff.
  - split; [by right|]. intros [(? & ? & ?)|?]; done.
  - split; [intros _; left; by eexists _, _|done].
  - split; [by right|]. intros [(? & ? & ?)|?]; done.
Qed.
End check.

(** The check ends on every input. *)
Section total.
Context {G : Type} `{NxGraph G}.

Lemma access_path_total (g : G) allowed src dst : is_Some (access_path g allowed src dst).
Proof.
  unfold access_path. case_match; [done|].
  destruct (bfs_path_spec (access_neighbors g allowed) dst ((nodes g).*1) src) as (r & Hr & _).
  { intros x y. unfold access_neighbors. case_match; [|set_solver]. rewrite elem_of_sorted_strs, list_elem_of_filter. tauto. }
  rewrite length_fmap in Hr. by exists r.
Qed.

Lemma olt_candidates_total s (g : G) allowed src recs : is_Some (olt_candidates s g allowed src recs).
Proof.
  induction recs as [|r recs [cs IH]]; cbn [olt_candidates]; [done|]. case_match; [by exists cs|].
  destruct (access_path_total g allowed src (rec_id r)) as [p ->]. rewrite IH. by eexists.
Qed.

Lemma olt_path_total use_cache s d (st : DepState G) : is_Some (has_valid_provisioned_olt_path use_cache s d st).
Proof.
  unfold has_valid_provisioned_olt_path. case_match; [done|]. destruct (collect_current use_cache s st) as [inp st1].
  cbv zeta. case_match; [done|]. match goal with |- context [olt_candidates s ?g ?a ?k ?r] => destruct (olt_candidates_total s g a k r) as [cs ->] end.
  by eexists.
Qed.

Lemma dependency_ok_total use_cache s d (st : DepState G) : is_Some (dependency_ok use_cache s d st).
Proof.
  unfold dependency_ok. case_match; [done|]. case_match; [apply olt_path_total|]. case_match; [done|].
  destruct (has_upstream_l3_or_anchor use_cache s d st). by repeat case_match.
Qed.
End total.

(** The access check of an ONT always ends, and it accepts exactly when the
    device is an ONT that is not forced down and some provisioned OLT, not forced
    down itself, is reached from it along passable fibre links through passive
    devices and OLTs that are not forced down.  The session's cached snapshot is
    never used. *)
Lemma olt_path_check_spec {G} `{NxLaws G} (use_cache : bool) s d (st : DepState G) :
  keys_ok s → d ∈ devices s →
  ∃ b st', has_valid_provisioned_olt_path use_cache s d st = Some (b, st') ∧
    (b = true ↔ in_class d ONT_CLASS = true ∧
       ∃ olt, olt ∈ devices s ∧ dev_type olt = OLT ∧ provisioned olt = true ∧
         is_forced DOWN (dev_override olt) = false ∧ rtc (access_step s (dev_id d)) (dev_id d) (dev_id olt)).
Proof.
  intros Hk Hd. unfold has_valid_provisioned_olt_path.
  destruct (in_class d ONT_CLASS) eqn:Hont; simpl; [|eexists _, _; split; [done|]; split; [done|naive_solver]].
  assert (∃ st1, collect_current use_cache s st = (read_devices_links s, st1)) as [st1 ->].
  { unfold collect_current, collect_devices_links. destruct use_cache; by eexists. }
  cbn [fst snd]. fold (graph_of (G:=G) s).
  assert (∀ olt, dev_type olt = OLT → dev_id d = dev_id olt → olt ∈ devices s → False) as Hnot.
  { intros olt Ht E Ho. rewrite (same_device s Hk d olt) in Hont by done. unfold in_class in Hont. by rewrite Ht in Hont. }
  destruct (has_node (graph_of (G:=G) s) (dev_id d)) eqn:En; cbn [negb].
  - destruct (olt_candidates_spec (G:=G) s Hk (dev_id d) d (read_devices_links s).1.1 Hd eq_refl Hont) as (cs & -> & Hcs).
    { simpl. intros r (o & -> & [_ Ho]%elem_dev_allowed)%list_elem_of_fmap Ht E. simpl in *. apply (Hnot o); [|done..].
      by apply (inj DeviceType_value). }
    cbn [mbind option_bind]. eexists _, _. split; [done|].
    rewrite negb_true_iff, bool_decide_eq_false. transitivity (cs ≠ []); [destruct cs; naive_solver|]. rewrite Hcs. simpl. split.
    + intros (r & (o & -> & [Hf Ho]%elem_dev_allowed)%list_elem_of_fmap & Ht & Ha & Hr). simpl in *. split; [done|].
      rewrite get_device_key in Ha by done. simpl in Ha. apply andb_true_iff in Ha as [Hp _].
      exists o. repeat (split; [done || by apply (inj DeviceType_value)|]). done.
    + intros (_ & o & Ho & Ht & Hp & Hf & Hr). exists (mkDeviceRecord (dev_id o) (DeviceType_value (dev_type o))).
      split; [apply list_elem_of_fmap; exists o; split; [done|by apply elem_dev_allowed]|].
      unfold usable_olt. cbn [rec_id rec_type]. rewrite Ht, get_device_key by done. simpl. by rewrite Hp, Hf.
  - eexists _, _. split; [done|]. split; [done|]. intros (_ & o & Ho & Ht & _ & _ & Hr). exfalso.
    apply rtc_inv in Hr as [E|(y & [Hn _] & _)]; [by apply (Hnot o)|].
    apply (access_node_allowed s Hk (dev_id d) d) in Hn as [_ Hn]; [|done..].
    apply (optical_node (G:=G)) in Hn; [congruence|done].
Qed.

Lemma olt_path_check_spec_witness :
  (has_valid_provisioned_olt_path true demo (demo_device "ont") (new_state (G := AssocGraph)) ≫= λ r, Some r.1) = Some true ∧
  rtc (access_step demo "ont") "ont" "olt".
Proof.
  destruct (olt_path_check_spec (G := AssocGraph) true demo (demo_device "ont") new_state demo_keys) as (b & st & E & Hb);
    [apply demo_device_row; vm_compute; by eexists|].
  assert (has_valid_provisioned_olt_path true demo (demo_device "ont") (new_state (G := AssocGraph)) ≫= (λ r, Some r.1) = Some true) as Hr
    by (vm_compute; reflexivity).
  split; [exact Hr|]. rewrite E in Hr. injection Hr as ->. destruct Hb as [Hb _]. destruct (Hb eq_refl) as (_ & o & Ho & Ht & _ & _ & Hp).
  assert (dev_id o = "olt") as <-; [|exact Hp].
  revert Ho Ht. clear. unfold demo, demo_devices. cbn [devices]. intros Ho.
  repeat (apply elem_of_cons in Ho as [->|Ho]; [try (intros Ht; discriminate Ht); reflexivity|]). by apply elem_of_nil in Ho.
Defined.
