(* ===== verification/OpticalPath.v ===== *)
(** Optical paths: [services/optical_path_resolver.py] and
    [constants/optical.py].

    [resolve_optical_path] finds, for an ONT, the path of least attenuation to
    an OLT in the optical graph of the pathfinding store.  The search itself is
    [networkx.single_source_dijkstra], a parameter with its documented laws
    ([Dijkstra], [DijkstraLaws]); [AssocGraph] gets an executable instance.
    The memo table of [lru_cache] is part of the state. *)

From S2P Require Import Prelude PyFloat Models NxGraph Pathfinding Dependency.

(** * constants/optical.py *)

Record FiberSpec := mkFiber {
  fiber_key : string; mode : string; standard : string; attenuation_db_per_km : float
}.

Definition FIBERS : list FiberSpec := [
  mkFiber "SMF_G652D" "SMF" "G.652D" (dec 35 100);
  mkFiber "SMF_G657A1" "SMF" "G.657A1" (dec 35 100);
  mkFiber "SMF_G657A2" "SMF" "G.657A2" (dec 35 100);
  mkFiber "MMF_OM3" "MMF" "OM3" (dec 35 10);
  mkFiber "MMF_OM4" "MMF" "OM4" (of_Z 3)].

(** [FIBER_TYPES.get(code)]; the keys are distinct. *)
Definition FIBER_TYPES (code : string) : option FiberSpec :=
  find_row (λ f, String.eqb (fiber_key f) code) FIBERS.

(** * Reading the tables *)

(** [_build_records]: every device and every link whose ends resolve, whatever
    their overrides. *)
Definition optical_record (s : DB) (l : Link) : option LinkRecord :=
  match resolve_end s (a_interface_id l), resolve_end s (b_interface_id l) with
  | Some a, Some b => Some (mkLinkRecord (link_id l) a b (LinkType_value (kind l)) None)
  | _, _ => None
  end.

Definition build_records (s : DB) : list DeviceRecord * list LinkRecord :=
  ((λ d, mkDeviceRecord (dev_id d) (DeviceType_value (dev_type d))) <$> devices s,
   omap (optical_record s) (links s)).

Definition PASSIVE_NODE_TYPES : list string := ["SPLITTER"; "HOP"; "NVT"; "ODF"].

(** * networkx.single_source_dijkstra *)

(** The cost of a path is accumulated from the source. *)
Fixpoint cost_from (w : string → string → float) (acc : float) (p : list string) : float :=
  match p with
  | u :: ((v :: _) as rest) => cost_from w (fadd acc (w u v)) rest
  | _ => acc
  end.

Definition path_cost (w : string → string → float) (p : list string) : float := cost_from w fzero p.

(** The two dictionaries it returns, zipped: distance and path per node. *)
Class Dijkstra (G : Type) := {
  single_source_dijkstra : G → string → (string → string → float) → list (string * (float * list string))
}.

(** Weights networkx accepts: no edge has a negative or undefined weight. *)
Definition weights_ok {G} `{NxGraph G} (g : G) (w : string → string → float) : Prop :=
  ∀ u v, connected g u v → nonneg (w u v) = true.

Class DijkstraLaws (G : Type) `{NxGraph G} `{Dijkstra G} : Prop := {
  dijkstra_keys (g : G) src w : NoDup (fst <$> single_source_dijkstra g src w);
  dijkstra_reaches (g : G) src w n :
    has_node g src = true → weights_ok g w →
    n ∈ fst <$> single_source_dijkstra g src w ↔ ∃ p, walk g src n p;
  dijkstra_entry (g : G) src w n d p :
    has_node g src = true → weights_ok g w → (n, (d, p)) ∈ single_source_dijkstra g src w →
    walk g src n p ∧ NoDup p ∧ d = path_cost w p;
  dijkstra_least (g : G) src w n d p q :
    has_node g src = true → weights_ok g w → (n, (d, p)) ∈ single_source_dijkstra g src w →
    walk g src n q → NoDup q → fleb d (path_cost w q) = true
}.

(** * The resolver *)

Record PathSegment := mkSegment {
  seg_src : string; seg_dst : string; seg_link_id : option string; seg_attenuation_db : float
}.

Record OpticalPathResult := mkOpticalPath {
  path_olt_id : string; total_attenuation_db : float; segments : list PathSegment
}.

Section resolver.
Context {G : Type} `{NxGraph G} `{Dijkstra G}.
Context (s : DB) (g : G).

(** [(g.get_edge_data(u, v) or {}).get("id")] *)
Definition edge_link_id (u v : string) : option string := edge_id <$> get_edge g u v.

Definition edge_link (u v : string) : option Link := truthy (edge_link_id u v) ≫= get_link s.

Definition edge_loss_db (u v : string) : float :=
  default fzero (
    l ← edge_link u v;
    km ← length_km l;
    pm ← physical_medium_id l ≫= get_medium s;
    f ← FIBER_TYPES (pm_code pm);
    Some (fmul km (attenuation_db_per_km f))).

Fixpoint edge_losses (acc : float) (path : list string) : float :=
  match path with
  | u :: ((v :: _) as rest) => edge_losses (fadd acc (edge_loss_db u v)) rest
  | _ => acc
  end.

(** [if d and d.insertion_loss_db: total += ...] for the interior nodes. *)
Definition path_total_loss (path : list string) : float :=
  let total := edge_losses fzero path in
  let interior := removelast (tail path) in
  if (3 <=? length path)%nat then
    foldl (λ total k,
      match get_device s k ≫= insertion_loss_db with
      | Some x => if feqb x fzero then total else fadd total x
      | None => total
      end) total interior
  else total.

Fixpoint lengths_from (acc : float) (path : list string) : float :=
  match path with
  | u :: ((v :: _) as rest) =>
      lengths_from (match edge_link u v ≫= length_km with Some km => fadd acc km | None => acc end) rest
  | _ => acc
  end.

Definition path_total_length_km (path : list string) : float := lengths_from fzero path.

Fixpoint path_segments (path : list string) : list PathSegment :=
  match path with
  | u :: ((v :: _) as rest) => mkSegment u v (edge_link_id u v) (edge_loss_db u v) :: path_segments rest
  | _ => []
  end.

Definition is_olt (node_id : string) : bool := bool_decide (node_type g node_id = Some "OLT").

(** The weight of entering [v] from [u]. *)
Definition weight_fn (u v : string) : float :=
  let w := edge_loss_db u v in
  if match node_type g v with Some t => mem t PASSIVE_NODE_TYPES | None => false end then
    match get_device s v ≫= insertion_loss_db with
    | Some x => fadd w x
    | None => w
    end
  else w.

Record Candidate := mkCandidate {
  cand_dist : float; cand_km : float; cand_hops : nat; cand_node : string;
  cand_signature : string; cand_path : list string
}.

Definition candidate_of (e : string * (float * list string)) : option Candidate :=
  let '(node, (dist, path)) := e in
  if negb (is_olt node) then None
  else if bool_decide (path = []) then None
  else Some (mkCandidate dist (path_total_length_km path) (length path - 1) node
               (String.concat "," path) path).

(** The tuples compared by the sort key; Python tests items with [==] first. *)
Definition candidate_ltb (x y : Candidate) : bool :=
  if negb (feqb (cand_dist x) (cand_dist y)) then fltb (cand_dist x) (cand_dist y)
  else if negb (feqb (cand_km x) (cand_km y)) then fltb (cand_km x) (cand_km y)
  else if negb (cand_hops x =? cand_hops y)%nat then (cand_hops x <? cand_hops y)%nat
  else if negb (String.eqb (cand_node x) (cand_node y)) then str_ltb (cand_node x) (cand_node y)
  else str_ltb (cand_signature x) (cand_signature y).

Definition optical_candidate_leb (x y : Candidate) : bool := negb (candidate_ltb y x).

(** The body of [resolve_optical_path] on a given graph. *)
Definition resolve_on (ont_id : string) : option OpticalPathResult :=
  if negb (has_node g ont_id) then None
  else
    let candidates := omap candidate_of (single_source_dijkstra g ont_id weight_fn) in
    match sort_by optical_candidate_leb candidates with
    | [] => None
    | best :: _ => Some (mkOpticalPath (cand_node best) (cand_dist best) (path_segments (cand_path best)))
    end.
End resolver.

(** ** The memo table of [lru_cache], most recent entry first *)

Abbreviation PathMemo := (list (string * option OpticalPathResult)).

Definition MEMO_SIZE : nat := Z.to_nat 10000.

Section memo.
Context {G : Type} `{NxGraph G} `{Dijkstra G}.

(** The pathfinding store with the memo table. *)
Record OpticalState := mkOpticalState { opt_store : PathfindingStore (G := G); memo : PathMemo }.

Definition resolve_optical_path (s : DB) (ont_id : string) (st : OpticalState)
    : option OpticalPathResult * OpticalState :=
  match dict_get (memo st) ont_id with
  | Some r =>
      (r, mkOpticalState (opt_store st)
            ((ont_id, r) :: filter (λ e, e.1 ≠ ont_id) (memo st)))
  | None =>
      let '(ds, ls) := build_records s in
      let '((_, g), st') := get_optical_graph (opt_store st) ds ls in
      let r := resolve_on s g ont_id in
      (r, mkOpticalState st' (take MEMO_SIZE ((ont_id, r) :: memo st)))
  end.

(** [bump_version], with [resolve_optical_path.cache_clear()]. *)
Definition bump_version_optical (st : OpticalState) : Z * OpticalState :=
  let '(v, store) := bump_version (opt_store st) in (v, mkOpticalState store []).

(** What the resolver answers without its caches. *)
Definition resolve_fresh (s : DB) (ont_id : string) : option OpticalPathResult :=
  let '(ds, ls) := build_records s in
  resolve_on s (build_optical_graph ds ls : G) ont_id.
End memo.
