(* ===== verification/OpticalPathProofs.v ===== *)
(** Correctness of the optical path resolver.

    The resolver returns an attenuation-minimal path among all simple light
    paths from the ONT to an OLT, with the segments of that path, and [None]
    exactly when no OLT is reachable along fibre; its memo table never changes
    an answer as long as every change of the tables bumps the version. *)

From S2P Require Import Prelude PyFloat Models LinkRules LinkStatus Scenario Dependency NxGraph Pathfinding.
From S2P Require Import OltPathProofs OpticalPath.

(** * An executable instance of the search *)

Module AssocDijkstra.
Fixpoint simple_paths (es : list (string * string * EdgeAttrs)) (fuel : nat) (visited : list string) (u : string)
    : list (list string) :=
  [u] :: match fuel with
         | O => []
         | S fuel' =>
             v ← filter (λ v, v ∉ u :: visited) (Assoc.adjacent es u);
             cons u <$> simple_paths es fuel' (u :: visited) v
         end.

(** [fleb], with NaN below every value: a total preorder. *)
Definition cost_leb (x y : float) : bool := is_nan x || (negb (is_nan y) && fleb x y).

Definition best_path (w : string → string → float) (paths : list (list string)) (n : string) : option (list string) :=
  head (sort_by (λ p q, cost_leb (path_cost w p) (path_cost w q)) (filter (λ p, last p = Some n) paths)).

Definition search (g : AssocGraph) (src : string) (w : string → string → float)
    : list (string * (float * list string)) :=
  let paths := simple_paths (ag_edges g) (length (Assoc.endpoints (ag_edges g))) [] src in
  omap (λ n, p ← best_path w paths n; Some (n, (path_cost w p, p))) (remove_dups (omap last paths)).
End AssocDijkstra.

#[export] Instance AssocGraph_dijkstra : Dijkstra AssocGraph := {
  single_source_dijkstra := AssocDijkstra.search
}.

Section instance.
Context (g : AssocGraph).

Lemma simple_paths_sound fuel visited u p :
  p ∈ AssocDijkstra.simple_paths (ag_edges g) fuel visited u → u ∉ visited →
  NoDup p ∧ (∀ x, x ∈ p → x ∉ visited) ∧ ∃ v, walk g u v p.
Proof.
  revert visited u p. induction fuel as [|fuel IH]; intros visited u p; cbn [AssocDijkstra.simple_paths].
  { intros ->%list_elem_of_singleton Hu. split; [apply NoDup_singleton|]. split; [set_solver|]. exists u. constructor. }
  intros [->|Hp]%elem_of_cons Hu.
  { split; [apply NoDup_singleton|]. split; [set_solver|]. exists u. constructor. }
  apply list_elem_of_bind in Hp as (v & Hp & [Hv Ha]%list_elem_of_filter).
  apply list_elem_of_fmap in Hp as (q & -> & Hq). destruct (IH _ _ _ Hq Hv) as (Hn & Hd & z & Hw).
  split; [constructor; [|done]; intros Hin; apply (Hd u Hin); set_solver|].
  split; [intros x [->|Hx]%elem_of_cons; [done|]; specialize (Hd x Hx); set_solver|].
  exists z. eapply walk_cons; [|done]. by apply adjacent_spec.
Qed.

Lemma simple_paths_complete fuel visited u v p :
  walk g u v p → NoDup p → (∀ x, x ∈ p → x ∉ visited) → length p ≤ S fuel →
  p ∈ AssocDijkstra.simple_paths (ag_edges g) fuel visited u.
Proof.
  revert visited u p. induction fuel as [|fuel IH]; intros visited u p Hw Hn Hd Hl;
    destruct Hw as [u|u x v p Hc Hw]; cbn [AssocDijkstra.simple_paths].
  - set_solver.
  - destruct Hw; simpl in Hl; lia.
  - set_solver.
  - apply elem_of_cons. right. apply NoDup_cons in Hn as [Hu Hn].
    assert (x ∈ p) as Hx by (destruct Hw; set_solver).
    apply list_elem_of_bind. exists x. split.
    + apply list_elem_of_fmap_2. apply IH; [done|done| |simpl in Hl; lia].
      intros y Hy [->|Hv]%elem_of_cons; [done|]. apply (Hd y); set_solver.
    + apply list_elem_of_filter. split; [|by apply adjacent_spec].
      intros [->|Hv]%elem_of_cons; [done|]. apply (Hd x); set_solver.
Qed.

Lemma simple_paths_spec src n p :
  (p ∈ AssocDijkstra.simple_paths (ag_edges g) (length (Assoc.endpoints (ag_edges g))) [] src ∧ last p = Some n) ↔
  walk g src n p ∧ NoDup p.
Proof.
  split.
  - intros [Hp Hl]. destruct (simple_paths_sound _ _ _ _ Hp) as (Hn & _ & v & Hw); [set_solver|].
    pose proof (walk_last _ _ _ _ Hw). naive_solver.
  - intros [Hw Hn]. split; [|by eapply walk_last].
    eapply simple_paths_complete; [done|done|set_solver|].
    assert (length (tail p) ≤ length (Assoc.endpoints (ag_edges g))); [|by destruct p; simpl in *; lia].
    apply submseteq_length, NoDup_submseteq; [destruct p; [constructor|by apply NoDup_cons in Hn as [_ ?]]|].
    intros x Hx. by eapply (walk_tail_endpoints g src n p x).
Qed.

Lemma cost_leb_total x y : AssocDijkstra.cost_leb x y = true ∨ AssocDijkstra.cost_leb y x = true.
Proof.
  unfold AssocDijkstra.cost_leb. destruct (is_nan x) eqn:Ex; [by left|]. destruct (is_nan y) eqn:Ey; [by right|].
  by apply fleb_total.
Qed.

Lemma cost_leb_trans x y z :
  AssocDijkstra.cost_leb x y = true → AssocDijkstra.cost_leb y z = true → AssocDijkstra.cost_leb x z = true.
Proof.
  unfold AssocDijkstra.cost_leb. destruct (is_nan x); [done|]. destruct (is_nan y); [done|]. destruct (is_nan z); [done|].
  simpl. apply fleb_trans.
Qed.

Lemma best_path_spec w paths n p :
  AssocDijkstra.best_path w paths n = Some p →
  (p ∈ paths ∧ last p = Some n) ∧
  ∀ q, q ∈ paths → last q = Some n → AssocDijkstra.cost_leb (path_cost w p) (path_cost w q) = true.
Proof.
  unfold AssocDijkstra.best_path. destruct (sort_by _ _) as [|x r] eqn:E; [done|]. intros [= ->]. split.
  - assert (p ∈ filter (λ p, last p = Some n) paths) as [? ?]%list_elem_of_filter; [|done].
    rewrite <-(elem_of_sort_by (λ p q, AssocDijkstra.cost_leb (path_cost w p) (path_cost w q))), E. set_solver.
  - intros q Hq Hl. eapply (sort_by_head_min (λ p q, AssocDijkstra.cost_leb (path_cost w p) (path_cost w q)));
      [intros; apply cost_leb_total|intros ???; apply cost_leb_trans|exact E|]. by apply list_elem_of_filter.
Qed.

Lemma best_path_exists w paths n p : p ∈ paths → last p = Some n → is_Some (AssocDijkstra.best_path w paths n).
Proof.
  intros Hp Hl. unfold AssocDijkstra.best_path. destruct (sort_by _ _) as [|x r] eqn:E; [|by eexists].
  apply sort_by_nil in E. assert (p ∈ filter (λ p, last p = Some n) paths) as H by by apply list_elem_of_filter.
  rewrite E in H. set_solver.
Qed.

Lemma search_entry src w n d p :
  (n, (d, p)) ∈ AssocDijkstra.search g src w →
  walk g src n p ∧ NoDup p ∧ d = path_cost w p ∧
  ∀ q, walk g src n q → NoDup q → AssocDijkstra.cost_leb d (path_cost w q) = true.
Proof.
  intros (m & Hm & Hp)%list_elem_of_omap. apply bind_Some in Hp as (q & [Hq Hmin]%best_path_spec & [= -> <- ->]).
  apply simple_paths_spec in Hq as [Hw Hn]. do 3 (split; [done|]). intros q' Hw' Hn'.
  apply Hmin; by apply (simple_paths_spec src n).
Qed.
End instance.

Lemma cost_from_nonneg {G} `{NxGraph G} (g : G) w u v p acc :
  weights_ok g w → walk g u v p → nonneg acc = true → nonneg (cost_from w acc p) = true.
Proof.
  intros Hok Hw. revert acc. induction Hw as [|u x v p Hc Hw IH]; intros acc Ha; [done|].
  destruct p as [|y p]; [by inversion Hw|]. assert (x = y) as <- by by inversion Hw.
  cbn [cost_from]. apply IH. auto with unoc.
Qed.

#[export] Instance AssocGraph_dijkstra_laws : DijkstraLaws AssocGraph.
Proof.
  constructor.
  - intros g src w. unfold single_source_dijkstra, AssocGraph_dijkstra, AssocDijkstra.search.
    set (f := λ n, p ← AssocDijkstra.best_path w _ n; Some (n, (path_cost w p, p))).
    assert (∀ l, sublist (fst <$> omap f l) l) as Hs.
    { induction l as [|n l IH]; csimpl; [constructor|]. unfold f at 1.
      destruct (AssocDijkstra.best_path w _ n); csimpl; by constructor. }
    eapply sublist_NoDup; [|apply Hs]. apply NoDup_remove_dups.
  - intros g src w n _ _. split.
    + intros ([m [d p]] & -> & Hin%search_entry)%list_elem_of_fmap. simpl. exists p. tauto.
    + intros [p0 Hp0]. destruct (walk_nodup g _ _ _ Hp0) as (p & Hp & Hn & _).
      apply list_elem_of_fmap.
      destruct (proj2 (simple_paths_spec g src n p) (conj Hp Hn)) as [Hin Hl].
      destruct (best_path_exists w _ n p Hin Hl) as [b Hb].
      exists (n, (path_cost w b, b)). split; [done|]. apply list_elem_of_omap. exists n.
      split; [|by rewrite Hb]. apply elem_of_remove_dups, list_elem_of_omap. by exists p.
  - intros g src w n d p _ _ H%search_entry. naive_solver.
  - intros g src w n d p q _ Hok (Hw & Hn & -> & Hmin)%search_entry Hwq Hnq. specialize (Hmin q Hwq Hnq).
    unfold AssocDijkstra.cost_leb in Hmin.
    rewrite (nonneg_not_nan (path_cost w p)) in Hmin by by eapply cost_from_nonneg.
    simpl in Hmin. by apply andb_true_iff in Hmin as [_ ?].
Qed.

(** * Lexicographic orders *)

Section lex.
Context {A : Type} (P : A → Prop).

(** A boolean total preorder on the elements that satisfy [P]. *)
Record preorder_on (le : A → A → bool) : Prop := {
  on_total x y : P x → P y → le x y = true ∨ le y x = true;
  on_trans x y z : P x → P y → P z → le x y = true → le y z = true → le x z = true
}.

Definition lex (le rest : A → A → bool) (x y : A) : bool :=
  if le x y && le y x then rest x y else le x y.

Lemma lex_preorder le rest : preorder_on le → preorder_on rest → preorder_on (lex le rest).
Proof.
  intros [T1 R1] [T2 R2]. split.
  - intros x y Px Py. unfold lex. specialize (T1 x y Px Py). specialize (T2 x y Px Py).
    destruct (le x y), (le y x); naive_solver.
  - intros x y z Px Py Pz. unfold lex.
    pose proof (R1 x y z Px Py Pz). pose proof (R1 y z x Py Pz Px). pose proof (R1 z x y Pz Px Py).
    pose proof (R2 x y z Px Py Pz). specialize (T1 x z Px Pz).
    destruct (le x y), (le y x), (le y z), (le z y), (le x z), (le z x); simpl; naive_solver.
Qed.
End lex.

Lemma float_preorder {A} (P : A → Prop) (f : A → float) :
  (∀ x, P x → is_nan (f x) = false) → preorder_on P (λ x y, fleb (f x) (f y)).
Proof. intros Hf. split; [intros; apply fleb_total; auto|intros x y z _ _ _; apply fleb_trans]. Qed.

Lemma str_preorder {A} (P : A → Prop) (f : A → string) : preorder_on P (λ x y, str_leb (f x) (f y)).
Proof. split; [intros; apply str_leb_total|intros ??? _ _ _; apply str_leb_trans]. Qed.

Lemma nat_preorder {A} (P : A → Prop) (f : A → nat) : preorder_on P (λ x y, (f x <=? f y)%nat).
Proof. split; intros *; rewrite !Nat.leb_le; lia. Qed.

Definition candidate_ok (c : Candidate) : Prop := is_nan (cand_dist c) = false ∧ is_nan (cand_km c) = false.

Definition candidate_lex : Candidate → Candidate → bool :=
  lex (λ x y, fleb (cand_dist x) (cand_dist y))
    (lex (λ x y, fleb (cand_km x) (cand_km y))
      (lex (λ x y, (cand_hops x <=? cand_hops y)%nat)
        (lex (λ x y, str_leb (cand_node x) (cand_node y)) (λ x y, str_leb (cand_signature x) (cand_signature y))))).

Lemma feqb_leb x y : feqb x y = fleb x y && fleb y x.
Proof.
  destruct (is_nan x) eqn:Ex; [by destruct x|]. destruct (is_nan y) eqn:Ey; [by destruct x, y|].
  destruct (fcompare_swap x y Ex Ey) as ([] & E1 & E2); unfold feqb, fleb, SpecFloat.SFeqb, SpecFloat.SFleb; by rewrite E1, E2.
Qed.

Lemma eqb_leb x y : String.eqb x y = str_leb x y && str_leb y x.
Proof.
  destruct (String.eqb_spec x y) as [->|Hne]; [by rewrite str_leb_refl|].
  destruct (str_leb x y) eqn:E1, (str_leb y x) eqn:E2; try done. destruct Hne. by apply str_leb_antisym.
Qed.

Lemma candidate_leb_lex x y : candidate_ok x → candidate_ok y → optical_candidate_leb x y = candidate_lex x y.
Proof.
  intros [Hx Kx] [Hy Ky]. unfold optical_candidate_leb, candidate_ltb, candidate_lex, lex.
  rewrite !feqb_leb, !(fltb_negb_fleb (cand_dist y)), !(fltb_negb_fleb (cand_km y)), eqb_leb, !str_ltb_leb by done.
  rewrite (andb_comm (fleb (cand_dist y) _)), (andb_comm (fleb (cand_km y) _)), (andb_comm (str_leb (cand_node y) _)).
  assert (negb (cand_hops y =? cand_hops x)%nat = negb ((cand_hops x <=? cand_hops y)%nat && (cand_hops y <=? cand_hops x)%nat)) as ->.
  { destruct (Nat.eqb_spec (cand_hops y) (cand_hops x)), (Nat.leb_spec (cand_hops x) (cand_hops y)),
      (Nat.leb_spec (cand_hops y) (cand_hops x)); simpl; lia || done. }
  assert ((cand_hops y <? cand_hops x)%nat = negb (cand_hops x <=? cand_hops y)%nat) as ->.
  { destruct (Nat.ltb_spec (cand_hops y) (cand_hops x)), (Nat.leb_spec (cand_hops x) (cand_hops y)); simpl; lia || done. }
  repeat (rewrite if_negb; case_match; rewrite ?negb_involutive; try done).
Qed.

Lemma candidate_preorder : preorder_on candidate_ok candidate_lex.
Proof.
  repeat apply lex_preorder; auto using str_preorder, nat_preorder; apply float_preorder; by intros ? [].
Qed.

Lemma candidate_order_preorder : preorder_on candidate_ok optical_candidate_leb.
Proof.
  destruct candidate_preorder as [T R]. split.
  - intros x y Px Py. rewrite !candidate_leb_lex by done. auto.
  - intros x y z Px Py Pz. rewrite !candidate_leb_lex by done. by apply R.
Qed.

(** * Losses *)

(** Lengths and insertion losses are never negative or NaN. *)
Record losses_ok (s : DB) : Prop := {
  lengths_nonneg l km : l ∈ links s → length_km l = Some km → nonneg km = true;
  insertion_nonneg d x : d ∈ devices s → insertion_loss_db d = Some x → nonneg x = true
}.

Lemma fiber_attenuation code f :
  FIBER_TYPES code = Some f → ∃ m e, attenuation_db_per_km f = SpecFloat.S754_finite false m e.
Proof.
  intros [Hf _]%find_row_Some. unfold FIBERS in Hf.
  repeat (apply elem_of_cons in Hf as [->|Hf]; [vm_compute; by do 2 eexists|]). by apply elem_of_nil in Hf.
Qed.

Section losses.
Context {G : Type} `{NxGraph G} (s : DB) (g : G) (Hs : losses_ok s).

Lemma edge_link_row u v l : edge_link s g u v = Some l → l ∈ links s.
Proof. unfold edge_link. intros (k & _ & Hk)%bind_Some. by apply get_link_Some in Hk as [? _]. Qed.

Lemma edge_loss_nonneg u v : nonneg (edge_loss_db s g u v) = true.
Proof using Hs.
  unfold edge_loss_db. destruct (edge_link s g u v) as [l|] eqn:El; [|done]. apply edge_link_row in El.
  simpl. destruct (length_km l) as [km|] eqn:Ek; [|done]. simpl.
  destruct (physical_medium_id l ≫= get_medium s) as [pm|]; [|done]. simpl.
  destruct (FIBER_TYPES (pm_code pm)) as [f|] eqn:Ef; [|done]. simpl.
  apply fiber_attenuation in Ef as (m & e & ->). apply fmul_nonneg_pos. by eapply lengths_nonneg.
Qed.

Lemma weight_fn_nonneg u v : nonneg (weight_fn s g u v) = true.
Proof using Hs.
  unfold weight_fn. pose proof (edge_loss_nonneg u v) as He.
  destruct (match node_type g v with Some t => _ | None => _ end); [|done].
  destruct (get_device s v) as [d|] eqn:Ed; [|done]. simpl.
  destruct (insertion_loss_db d) as [x|] eqn:Ex; [|done]. apply fadd_nonneg; [done|].
  eapply insertion_nonneg; [done| |done]. by apply get_device_Some in Ed as [? _].
Qed.

Lemma weights_fn_ok : weights_ok g (weight_fn s g).
Proof using Hs. intros u v _. apply weight_fn_nonneg. Qed.

Lemma path_cost_nonneg u v p : walk g u v p → nonneg (path_cost (weight_fn s g) p) = true.
Proof using Hs. intros Hw. eapply cost_from_nonneg; [apply weights_fn_ok|done|done]. Qed.

Lemma path_length_nonneg p : nonneg (path_total_length_km s g p) = true.
Proof using Hs.
  unfold path_total_length_km. assert (nonneg fzero = true) as Hz by done. revert Hz. generalize fzero.
  induction p as [|u [|v p] IH]; intros acc Ha; [done..|]. cbn [lengths_from]. apply IH.
  destruct (edge_link s g u v) as [l|] eqn:El; [|done]. simpl.
  destruct (length_km l) as [km|] eqn:Ek; [|done]. apply fadd_nonneg; [done|].
  eapply lengths_nonneg; [done|by eapply edge_link_row|done].
Qed.
End losses.

(** * The optical graph in terms of the tables *)

(** A device of the optical layer, whatever its overrides, with its type. *)
Definition optical_row (s : DB) (x t : string) : Prop :=
  ∃ d, d ∈ devices s ∧ dev_id d = x ∧ DeviceType_value (dev_type d) = t ∧ t ∈ OPTICAL_NODE_TYPES.

(** A fibre between two devices, whatever its overrides and status. *)
Definition glass (s : DB) (x y : string) : Prop :=
  ∃ l, l ∈ links s ∧ kind l = FIBER ∧
    ((resolve_end s (a_interface_id l) = Some x ∧ resolve_end s (b_interface_id l) = Some y) ∨
     (resolve_end s (a_interface_id l) = Some y ∧ resolve_end s (b_interface_id l) = Some x)).

(** A path of light. *)
Inductive light_path (s : DB) : string → string → list string → Prop :=
  | light_one u t : optical_row s u t → light_path s u u [u]
  | light_cons u t w v p :
      optical_row s u t → glass s u w → light_path s w v p → light_path s u v (u :: p).

Section graph.
Context {G : Type} `{NxLaws G} (s : DB) (Hk : keys_ok s).

Definition light_graph : G := build_optical_graph (build_records s).1 (build_records s).2.

Lemma light_node_type x t : node_type light_graph x = Some t ↔ optical_row s x t.
Proof using Hk H0.
  unfold light_graph, build_optical_graph, node_type. rewrite (proj1 (fold_optical_links _ _)).
  change (dict_get (nodes ?g) x) with (node_type g x). rewrite node_type_add_devices.
  - unfold node_type. rewrite nodes_empty. split.
    + intros [?|(r & Hr & <- & <- & Ht)]; [done|]. simpl in Hr. apply list_elem_of_fmap in Hr as (d & -> & Hd). by exists d.
    + intros (d & Hd & <- & <- & Ht). right. exists (mkDeviceRecord (dev_id d) (DeviceType_value (dev_type d))).
      split; [|done]. simpl. by apply list_elem_of_fmap_2 with (f := λ d, mkDeviceRecord (dev_id d) (DeviceType_value (dev_type d))).
  - simpl. rewrite <-list_fmap_compose. apply Hk.
  - intros r _. unfold node_type. by rewrite nodes_empty.
Qed.

Lemma light_node x : has_node light_graph x = true ↔ ∃ t, optical_row s x t.
Proof using Hk H0. unfold has_node. rewrite bool_decide_eq_true. unfold is_Some. by setoid_rewrite light_node_type. Qed.

Lemma light_connected x y :
  connected light_graph x y ↔ (∃ t, optical_row s x t) ∧ (∃ t, optical_row s y t) ∧ glass s x y.
Proof using Hk H0.
  set (g0 := add_devices OPTICAL_NODE_TYPES (build_records s).1 nx_empty : G).
  destruct (fold_optical_links (build_records s).2 g0) as [Hn Hc].
  change (foldl add_optical_link g0 (build_records s).2) with light_graph in Hn, Hc.
  rewrite Hc. clear Hc. setoid_rewrite (λ l, same_nodes_edge g0 light_graph l (eq_sym Hn)). subst g0.
  unfold connected at 1. rewrite add_devices_get_edge, get_edge_empty.
  assert (∀ l k, optical_record s k = Some l → optical_edge light_graph l = true ↔
    (∃ t, optical_row s (a_device_id l) t) ∧ (∃ t, optical_row s (b_device_id l) t) ∧ kind k = FIBER) as Hedge.
  { intros l k Hl. unfold optical_edge. rewrite !andb_true_iff, !light_node.
    assert (lrec_kind l = LinkType_value (kind k)) as ->.
    { revert Hl. unfold optical_record. repeat (case_match; try done). by intros [= <-]. }
    assert ((∃ t, optical_row s (a_device_id l) t) → (∃ t, optical_row s (b_device_id l) t) →
      pair_within light_graph l OPTICAL_NODE_TYPES = true) as Hw.
    { intros [ta Ha] [tb Hb]. unfold pair_within. rewrite (proj2 (light_node_type _ _) Ha), (proj2 (light_node_type _ _) Hb).
      destruct Ha as (? & _ & _ & _ & Ha), Hb as (? & _ & _ & _ & Hb). by rewrite !(proj2 (mem_true _ _)). }
    destruct (kind k); simpl; [|naive_solver..]. rewrite orb_true_iff. naive_solver. }
  assert (∀ l k, optical_record s k = Some l → joins l x y ↔
    (resolve_end s (a_interface_id k) = Some x ∧ resolve_end s (b_interface_id k) = Some y) ∨
    (resolve_end s (a_interface_id k) = Some y ∧ resolve_end s (b_interface_id k) = Some x)) as Hj.
  { intros l k. unfold optical_record. destruct (resolve_end s (a_interface_id k)) as [a|]; [|done].
    destruct (resolve_end s (b_interface_id k)) as [b|]; [|done]. intros [= <-]. unfold joins. simpl. naive_solver. }
  split.
  - intros [[? ?]|(l & Hl & He & Hjoin)]; [done|].
    apply list_elem_of_omap in Hl as (k & Hk' & Hr). apply (Hedge l k Hr) in He as (Ha & Hb & Hfib).
    assert (glass s x y) as Hg by (exists k; split; [done|]; split; [done|]; by apply (Hj l k Hr)).
    destruct Hjoin as [[<- <-]|[<- <-]]; done.
  - intros (Hx & Hy & k & Hk' & Hfib & Hends). right.
    assert (∃ l, optical_record s k = Some l) as [l Hr].
    { unfold optical_record. destruct Hends as [[-> ->]|[-> ->]]; by eexists. }
    apply (Hj l k Hr) in Hends as Hjoin. exists l. split; [apply list_elem_of_omap; by exists k|]. split; [|done].
    apply (Hedge l k Hr). destruct Hjoin as [[-> ->]|[-> ->]]; done.
Qed.

Lemma light_walk u v p t : optical_row s u t → walk light_graph u v p ↔ light_path s u v p.
Proof using Hk H0.
  intros Hu. split.
  - intros Hw. revert t Hu. induction Hw as [u|u w v p Hc Hw IH]; intros t Hu; [by econstructor|].
    apply light_connected in Hc as (_ & [tw Hw'] & Hg). eapply light_cons; eauto.
  - clear Hu t. induction 1 as [u t Hu|u t w v p Hu Hg Hl IH]; [constructor|].
    eapply walk_cons; [|done]. apply light_connected. split; [by exists t|]. split; [|done].
    destruct Hl; by eexists.
Qed.

Lemma light_olt n : is_olt light_graph n = true ↔ optical_row s n "OLT".
Proof using Hk H0. unfold is_olt. by rewrite bool_decide_eq_true, light_node_type. Qed.
End graph.

(** * The resolver *)

Section resolve.
Context {G : Type} `{NxLaws G} `{Dijkstra G} `{!DijkstraLaws G} (s : DB) (Hk : keys_ok s) (Hs : losses_ok s).

Abbreviation g := (light_graph (G := G) s).
Abbreviation weight := (weight_fn s g).

Lemma candidates_elem ont c :
  c ∈ omap (candidate_of s g) (single_source_dijkstra g ont weight) ↔
  ∃ n d p, (n, (d, p)) ∈ single_source_dijkstra g ont weight ∧ is_olt g n = true ∧ p ≠ [] ∧
    c = mkCandidate d (path_total_length_km s g p) (length p - 1) n (String.concat "," p) p.
Proof.
  rewrite list_elem_of_omap. split.
  - intros ([n [d p]] & Hin & Hc). exists n, d, p. unfold candidate_of in Hc.
    destruct (is_olt g n); [|done]. simpl in Hc. case_bool_decide; [done|]. by injection Hc as <-.
  - intros (n & d & p & Hin & Ho & Hp & ->). exists (n, (d, p)). split; [done|].
    unfold candidate_of. rewrite Ho. simpl. by rewrite bool_decide_false.
Qed.

Lemma optical_candidates_ok ont c t :
  optical_row s ont t → c ∈ omap (candidate_of s g) (single_source_dijkstra g ont weight) → candidate_ok c.
Proof using All.
  intros Ht (n & d & p & Hin & Ho & Hp & ->)%candidates_elem.
  assert (has_node g ont = true) as Hn by (apply light_node; [done|by exists t]).
  destruct (dijkstra_entry g ont weight n d p Hn (weights_fn_ok s g Hs) Hin) as (Hw & _ & ->).
  split; simpl; apply nonneg_not_nan; [by eapply path_cost_nonneg|by apply path_length_nonneg].
Qed.

(** What the chosen candidate is. *)
Definition best_light (ont : string) (r : OpticalPathResult) : Prop :=
  ∃ p, light_path s ont (path_olt_id r) p ∧ NoDup p ∧ optical_row s (path_olt_id r) "OLT" ∧
    total_attenuation_db r = path_cost weight p ∧ segments r = path_segments s g p ∧
    ∀ olt q, optical_row s olt "OLT" → light_path s ont olt q → NoDup q →
      fleb (total_attenuation_db r) (path_cost weight q) = true.

Lemma resolve_cases ont :
  match resolve_fresh (G := G) s ont with
  | Some r => best_light ont r
  | None => ∀ olt p, optical_row s olt "OLT" → ¬ light_path s ont olt p
  end.
Proof using All.
  change (resolve_fresh s ont) with (resolve_on s g ont). unfold resolve_on.
  destruct (has_node g ont) eqn:En; simpl.
  2:{ intros olt p _ Hl. assert (∃ t, optical_row s ont t) as Hr by (destruct Hl; eauto).
      apply (light_node (G := G) s Hk) in Hr. congruence. }
  apply light_node in En as Ht; [|done]. destruct Ht as [t Ht].
  assert (∀ n q, light_path s ont n q → ∃ d p, (n, (d, p)) ∈ single_source_dijkstra g ont weight ∧ p ≠ []) as Hreach.
  { intros n q Hq. apply (light_walk s Hk ont n q t Ht) in Hq.
    pose proof (proj2 (dijkstra_reaches g ont weight n En (weights_fn_ok s g Hs)) (ex_intro _ q Hq)) as Hin.
    apply list_elem_of_fmap in Hin as ([m [d p]] & -> & Hin). exists d, p. split; [done|].
    destruct (dijkstra_entry g ont weight m d p En (weights_fn_ok s g Hs) Hin) as (Hw & _). by destruct Hw. }
  destruct (sort_by _ _) as [|best rest] eqn:E.
  - apply sort_by_nil in E. intros olt q Ho Hq. destruct (Hreach _ _ Hq) as (d & p & Hin & Hp).
    apply (light_olt (G := G) s Hk) in Ho.
    assert (mkCandidate d (path_total_length_km s g p) (length p - 1) olt (String.concat "," p) p ∈ ([] : list Candidate)) as Hc.
    { rewrite <-E. apply candidates_elem. by exists olt, d, p. }
    set_solver.
  - assert (best ∈ omap (candidate_of s g) (single_source_dijkstra g ont weight)) as Hb.
    { rewrite <-(elem_of_sort_by optical_candidate_leb), E. set_solver. }
    assert (∀ c, c ∈ omap (candidate_of s g) (single_source_dijkstra g ont weight) → optical_candidate_leb best c = true) as Hmin.
    { intros c Hc. destruct candidate_order_preorder as [T R].
      eapply (sort_by_head_on optical_candidate_leb candidate_ok); [exact T|exact R| |exact E|exact Hc].
      intros x Hx. by eapply optical_candidates_ok. }
    pose proof (optical_candidates_ok _ _ _ Ht Hb) as Hok.
    apply candidates_elem in Hb as (n & d & p & Hin & Ho & Hp & ->).
    destruct (dijkstra_entry g ont weight n d p En (weights_fn_ok s g Hs) Hin) as (Hw & Hnd & Hd).
    exists p. simpl. apply (light_walk s Hk ont n p t Ht) in Hw. apply (light_olt s Hk) in Ho.
    do 5 (split; [done|]). intros olt q Holt Hq Hnq.
    destruct (Hreach _ _ Hq) as (d' & p' & Hin' & Hp').
    apply (light_walk (G := G) s Hk ont olt q t Ht) in Hq.
    pose proof (dijkstra_least g ont weight olt d' p' q En (weights_fn_ok s g Hs) Hin' Hq Hnq) as Hle.
    eapply fleb_trans; [|exact Hle]. apply (light_olt (G := G) s Hk) in Holt.
    assert (mkCandidate d' (path_total_length_km s g p') (length p' - 1) olt (String.concat "," p') p' ∈
      omap (candidate_of s g) (single_source_dijkstra g ont weight)) as Hc' by (apply candidates_elem; by exists olt, d', p').
    pose proof (optical_candidates_ok _ _ _ Ht Hc') as Hok'. apply Hmin in Hc'.
    rewrite candidate_leb_lex in Hc' by done. unfold candidate_lex, lex in Hc'. simpl in Hc'.
    destruct (fleb d d'); [done|]. by simpl in Hc'.
Qed.
End resolve.

(** ** The memo table *)

Section memo.
Context {G : Type} `{NxGraph G} `{Dijkstra G}.

(** A change of the tables that bumps the version, or a question. *)
Inductive OpticalOp := Change (s : DB) | Ask (ont_id : string).

Definition optical_op (st : DB * OpticalState (G := G)) (o : OpticalOp)
    : option (option OpticalPathResult) * (DB * OpticalState (G := G)) :=
  match o with
  | Change s => (None, (s, (bump_version_optical st.2).2))
  | Ask k => let '(r, st') := resolve_optical_path st.1 k st.2 in (Some r, (st.1, st'))
  end.

(** The answers of a history, and those of a resolver without caches. *)
Fixpoint answers (st : DB * OpticalState (G := G)) (os : list OpticalOp) : list (option OpticalPathResult) :=
  match os with
  | [] => []
  | o :: os => let '(a, st') := optical_op st o in
               match a with Some r => r :: answers st' os | None => answers st' os end
  end.

Fixpoint fresh_answers (s : DB) (os : list OpticalOp) : list (option OpticalPathResult) :=
  match os with
  | [] => []
  | Change s' :: os => fresh_answers s' os
  | Ask k :: os => resolve_fresh (G := G) s k :: fresh_answers s os
  end.

(** Every cached value is the one the tables give. *)
Definition memo_ok (st : DB * OpticalState (G := G)) : Prop :=
  (∀ k r, (k, r) ∈ memo st.2 → r = resolve_fresh (G := G) st.1 k) ∧
  (∀ g, optical_graph (opt_store st.2) = Some g →
    g = build_optical_graph (build_records st.1).1 (build_records st.1).2) ∧
  length (memo st.2) ≤ MEMO_SIZE.

Lemma filter_memo (k : string) (m : PathMemo) : dict_get m k ≠ None → length (filter (λ e, e.1 ≠ k) m) < length m.
Proof.
  induction m as [|[k' r] m IH]; simpl; [done|]. rewrite filter_cons. simpl.
  destruct (String.eqb_spec k k') as [->|Hne].
  - intros _. rewrite decide_False by naive_solver. pose proof (length_filter (λ e : string * option OpticalPathResult, e.1 ≠ k') m). lia.
  - intros Hd. rewrite decide_True by naive_solver. simpl. specialize (IH Hd). lia.
Qed.

Lemma resolve_memo s k st :
  memo_ok (s, st) →
  let '(r, st') := resolve_optical_path s k st in r = resolve_fresh (G := G) s k ∧ memo_ok (s, st').
Proof.
  intros (Hm & Hg & Hl). unfold resolve_optical_path. cbn [fst snd] in *. destruct (dict_get (memo st) k) as [r|] eqn:E.
  - pose proof (dict_get_elem _ _ _ E) as Hin. pose proof (Hm _ _ Hin) as ->. split; [done|].
    split; [|split; [done|]]; simpl.
    + intros k' r' [[= -> ->]|[_ Hin']%list_elem_of_filter]%elem_of_cons; [done|by apply Hm].
    + assert (length (filter (λ e : string * option OpticalPathResult, e.1 ≠ k) (memo st)) < length (memo st)); [|lia].
      apply filter_memo. congruence.
  - unfold get_optical_graph. destruct (build_records s) as [ds ls] eqn:Eb.
    assert (default (build_optical_graph ds ls) (optical_graph (opt_store st)) = build_optical_graph ds ls) as Hd.
    { destruct (optical_graph (opt_store st)) as [g|] eqn:Eg; [|done]. simpl. by rewrite (Hg g). }
    assert (match optical_graph (opt_store st) with Some g => g | None => build_optical_graph ds ls end = build_optical_graph ds ls) as -> by exact Hd.
    assert (resolve_on s (build_optical_graph ds ls : G) k = resolve_fresh (G := G) s k) as Hr.
    { unfold resolve_fresh. by rewrite Eb. }
    split; [done|]. split; [|split].
    + cbn [memo fst snd]. intros k' r' Hin. assert ((k', r') ∈ (k, resolve_on s (build_optical_graph ds ls : G) k) :: memo st) as Hin'.
      { eapply elem_of_sublist; [exact Hin|]. apply sublist_take. }
      apply elem_of_cons in Hin' as [[= -> ->]|Hin']; [done|by apply Hm].
    + cbn [opt_store optical_graph fst snd]. intros g [= <-]. by rewrite Eb.
    + cbn [memo snd]. rewrite length_take. lia.
Qed.

Lemma resolve_version s k st :
  topo_version (opt_store (resolve_optical_path s k st).2) = topo_version (opt_store st).
Proof.
  unfold resolve_optical_path. destruct (dict_get (memo st) k); [done|].
  by destruct (build_records s).
Qed.

Lemma bump_memo (s' : DB) (st : OpticalState (G := G)) : memo_ok (s', (bump_version_optical st).2).
Proof. unfold bump_version_optical, bump_version. simpl. split; [|split]; simpl; [set_solver|done|lia]. Qed.

Lemma answers_fresh st os : memo_ok st → answers st os = fresh_answers st.1 os.
Proof.
  revert st. induction os as [|[s'|k] os IH]; intros [s st] Hok; [done| |].
  - cbn [answers optical_op fresh_answers fst snd]. apply (IH (s', _)). by apply bump_memo.
  - cbn [answers optical_op fresh_answers fst snd]. pose proof (resolve_memo s k st Hok) as Hr.
    destruct (resolve_optical_path s k st) as [r st']. destruct Hr as [-> Hok']. f_equal. by apply (IH (s, st')).
Qed.
End memo.

(** * The properties *)

(** C37. The resolver finds the light path of least attenuation.  On tables
    without negative lengths or losses it answers [None] exactly when no OLT is
    reachable from the device along fibres through devices of the optical layer.
    Otherwise the answer names an OLT, the attenuation of a simple light path to
    it and that path's segments, and no simple light path to any OLT has a smaller
    attenuation (with the losses accumulated in the order and with the rounding
    of the program).  Overrides and statuses of devices and links do not matter. *)
Theorem least_attenuation_path {G} `{NxLaws G} `{Dijkstra G} `{!DijkstraLaws G} (s : DB) (ont : string) :
  keys_ok s → losses_ok s →
  match resolve_fresh (G := G) s ont with
  | Some r => best_light (G := G) s ont r
  | None => ∀ olt p, optical_row s olt "OLT" → ¬ light_path s ont olt p
  end.
Proof. intros Hk Hs. by apply resolve_cases. Qed.

(** The memo table of [resolve_optical_path] and the graph kept by the
    pathfinding store never change an answer: over any sequence of changes of the
    tables, each followed by a version bump, and questions, every question is
    answered as if nothing had been cached. *)
Lemma optical_memo_transparent {G} `{NxGraph G} `{Dijkstra G} (s : DB) (os : list OpticalOp) :
  answers (G := G) (s, mkOpticalState new_store []) os = fresh_answers (G := G) s os.
Proof.
  apply (answers_fresh (s, _)). split; [|split]; simpl; [set_solver|done|lia].
Qed.

(** * A network with two OLTs *)

Definition fibre_link (k a b : string) (km : float) : Link :=
  mkLink k a b UP FIBER None None (Some km) (Some 1%Z).

Definition lossy (x : float) (d : Device) : Device :=
  mkDevice (dev_id d) (dev_name d) (dev_type d) (dev_status d) (provisioned d) (dev_override d)
    (tx_power_dbm d) (sensitivity_min_dbm d) (Some x) (dev_capacity d)
    (signal_power_dbm d) (signal_margin_db d) (attenuation_db d) (signal_status d)
    (parent_container_id d) (slot_id d) (tariff_id d) (dev_vrf_id d) (hardware_model_id d).

Definition two_olts : DB :=
  mkDB [device0 "ont" ONT; lossy (dec 35 10) (device0 "spl" SPLITTER); device0 "o1" OLT; device0 "o2" OLT]
    [interface0 "ont-if0" "ont" "if0"; interface0 "spl-in" "spl" "in"; interface0 "spl-in2" "spl" "in2";
     interface0 "spl-out1" "spl" "out1"; interface0 "o1-pon" "o1" "pon1"; interface0 "o2-pon" "o2" "pon1"]
    [fibre_link "f1" "o1-pon" "spl-in" (of_Z 5); fibre_link "f2" "o2-pon" "spl-in2" (of_Z 1);
     fibre_link "f3" "spl-out1" "ont-if0" (of_Z 2)]
    [mkPhysicalMedium 1 "SMF_G652D" "Single-mode G.652.D" "optical" None] [] [] [] [] [].

Example nearer_olt :
  (λ r, (path_olt_id r, seg_link_id <$> segments r)) <$> resolve_fresh (G := AssocGraph) two_olts "ont" =
    Some ("o2", [Some "f3"; Some "f2"]).
Proof. vm_compute. reflexivity. Qed.

Lemma two_olts_losses : losses_ok two_olts.
Proof.
  split.
  - intros l km Hl E. repeat (apply elem_of_cons in Hl as [->|Hl]; [injection E as <-; vm_compute; reflexivity|]).
    by apply elem_of_nil in Hl.
  - intros d x Hd E. repeat (apply elem_of_cons in Hd as [->|Hd]; [try discriminate E; injection E as <-; vm_compute; reflexivity|]).
    by apply elem_of_nil in Hd.
Qed.

Lemma two_olts_keys : keys_ok two_olts.
Proof. constructor; vm_compute; repeat (constructor; [set_solver|]); constructor. Qed.

Lemma least_attenuation_path_witness :
  ∃ r, resolve_fresh (G := AssocGraph) two_olts "ont" = Some r ∧ best_light (G := AssocGraph) two_olts "ont" r.
Proof.
  pose proof (least_attenuation_path (G := AssocGraph) two_olts "ont" two_olts_keys two_olts_losses) as H.
  destruct (resolve_fresh (G := AssocGraph) two_olts "ont") as [r|] eqn:E.
  - exists r. split; [reflexivity|exact H].
  - exfalso. vm_compute in E. discriminate E.
Defined.
