(* ===== verification/ProvisioningProofs.v ===== *)
(** What provisioning does ([Provisioning.v]): the transaction and its branches,
    atomicity and totality, the invariant of a sequence of requests, and when
    the address retry loop gives up. *)

From S2P Require Import Prelude PyFloat Models LinkRules Worklist EventStore Errors IpAddr Ipam IpamProofs MacAllocator.
From S2P Require Import L3Auto L3AutoProofs Links LinkStatus Scenario L3Trace NxGraph Pathfinding Dependency Provisioning OltPathProofs.

Section service.
Context {row_ids : RowIds}.

(** * Allocation *)

Lemma next_or_raise_same s t p : addresses s = addresses t → next_or_raise s p = next_or_raise t p.
Proof. intros E. unfold next_or_raise, next_free_ip_in_prefix. by rewrite E. Qed.

Lemma next_or_raise_Ret s p c :
  next_or_raise s p = Ret c ↔ next_free_ip_in_prefix s p = Some (Some c).
Proof.
  unfold next_or_raise. destruct (next_free_ip_in_prefix s p) as [[]|]; simpl; naive_solver.
Qed.

Lemma next_free_untaken s p c : next_free_ip_in_prefix s p = Some (Some c) → taken_in (addresses s) p c.1 = false.
Proof.
  unfold next_free_ip_in_prefix. destruct (ip_network true (prefix p)) as [net|]; [|done]. intros [= H].
  apply fmap_Some in H as (ip & Hip & ->). pose proof (scan_hosts_spec (taken_in (addresses s) p) (net_version net)
    (Z.to_nat (host_count net)) (host_range net).1) as Hs. rewrite Hip in Hs. by destruct Hs as (_ & _ & _ & ? & _).
Qed.

Lemma vrf_has_ip_true s v ip :
  vrf_has_ip s v ip = true ↔ ∃ a, a ∈ addresses s ∧ addr_vrf_id a = Some (vrf_id v) ∧ addr_ip a = ip.
Proof.
  unfold vrf_has_ip. rewrite existsb_exists. setoid_rewrite list_elem_of_In.
  split; intros (a & Ha & H); exists a; (split; [done|]).
  - apply andb_true_iff in H as [H1%bool_decide_eq_true H2%String.eqb_eq]. done.
  - destruct H as [H1 H2]. apply andb_true_iff. rewrite bool_decide_eq_true, String.eqb_eq. done.
Qed.

Lemma NoDup_omap_snoc {A B} (f : A → option B) l x :
  NoDup (omap f (l ++ [x])) ↔ NoDup (omap f l) ∧ ∀ y, y ∈ l → f y = f x → f x = None.
Proof.
  rewrite omap_app. simpl. destruct (f x) as [b|] eqn:E.
  - rewrite NoDup_app. split.
    + intros (H1 & H2 & _). split; [done|]. intros y Hy Hf. destruct (H2 b); [|set_solver].
      apply list_elem_of_omap. by exists y.
    + intros [H1 H2]. split; [done|]. split; [|apply NoDup_singleton]. intros c (y & Hy & Hf)%list_elem_of_omap ->%list_elem_of_singleton.
      by discriminate (H2 y Hy Hf).
  - rewrite app_nil_r. naive_solver.
Qed.

(** Adding an address: exactly the two uniqueness tests. *)
Lemma add_address_ok iface p v c w :
  addr_constraints (addresses (base w)) →
  addr_constraints (addresses (base (add_address iface p v c w))) ↔
    taken_in (addresses (base w)) p c.1 = false ∧
    match v with Some v => vrf_has_ip (base w) v c.1 = false | None => True end.
Proof.
  intros [Hp Hv]. unfold add_address. simpl.
  split.
  - intros [Hp' Hv']. rewrite NoDup_omap_snoc in Hp', Hv'. destruct Hp' as [_ Hp'], Hv' as [_ Hv']. simpl in Hp', Hv'. split.
    + apply not_true_iff_false. intros (a & Ha & Hpa & Hip)%taken_in_true. specialize (Hp' a Ha). rewrite Hpa, Hip in Hp'. by discriminate (Hp' eq_refl).
    + destruct v as [v|]; [|done]. apply not_true_iff_false. intros (a & Ha & Hva & Hip)%vrf_has_ip_true.
      specialize (Hv' a Ha). rewrite Hva, Hip in Hv'. by discriminate (Hv' eq_refl).
  - intros [H1 H2]. split; rewrite NoDup_omap_snoc; (split; [done|]); simpl; intros a Ha E.
    + destruct (addr_prefix_id a) eqn:Ea; [|done]. injection E as -> E. apply not_true_iff_false in H1. destruct H1.
      apply taken_in_true. exists a. done.
    + destruct v as [v|]; [|done]. destruct (addr_vrf_id a) eqn:Ea; [|done]. injection E as -> E.
      apply not_true_iff_false in H2. destruct H2. apply vrf_has_ip_true. exists a. done.
Qed.

(** The retry loop: started on the first free address of the prefix it succeeds
    at once, or, when that address is held in the VRF, fails whatever the number
    of retries, because every retry picks the same address again. *)
Lemma insert_address_eq retries db0 w iface p v c :
  addresses (base w) = addresses (base db0) → addr_constraints (addresses (base db0)) →
  next_free_ip_in_prefix (base db0) p = Some (Some c) →
  insert_address retries db0 w iface p v c =
    if match v with Some v => vrf_has_ip (base db0) v c.1 | None => false end
    then Raise (raise_code POOL_EXHAUSTED) else Ret (c.1, add_address iface p v c w).
Proof.
  intros Hw Hok Hc. revert w Hw. set (held := match v with Some v => vrf_has_ip (base db0) v c.1 | None => false end).
  assert (next_or_raise (base db0) p = Ret c) as Hn by by apply next_or_raise_Ret.
  assert (∀ w, addresses (base w) = addresses (base db0) →
    next_or_raise (base w) p = Ret c ∧
    match v with Some v => vrf_has_ip (base w) v c.1 | None => false end = held ∧
    bool_decide (addr_constraints (addresses (base (add_address iface p v c w)))) = negb held) as Hsame.
  { intros w Hw. split; [rewrite <-Hn; by apply next_or_raise_same|].
    assert (match v with Some v => vrf_has_ip (base w) v c.1 | None => false end = held) as Hh
      by (unfold held, vrf_has_ip; destruct v; by rewrite ?Hw).
    split; [done|]. apply next_free_untaken in Hc. destruct held eqn:Eh; cbn [negb].
    - apply bool_decide_eq_false. rewrite add_address_ok by (by rewrite Hw). rewrite Hw. intros [_ H]. destruct v; [congruence|done].
    - apply bool_decide_eq_true. rewrite add_address_ok by (by rewrite Hw). rewrite Hw. split; [done|]. by destruct v. }
  clearbody held. induction retries as [|n IH]; intros w Hw; destruct (Hsame w Hw) as (H1 & H2 & H3);
    cbn [insert_address]; rewrite H1, H2; (replace (if held then Ret c else Ret c) with (Ret c : Outcome (string * Z)) by by destruct held);
    cbn [mbind Outcome_bind]; rewrite H3; destruct held; simpl negb; cbv iota; try done; rewrite Hn; cbn [mbind Outcome_bind]; [done|].
  by rewrite IH.
Qed.

(** * The transaction *)

Lemma seed_base w : base (ensure_ipam_defaults w) = base w ∧ prov_records (ensure_ipam_defaults w) = prov_records w.
Proof. unfold ensure_ipam_defaults. by case_match. Qed.

Lemma find_prefix_in ps role p : find_prefix ps role = Some p → p ∈ ps.
Proof.
  unfold find_prefix. destruct (find_row _ ps) as [q|] eqn:E; [intros [= <-]; by apply find_row_Some in E as [? _]|].
  intros (net & _ & H%find_row_Some)%bind_Some. by destruct H.
Qed.

Lemma find_prefix_seeding_rows w role found w' :
  find_prefix_seeding w role = (found, w') →
  (w' = w ∨ w' = ensure_ipam_defaults w) ∧ base w' = base w ∧ prov_records w' = prov_records w ∧
  ∀ p, found = Some p → p ∈ prefixes w'.
Proof.
  unfold find_prefix_seeding. destruct (find_prefix (prefixes w) role) as [p|] eqn:E; intros [= <- <-].
  - split; [by left|]. do 2 (split; [done|]). intros q [= ->]. by eapply find_prefix_in.
  - split; [by right|]. destruct (seed_base w) as [-> ->]. do 2 (split; [done|]). intros q Hq. by eapply find_prefix_in.
Qed.

Definition mgmt_interface (d mac : string) : Interface :=
  mkInterface (mgmt_name d) d "mgmt0" (Some MANAGEMENT) ADMIN_UP None None None None (Some mac).

(** The management interface of the device, kept or created. *)
Inductive mgmt_ready (d : string) (s t : DB) : Prop :=
  | mr_kept : is_Some (get_interface s (mgmt_name d)) → interfaces t = interfaces s → mgmt_ready d s t
  | mr_new mac : get_interface s (mgmt_name d) = None → interfaces t = interfaces s ++ [mgmt_interface d mac] → mgmt_ready d s t.

(** Its address: kept, or the first free one of the prefix, not held in the VRF. *)
Inductive addr_ready (d : string) (ps : list Prefix) (s t : DB) (a : Allocation) : Prop :=
  | ar_kept row : addr_of s (mgmt_name d) = Some row → addresses t = addresses s → addr_ready d ps s t a
  | ar_new c row : addr_of s (mgmt_name d) = None → al_prefix a ∈ ps →
      next_free_ip_in_prefix s (al_prefix a) = Some (Some c) → al_ip a = c.1 →
      row = mkInterfaceAddress (next_id (addr_id <$> addresses s)) (mgmt_name d) c.1 c.2 (vrf_id <$> al_vrf a)
              (Some (prefix_id (al_prefix a))) →
      (∀ v, al_vrf a = Some v → vrf_has_ip s v c.1 = false) →
      addresses t = addresses s ++ [row] → addr_ready d ps s t a.

Lemma mgmt_ready_same d s t u : interfaces u = interfaces t → mgmt_ready d s t → mgmt_ready d s u.
Proof. intros E [H1 H2|mac H1 H2]; [left|right with mac]; congruence. Qed.

Lemma addr_ready_same d ps s t u a : addresses u = addresses t → addr_ready d ps s t a → addr_ready d ps s u a.
Proof. intros E [row H1 H2|c row ? ? ? ? ? ? ?]; [left with row|apply (ar_new _ _ _ _ _ c row); try done]; congruence. Qed.

(** The tables provisioning never writes. *)
Definition other_tables (s t : DB) : Prop :=
  links t = links s ∧ media t = media s ∧ routes t = routes s ∧ neighbors t = neighbors s ∧
  bridge_domains t = bridge_domains s ∧ mac_entries t = mac_entries s.

Lemma constraints_rows s t :
  devices t = devices s → interfaces t = interfaces s → links t = links s → media t = media s → constraints s → constraints t.
Proof. intros D I L M [[K1 K2 K3 K4] C1 C2 C3 C4]. constructor; [constructor|..]; by rewrite ?D, ?I, ?L, ?M. Qed.

Lemma ensure_mgmt_rows env d w m w' m' :
  ensure_mgmt_interface env d w m = (Ret w', m') → constraints (base w) →
  mgmt_ready (dev_id d) (base w) (base w') ∧ constraints (base w') ∧ other_tables (base w) (base w') ∧
  devices (base w') = devices (base w) ∧ addresses (base w') = addresses (base w) ∧ w' = with_base (base w') w.
Proof.
  unfold ensure_mgmt_interface. destruct (get_interface (base w) (mgmt_name (dev_id d))) as [i|] eqn:E.
  - intros [= <- <-] Hc. split; [left; [by eexists|done]|]. repeat (split; [done|]). by destruct w.
  - destruct (next_mac (penv_mac env) m) as [[mac m1]|]; [|done]. intros [= H <-]. revert H. case_bool_decide as Hc; [|done].
    intros [= <-] _. split; [by right with mac|]. repeat (split; [done|]). done.
Qed.

#[local] Arguments insert_address : simpl never.

Lemma allocate_rows env d role db0 w m a w' m' :
  allocate_mgmt env d role db0 w m = (Ret (a, w'), m') →
  base w = base db0 → constraints (base db0) → addr_constraints (addresses (base db0)) →
  ∃ w0, (w0 = w ∨ w0 = ensure_ipam_defaults w) ∧ vrfs w' = vrfs w0 ∧ prefixes w' = prefixes w0 ∧ prov_records w' = prov_records w ∧
    devices (base w') = devices (base db0) ∧ other_tables (base db0) (base w') ∧
    mgmt_ready (dev_id d) (base db0) (base w') ∧ addr_ready (dev_id d) (prefixes w') (base db0) (base w') a ∧
    constraints (base w') ∧ addr_constraints (addresses (base w')).
Proof.
  unfold allocate_mgmt. destruct (find_prefix_seeding w role) as [found w0] eqn:Ef.
  apply find_prefix_seeding_rows in Ef as (Hw0 & Hb & Hr & Hin). intros H Hbase Hc Hac.
  assert (base w0 = base db0) as Hb0 by congruence.
  match type of H with match ?x with _ => _ end = _ => destruct x as [[c al]| |] eqn:Eo; [|done..] end.
  apply bind_Ret in Eo as (p & Hp%or_raise_Ret & Eo). apply bind_Ret in Eo as (c' & Hc' & Eo).
  apply bind_Ret in Eo as (al' & Hal & [= -> ->]). rewrite Hb0 in Hc'. apply next_or_raise_Ret in Hc' as Hfree.
  destruct (ensure_mgmt_interface env d w0 m) as [r m1] eqn:Ei. injection H as H <-.
  apply bind_Ret in H as (w1 & -> & H). apply ensure_mgmt_rows in Ei as (Hm & Hc1 & Ho & Hd & Ha & Hw1); [|by rewrite Hb0].
  rewrite Hb0 in Hm, Ho, Hd, Ha. exists w0. split; [done|].
  assert (addr_of (base w1) = addr_of (base db0)) as Haddr by (unfold addr_of; by rewrite Ha).
  rewrite Haddr in H. destruct (addr_of (base db0) (mgmt_name (dev_id d))) as [row|] eqn:Er.
  - injection H as <- <-. rewrite Hw1. cbn [vrfs prefixes prov_records base with_base].
    repeat (split; [done|]). split; [by left with row|]. by rewrite Ha.
  - assert (al = mkAlloc c.1 p (get_vrf (vrfs w0) (prefix_vrf_id p))) as ->.
    { unfold reuse_or_refuse in Hal. rewrite Hb0, Er in Hal. destruct (get_interface _ _); simpl in Hal; congruence. }
    apply bind_Ret in H as (r & Hins & [= <- <-]). cbn [al_ip al_prefix al_vrf] in Hins |- *.
    replace (c.1, c.2) with c in Hins by by destruct c. rewrite insert_address_eq in Hins by done.
    case_match eqn:Eh; [done|]. injection Hins as <-. unfold add_address. rewrite Hw1. cbn [fst snd vrfs prefixes prov_records base with_base].
    repeat (split; [done|]). split; [by destruct Hm; [left|right with mac]|].
    split; [|split; [by apply (constraints_rows (base w1))|]].
    + eapply ar_new with (c := c); cbn [al_ip al_prefix al_vrf]; [done|by apply Hin|done..| |].
      * intros v Hv. by rewrite Hv in Eh.
      * simpl. by rewrite Ha.
    + change (addr_constraints (addresses (base (add_address (mgmt_name (dev_id d)) p (get_vrf (vrfs w0) (prefix_vrf_id p)) c w1)))).
      apply add_address_ok; [by rewrite Ha|]. rewrite Ha. split; [by apply next_free_untaken|].
      destruct (get_vrf _ _); [|done]. unfold vrf_has_ip in *. by rewrite Ha.
Qed.

Lemma write_device_ids d s : dev_id <$> devices (write_device d s) = dev_id <$> devices s.
Proof.
  unfold write_device. simpl. induction (devices s) as [|r l IH]; simpl; [done|].
  destruct (String.eqb_spec (dev_id r) (dev_id d)) as [->|]; csimpl; by rewrite ?IH.
Qed.

Lemma constraints_write d s : constraints s → constraints (write_device d s).
Proof.
  intros [[K1 K2 K3 K4] C1 C2 C3 C4]. constructor; [constructor|..]; try done. by rewrite write_device_ids.
Qed.

Lemma finish_Ret env d oa w rows w' rows' :
  finish env d oa w rows = Ret (w', rows') →
  base w' = write_device (provisioned_row d) (base w) ∧ vrfs w' = vrfs w ∧ prefixes w' = prefixes w ∧
  prov_records w' = prov_records w ++
    match oa with Some a => if nonempty (al_ip a) then [provisioning_record env w d a] else [] | None => [] end ∧
  append_domain_event (penv_now env) "PROVISIONING_UPDATED" (dev_id d) (updated_event_payload d oa) None rows = Some rows'.
Proof.
  unfold finish. intros (r & Hr%or_raise_Ret & [= <- <-])%bind_Ret. simpl. repeat (split; [done|]). split; [|done].
  destruct oa as [a|]; [case_match|]; by rewrite ?app_nil_r.
Qed.

Lemma provisionable_role t : is_provisionable t = true → is_Some (classify_prefix_role t).
Proof. by destruct t. Qed.

(** What a successful transaction does. *)
Record transaction (env : PEnv) (d : Device) (db0 : IpamDB) (rows : list EventStoreRecord)
    (a : Allocation) (w : IpamDB) (rows' : list EventStoreRecord) : Prop := {
  tx_device : devices (base w) = devices (write_device (provisioned_row d) (base db0));
  tx_marked : provisioned (provisioned_row d) = true ∧ dev_id (provisioned_row d) = dev_id d ∧
    dev_type (provisioned_row d) = dev_type d ∧ (dev_type d = OLT → is_Some (tx_power_dbm (provisioned_row d))) ∧
    (in_class d ONT_CLASS = true → is_Some (sensitivity_min_dbm (provisioned_row d)));
  tx_interface : mgmt_ready (dev_id d) (base db0) (base w);
  tx_address : addr_ready (dev_id d) (prefixes w) (base db0) (base w) a;
  tx_other : other_tables (base db0) (base w);
  tx_seeds : ∃ w0, (w0 = ensure_ipam_defaults db0 ∨ w0 = ensure_ipam_defaults (ensure_ipam_defaults db0)) ∧
    vrfs w = vrfs w0 ∧ prefixes w = prefixes w0;
  tx_record : al_ip a ≠ "" → ∃ k, prov_records w = prov_records db0 ++
    [mkRecord k (penv_now env) ASSIGN_MGMT_IP (dev_id d) (mgmt_name (dev_id d)) (al_ip a) (vrf_id <$> al_vrf a)
       (Some (prefix_id (al_prefix a))) (Some (default "system" (penv_actor env))) (penv_correlation env)];
  tx_event : append_domain_event (penv_now env) "PROVISIONING_UPDATED" (dev_id d)
    (updated_event_payload d (Some a)) None rows = Some rows';
  tx_constraints : constraints (base w) ∧ addr_constraints (addresses (base w))
}.

Lemma provision_rows_Ret env d db0 m rows oa w rows' m' :
  provision_rows env d db0 m rows = (Ret (oa, w, rows'), m') →
  constraints (base db0) → addr_constraints (addresses (base db0)) → is_provisionable (dev_type d) = true →
  ∃ a, oa = Some a ∧ transaction env d db0 rows a w rows'.
Proof.
  intros H Hc Hac [role Hrole]%provisionable_role. unfold provision_rows in H. rewrite Hrole in H.
  destruct (allocate_mgmt env d role db0 (ensure_ipam_defaults db0) m) as [r m1] eqn:Ea. apply pair_equal_spec in H as [H <-].
  apply bind_Ret in H as ([oa1 w1] & (aw & -> & E)%bind_Ret & H). injection E as <- <-. destruct aw as [a w1]. cbn [fst snd] in *.
  apply bind_Ret in H as ([w2 r2] & Hf & E). injection E as <- <- <-. apply finish_Ret in Hf as (Hb & Hv & Hp & Hr & Hev).
  destruct (seed_base db0) as [Hsb Hsr].
  apply allocate_rows in Ea as (w0 & Hw0 & Hv1 & Hp1 & Hr1 & Hd1 & Ho1 & Hm1 & Ha1 & Hc1 & Hac1); [|done..].
  exists a. split; [done|]. split.
  - rewrite Hb. unfold write_device. simpl. by rewrite Hd1.
  - repeat (split; [done|]). unfold provisioned_row, is_type. cbn [tx_power_dbm sensitivity_min_dbm]. split; intros Ht; [rewrite bool_decide_eq_true_2 by done|rewrite Ht]; by eexists.
  - rewrite Hb. by apply (mgmt_ready_same _ _ (base w1)).
  - rewrite Hb, Hp. by apply (addr_ready_same _ _ _ (base w1)).
  - rewrite Hb. done.
  - exists w0. rewrite Hv, Hp. done.
  - intros Hip. eexists. rewrite Hr. unfold nonempty. rewrite bool_decide_eq_true_2 by done. unfold provisioning_record.
    by rewrite Hr1, Hsr.
  - done.
  - rewrite Hb. split; [by apply constraints_write|done].
Qed.


(** When provisioning runs out of retries.  If the first free address of
    the role's prefix is held in the prefix's VRF by a row outside the prefix,
    a device without a management address is refused - [POOL_EXHAUSTED], or a
    constraint violation if its new interface clashes - however many other
    addresses of the prefix are free: each retry picks the same address. *)
Lemma held_address_exhausts env d db0 m rows role p v c :
  addr_constraints (addresses (base db0)) → (Z.of_nat (size (used m)) + 1 < CAP)%Z →
  classify_prefix_role (dev_type d) = Some role →
  find_prefix (prefixes (ensure_ipam_defaults db0)) role = Some p →
  get_vrf (vrfs (ensure_ipam_defaults db0)) (prefix_vrf_id p) = Some v →
  addr_of (base db0) (mgmt_name (dev_id d)) = None →
  next_free_ip_in_prefix (base db0) p = Some (Some c) → vrf_has_ip (base db0) v c.1 = true →
  (provision_rows env d db0 m rows).1 ∈ [Raise (raise_code POOL_EXHAUSTED); Raise ConstraintViolation].
Proof.
  intros Hac Hm Hrole Hp Hv Ha Hc Hh. unfold provision_rows. rewrite Hrole. destruct (seed_base db0) as [Hb _].
  unfold allocate_mgmt, find_prefix_seeding. rewrite Hp. cbn [or_raise mbind Outcome_bind].
  rewrite Hb, (proj2 (next_or_raise_Ret _ _ _) Hc). cbn [mbind Outcome_bind].
  assert (∀ al, reuse_or_refuse d (ensure_ipam_defaults db0) al = Ret al) as ->.
  { intros al. unfold reuse_or_refuse. rewrite Hb, Ha. by destruct (get_interface _ _). }
  cbn [mbind Outcome_bind]. rewrite Hv. cbn [al_ip al_prefix al_vrf].
  destruct (ensure_mgmt_interface env d (ensure_ipam_defaults db0) m) as [r m1] eqn:Ei.
  assert (r = Raise ConstraintViolation ∨ ∃ w1, r = Ret w1 ∧ addresses (base w1) = addresses (base db0)) as Hr.
  { revert Ei. unfold ensure_mgmt_interface. rewrite Hb. destruct (get_interface _ _); [intros [= <- <-]; right; eexists; split; [done|by rewrite Hb]|].
    destruct (next_mac_run (penv_mac env) m Hm) as (mac & m2 & -> & _). case_bool_decide; intros [= <- <-]; [|by left].
    right. eexists. split; [done|]. simpl. by rewrite ?Hb. }
  destruct Hr as [-> |(w1 & -> & Hw1)]; cbn; [set_solver..|].
  unfold addr_of in *. rewrite Hw1, Ha. replace (c.1, c.2) with c by by destruct c.
  rewrite insert_address_eq by done. rewrite Hh. cbn. set_solver.
Qed.
End service.

(** * The whole call *)

Section world.
Context {row_ids : RowIds} {G : Type} `{NxGraph G}.

Lemma check_total use_cache s d (st : DepState G) : check_provision use_cache s d st ≠ Diverge.
Proof.
  intros Hd. unfold check_provision, check_parent in Hd. diverge Hd.
  - repeat case_match; try done; by destruct (raise_if_total _ _ Hd).
  - destruct (in_class d ONT_CLASS); [|destruct (is_type d AON_CPE); [|done]].
    + destruct (olt_path_total use_cache s d st) as [x Hx]. rewrite Hx in Hd. cbn [of_fuel mbind Outcome_bind] in Hd. unfold raise_if in Hd; by case_match.
    + unfold raise_if in Hd; by case_match.
  - destruct (is_type d OLT); [unfold raise_if in Hd; by repeat case_match|]. case_match; [done|].
    match type of Hd with context [dependency_ok ?u ?s ?d ?t] => destruct (dependency_ok_total u s d t) as [x Hx] end.
    rewrite Hx in Hd. cbn [of_fuel mbind Outcome_bind] in Hd. unfold raise_if in Hd; by case_match.
Qed.

(** ** The checks never move the topology version *)

Lemma collect_version uc s (st : DepState G) : version (collect_devices_links uc s st).2 = version st.
Proof. unfold collect_devices_links. destruct uc; simpl; repeat case_match; done. Qed.

Lemma snapshot_version n uc s (st : DepState G) r st' : logical_graph_snapshot n uc s st = Some (r, st') → version st' = version st.
Proof.
  revert st. induction n as [|n IH]; intros st; cbn [logical_graph_snapshot]; [done|].
  case_match; [intros; by simplify_eq|]. pose proof (collect_version uc s st) as Hc.
  destruct (collect_devices_links uc s st) as [inp st1]. simpl in Hc.
  assert (∀ v g store', get_logical_graph (store st1) inp.1.1 inp.1.2 false = ((v, g), store') → topo_version store' = version st) as Hg.
  { intros v g store'. rewrite <-Hc. unfold get_logical_graph, version. repeat case_match; intros; by simplify_eq. }
  destruct (get_logical_graph _ _ _ _) as [[v g] store']. specialize (Hg v g store' eq_refl).
  destruct (_ && _); [intros E; injection E as _ <-; unfold version; simpl; by rewrite Hg|]. intros E%IH. rewrite E. unfold version. simpl. by rewrite Hg.
Qed.

Lemma router_version s r (st : DepState G) : version (router_l3_chain s r st).2 = version st.
Proof. unfold router_l3_chain. by case_match. Qed.

Lemma candidates_version s (g : G) d rs (st : DepState G) : version (collect_candidates s g d rs st).2 = version st.
Proof.
  revert st. induction rs as [|r rs IH]; intros st; cbn [collect_candidates]; [done|].
  destruct (get_device s r) as [rd|]; [|apply IH]. pose proof (router_version s rd st) as Hr.
  destruct (router_l3_chain s rd st) as [rr st1]. specialize (IH st1).
  destruct (collect_candidates s g d rs st1) as [cs st2]. simpl in *. congruence.
Qed.

Lemma evaluate_version uc s d (st : DepState G) : version (evaluate_upstream uc s d st).2 = version st.
Proof.
  unfold evaluate_upstream. destruct (is_router d).
  { pose proof (router_version s d st) as Hr. by destruct (router_l3_chain s d st). }
  destruct (logical_graph_snapshot 1 uc s st) as [[[inp g] st1]|] eqn:E; [|done]. apply snapshot_version in E.
  case_match; [done|]. case_match; [done|].
  match goal with |- context [collect_candidates s g ?k ?l st1] => pose proof (candidates_version s g k l st1) as Hc;
    destruct (collect_candidates s g k l st1) as [cs st2] end. simpl in *. congruence.
Qed.

Lemma upstream_version uc s d (st : DepState G) : version (has_upstream_l3_or_anchor uc s d st).2 = version st.
Proof.
  unfold has_upstream_l3_or_anchor. case_match; [apply evaluate_version|]. case_match; [done|].
  match goal with |- context [evaluate_upstream uc s d ?t] => pose proof (evaluate_version uc s d t) as Hv;
    destruct (evaluate_upstream uc s d t) as [r st1] end. exact Hv.
Qed.

Lemma olt_path_version uc s d (st : DepState G) r : has_valid_provisioned_olt_path uc s d st = Some r → version r.2 = version st.
Proof.
  unfold has_valid_provisioned_olt_path, collect_current. case_match; [by intros [= <-]|].
  match goal with |- context [collect_devices_links uc s ?t] => pose proof (collect_version uc s t) as Hv;
    destruct (collect_devices_links uc s t) as [inp st1] end. simpl in Hv.
  cbv zeta. case_match; [by intros [= <-]|]. intros (cs & _ & [= <-])%bind_Some. exact Hv.
Qed.

Lemma aon_path_version uc s d (st : DepState G) : version (has_valid_provisioned_aon_switch_path uc s d st).2 = version st.
Proof.
  unfold has_valid_provisioned_aon_switch_path, collect_current. case_match; [done|].
  match goal with |- context [collect_devices_links uc s ?t] => pose proof (collect_version uc s t) as Hv;
    destruct (collect_devices_links uc s t) as [inp st1] end. exact Hv.
Qed.

Lemma dependency_version uc s d (st : DepState G) r : dependency_ok uc s d st = Some r → version r.2 = version st.
Proof.
  unfold dependency_ok. case_match; [by intros [= <-]|]. case_match; [apply olt_path_version|].
  case_match; [intros [= <-]; apply aon_path_version|].
  pose proof (upstream_version uc s d st) as Hv. destruct (has_upstream_l3_or_anchor uc s d st) as [res st1]. simpl in Hv.
  repeat case_match; by intros [= <-].
Qed.

(** What passing the checks says. *)
Lemma check_provision_Ret uc s d (st st' : DepState G) :
  check_provision uc s d st = Ret st' →
  is_provisionable (dev_type d) = true ∧ provisioned d = false ∧ version st' = version st.
Proof.
  unfold check_provision. intros Hc. outcome Hc. apply negb_false_iff in Hm. split; [done|]. split; [done|].
  assert (version r2 = version st) as Hv.
  { destruct (in_class d ONT_CLASS); [|destruct (is_type d AON_CPE)].
    - outcome Hm2. injection Hm2 as <-. by eapply olt_path_version.
    - outcome Hm2. injection Hm2 as <-. apply aon_path_version.
    - by injection Hm2 as <-. }
  destruct (is_type d OLT).
  - pose proof (collect_version uc s r2) as Hr. destruct (collect_devices_links uc s r2) as [inp st1]. simpl in Hr.
    outcome Hc. injection Hc as <-. congruence.
  - case_match; [injection Hc as <-; done|]. outcome Hc. injection Hc as <-. rewrite <-Hv. by eapply dependency_version.
Qed.

Lemma insert_address_total retries db0 w iface p v c : insert_address retries db0 w iface p v c ≠ Diverge.
Proof.
  assert (∀ s p, next_or_raise s p ≠ Diverge) as Hn.
  { intros s q. unfold next_or_raise. destruct (next_free_ip_in_prefix s q) as [[]|]; done. }
  assert (∀ w c, (if match v with Some v => vrf_has_ip (base w) v c.1 | None => false end
    then next_or_raise (base w) p else Ret c) ≠ Diverge) as Hpick by (intros w0 c0; case_match; [apply Hn|done]).
  revert w c. induction retries as [|n IH]; intros w c Hd; cbn [insert_address] in Hd;
    (apply bind_Diverge in Hd as [Hd|(x & _ & Hd)]; [by apply Hpick in Hd|]); (case_match; [done|]);
    (apply bind_Diverge in Hd as [Hd|(y & _ & Hd)]; [by apply Hn in Hd|]); [done|]. by apply IH in Hd.
Qed.

Lemma provision_rows_total env d db0 m rows : (Z.of_nat (size (used m)) + 1 < CAP)%Z → (provision_rows env d db0 m rows).1 ≠ Diverge.
Proof.
  intros Hm Hd. unfold provision_rows in Hd.
  match type of Hd with context [let '(_, _) := ?x in _] => assert (x.1 ≠ Diverge) as Hx; [|destruct x as [r m1] eqn:Er] end.
  - destruct (classify_prefix_role _) as [role|]; [|done]. unfold allocate_mgmt.
    destruct (find_prefix_seeding _ role) as [found w].
    match goal with |- context [match ?x with Ret _ => _ | Raise _ => _ | Diverge => _ end] => destruct x as [[c a]| |] eqn:Eo end; [|done|].
    + destruct (ensure_mgmt_interface env d w m) as [r m1] eqn:Ei. cbn [fst]. intros Hdv.
      apply bind_Diverge in Hdv as [Hdv|(x & _ & Hdv)]; [|done]. apply bind_Diverge in Hdv as [Hdv|(w1 & _ & Hdv)].
      * rewrite Hdv in Ei. revert Ei. unfold ensure_mgmt_interface. destruct (get_interface _ _); [done|].
        destruct (next_mac_run (penv_mac env) m Hm) as (mac & m2 & -> & _). by case_bool_decide.
      * case_match; [done|]. apply bind_Diverge in Hdv as [Hdv|(x & _ & Hdv)]; [by apply insert_address_total in Hdv|done].
    + exfalso. clear -Eo. apply bind_Diverge in Eo as [Eo|(p & _ & Eo)]; [by apply or_raise_total in Eo|].
      apply bind_Diverge in Eo as [Eo|(c & _ & Eo)]; [unfold next_or_raise in Eo; by destruct (next_free_ip_in_prefix _ _) as [[]|]|].
      apply bind_Diverge in Eo as [Eo|(al & _ & Eo)]; [|done]. unfold reuse_or_refuse in Eo. by repeat case_match.
  - cbn [fst] in Hd, Hx. apply bind_Diverge in Hd as [Hd|(x & _ & Hd)]; [done|].
    apply bind_Diverge in Hd as [Hd|(y & _ & Hd)]; [|done]. unfold finish in Hd.
    apply bind_Diverge in Hd as [Hd|(z & _ & Hd)]; [by apply or_raise_total in Hd|done].
Qed.

(** The whole call, branch by branch. *)
Lemma provision_device_cases env uc d pw r pw' :
  provision_device env uc d pw = (r, pw') →
  match r with
  | Diverge => check_provision uc (base (pw_db pw)) d (pw_dep pw) = Diverge ∨
      (provision_rows env d (pw_db pw) (pw_mac pw) (pw_rows pw)).1 = Diverge
  | Raise _ => pw_db pw' = pw_db pw ∧ pw_rows pw' = pw_rows pw ∧ pw_history pw' = pw_history pw ∧
      version (pw_dep pw') = version (pw_dep pw)
  | Ret ss => is_provisionable (dev_type d) = true ∧ provisioned d = false ∧
      version (pw_dep pw') = (version (pw_dep pw) + 1)%Z ∧
      ∃ oa db rows m, provision_rows env d (pw_db pw) (pw_mac pw) (pw_rows pw) = (Ret (oa, db, rows), m) ∧
        pw_history pw' = pw_history pw ++ [provisioned_event d oa (version (pw_dep pw'))] ∧
        match auto_configure_l3_uplinks db (provisioned_row d) with
        | None => ss = Broken ∧ pw_db pw' = db
        | Some (db', true) => ss = Clean ∧ pw_db pw' = db'
        | Some (db', false) => ss = Pending db' ∧ pw_db pw' = db
        end
  end.
Proof.
  unfold provision_device. destruct (check_provision uc (base (pw_db pw)) d (pw_dep pw)) as [st|e|] eqn:Ec;
    [|by intros [= <- <-]|intros [= <- <-]; by left].
  apply check_provision_Ret in Ec as (Hp & Hn & Hv).
  destruct (provision_rows env d (pw_db pw) (pw_mac pw) (pw_rows pw)) as [[[[oa db] rows]|e|] m] eqn:Er;
    [|by intros [= <- <-]|intros [= <- <-]; by right].
  unfold publish, bump_version. cbn [fst snd].
  destruct (auto_configure_l3_uplinks db (provisioned_row d)) as [[db' []]|] eqn:Ea; intros [= <- <-];
    (split; [done|]); (split; [done|]); (split; [unfold version in *; simpl; by rewrite Hv|]);
    exists oa, db, rows, m; rewrite Ea; (split; [done|]); (split; [unfold version in *; simpl; by rewrite Hv|done]).
Qed.

(** Provisioning is atomic and always ends.  With two MAC addresses left the
    call returns or raises; a refused call leaves the database, the event log,
    the bus and the topology version as they were; a successful one happens only
    for a provisionable device that was not provisioned, commits exactly one
    transaction, moves the version by one and publishes one event that carries
    it; what is committed afterwards is the transaction's database, grown by the
    configuration of the router's uplinks when that committed. *)
Lemma provision_device_atomic env uc d pw r pw' :
  provision_device env uc d pw = (r, pw') →
  (Z.of_nat (size (used (pw_mac pw))) + 1 < CAP)%Z →
  constraints (base (pw_db pw)) → addr_constraints (addresses (base (pw_db pw))) →
  match r with
  | Diverge => False
  | Raise _ => pw_db pw' = pw_db pw ∧ pw_rows pw' = pw_rows pw ∧ pw_history pw' = pw_history pw ∧
      version (pw_dep pw') = version (pw_dep pw)
  | Ret ss => is_provisionable (dev_type d) = true ∧ provisioned d = false ∧
      version (pw_dep pw') = (version (pw_dep pw) + 1)%Z ∧
      ∃ a db rows, transaction env d (pw_db pw) (pw_rows pw) a db rows ∧
        pw_history pw' = pw_history pw ++ [provisioned_event d (Some a) (version (pw_dep pw) + 1)] ∧
        match ss with
        | Clean => auto_configure_l3_uplinks db (provisioned_row d) = Some (pw_db pw', true)
        | Pending db' => pw_db pw' = db ∧ auto_configure_l3_uplinks db (provisioned_row d) = Some (db', false)
        | Broken => pw_db pw' = db ∧ auto_configure_l3_uplinks db (provisioned_row d) = None
        end
  end.
Proof.
  intros E Hm Hc Hac. apply provision_device_cases in E. destruct r as [ss|e|]; [|done|].
  - destruct E as (Hp & Hn & Hv & oa & db & rows & m & Hr & Hh & Ha).
    apply provision_rows_Ret in Hr as (a & -> & Ht); [|done..]. repeat (split; [done|]).
    exists a, db, rows. rewrite <-Hv. split; [done|]. split; [done|].
    destruct (auto_configure_l3_uplinks db (provisioned_row d)) as [[db' []]|]; destruct Ha as [-> ->]; done.
  - destruct E as [E|E]; [by apply check_total in E|by apply provision_rows_total in E].
Qed.

(** * The invariant of a sequence of requests *)

(** The constraints hold, and every provisioned device of a provisionable type has
    its management interface and an address on it. *)
Record inventory_ok (s : DB) : Prop := {
  inv_constraints : constraints s;
  inv_addresses : addr_constraints (addresses s);
  inv_managed d : d ∈ devices s → provisioned d = true → is_provisionable (dev_type d) = true →
    is_Some (get_interface s (mgmt_name (dev_id d))) ∧ is_Some (addr_of s (mgmt_name (dev_id d)))
}.

(** Rows of [s] that are still found in [t]. *)
Record keeps (s t : DB) : Prop := {
  kp_interface k : is_Some (get_interface s k) → is_Some (get_interface t k);
  kp_address : ∃ l, addresses t = addresses s ++ l
}.

Lemma keeps_addr_of s t k : keeps s t → is_Some (addr_of s k) → is_Some (addr_of t k).
Proof. intros [_ [l Hl]] [r Hr]. unfold addr_of in *. rewrite Hl, find_row_app, Hr. by eexists. Qed.

Lemma keeps_trans s t u : keeps s t → keeps t u → keeps s u.
Proof. intros [H1 [l Hl]] [H2 [k Hk]]. split; [auto|]. exists (l ++ k). by rewrite Hk, Hl, app_assoc. Qed.

Lemma keeps_refl s : keeps s s.
Proof. split; [done|]. exists []. by rewrite app_nil_r. Qed.

Lemma grows_keeps s t : grows s t → keeps s t.
Proof.
  intros [_ _ _ I _ A _ _]. split; [|done]. intros k [i Hi]. specialize (I k). rewrite Hi in I.
  destruct (get_interface t k); [by eexists|done].
Qed.

Lemma transaction_keeps env d db0 rows a w rows' : transaction env d db0 rows a w rows' →
  keeps (base db0) (base w) ∧ is_Some (get_interface (base w) (mgmt_name (dev_id d))) ∧ is_Some (addr_of (base w) (mgmt_name (dev_id d))).
Proof.
  intros [_ _ Hi Ha _ _ _ _ _].
  assert (keeps (base db0) (base w)) as Hk.
  { split.
    - intros k [i Hik]. unfold get_interface in *. destruct Hi as [_ ->|mac _ ->]; [by eexists|]. rewrite find_row_app, Hik. by eexists.
    - destruct Ha as [? _ ->|c row _ _ _ _ _ _ ->]; [exists []; by rewrite app_nil_r|by eexists]. }
  split; [done|]. split.
  - destruct Hi as [Hs Hi|mac Hn Hi]; [by apply Hk|]. unfold get_interface in *. rewrite Hi, find_row_app, Hn. simpl.
    rewrite String.eqb_refl. by eexists.
  - destruct Ha as [row Hr _|c row Hn _ _ _ -> _ Ha]; [apply (keeps_addr_of _ _ _ Hk); by eexists|].
    unfold addr_of in *. rewrite Ha, find_row_app, Hn. simpl. rewrite String.eqb_refl. by eexists.
Qed.

Lemma inventory_step s t d : inventory_ok s → constraints t → addr_constraints (addresses t) → keeps s t →
  (∀ x, x ∈ devices t → x ∈ devices s ∨ dev_id x = dev_id d) →
  is_Some (get_interface t (mgmt_name (dev_id d))) ∧ is_Some (addr_of t (mgmt_name (dev_id d))) → inventory_ok t.
Proof.
  intros [_ _ Hm] Hc Ha Hk Hd [H1 H2]. constructor; [done..|]. intros x Hx Hp Ht.
  destruct (Hd x Hx) as [Hx'| ->]; [|done]. destruct (Hm x Hx' Hp Ht) as [H3 H4].
  split; [by apply Hk|by eapply keeps_addr_of].
Qed.

Lemma write_device_elem d s x : x ∈ devices (write_device d s) → x ∈ devices s ∨ x = d.
Proof. intros [?|(r & _ & _ & ->)]%elem_of_update_row; [by left|by right]. Qed.

Lemma constraints_grows s t : grows s t → constraints s → constraints t.
Proof.
  intros [D L (_ & _ & M) _ K _ _ _] [[K1 K2 K3 K4] C1 C2 C3 C4].
  assert (∀ u : DB, if_id <$> interfaces u = (λ p, p.1.1) <$> if_keys u) as E1 by (intros; unfold if_keys; by rewrite <-list_fmap_compose).
  assert (∀ u : DB, (λ i, (if_device_id i, if_name i)) <$> interfaces u = (λ p, (p.1.2, p.2.1)) <$> if_keys u) as E2
    by (intros; unfold if_keys; by rewrite <-list_fmap_compose).
  assert (∀ u : DB, omap if_mac_address (interfaces u) = omap (λ p, p.2.2) (if_keys u)) as E3.
  { intros u. unfold if_keys. induction (interfaces u) as [|i l IH]; [done|]. csimpl. destruct (if_mac_address i); csimpl; by rewrite IH. }
  constructor; [constructor|..]; rewrite ?D, ?L, ?M, ?E1, ?E2, ?E3, ?K; rewrite <-?E1, <-?E2, <-?E3; done.
Qed.

Lemma provision_keeps env uc d pw r pw' :
  provision_device env uc d pw = (r, pw') → get_device (base (pw_db pw)) (dev_id d) = Some d →
  inventory_ok (base (pw_db pw)) → inventory_ok (base (pw_db pw')) ∧ keeps (base (pw_db pw)) (base (pw_db pw')).
Proof.
  intros E Hd Hinv. pose proof Hinv as [Hc Hac _]. pose proof (keeps_refl (base (pw_db pw))) as Hrefl.
  apply provision_device_cases in E as Hcase. destruct r as [ss|e|].
  2: { destruct Hcase as (-> & _). done. }
  2: { assert (pw_db pw' = pw_db pw) as ->; [|done]. revert E. clear. unfold provision_device.
       destruct (check_provision _ _ _ _); [|intros; by simplify_eq..].
       destruct (provision_rows _ _ _ _ _) as [[[[oa db] rows]|e|] m]; [|intros; by simplify_eq..].
       unfold publish, bump_version. repeat case_match; intros; by simplify_eq. }
  destruct Hcase as (Hp & Hn & Hv & oa & db & rows & m & Hr & _ & Ha).
  apply provision_rows_Ret in Hr as (a & -> & Ht); [|done..]. destruct (transaction_keeps _ _ _ _ _ _ _ Ht) as (Hk & Hi & Hadr).
  assert (inventory_ok (base db)) as Hdb.
  { apply (inventory_step (base (pw_db pw)) _ d); [done|apply Ht|apply Ht|done| |done].
    intros x. rewrite (tx_device _ _ _ _ _ _ _ Ht). intros [?| ->]%write_device_elem; [by left|by right]. }
  assert (pw_db pw' = db ∨ auto_configure_l3_uplinks db (provisioned_row d) = Some (pw_db pw', true)) as [-> |Hauto].
  { destruct (auto_configure_l3_uplinks db (provisioned_row d)) as [[db' []]|]; destruct Ha as [_ ->]; auto. }
  { done. }
  assert (get_device (base db) (dev_id (provisioned_row d)) = Some (provisioned_row d)) as Hrow.
  { unfold get_device. rewrite (tx_device _ _ _ _ _ _ _ Ht). apply (get_written d); done. }
  pose proof (auto_configure_addresses _ _ _ _ Hauto) as Hadr'.
  destruct (auto_configure_facts _ _ _ _ Hrow Hauto) as (d' & _ & Hd' & Hg & _).
  assert (dev_id d' = dev_id d) as Hid by (destruct Hd' as [-> |[v ->]]; done).
  assert (keeps (base db) (base (pw_db pw'))) as Hkg.
  { apply grows_keeps in Hg. split; [exact (kp_interface _ _ Hg)|exact (kp_address _ _ Hg)]. }
  split; [|by eapply keeps_trans].
  apply (inventory_step (base db) _ d); [done| |by apply Hadr', Hdb|done| |].
  - eapply constraints_grows; [exact Hg|]. by apply constraints_write, Hdb.
  - intros x. rewrite (gr_devices _ _ Hg). intros [?| ->]%write_device_elem; [by left|by right].
  - split; [by apply Hkg|by eapply keeps_addr_of].
Qed.

(** Requests by device id, one after the other; an unknown id is answered 404. *)
Fixpoint run_provisions (ops : list (PEnv * bool * string)) (pw : PWorld) : PWorld :=
  match ops with
  | [] => pw
  | (env, uc, k) :: ops' =>
      run_provisions ops'
        match get_device (base (pw_db pw)) k with
        | Some d => (provision_device env uc d pw).2
        | None => pw
        end
  end.

End world.

(** * A site with a core router and an OLT *)

#[local] Existing Instance max_row_ids.

Definition site_db : DB :=
  mkDB [device0 "core1" CORE_ROUTER; device0 "olt1" OLT]
    [mkInterface "core1-p1" "core1" "p1" None ADMIN_UP None None None None None;
     mkInterface "olt1-up" "olt1" "up" None ADMIN_UP None None None None None]
    [link0 "core1__olt1" "core1-p1" "olt1-up"] [] [] [] [] [] [].

Definition site : IpamDB := mkIpamDB site_db [] [] [].
Definition penv0 : PEnv := mkPEnv "2025-01-01T00:00:00" DbOk true None None.
Definition olt1 : Device := device0 "olt1" OLT.
Definition site_world : PWorld (G := AssocGraph) := mkPWorld site fresh_state [] [] new_state.

Lemma site_constraints : constraints (base site) ∧ addr_constraints (addresses (base site)).
Proof. split; [apply (bool_decide_unpack (constraints (base site)))|apply (bool_decide_unpack (addr_constraints (addresses (base site))))]; vm_compute; exact I. Qed.


Lemma provision_device_atomic_witness :
  ∃ ss pw', provision_device penv0 true olt1 site_world = (Ret ss, pw') ∧ version (pw_dep pw') = 1%Z ∧
    provisioned olt1 = false.
Proof.
  destruct (provision_device penv0 true olt1 site_world) as [[ss|e|] pw'] eqn:E; [|vm_compute in E; discriminate E..].
  pose proof (provision_device_atomic _ _ _ _ _ _ E eq_refl (proj1 site_constraints) (proj2 site_constraints)) as (_ & Hn & Hv & _).
  exists ss, pw'. split; [reflexivity|]. split; [exact Hv|exact Hn].
Defined.

(** The first address of the OLT prefix is held in the management VRF by a row
    without a prefix; 253 of its 254 addresses are free. *)
Definition held_site : IpamDB :=
  let w := ensure_ipam_defaults site in
  with_base (set_addresses [mkInterfaceAddress 1 "core1-p1" "10.251.0.1" 24 (Some 1%Z) None] (base w)) w.

Lemma held_address_exhausts_witness :
  (provision_rows penv0 olt1 held_site fresh_state []).1 ∈ [Raise (raise_code POOL_EXHAUSTED); Raise ConstraintViolation] ∧
  next_free_ip_in_prefix (base held_site) (mkPrefix 2 "10.251.0.0/24" 1 (Some "olt_mgmt")) = Some (Some ("10.251.0.1", 24%Z)) ∧
  allocated_in (base held_site) (mkPrefix 2 "10.251.0.0/24" 1 (Some "olt_mgmt")) = 0%Z.
Proof.
  split; [|split; vm_compute; reflexivity].
  apply (held_address_exhausts penv0 olt1 held_site fresh_state [] "olt_mgmt"
    (mkPrefix 2 "10.251.0.0/24" 1 (Some "olt_mgmt")) (mkVRF 1 "mgmt") ("10.251.0.1", 24%Z)).
  - apply (bool_decide_unpack (addr_constraints (addresses (base held_site)))). vm_compute. exact I.
  - reflexivity.
  - reflexivity.
  - vm_compute. reflexivity.
  - vm_compute. reflexivity.
  - vm_compute. reflexivity.
  - vm_compute. reflexivity.
  - vm_compute. reflexivity.
Defined.

