(* ===== verification/Status.v ===== *)
(** Device status: [services/status_service.py] ([evaluate_device_status]) and
    [services/status_service_passive.py] ([eval_passive_status]).

    The functions read the database [s].  The answer of the dependency resolver
    to "does this device have an upstream L3 path" is the parameter
    [upstream_ok]; StatusRecompute instantiates it with the resolver's model. *)

From S2P Require Import Prelude PyFloat Models LinkRules LinkStatus Worklist Scenario L3Trace.

(** Type groups of status_service_passive.py. *)
Definition UPSTREAM_TYPES : list DeviceType := [OLT; AON_SWITCH; CORE_ROUTER; EDGE_ROUTER].
Definition TERMINATOR_TYPES : list DeviceType := [ONT; BUSINESS_ONT; AON_CPE].
Definition PASSIVE_TYPES : list DeviceType := [ODF; NVT; SPLITTER; HOP].

(** The type of the device row with id [k] is one of [ts]. *)
Definition has_type (s : DB) (ts : list DeviceType) (k : string) : bool :=
  match get_device s k with Some d => mem (dev_type d) ts | None => false end.

(** The interface at the other end of each link that touches device [k], in the
    order of the link table. *)
Definition far_interfaces (s : DB) (k : string) : list Interface :=
  let if_ids := if_id <$> interfaces_of s k in
  l ← links s;
  if negb (mem (a_interface_id l) if_ids || mem (b_interface_id l) if_ids) then []
  else
    match get_interface s (if mem (a_interface_id l) if_ids then b_interface_id l else a_interface_id l) with
    | Some i => [i]
    | None => []
    end.

(** [neighbors]: the set of device ids there. *)
Definition neighbor_ids (s : DB) (k : string) : list string :=
  remove_dups (if_device_id <$> far_interfaces s k).

(** [other_dev] over the links of [k]: the ids of existing devices. *)
Definition adjacent_devices (s : DB) (k : string) : list string :=
  omap (λ i, dev_id <$> get_device s (if_device_id i)) (far_interfaces s k).

Section evaluation.
Context (s : DB) (upstream_ok : Device → bool).

Definition up_at (k : string) : bool :=
  match get_device s k with Some d => upstream_ok d | None => false end.

(** ** eval_passive_status *)

Definition passive_succ (k : string) : list string :=
  filter (λ j, has_type s PASSIVE_TYPES j = true) (adjacent_devices s k).

(** The test of the upstream loop at a popped device. *)
Definition finds_upstream (candidates : list string) (checked : gset string) (cur : string) : bool :=
  (mem cur candidates && up_at cur) ||
  existsb (λ j, bool_decide (j ∉ checked) && has_type s UPSTREAM_TYPES j && up_at j)
    (adjacent_devices s cur).

(** The test of the terminator loop. *)
Definition finds_terminator (visited : gset string) (cur : string) : bool :=
  existsb (has_type s TERMINATOR_TYPES) (adjacent_devices s cur).

(** A device expands to at most its adjacent devices, once. *)
Definition passive_fuel (q : list string) : nat :=
  length q + sum_list_with (λ k, length (passive_succ k)) (if_device_id <$> interfaces s).

(** [nbrs]: the neighbour set in the order in which it is iterated. *)
Definition eval_passive_on (nbrs : list string) : option Status :=
  if (length nbrs <? 2)%nat then Some DOWN
  else
    let upstream_candidates := filter (λ k, has_type s UPSTREAM_TYPES k = true) nbrs in
    let downstream_terms := filter (λ k, has_type s TERMINATOR_TYPES k = true) nbrs in
    let passive_neighbors := filter (λ k, has_type s PASSIVE_TYPES k = true) nbrs in
    let stack := reverse (upstream_candidates ++ passive_neighbors) in
    match explore_until push_stack passive_succ (finds_upstream upstream_candidates)
            (passive_fuel stack) ∅ stack with
    | None => None
    | Some false => Some DOWN
    | Some true =>
        let has_terminator :=
          if bool_decide (downstream_terms = []) then
            explore_until push_fifo passive_succ finds_terminator
              (passive_fuel passive_neighbors) ∅ passive_neighbors
          else Some true in
        match has_terminator with
        | None => None
        | Some t => Some (if t then UP else DOWN)
        end
    end.

(** Python iterates a set in an unspecified order; this is one of them. *)
Definition eval_passive_status (device : Device) : Status :=
  default DEGRADED (eval_passive_on (neighbor_ids s (dev_id device))).

(** ** evaluate_device_status *)

Definition evaluate_device_status (device : Device) (upstream_cache : option (gmap string bool))
    : Status :=
  match dev_override device with
  | Some st => st
  | None =>
      match derive_role device with
      | ROLE_ALWAYS_ONLINE => UP
      | ROLE_PASSIVE => eval_passive_status device
      | ROLE_ACTIVE =>
          if negb (provisioned device) then DOWN
          else if mem (dev_type device) [ONT; BUSINESS_ONT] &&
                  bool_decide (signal_status device = Some SIG_NO_SIGNAL) then DOWN
          else
            match upstream_cache ≫= (λ c, c !! dev_id device) with
            | Some true => UP
            | Some false => DOWN
            | None =>
                if mem (dev_type device) L3_TYPES then
                  if has_l3_reachability_to_anchor s device then UP else DOWN
                else if upstream_ok device then UP else DOWN
            end
      end
  end.
End evaluation.

(** * The passive rule *)

Section passive.
Context (s : DB) (upstream_ok : Device → bool).

(** [j] is adjacent to [k] and passive. *)
Definition passive_hop (k j : string) : Prop := edge (passive_succ s) k j.

(** Some device of the passive chains that start at the neighbours, or one next
    to it, is an access or routing device with an upstream path. *)
Definition chain_has_upstream (nbrs : list string) : Prop :=
  ∃ x, reaches passive_hop
         (filter (λ k, has_type s UPSTREAM_TYPES k = true ∨ has_type s PASSIVE_TYPES k = true) nbrs) x ∧
       ((x ∈ nbrs ∧ has_type s UPSTREAM_TYPES x = true ∧ up_at s upstream_ok x = true) ∨
        ∃ y, y ∈ adjacent_devices s x ∧ has_type s UPSTREAM_TYPES y = true ∧ up_at s upstream_ok y = true).

(** A terminator is a neighbour or is adjacent to a chain of passive neighbours. *)
Definition chain_has_terminator (nbrs : list string) : Prop :=
  (∃ t, t ∈ nbrs ∧ has_type s TERMINATOR_TYPES t = true) ∨
  ∃ x t, reaches passive_hop (filter (λ k, has_type s PASSIVE_TYPES k = true) nbrs) x ∧
         t ∈ adjacent_devices s x ∧ has_type s TERMINATOR_TYPES t = true.

Lemma far_interfaces_owner k i : i ∈ far_interfaces s k → k ∈ if_device_id <$> interfaces s.
Proof.
  unfold far_interfaces. intros (l & Hi & Hl)%list_elem_of_bind.
  destruct (mem (a_interface_id l) _ || mem (b_interface_id l) _) eqn:E; simpl in Hi; [|set_solver].
  assert (∃ j, j ∈ if_id <$> interfaces_of s k) as [j Hj].
  { apply orb_true_iff in E as [E|E]; apply mem_true in E; eauto. }
  apply list_elem_of_fmap in Hj as (i' & -> & [<- Hi']%list_elem_of_filter).
  by apply list_elem_of_fmap_2.
Qed.

Lemma passive_succ_outside k :
  k ∉ (list_to_set (if_device_id <$> interfaces s) : gset string) → passive_succ s k = [].
Proof.
  intros Hk. unfold passive_succ, adjacent_devices. destruct (far_interfaces s k) as [|i rest] eqn:E; [done|].
  destruct Hk. apply elem_of_list_to_set, (far_interfaces_owner k i). rewrite E. set_solver.
Qed.

Lemma passive_fuel_enough q :
  length q + pending_work (passive_succ s) (list_to_set (if_device_id <$> interfaces s)) ∅ ≤ passive_fuel s q.
Proof.
  unfold passive_fuel, pending_work. apply Nat.add_le_mono_l, sum_elements_le. set_solver.
Qed.

Lemma has_type_disjoint ts us k :
  (∀ t, t ∈ ts → t ∉ us) → has_type s ts k = true → has_type s us k = true → False.
Proof.
  unfold has_type. destruct (get_device s k); [|done]. intros Hd Ht%mem_true Hu%mem_true. by eapply Hd.
Qed.

Lemma passive_not_upstream k :
  has_type s PASSIVE_TYPES k = true → has_type s UPSTREAM_TYPES k = true → False.
Proof. apply has_type_disjoint. vm_compute. set_solver. Qed.

(** The first loop decides [chain_has_upstream]. *)
Lemma upstream_loop nbrs :
  let cands := filter (λ k, has_type s UPSTREAM_TYPES k = true) nbrs in
  let stack := reverse (cands ++ filter (λ k, has_type s PASSIVE_TYPES k = true) nbrs) in
  ∃ b, explore_until push_stack (passive_succ s) (finds_upstream s upstream_ok cands)
         (passive_fuel s stack) ∅ stack = Some b ∧ (b = true ↔ chain_has_upstream nbrs).
Proof.
  intros cands stack.
  assert (∀ x, x ∈ stack ↔ x ∈ filter (λ k, has_type s UPSTREAM_TYPES k = true ∨ has_type s PASSIVE_TYPES k = true) nbrs)
    as Hst.
  { intros x. unfold stack, cands. rewrite elem_of_reverse, elem_of_app, !list_elem_of_filter. tauto. }
  set (P := λ x, x ∈ cands ∨ has_type s PASSIVE_TYPES x = true).
  set (found := λ x, (x ∈ cands ∧ up_at s upstream_ok x = true) ∨
     ∃ y, y ∈ adjacent_devices s x ∧ has_type s UPSTREAM_TYPES y = true ∧ up_at s upstream_ok y = true).
  destruct (explore_until_run push_stack (passive_succ s) (finds_upstream s upstream_ok cands)
    push_stack_elem P found) with (U := list_to_set (if_device_id <$> interfaces s) : gset string)
    (fuel := passive_fuel s stack) (q := stack) as (b & Hb & Hspec).
  - intros x y _ _ [Hy _]%list_elem_of_filter. by right.
  - intros V x. unfold finds_upstream. rewrite orb_true_iff, andb_true_iff, existsb_exists.
    intros [[Hx%mem_true Hu]|(y & Hy & Ht)]; [by left|right]. exists y.
    rewrite <-list_elem_of_In in Hy. bools. auto.
  - intros V x HP HV Hf. unfold finds_upstream. apply orb_true_iff.
    destruct Hf as [[Hx Hu]|(y & Hy & Hty & Hu)].
    { left. apply andb_true_iff. split; [by apply mem_true|done]. }
    destruct (decide (y ∈ V)) as [HyV|HyV].
    + destruct (decide (y = x)) as [->|Hne].
      * left. destruct HP as [Hx|Hp]; [|by destruct (passive_not_upstream x)].
        apply andb_true_iff. split; [by apply mem_true|done].
      * destruct (HV y HyV Hne) as [[Hc|Hp] Hn]; [|by destruct (passive_not_upstream y)].
        destruct Hn. by left.
    + right. apply existsb_exists. exists y. rewrite <-list_elem_of_In. split; [done|].
      rewrite Hty, Hu, bool_decide_true by done. done.
  - apply push_stack_length.
  - intros x. apply passive_succ_outside.
  - intros x [?|?]%elem_of_reverse%elem_of_app; [by left|right]. by apply list_elem_of_filter in H as [? _].
  - apply passive_fuel_enough.
  - exists b. split; [done|]. rewrite Hspec. unfold chain_has_upstream, found, cands.
    apply exist_proper. intros x. rewrite list_elem_of_filter.
    assert (reaches (edge (passive_succ s)) stack x ↔ reaches passive_hop (filter
      (λ k, has_type s UPSTREAM_TYPES k = true ∨ has_type s PASSIVE_TYPES k = true) nbrs) x) as ->; [|naive_solver].
    unfold reaches. apply exist_proper. intros z. by rewrite Hst.
Qed.

(** The second loop decides the other half of [chain_has_terminator]. *)
Lemma terminator_loop nbrs :
  let q := filter (λ k, has_type s PASSIVE_TYPES k = true) nbrs in
  ∃ b, explore_until push_fifo (passive_succ s) (finds_terminator s) (passive_fuel s q) ∅ q = Some b ∧
       (b = true ↔ ∃ x t, reaches passive_hop q x ∧ t ∈ adjacent_devices s x ∧
                          has_type s TERMINATOR_TYPES t = true).
Proof.
  intros q. set (found := λ x, ∃ t, t ∈ adjacent_devices s x ∧ has_type s TERMINATOR_TYPES t = true).
  assert (∀ V x, finds_terminator s V x = true ↔ found x) as Hf.
  { intros V x. unfold finds_terminator. rewrite existsb_exists. apply exist_proper. intros y.
    by rewrite list_elem_of_In. }
  destruct (explore_until_run push_fifo (passive_succ s) (finds_terminator s) push_fifo_elem (λ _, True) found)
    with (U := list_to_set (if_device_id <$> interfaces s) : gset string)
    (fuel := passive_fuel s q) (q := q) as (b & Hb & Hspec); try done.
  - intros V x. apply Hf.
  - intros V x _ _. apply Hf.
  - apply push_fifo_length.
  - intros x. apply passive_succ_outside.
  - apply passive_fuel_enough.
  - exists b. split; [done|]. rewrite Hspec. unfold found. naive_solver.
Qed.

(** The verdict for a passive device, for any order in which the neighbour set
    is iterated. *)
Lemma eval_passive_verdict nbrs :
  ∃ st, eval_passive_on s upstream_ok nbrs = Some st ∧ (st = UP ∨ st = DOWN) ∧
    (st = UP ↔ 2 ≤ length nbrs ∧ chain_has_upstream nbrs ∧ chain_has_terminator nbrs).
Proof.
  unfold eval_passive_on. destruct (Nat.ltb_spec (length nbrs) 2).
  { exists DOWN. split; [done|]. split; [by right|]. split; [done|]. lia. }
  destruct (upstream_loop nbrs) as (b & -> & Hb). destruct b.
  2:{ exists DOWN. split; [done|]. split; [by right|]. naive_solver. }
  destruct (terminator_loop nbrs) as (t & -> & Ht). unfold chain_has_terminator. case_bool_decide as Hd.
  - exists (if t then UP else DOWN). split; [done|]. split; [destruct t; auto|].
    assert (¬ ∃ t, t ∈ nbrs ∧ has_type s TERMINATOR_TYPES t = true) as Hno.
    { intros (x & Hx & Hxt). assert (x ∈ filter (λ k, has_type s TERMINATOR_TYPES k = true) nbrs) as Hin
        by (by apply list_elem_of_filter). rewrite Hd in Hin. set_solver. }
    destruct t; naive_solver.
  - exists UP. split; [done|]. split; [by left|]. split; [|done]. intros _. split; [done|]. split; [naive_solver|].
    left. destruct (filter (λ k, has_type s TERMINATOR_TYPES k = true) nbrs) as [|x ?] eqn:E; [done|]. exists x.
    assert (x ∈ filter (λ k, has_type s TERMINATOR_TYPES k = true) nbrs) as Hin by (rewrite E; set_solver).
    apply list_elem_of_filter in Hin. tauto.
Qed.
End passive.

Section order.
Context (s : DB) (upstream_ok : Device → bool).

Lemma filter_reaches_perm (Q : string → Prop) `{∀ k, Decision (Q k)} ks js x :
  ks ≡ₚ js → reaches (passive_hop s) (filter Q ks) x → reaches (passive_hop s) (filter Q js) x.
Proof.
  intros Hp (z & Hz & Hr). exists z. split; [|done]. rewrite list_elem_of_filter in *. by rewrite <-Hp.
Qed.

#[local] Instance chain_has_upstream_proper :
  Proper ((≡ₚ) ==> iff) (chain_has_upstream s upstream_ok).
Proof.
  assert (∀ ks js, ks ≡ₚ js → chain_has_upstream s upstream_ok ks → chain_has_upstream s upstream_ok js) as Hi.
  { intros ks js Hp (x & Hx & Hf). exists x. split; [by eapply filter_reaches_perm|]. by rewrite <-Hp. }
  intros ks js Hp. split; by apply Hi.
Qed.

#[local] Instance chain_has_terminator_proper : Proper ((≡ₚ) ==> iff) (chain_has_terminator s).
Proof.
  assert (∀ ks js, ks ≡ₚ js → chain_has_terminator s ks → chain_has_terminator s js) as Hi.
  { intros ks js Hp [(t & Ht & Hty)|(x & t & Hx & Ht)]; [left; exists t; by rewrite <-Hp|].
    right. exists x, t. split; [by eapply filter_reaches_perm|done]. }
  intros ks js Hp. split; by apply Hi.
Qed.

(** The verdict does not depend on the iteration order of the neighbour set. *)
Lemma eval_passive_perm ks js :
  ks ≡ₚ js → eval_passive_on s upstream_ok ks = eval_passive_on s upstream_ok js.
Proof.
  intros Hp. destruct (eval_passive_verdict s upstream_ok ks) as (a & -> & Ha & Hau).
  destruct (eval_passive_verdict s upstream_ok js) as (b & -> & Hb & Hbu). f_equal.
  assert (a = UP ↔ b = UP) as Hab; [|naive_solver].
  by rewrite Hau, Hbu, Hp.
Qed.

Lemma eval_passive_status_spec d :
  (eval_passive_status s upstream_ok d = UP ∨ eval_passive_status s upstream_ok d = DOWN) ∧
  (eval_passive_status s upstream_ok d = UP ↔
     2 ≤ length (neighbor_ids s (dev_id d)) ∧ chain_has_upstream s upstream_ok (neighbor_ids s (dev_id d)) ∧
     chain_has_terminator s (neighbor_ids s (dev_id d))).
Proof.
  unfold eval_passive_status.
  by destruct (eval_passive_verdict s upstream_ok (neighbor_ids s (dev_id d))) as (st & -> & ? & ?).
Qed.
End order.

(** The verdict for a passive device (ODF, NVT, splitter, HOP) without
    override.  The two traversals end whatever the topology, the result is UP
    or DOWN, it does not depend on the order in which Python iterates the
    neighbour set, and it is UP exactly when the device has two neighbours, its
    passive chains touch an access or routing device with an upstream path, and
    they touch a terminator (ONT, business ONT or AON CPE). *)
Lemma passive_status_spec s upstream_ok d nbrs cache :
  dev_override d = None → derive_role d = ROLE_PASSIVE → nbrs ≡ₚ neighbor_ids s (dev_id d) →
  let st := evaluate_device_status s upstream_ok d cache in
  eval_passive_on s upstream_ok nbrs = Some st ∧ (st = UP ∨ st = DOWN) ∧
  (st = UP ↔ 2 ≤ length nbrs ∧ chain_has_upstream s upstream_ok nbrs ∧ chain_has_terminator s nbrs).
Proof.
  intros Ho Hr Hn st. assert (eval_passive_on s upstream_ok nbrs = Some st) as E.
  { subst st. unfold evaluate_device_status. rewrite Ho, Hr. unfold eval_passive_status.
    rewrite (eval_passive_perm s upstream_ok _ _ Hn).
    by destruct (eval_passive_verdict s upstream_ok (neighbor_ids s (dev_id d))) as (? & -> & _). }
  destruct (eval_passive_verdict s upstream_ok nbrs) as (st' & E' & H1 & H2).
  rewrite E in E'. injection E' as ->. auto.
Qed.

Lemma passive_status_spec_witness :
  evaluate_device_status demo (λ _, true) (demo_device "odf") None = UP ∧
  chain_has_terminator demo ["spl"; "olt"].
Proof.
  destruct (passive_status_spec demo (λ _, true) (demo_device "odf") ["spl"; "olt"] None)
    as (_ & _ & Hup); [reflexivity|reflexivity| |].
  - change (neighbor_ids demo (dev_id (demo_device "odf"))) with (neighbor_ids demo "odf").
    vm_compute. constructor.
  - assert (evaluate_device_status demo (λ _, true) (demo_device "odf") None = UP) as E
      by (vm_compute; reflexivity).
    split; [exact E|]. apply Hup in E. apply E.
Defined.

(** What [evaluate_device_status] decides when it is given no precomputed
    reachability: an override wins, the always-online types are up, and an
    active device is up exactly when it is provisioned, is not an ONT without
    signal, and reaches an anchor (by its own L3 trace for a router, by the
    dependency resolver otherwise).  Without an override only UP and DOWN occur. *)
Lemma device_status_spec s upstream_ok d :
  let st := evaluate_device_status s upstream_ok d None in
  match dev_override d with
  | Some o => st = o
  | None =>
      (st = UP ∨ st = DOWN) ∧
      (derive_role d = ROLE_ALWAYS_ONLINE → st = UP) ∧
      (derive_role d = ROLE_ACTIVE →
         st = UP ↔ provisioned d = true ∧
           ¬ (dev_type d ∈ [ONT; BUSINESS_ONT] ∧ signal_status d = Some SIG_NO_SIGNAL) ∧
           (if mem (dev_type d) L3_TYPES then has_l3_reachability_to_anchor s d else upstream_ok d) = true)
  end.
Proof.
  intros st. subst st. unfold evaluate_device_status. destruct (dev_override d); [done|].
  destruct (derive_role d) eqn:Hr.
  - destruct (provisioned d); cbn [negb]; [|by split; [auto|]; split; [done|]; naive_solver].
    destruct (mem (dev_type d) [ONT; BUSINESS_ONT]) eqn:Hm, (bool_decide (signal_status d = _)) eqn:Hs;
      cbn [andb]; repeat match goal with
        | H : bool_decide _ = true |- _ => apply bool_decide_eq_true in H
        | H : bool_decide _ = false |- _ => apply bool_decide_eq_false in H
        | H : mem _ [_; _] = true |- _ => apply mem_true in H
        | H : mem _ [_; _] = false |- _ => apply mem_false in H
        end; simpl;
      destruct (mem (dev_type d) L3_TYPES), (has_l3_reachability_to_anchor s d), (upstream_ok d); naive_solver.
  - split; [apply eval_passive_status_spec|]. done.
  - naive_solver.
Qed.
