(* ===== verification/StatusRecompute.v ===== *)
(** Status recomputation: [services/status_recompute.py], [recompute_dirty],
    [detect_causal_chain_python] and [bulk_update_device_statuses] of
    [services/status_service.py], [services/status_propagation_store.py] and
    [services/status_diagnostics.py].

    The dependency resolver appears through its result without caches
    ([upstream_fresh]), which the cached resolver was shown to return.  The Go
    status service is a parameter: the set of device ids it returns, or [None]
    when it is unavailable or fails. *)

From S2P Require Import Prelude PyFloat Models LinkRules LinkStatus Worklist Scenario L3Trace.
From S2P Require Import NxGraph Pathfinding Dependency DependencyProofs Status Adjacency.

(** * The adjacency used for propagation *)

(** The counters of [_override_fp]: devices forced UP, DOWN, links forced UP, DOWN. *)
Definition override_fp (s : DB) : nat * nat * nat * nat :=
  let count (st : Status) (os : list (option Status)) := length (filter (λ o, o = Some st) os) in
  (count UP (dev_override <$> devices s), count DOWN (dev_override <$> devices s),
   count UP (link_override <$> links s), count DOWN (link_override <$> links s)).

(** The two devices joined by a link that is passable and physically viable. *)
Definition link_arc (env : option float) (s : DB) (l : Link) : option (string * string) :=
  if is_link_passable s l && is_link_physically_viable env s l then
    match truthy (if_to_dev s (a_interface_id l)), truthy (if_to_dev s (b_interface_id l)) with
    | Some a, Some b => Some (a, b)
    | _, _ => None
    end
  else None.

(** A device and its container. *)
Definition container_arc (d : Device) : option (string * string) :=
  match truthy (parent_container_id d) with Some p => Some (dev_id d, p) | None => None end.

Definition build_adjacency (env : option float) (s : DB) : Adjacency :=
  let m := foldl (λ m a, add_both a.1 a.2 m) ∅ (omap (link_arc env s) (links s)) in
  foldl (λ m a, add_both a.1 a.2 m) m (omap container_arc (devices s)).

(** [_GRAPH_CACHE] *)
Record GraphCache := mkGraphCache {
  gc_version : Z;
  gc_override_fp : option (nat * nat * nat * nat);
  gc_adjacency : option Adjacency;
  gc_device_ids : option (list string)
}.

Definition empty_graph_cache : GraphCache := mkGraphCache (-1) None None None.

(** [topo_v] is the caller's version, else the store's. *)
Definition ensure_graph_cache (env : option float) (s : DB) (topo_v : Z) (gc : GraphCache)
    : (Adjacency * list string) * GraphCache :=
  let cur_fp := override_fp s in
  let rebuilt :=
    let adj := build_adjacency env s in
    let ids := dev_id <$> devices s in
    ((adj, ids), mkGraphCache topo_v (Some cur_fp) (Some adj) (Some ids)) in
  if (gc_version gc =? topo_v)%Z && bool_decide (gc_override_fp gc = Some cur_fp) then
    match gc_adjacency gc, gc_device_ids gc with
    | Some adj, Some ids => ((adj, ids), gc)
    | _, _ => rebuilt
    end
  else rebuilt.

(** * Propagation *)

(** The anchors: backbone gateways when there are any, else every always-online device. *)
Definition is_seed (s : DB) (d : Device) : bool :=
  let has_backbone_anchor := existsb (λ d, bool_decide (dev_type d = BACKBONE_GATEWAY)) (devices s) in
  bool_decide (derive_role d = ROLE_ALWAYS_ONLINE) &&
  negb (has_backbone_anchor && negb (bool_decide (dev_type d = BACKBONE_GATEWAY))) &&
  match dev_override d with None => true | Some st => bool_decide (st = UP) end.

Definition seed_ids (s : DB) : list string :=
  remove_dups (dev_id <$> filter (λ d, is_seed s d = true) (devices s)).

Definition is_up_candidate (d : Device) : bool :=
  match dev_override d with
  | Some st => if bool_decide (st = UP) then true else false
  | None => true
  end &&
  match derive_role d with
  | ROLE_ALWAYS_ONLINE | ROLE_PASSIVE => true
  | ROLE_ACTIVE => provisioned d
  end.

Definition candidate_id (s : DB) (k : string) : bool :=
  match get_device s k with Some d => is_up_candidate d | None => false end.

(** The Python flood; its queue holds every device at most once. *)
Definition flood (s : DB) (m : Adjacency) : option (gset string) :=
  let seeds := sorted_strs (seed_ids s) in
  match search append_resort (candidate_id s) (λ _, None : option unit) (sorted_adjacent m)
          (length seeds + length (devices s)) (list_to_set seeds) seeds with
  | Some (inr reachable) => Some reachable
  | _ => None
  end.

(** ** status_propagation_store.py *)

Record PropagationStore := mkProp {
  reachable_up : option (gset string);
  seen_devices : option (gset string)
}.

Definition set_snapshot (up : gset string) (seen : option (list string)) (p : PropagationStore)
    : PropagationStore :=
  mkProp (Some up) (Some (match seen with Some ids => list_to_set ids | None => up end)).

Definition is_up (k : string) (p : PropagationStore) : option bool :=
  match reachable_up p with
  | None => None
  | Some up =>
      match seen_devices p with
      | Some seen => if bool_decide (k ∈ seen) then Some (bool_decide (k ∈ up)) else None
      | None => Some (bool_decide (k ∈ up))
      end
  end.

Definition clear (p : PropagationStore) : PropagationStore := mkProp None None.

(** ** status_diagnostics.py *)

Record DeviceDiagnostics := mkDiag {
  upstream_l3_ok : bool; diag_anchor : option string; diag_chain : list string;
  reason_codes : list string; legacy_bfs_reachable : bool
}.

Definition set_device_diag (k : string) (r : UpstreamL3Result) (legacy : bool)
    (data : gmap string DeviceDiagnostics) : gmap string DeviceDiagnostics :=
  <[k := mkDiag (up_ok r) (up_anchor r) (up_chain r) (up_reasons r) legacy]> data.

(** * Recomputation *)

(** A [device.status.changed] event. *)
Record StatusEvent := mkStatusEvent {
  ev_device : string; ev_status : Status; ev_override : option Status; ev_topo_version : option Z
}.

(** What a recomputation changes. *)
Record RecState := mkRec {
  rec_db : DB;
  rec_cache : GraphCache;
  rec_prop : PropagationStore;
  rec_diag : gmap string DeviceDiagnostics;
  rec_events : list StatusEvent
}.

Definition set_devices (ds : list Device) (s : DB) : DB :=
  mkDB ds (interfaces s) (links s) (media s) (addresses s) (routes s) (neighbors s)
    (bridge_domains s) (mac_entries s).

Section recompute.
Context {G : Type} `{NxGraph G}.
Context (env : option float) (store_version : Z).

Definition device_upstream (s : DB) (d : Device) : bool := up_ok (upstream_fresh (G := G) s d).

Definition status_of (s : DB) (d : Device) : Status :=
  evaluate_device_status s (device_upstream s) d None.

(** Each device is evaluated before the commit, on the same database. *)
Definition bulk_update_device_statuses (ids : list string) (s : DB) : DB :=
  set_devices
    ((λ d, if mem (dev_id d) ids && negb (bool_decide (dev_status d = status_of s d))
           then set_status (status_of s d) d else d) <$> devices s) s.

(** One device of the evaluation loop: its transition, if any. *)
Definition transition (s : DB) (baseline : option (gmap string Status)) (d : Device)
    : option (string * Status * Status) :=
  let before := default (status_of s d) (baseline ≫= λ b, b !! dev_id d) in
  let cur := default d (get_device s (dev_id d)) in
  let after := status_of s cur in
  if bool_decide (before = after) then None else Some (dev_id d, before, after).

Definition status_event (s : DB) (tv : option Z) (t : string * Status * Status) : StatusEvent :=
  mkStatusEvent t.1.1 t.2 (get_device s t.1.1 ≫= dev_override) tv.

Definition recompute_devices_status (go : option (gset string)) (device_ids : option (list string))
    (tv : option Z) (baseline : option (gmap string Status)) (st : RecState)
    : option (list (string * Status * Status) * RecState) :=
  let s := rec_db st in
  let ds := match device_ids with
            | None => devices s
            | Some ids => omap (get_device s) ids
            end in
  let '((adj, seen), gc) := ensure_graph_cache env s (default store_version tv) (rec_cache st) in
  match match go with Some r => Some r | None => flood s adj end with
  | None => None
  | Some reachable =>
      let prop := set_snapshot reachable (Some seen) (rec_prop st) in
      let diag := foldl (λ m d, set_device_diag (dev_id d) (upstream_fresh (G := G) s d)
                                  (bool_decide (dev_id d ∈ reachable)) m) (rec_diag st) (devices s) in
      let transitions := omap (transition s baseline) ds in
      let events := rec_events st ++ (status_event s tv <$> transitions) in
      let s' := match transitions with
                | [] => s
                | _ => bulk_update_device_statuses ((λ t, t.1.1) <$> transitions) s
                end in
      Some (transitions, mkRec s' gc prop diag events)
  end.

(** ** recompute_dirty *)

Record Dirty := mkDirty { dirty_devices : list string; dirty_links : list string }.

Record RecomputeConfig := mkConfig {
  enable_incremental : bool; cfg_topo_version : option Z; cfg_baseline : option (gmap string Status)
}.

Definition link_seed_devices (s : DB) (ids : list string) : list string :=
  l ← filter (λ l, link_id l ∈ ids) (links s);
  match truthy (if_to_dev s (a_interface_id l)) with Some a => [a] | None => [] end ++
  match truthy (if_to_dev s (b_interface_id l)) with Some b => [b] | None => [] end.

Definition dirty_seeds (s : DB) (dirty : Dirty) : list string :=
  sorted_strs (remove_dups (dirty_devices dirty ++ link_seed_devices s (dirty_links dirty))).

(** The traversal: the affected component, sorted. *)
Definition affected_component (m : Adjacency) (seeds : list string) : option (list string) :=
  match explore push_resort (sorted_adjacent m)
          (length seeds + sum_list_with (λ u, length (sorted_adjacent m u)) (elements (dom m))) ∅ seeds with
  | Some visited => Some (sorted_strs (elements visited))
  | None => None
  end.

(** [upstream_cache]: the precomputed reachability of the active devices. *)
Definition upstream_map (s : DB) (ds : list Device) : gmap string bool :=
  foldl (λ m d, if bool_decide (derive_role d = ROLE_ACTIVE)
                then <[dev_id d := device_upstream s d]> m else m) ∅ ds.

Definition baseline_map (s : DB) (affected : list string) : gmap string Status :=
  let batch := filter (λ d, dev_id d ∈ affected) (devices s) in
  let cache := upstream_map s batch in
  foldl (λ m k, match find_row (λ d, String.eqb (dev_id d) k) (reverse batch) with
                | None => m
                | Some d => <[k := evaluate_device_status s (device_upstream s) d (Some cache)]> m
                end) ∅ affected.

Definition recompute_dirty (go : option (gset string)) (dirty : Dirty) (cfg : option RecomputeConfig)
    (st : RecState) : option (list (string * Status * Status) * RecState) :=
  let s := rec_db st in
  let seeds := dirty_seeds s dirty in
  let incremental := match cfg with Some c => enable_incremental c | None => true end in
  let tv := cfg ≫= cfg_topo_version in
  let baseline_override := cfg ≫= cfg_baseline in
  if negb incremental || bool_decide (seeds = []) then
    recompute_devices_status go None tv baseline_override st
  else
    let '((adj, _), gc) := ensure_graph_cache env s (default store_version tv) (rec_cache st) in
    match affected_component adj seeds with
    | None => None
    | Some affected =>
        let baseline := match baseline_override with
                        | Some b => b
                        | None => baseline_map s affected
                        end in
        recompute_devices_status go (Some affected) tv (Some baseline)
          (mkRec s gc (rec_prop st) (rec_diag st) (rec_events st))
    end.
End recompute.
