(* ===== verification/StatusProofs.v ===== *)
(** What status recomputation does: the flood from the anchors, the component
    affected by a change, and the transitions that are reported and stored. *)

From S2P Require Import Prelude PyFloat Models LinkRules LinkStatus Worklist Scenario L3Trace.
From S2P Require Import NxGraph Pathfinding Dependency DependencyProofs Status Adjacency StatusRecompute.

(** * Adjacency *)

(** The propagation graph: links in service and containers, in both directions. *)
Lemma build_adjacency_spec env s x y :
  y ∈ adjacent (build_adjacency env s) x ↔
  ∃ u v, ((u, v) ∈ omap (link_arc env s) (links s) ∨ (u, v) ∈ omap container_arc (devices s)) ∧
         ((x = u ∧ y = v) ∨ (x = v ∧ y = u)).
Proof.
  unfold build_adjacency. rewrite !elem_of_add_arcs. unfold adjacent. rewrite lookup_empty. simpl.
  split; [|naive_solver].
  intros [[[]%not_elem_of_empty|[?|?]]|[?|?]]; eauto 10.
Qed.

(** * The flood *)

(** One step of propagation: across an adjacency, into a device that can be up. *)
Definition propagates (s : DB) (m : Adjacency) (u v : string) : Prop :=
  v ∈ adjacent m u ∧ candidate_id s v = true.

Lemma candidate_id_device s k : candidate_id s k = true → k ∈ device_ids s.
Proof.
  unfold candidate_id. destruct (get_device s k) as [d|] eqn:E; [|done].
  apply get_device_Some in E as [Hd <-]. by intros _; apply elem_of_device_ids.
Qed.

Lemma reaches_same {A} (R Q : relation A) (l k : list A) x :
  (∀ a b, R a b ↔ Q a b) → (∀ a, a ∈ l ↔ a ∈ k) → reaches R l x ↔ reaches Q k x.
Proof.
  intros HR Hl. assert (∀ a b, rtc R a b ↔ rtc Q a b) as Hr.
  { intros a b. split; induction 1; [apply rtc_refl|eapply rtc_l; [by apply HR|done]| |];
      [apply rtc_refl|eapply rtc_l; [by apply HR|done]]. }
  unfold reaches. apply exist_proper. intros a. by rewrite Hl, Hr.
Qed.

Lemma flood_reaches s m :
  ∃ R, flood s m = Some R ∧ ∀ k, k ∈ R ↔ reaches (propagates s m) (seed_ids s) k.
Proof.
  unfold flood. set (seeds := sorted_strs (seed_ids s)).
  assert (∀ x y, hop (candidate_id s) (sorted_adjacent m) x y ↔ propagates s m x y) as Hh.
  { intros x y. unfold hop, propagates. by rewrite elem_of_sorted_adjacent. }
  destruct (search_total append_resort (candidate_id s) (λ _, None : option unit) (sorted_adjacent m)
              append_resort_perm (device_ids s) (length seeds + length (devices s)) (list_to_set seeds) seeds)
    as [r Hr].
  - intros x y [_ Hy]. by apply candidate_id_device.
  - pose proof (size_device_ids s).
    assert (size (device_ids s ∖ list_to_set seeds) ≤ size (device_ids s)) by (apply subseteq_size; set_solver).
    lia.
  - rewrite Hr. pose proof (search_reaches _ _ _ _ append_resort_perm _ _ _ Hr) as Hs.
    destruct r as [b|V]; [by destruct Hs as (? & _ & ?)|]. exists V. split; [done|].
    intros k. rewrite (proj1 Hs k). apply reaches_same; [done|].
    intros a. unfold seeds, sorted_strs. apply elem_of_sort_by.
Qed.

(** * The affected component *)

Lemma affected_component_spec m seeds :
  ∃ l, affected_component m seeds = Some l ∧ NoDup l ∧
    StronglySorted (λ a b, str_leb a b = true) l ∧
    ∀ k, k ∈ l ↔ reaches (λ u v, v ∈ adjacent m u) seeds k.
Proof.
  unfold affected_component.
  destruct (explore_total push_resort (sorted_adjacent m) push_resort_length (dom m)
    (length seeds + sum_list_with (λ u, length (sorted_adjacent m u)) (elements (dom m))) ∅ seeds) as [V HV].
  - intros x. apply sorted_adjacent_outside.
  - unfold pending_work. apply Nat.add_le_mono_l, sum_elements_le. set_solver.
  - rewrite HV. exists (sorted_strs (elements V)). split; [done|]. unfold sorted_strs.
    split; [rewrite sort_by_perm; apply NoDup_elements|].
    split; [apply sort_by_sorted; [apply str_leb_total|apply str_leb_trans]|].
    intros k. rewrite elem_of_sort_by, elem_of_elements.
    rewrite (explore_reaches _ _ push_resort_elem _ _ _ k HV). apply reaches_same; [|done].
    intros a b. apply elem_of_sorted_adjacent.
Qed.

(** * The graph cache *)

(** An entry stamped with version [v] describes the database [s]. *)
Definition cache_ok (env : option float) (s : DB) (v : Z) (gc : GraphCache) : Prop :=
  gc_version gc = v → ∀ adj ids, gc_adjacency gc = Some adj → gc_device_ids gc = Some ids →
  adj = build_adjacency env s ∧ ids = dev_id <$> devices s.

Lemma ensure_graph_cache_ok env s v gc :
  cache_ok env s v gc →
  ∃ gc', ensure_graph_cache env s v gc = ((build_adjacency env s, dev_id <$> devices s), gc') ∧
         cache_ok env s v gc'.
Proof.
  intros Hc. unfold ensure_graph_cache.
  assert (cache_ok env s v (mkGraphCache v (Some (override_fp s)) (Some (build_adjacency env s))
    (Some (dev_id <$> devices s)))) as Hnew by (intros _ adj ids [= <-] [= <-]; done).
  destruct (Z.eqb_spec (gc_version gc) v) as [Hv|]; simpl; [|by eexists].
  case_bool_decide; [|by eexists].
  destruct (gc_adjacency gc) as [adj|] eqn:Ea; [|by eexists].
  destruct (gc_device_ids gc) as [ids|] eqn:Ei; [|by eexists].
  destruct (Hc Hv adj ids Ea Ei) as [-> ->]. by exists gc.
Qed.

(** * Evaluation with precomputed reachability *)

Section transitions.
Context {G : Type} `{NxGraph G}.
Context (env : option float) (store_version : Z).

Lemma upstream_map_lookup s ds d :
  NoDup (dev_id <$> ds) → d ∈ ds →
  upstream_map (G := G) s ds !! dev_id d =
    if bool_decide (derive_role d = ROLE_ACTIVE) then Some (device_upstream (G := G) s d) else None.
Proof.
  unfold upstream_map. intros Hn Hd.
  assert (∀ m : gmap string bool, (∀ x, x ∈ ds → m !! dev_id x = None) →
    foldl (λ m d, if bool_decide (derive_role d = ROLE_ACTIVE)
                  then <[dev_id d := device_upstream (G := G) s d]> m else m) m ds !! dev_id d =
    if bool_decide (derive_role d = ROLE_ACTIVE) then Some (device_upstream (G := G) s d) else None) as Hg;
    [|by apply Hg; intros; apply lookup_empty].
  assert (∀ ds (m : gmap string bool) k, k ∉ dev_id <$> ds →
    foldl (λ m d, if bool_decide (derive_role d = ROLE_ACTIVE)
                  then <[dev_id d := device_upstream (G := G) s d]> m else m) m ds !! k = m !! k) as Hother.
  { clear. intros ds. induction ds as [|x ds IH]; intros m k Hk; simpl; [done|].
    rewrite IH by set_solver. case_bool_decide; [|done]. rewrite lookup_insert_ne; [done|set_solver]. }
  induction ds as [|x ds IH]; intros m Hm; simpl; [set_solver|]. simpl in Hn.
  apply NoDup_cons in Hn as [Hx Hn]. apply elem_of_cons in Hd as [->|Hd].
  - rewrite Hother by done. case_bool_decide; [apply lookup_insert_eq|apply Hm; set_solver].
  - apply IH; [done|done|]. intros y Hy. assert (dev_id x ≠ dev_id y) as Hne.
    { intros E. apply Hx. rewrite E. by apply list_elem_of_fmap_2. }
    clear IH. case_bool_decide; [rewrite lookup_insert_ne by done|]; apply Hm; set_solver.
Qed.

(** For a router the resolver's answer is its own trace. *)
Lemma device_upstream_router s d :
  mem (dev_type d) L3_TYPES = true → device_upstream (G := G) s d = has_l3_reachability_to_anchor s d.
Proof. intros Hr. unfold device_upstream, upstream_fresh, is_router. by rewrite Hr. Qed.

(** The precomputed reachability changes no verdict. *)
Lemma evaluate_with_cache s d (c : gmap string bool) :
  c !! dev_id d = None ∨ (derive_role d = ROLE_ACTIVE → c !! dev_id d = Some (device_upstream (G := G) s d)) →
  evaluate_device_status s (device_upstream (G := G) s) d (Some c) = status_of (G := G) s d.
Proof.
  intros Hc. unfold status_of, evaluate_device_status. destruct (dev_override d); [done|].
  destruct (derive_role d); try done. do 2 (case_match; [done|]). simpl.
  destruct Hc as [->|Hc]; [done|]. rewrite Hc by done.
  destruct (mem (dev_type d) L3_TYPES) eqn:Hr; [rewrite device_upstream_router by done|];
    by destruct (_ : bool).
Qed.

Lemma batch_row s (Q : Device → Prop) `{∀ d, Decision (Q d)} d :
  keys_ok s → d ∈ devices s → Q d →
  find_row (λ x, String.eqb (dev_id x) (dev_id d)) (reverse (filter Q (devices s))) = Some d.
Proof.
  intros Hk Hd HQ. apply find_key_unique.
  - rewrite fmap_reverse, reverse_Permutation. eapply sublist_NoDup; [apply Hk|].
    apply fmap_sublist, sublist_filter.
  - rewrite elem_of_reverse. by apply list_elem_of_filter.
Qed.

(** The devices a recomputation looks at. *)
Definition requested (s : DB) (device_ids : option (list string)) (d : Device) : Prop :=
  d ∈ devices s ∧ match device_ids with None => True | Some ids => dev_id d ∈ ids end.

Lemma requested_spec s ids d :
  keys_ok s → requested s ids d ↔
  d ∈ match ids with None => devices s | Some ids => omap (get_device s) ids end.
Proof.
  intros Hk. unfold requested. destruct ids as [ids|]; [|naive_solver].
  rewrite list_elem_of_omap. split.
  - intros [Hd Hi]. exists (dev_id d). split; [done|]. by apply get_device_key.
  - intros (k & Hi & Hd). apply get_device_Some in Hd as [Hd <-]. done.
Qed.

Lemma transition_row s b d :
  keys_ok s → d ∈ devices s →
  transition (G := G) s b d =
    let before := default (status_of (G := G) s d) (b ≫= λ b, b !! dev_id d) in
    if bool_decide (before = status_of (G := G) s d) then None
    else Some (dev_id d, before, status_of (G := G) s d).
Proof. intros Hk Hd. unfold transition. by rewrite (get_device_key s d Hk Hd). Qed.

Lemma recompute_run go ids tv b st :
  ∃ ts st', recompute_devices_status (G := G) env store_version go ids tv b st = Some (ts, st') ∧
    ts = omap (transition (G := G) (rec_db st) b)
           (match ids with None => devices (rec_db st) | Some ids => omap (get_device (rec_db st)) ids end) ∧
    rec_db st' = match ts with
                 | [] => rec_db st
                 | _ => bulk_update_device_statuses (G := G) ((λ t, t.1.1) <$> ts) (rec_db st)
                 end ∧
    rec_events st' = rec_events st ++ (status_event (rec_db st) tv <$> ts) ∧
    (cache_ok env (rec_db st) (default store_version tv) (rec_cache st) →
     go = None →
     rec_prop st' = set_snapshot
       (default ∅ (flood (rec_db st) (build_adjacency env (rec_db st))))
       (Some (dev_id <$> devices (rec_db st))) (rec_prop st)).
Proof.
  unfold recompute_devices_status.
  destruct (ensure_graph_cache _ _ _ _) as [[adj seen] gc] eqn:Eg.
  destruct (match go with Some r => Some r | None => flood (rec_db st) adj end) as [R|] eqn:ER.
  2:{ destruct go; [done|]. destruct (flood_reaches (rec_db st) adj) as (R & E & _). congruence. }
  eexists _, _. split; [reflexivity|]. cbn [rec_db rec_events rec_prop].
  split; [done|]. split; [done|]. split; [done|]. intros Hc ->.
  destruct (ensure_graph_cache_ok _ _ _ _ Hc) as (gc' & Eg' & _). rewrite Eg' in Eg.
  injection Eg as <- <- <-. by rewrite ER.
Qed.

(** Statuses written back by [bulk_update_device_statuses]. *)
Lemma bulk_update_rows s ids d' :
  d' ∈ devices (bulk_update_device_statuses (G := G) ids s) ↔
  ∃ d, d ∈ devices s ∧ d' = if mem (dev_id d) ids then set_status (status_of (G := G) s d) d else d.
Proof.
  unfold bulk_update_device_statuses, set_devices. simpl. rewrite list_elem_of_fmap.
  apply exist_proper. intros d. destruct (mem (dev_id d) ids); simpl; [|naive_solver].
  case_bool_decide as E; simpl; [|naive_solver].
  assert (set_status (status_of (G := G) s d) d = d) as -> by (rewrite <-E; by destruct d). naive_solver.
Qed.

Lemma transition_ids s b (ds : list Device) d :
  keys_ok s → (∀ x, x ∈ ds → x ∈ devices s) → d ∈ devices s →
  dev_id d ∈ (λ t, t.1.1) <$> omap (transition (G := G) s b) ds ↔
  d ∈ ds ∧ is_Some (transition (G := G) s b d).
Proof.
  intros Hk Hds Hd. rewrite list_elem_of_fmap. split.
  - intros (t & Ht & (x & Hx & Htx)%list_elem_of_omap).
    assert (x = d) as ->; [|eauto].
    rewrite (transition_row s b x Hk (Hds x Hx)) in Htx. simpl in Htx.
    case_bool_decide; [done|]. injection Htx as <-. simpl in Ht.
    pose proof (get_device_key s d Hk Hd) as E1. pose proof (get_device_key s x Hk (Hds x Hx)) as E2.
    congruence.
  - intros (Hin & t & Ht). exists t. split; [|apply list_elem_of_omap; eauto].
    rewrite (transition_row s b d Hk Hd) in Ht. simpl in Ht. case_bool_decide; [done|].
    by injection Ht as <-.
Qed.

(** A baseline that repeats the current statuses yields no transition. *)
Lemma silent_run go ids tv b st :
  keys_ok (rec_db st) →
  (∀ d, d ∈ devices (rec_db st) →
     b = None ∨ ∃ m, b = Some m ∧ (m !! dev_id d = None ∨ m !! dev_id d = Some (status_of (G := G) (rec_db st) d))) →
  ∃ st', recompute_devices_status (G := G) env store_version go ids tv b st = Some ([], st') ∧
    rec_db st' = rec_db st ∧ rec_events st' = rec_events st.
Proof.
  intros Hk Hb. destruct (recompute_run go ids tv b st) as (ts & st' & E & Hts & Hdb & Hev & _).
  assert (ts = []) as ->.
  { rewrite Hts. apply omap_none. intros d Hd.
    assert (d ∈ devices (rec_db st)) as Hd' by (eapply requested_spec; eauto).
    rewrite (transition_row _ _ _ Hk Hd'). simpl.
    destruct (Hb d Hd') as [->|(m & -> & [Hm|Hm])]; simpl; rewrite ?Hm; simpl; by rewrite bool_decide_true. }
  exists st'. split; [done|]. split; [done|]. simpl in Hev. by rewrite app_nil_r in Hev.
Qed.

Lemma baseline_map_lookup s aff d :
  keys_ok s → d ∈ devices s →
  baseline_map (G := G) s aff !! dev_id d = None ∨
  baseline_map (G := G) s aff !! dev_id d = Some (status_of (G := G) s d).
Proof.
  intros Hk Hd. unfold baseline_map. set (batch := filter (λ d, dev_id d ∈ aff) (devices s)).
  set (f := λ (m : gmap string Status) k, _).
  assert (∀ l m, (∀ x, x ∈ l → x ∈ aff) →
    (m !! dev_id d = None ∨ m !! dev_id d = Some (status_of (G := G) s d)) →
    (foldl f m l !! dev_id d = None ∨ foldl f m l !! dev_id d = Some (status_of (G := G) s d))) as Hg;
    [|apply Hg; [done|left; apply lookup_empty]].
  intros l. induction l as [|k l IH]; intros m Hl Hm; simpl; [done|].
  apply IH; [set_solver|]. unfold f at 1 2. destruct (find_row _ _) as [x|] eqn:Ex; [|done].
  destruct (decide (k = dev_id d)) as [->|Hne]; [|by rewrite lookup_insert_ne].
  rewrite lookup_insert_eq. right. f_equal.
  unfold batch in Ex. rewrite batch_row in Ex by (auto; set_solver). injection Ex as <-.
  apply evaluate_with_cache. right. intros Hr. rewrite (upstream_map_lookup s batch d).
  - by rewrite bool_decide_true.
  - eapply sublist_NoDup; [apply Hk|]. apply fmap_sublist, sublist_filter.
  - apply list_elem_of_filter. split; [set_solver|done].
Qed.
End transitions.

Lemma recompute_baseline_spec {G} `{NxGraph G} env v go ids tv base st :
  keys_ok (rec_db st) →
  ∃ ts st', recompute_devices_status (G := G) env v go ids tv (Some base) st = Some (ts, st') ∧
    (∀ k x y, (k, x, y) ∈ ts ↔
       ∃ d, requested (rec_db st) ids d ∧ dev_id d = k ∧ base !! k = Some x ∧
            y = status_of (G := G) (rec_db st) d ∧ x ≠ y) ∧
    rec_events st' = rec_events st ++ (status_event (rec_db st) tv <$> ts) ∧
    (∀ d', d' ∈ devices (rec_db st') ↔
       ∃ d, d ∈ devices (rec_db st) ∧
         d' = if mem (dev_id d) ((λ t, t.1.1) <$> ts)
              then set_status (status_of (G := G) (rec_db st) d) d else d).
Proof.
  intros Hk. destruct (recompute_run (G := G) env v go ids tv (Some base) st)
    as (ts & st' & E & Hts & Hdb & Hev & _).
  exists ts, st'. split; [done|]. split; [|split; [done|]].
  - intros k x y. rewrite Hts, list_elem_of_omap.
    setoid_rewrite (requested_spec (rec_db st) ids _ Hk).
    apply exist_proper. intros d. split.
    + intros [Hd Ht].
      assert (d ∈ devices (rec_db st)) as Hd' by (eapply requested_spec; eauto).
      rewrite (transition_row _ _ _ Hk Hd') in Ht. simpl in Ht. case_bool_decide as Eb; [done|].
      injection Ht as <- <- <-. destruct (base !! dev_id d) as [x|]; simpl in *; [|done]. naive_solver.
    + intros (Hd & <- & Hb & -> & Hne). split; [done|].
      assert (d ∈ devices (rec_db st)) as Hd' by (eapply requested_spec; eauto).
      rewrite (transition_row _ _ _ Hk Hd'). simpl. rewrite Hb. simpl. by rewrite bool_decide_false.
  - intros d'. rewrite Hdb. destruct ts as [|t ts0]; [|apply bulk_update_rows].
    simpl. unfold mem. naive_solver.
Qed.

(** C26. A recomputation reports and stores exactly the changes with respect to
    the caller's baseline.  A device is in the returned transitions, with its
    baseline and its evaluated status, exactly when it was requested and the
    two differ; one event is published per transition; afterwards the stored
    status of those devices is the evaluated one and every other row is as
    before.  The recomputation always ends. *)
Theorem recompute_reports_changes {G} `{NxGraph G} env v go ids tv base st :
  keys_ok (rec_db st) →
  ∃ ts st', recompute_devices_status (G := G) env v go ids tv (Some base) st = Some (ts, st') ∧
    (∀ k x y, (k, x, y) ∈ ts ↔
       ∃ d, requested (rec_db st) ids d ∧ dev_id d = k ∧ base !! k = Some x ∧
            y = status_of (G := G) (rec_db st) d ∧ x ≠ y) ∧
    rec_events st' = rec_events st ++ (status_event (rec_db st) tv <$> ts) ∧
    (∀ d', d' ∈ devices (rec_db st') ↔
       ∃ d, d ∈ devices (rec_db st) ∧
         d' = if mem (dev_id d) ((λ t, t.1.1) <$> ts)
              then set_status (status_of (G := G) (rec_db st) d) d else d).
Proof. apply recompute_baseline_spec. Qed.

Lemma recompute_reports_changes_witness :
  ∃ ts st', recompute_devices_status (G := AssocGraph) None 0 None (Some ["ont"]) None
              (Some {["ont" := DOWN]}) (mkRec demo empty_graph_cache (mkProp None None) ∅ []) = Some (ts, st') ∧
    ("ont", DOWN, UP) ∈ ts.
Proof.
  destruct (recompute_reports_changes (G := AssocGraph) None 0 None (Some ["ont"]) None {["ont" := DOWN]}
              (mkRec demo empty_graph_cache (mkProp None None) ∅ []) demo_keys) as (ts & st' & E & Hts & _).
  exists ts, st'. split; [exact E|]. apply Hts. exists (demo_device "ont"). split.
  - split; [demo_row|apply mem_true; reflexivity].
  - split; [reflexivity|]. split; [reflexivity|]. split; [vm_compute; reflexivity|discriminate].
Defined.

(** Without a baseline from the caller the baseline is evaluated on the database
    that already holds the change, so every device is found unchanged. *)
Lemma recompute_dirty_silent {G} `{NxGraph G} env v go dirty cfg st :
  keys_ok (rec_db st) → cfg ≫= cfg_baseline = None →
  ∃ st', recompute_dirty (G := G) env v go dirty cfg st = Some ([], st') ∧
    rec_db st' = rec_db st ∧ rec_events st' = rec_events st.
Proof.
  intros Hk Hb. unfold recompute_dirty. rewrite Hb.
  destruct (_ || _).
  - apply (silent_run (G := G)); [done|]. intros d Hd. by left.
  - destruct (ensure_graph_cache _ _ _ _) as [[adj seen] gc].
    destruct (affected_component_spec adj (dirty_seeds (rec_db st) dirty)) as (aff & -> & _).
    apply (silent_run (G := G) env v go (Some aff) _ _ (mkRec _ gc _ _ _)); [done|].
    intros d Hd. right. exists (baseline_map (G := G) (rec_db st) aff). split; [done|].
    by apply baseline_map_lookup.
Qed.

(** C27. The propagation snapshot.  When the Go service is not used and the graph
    cache holds no stale entry for this version, after a recomputation [is_up]
    answers for exactly the devices of the database, and says yes exactly for
    those reachable from the anchors across links in service and containers,
    through devices that can be up. *)
Theorem propagation_snapshot {G} `{NxGraph G} env v ids tv base st :
  cache_ok env (rec_db st) (default v tv) (rec_cache st) →
  ∃ ts st', recompute_devices_status (G := G) env v None ids tv base st = Some (ts, st') ∧
    ∀ k, (is_up k (rec_prop st') = None ↔ k ∉ dev_id <$> devices (rec_db st)) ∧
         (k ∈ dev_id <$> devices (rec_db st) →
            is_up k (rec_prop st') = Some true ↔
            reaches (propagates (rec_db st) (build_adjacency env (rec_db st))) (seed_ids (rec_db st)) k).
Proof.
  intros Hc. destruct (recompute_run (G := G) env v None ids tv base st) as (ts & st' & E & _ & _ & _ & Hp).
  exists ts, st'. split; [done|]. rewrite (Hp Hc eq_refl).
  destruct (flood_reaches (rec_db st) (build_adjacency env (rec_db st))) as (R & -> & HR).
  intros k. unfold is_up, set_snapshot. cbn [reachable_up seen_devices default].
  rewrite <-HR. case_bool_decide as Hk; rewrite elem_of_list_to_set in Hk; [|naive_solver].
  split; [naive_solver|]. intros _. case_bool_decide; naive_solver.
Qed.

Lemma propagation_snapshot_witness :
  ∃ ts st', recompute_devices_status (G := AssocGraph) None 0 None None None None
              (mkRec demo empty_graph_cache (mkProp None None) ∅ []) = Some (ts, st') ∧
    (is_up "nowhere" (rec_prop st') = None).
Proof.
  destruct (propagation_snapshot (G := AssocGraph) None 0 None None None
              (mkRec demo empty_graph_cache (mkProp None None) ∅ [])) as (ts & st' & E & Hk).
  - intros Hv. discriminate Hv.
  - exists ts, st'. split; [exact E|]. apply Hk, mem_false. reflexivity.
Defined.
