(* ===== verification/OpticalService.v ===== *)
(** Signal budgets: [services/optical_service.py] and the Python part of
    [clients/go_services/optical_client.py].

    For every ONT the service asks the optical client for its path, computes
    received power and margin, classifies the margin, stores the four signal
    columns and publishes an event when they changed enough; then it lets the
    status service report the transitions.  The Go service is a parameter: what
    it replies for an ONT, or [None] for an RPC error. *)

From S2P Require Import Prelude PyFloat Models Scenario Catalog LinkStatus EventStore Worklist Adjacency.
From S2P Require Import NxGraph Pathfinding Dependency Status StatusRecompute OpticalPath.

(** * OpticalClient *)

(** The dictionary [get_path] returns.  [None]: the key is missing. *)
Record PathAnswer := mkAnswer {
  ans_olt_id : option string;
  path_exists : bool;
  ans_total_attenuation_db : option float;
  ans_total_loss_db : option float;
  ans_links : list string;
  ans_backend : string
}.

(** The protobuf reply of the Go service. *)
Record GoReply := mkGoReply { go_olt_id : string; go_attenuation_db : float; go_links : list string }.

Definition answer_of_go (r : GoReply) : PathAnswer :=
  mkAnswer (truthy (Some (go_olt_id r))) (negb (bool_decide (go_links r = [])))
    (Some (go_attenuation_db r)) None (go_links r) "go".

(** [_python_get_path] *)
Definition python_get_path (path : option OpticalPathResult) : PathAnswer :=
  match path with
  | None => mkAnswer None false None (Some fzero) [] "python"
  | Some p =>
      mkAnswer (Some (path_olt_id p)) true None (Some (total_attenuation_db p))
        ((λ sg, default "" (seg_link_id sg)) <$> segments p) "python"
  end.

Record OpticalClient := mkClient {
  go_available : bool; connection_attempted : bool; use_fallback : bool
}.

Definition new_client : OpticalClient := mkClient false false true.

Definition ensure_connected (connects : bool) (c : OpticalClient) : OpticalClient :=
  if connection_attempted c then c else mkClient connects true (use_fallback c).

Section service.
Context {G : Type} `{NxGraph G} `{Dijkstra G}.

(** What is outside: whether the channel opens, and the replies of the Go service. *)
Record GoOptical := mkGoOptical { connects : bool; go_reply : string → option GoReply }.

Context (go : GoOptical) (cat : Catalog).

(** [get_path], on the client and the resolver's memo table. *)
Definition get_path (s : DB) (ont_id : string) (st : OpticalClient * OpticalState (G := G))
    : PathAnswer * (OpticalClient * OpticalState (G := G)) :=
  let c := ensure_connected (connects go) st.1 in
  match (if go_available c then go_reply go ont_id else None) with
  | Some r => (answer_of_go r, (c, st.2))
  | None =>
      let c := mkClient false (connection_attempted c) (use_fallback c) in
      if use_fallback c then
        let '(path, memo) := resolve_optical_path s ont_id st.2 in (python_get_path path, (c, memo))
      else (mkAnswer None false None (Some fzero) [] "none", (c, st.2))
  end.

(** [recompute_paths] of the client: the Python fallback computes nothing. *)
Record RecomputeReply := mkRecomputeReply { rr_status : string; affected_onts : Z; rr_backend : string }.

Definition recompute_paths (go_result : option RecomputeReply) (st : OpticalClient)
    : RecomputeReply * OpticalClient :=
  let c := ensure_connected (connects go) st in
  match (if go_available c then go_result else None) with
  | Some r => (r, c)
  | None =>
      let c := mkClient false (connection_attempted c) (use_fallback c) in
      (if use_fallback c then mkRecomputeReply "success" 0 "python" else mkRecomputeReply "error" 0 "none", c)
  end.

(** * The budget of one ONT *)

Definition classify_margin (margin : float) : SignalStatus :=
  if fltb margin fzero then SIG_NO_SIGNAL
  else if fltb margin (of_Z 3) then SIG_CRITICAL
  else if fltb margin (of_Z 6) then SIG_WARNING
  else SIG_OK.

Definition set_signal (power margin att : option float) (st : option SignalStatus) (d : Device) : Device :=
  mkDevice (dev_id d) (dev_name d) (dev_type d) (dev_status d) (provisioned d) (dev_override d)
    (tx_power_dbm d) (sensitivity_min_dbm d) (insertion_loss_db d) (dev_capacity d)
    power margin att st
    (parent_container_id d) (slot_id d) (tariff_id d) (dev_vrf_id d) (hardware_model_id d).

Definition tx_of (s : DB) (olt_id : option string) : float :=
  match olt_id ≫= get_device s with
  | Some olt => get_effective_tx_power_dbm cat olt
  | None => fzero
  end.

Definition ont_budget (s : DB) (result : PathAnswer) (ont : Device) : Device :=
  if negb (path_exists result) then
    set_signal None None (attenuation_db ont) (Some SIG_NO_SIGNAL) ont
  else
    let total_loss := default fzero (ans_total_attenuation_db result) in
    let received := fsub (tx_of s (ans_olt_id result)) total_loss in
    let margin := fsub received (get_effective_sensitivity_dbm cat ont) in
    set_signal (Some received) (Some margin) (Some total_loss) (Some (classify_margin margin)) ont.

Definition same_presence {A B} (x : option A) (y : option B) : bool :=
  Bool.eqb (bool_decide (is_Some x)) (bool_decide (is_Some y)).

(** [prev is not None and now is not None and abs(prev - now) >= step] *)
Definition moved (step : float) (prev now : option float) : bool :=
  match prev, now with
  | Some x, Some y => fleb step (fabs (fsub x y))
  | _, _ => false
  end.

Definition signal_changed (prev now : Device) : bool :=
  negb (bool_decide (signal_status prev = signal_status now))
  || negb (same_presence (signal_power_dbm prev) (signal_power_dbm now))
  || negb (same_presence (signal_margin_db prev) (signal_margin_db now))
  || negb (same_presence (attenuation_db prev) (attenuation_db now))
  || moved (dec 1 10) (signal_power_dbm prev) (signal_power_dbm now)
  || moved (dec 1 100) (attenuation_db prev) (attenuation_db now).

(** * recompute_optical_paths_for_affected_onts *)

Definition is_ont_device (d : Device) : bool := mem (dev_type d) [ONT; BUSINESS_ONT].

(** The loop over the ONTs: their new rows, in order. *)
Fixpoint budget_loop (s : DB) (onts : list Device) (st : OpticalClient * OpticalState (G := G))
    : list (Device * Device) * (OpticalClient * OpticalState (G := G)) :=
  match onts with
  | [] => ([], st)
  | ont :: rest =>
      let '(result, st1) := get_path s (dev_id ont) st in
      let '(rows, st2) := budget_loop s rest st1 in
      ((ont, ont_budget s result ont) :: rows, st2)
  end.

(** [s.commit()]: every modified row of the session is written, reported or not. *)
Definition new_row (rows : list (Device * Device)) (d : Device) : Device :=
  match find_row (λ r, String.eqb (dev_id r.1) (dev_id d)) rows with Some r => r.2 | None => d end.

Definition write_signals (rows : list (Device * Device)) (s : DB) : DB :=
  set_devices (new_row rows <$> devices s) s.

Definition signal_name (st : SignalStatus) : string :=
  match st with
  | SIG_OK => "OK" | SIG_WARNING => "WARNING" | SIG_CRITICAL => "CRITICAL" | SIG_NO_SIGNAL => "NO_SIGNAL"
  end.

Definition signal_event (d : Device) : Event :=
  mkBusEvent "device.optical.updated"
    [("id", JStr (dev_id d));
     ("signal_power_dbm", opt_json JFloat (signal_power_dbm d));
     ("signal_margin_db", opt_json JFloat (signal_margin_db d));
     ("signal_status", opt_json (λ st, JStr (signal_name st)) (signal_status d));
     ("received_dbm", opt_json JFloat (signal_power_dbm d));
     ("margin_db", opt_json JFloat (signal_margin_db d));
     ("attenuation_db", opt_json JFloat (attenuation_db d));
     ("total_path_attenuation_db", opt_json JFloat (attenuation_db d))] None.

(** What a recomputation of the budgets changes. *)
Record OpticalWorld := mkOpticalWorld {
  ow_rec : RecState;
  ow_client : OpticalClient;
  ow_memo : OpticalState (G := G);
  ow_history : list Event;
  ow_rows : list EventStoreRecord
}.

(** [env] and [store_version] are those of the status recomputation, [status_go]
    the reply of the Go status service, [append_ok] and [now] those of [publish]. *)
Definition recompute_optical_paths_for_affected_onts (env : option float) (store_version : Z)
    (status_go : option (gset string)) (append_ok : bool) (now : string) (w : OpticalWorld)
    : option (list (string * Status * Status) * OpticalWorld) :=
  let s := rec_db (ow_rec w) in
  let '(rows, (client, memo)) := budget_loop s (filter (λ d, is_ont_device d = true) (devices s)) (ow_client w, ow_memo w) in
  let updated := filter (λ r, signal_changed r.1 r.2 = true) rows in
  match updated with
  | [] => Some ([], mkOpticalWorld (ow_rec w) client memo (ow_history w) (ow_rows w))
  | _ =>
      let baseline : gmap string Status :=
        foldl (λ m r, <[dev_id r.1 := status_of (G := G) s r.1]> m) ∅ updated in
      let s' := write_signals rows s in
      let st := ow_rec w in
      let '(history, log) :=
        foldl (λ acc r, publish append_ok now (signal_event r.2) acc) (ow_history w, ow_rows w) updated in
      '(ts, st') ← recompute_devices_status (G := G) env store_version status_go
                     (Some ((λ r, dev_id r.1) <$> updated)) None (Some baseline)
                     (mkRec s' (rec_cache st) (rec_prop st) (rec_diag st) (rec_events st));
      Some (ts, mkOpticalWorld st' client memo history log)
  end.
End service.
