(* ===== verification/OpticalServiceProofs.v ===== *)
(** What a recomputation of the optical budgets stores, publishes and reports. *)

From S2P Require Import Prelude PyFloat Models Scenario Catalog LinkStatus EventStore Worklist Adjacency.
From S2P Require Import NxGraph Pathfinding Dependency Status StatusRecompute StatusProofs.
From S2P Require Import OpticalPath OpticalPathProofs OpticalService.

Section service.
Context {G : Type} `{NxGraph G} `{Dijkstra G}.
Context (go : GoOptical) (cat : Catalog) (s : DB).

Lemma budget_loop_rows onts (st : OpticalClient * OpticalState (G := G)) :
  fst <$> (budget_loop go cat s onts st).1 = onts ∧
  ∀ d d', (d, d') ∈ (budget_loop go cat s onts st).1 → ∃ answer, d' = ont_budget cat s answer d.
Proof.
  revert st. induction onts as [|ont onts IH]; intros st; [split; [done|set_solver]|]. cbn [budget_loop].
  destruct (get_path go s (dev_id ont) st) as [r st1]. specialize (IH st1).
  destruct (budget_loop go cat s onts st1) as [rows st2]. destruct IH as [IHf IHr]. cbn [fst] in *. split.
  - csimpl. by rewrite IHf.
  - intros d d' [[= -> ->]|Hin]%elem_of_cons; eauto.
Qed.

Lemma ont_budget_id answer d : dev_id (ont_budget cat s answer d) = dev_id d.
Proof. unfold ont_budget. by destruct (negb _). Qed.

(** The rows to write: at most one per device, under its own id. *)
Record budgets_ok (rows : list (Device * Device)) : Prop := {
  budgets_ids d d' : (d, d') ∈ rows → dev_id d' = dev_id d;
  budgets_devices d d' : (d, d') ∈ rows → d ∈ devices s
}.

Lemma new_row_id rows d : budgets_ok rows → dev_id (new_row rows d) = dev_id d.
Proof.
  intros [Hi _]. unfold new_row. destruct (find_row _ rows) as [[o n]|] eqn:E; [|done].
  apply find_row_Some in E as [Hin He]. apply String.eqb_eq in He. simpl in *. rewrite <-He. by eapply Hi.
Qed.

Lemma new_row_budget rows d d' : keys_ok s → budgets_ok rows → NoDup (fst <$> rows) →
  (d, d') ∈ rows → new_row rows d = d'.
Proof.
  intros Hk [Hi Hd] Hnd Hin. unfold new_row.
  destruct (find_row_is_Some (λ r, String.eqb (dev_id r.1) (dev_id d)) rows (d, d') Hin) as [[o n] E].
  { simpl. apply String.eqb_refl. }
  rewrite E. apply find_row_Some in E as [Hon He]. apply String.eqb_eq in He. simpl in *.
  assert (o = d) as ->.
  { pose proof (get_device_key s o Hk (Hd _ _ Hon)) as E1. pose proof (get_device_key s d Hk (Hd _ _ Hin)) as E2. congruence. }
  clear -Hnd Hin Hon. induction rows as [|[a b] rows IH]; [set_solver|]. csimpl in Hnd. apply NoDup_cons in Hnd as [Ha Hnd].
  apply elem_of_cons in Hin as [Hin|Hin]; apply elem_of_cons in Hon as [Hon|Hon]; simplify_eq; auto;
    destruct Ha; apply list_elem_of_fmap; eexists; (split; [|eassumption]); done.
Qed.

Lemma write_signals_keys rows : keys_ok s → budgets_ok rows → keys_ok (write_signals rows s).
Proof.
  intros [] Hr. constructor; simpl; try done. rewrite <-list_fmap_compose.
  assert (dev_id ∘ new_row rows <$> devices s = dev_id <$> devices s) as ->; [|done].
  apply list_fmap_ext. intros i d _. simpl. by apply new_row_id.
Qed.

Lemma baseline_lookup (f : Device → Status) (rows : list (Device * Device)) (m : gmap string Status) k x :
  (∀ d d', (d, d') ∈ rows → d ∈ devices s) → keys_ok s →
  (∀ y, m !! k = Some y → ∃ d, d ∈ devices s ∧ dev_id d = k ∧ f d = y) →
  foldl (λ m r, <[dev_id r.1 := f r.1]> m) m rows !! k = Some x ↔
  (∃ d d', (d, d') ∈ rows ∧ dev_id d = k ∧ f d = x) ∨ m !! k = Some x.
Proof.
  intros Hd Hk. revert m. induction rows as [|[o n] rows IH]; intros m Hm; simpl; [set_solver|].
  rewrite IH; [|intros d d' ?; eapply (Hd d d'); set_solver|].
  - destruct (decide (dev_id o = k)) as [<-|Hne].
    + rewrite lookup_insert_eq. split.
      * intros [(d & d' & ? & ? & ?)|[= <-]]; left; [exists d, d'|exists o, n]; set_solver.
      * intros [(d & d' & [[= -> ->]|?]%elem_of_cons & ? & <-)|Hx]; [by right|left; exists d, d'; done|].
        right. apply Hm in Hx as (d & Hin & Hid & <-). do 2 f_equal.
        pose proof (get_device_key s d Hk Hin). pose proof (get_device_key s o Hk (Hd o n ltac:(set_solver))). congruence.
    + rewrite lookup_insert_ne by done. set_solver.
  - intros y. destruct (decide (dev_id o = k)) as [<-|Hne].
    + rewrite lookup_insert_eq. intros [= <-]. exists o. split; [eapply (Hd o n); set_solver|done].
    + rewrite lookup_insert_ne by done. apply Hm.
Qed.

Lemma publish_signals ok now rows history log :
  (foldl (λ acc r, publish ok now (signal_event r.2) acc) (history, log) rows).1 =
  history ++ ((λ r : Device * Device, signal_event r.2) <$> rows).
Proof.
  revert history log. induction rows as [|r rows IH]; intros history log; simpl; [by rewrite app_nil_r|].
  change (publish ok now (signal_event r.2) (history, log))
    with (history ++ [signal_event r.2], (publish ok now (signal_event r.2) (history, log)).2).
  rewrite IH, <-app_assoc. done.
Qed.
End service.

(** * What a recomputation does *)

Section recompute.
Context {G : Type} `{NxGraph G} `{Dijkstra G}.

(** The rows a recomputation computes for the ONTs of [s], and those that moved. *)
Definition budgets (go : GoOptical) (cat : Catalog) (w : OpticalWorld (G := G)) : list (Device * Device) :=
  let s := rec_db (ow_rec w) in
  (budget_loop go cat s (filter (λ d, is_ont_device d = true) (devices s)) (ow_client w, ow_memo w)).1.

Definition moved_rows (go : GoOptical) (cat : Catalog) (w : OpticalWorld (G := G)) : list (Device * Device) :=
  filter (λ r, signal_changed r.1 r.2 = true) (budgets go cat w).

Lemma budgets_fst go cat w :
  fst <$> budgets go cat w = filter (λ d, is_ont_device d = true) (devices (rec_db (ow_rec w))).
Proof. apply budget_loop_rows. Qed.

Lemma budgets_are_ok go cat w : budgets_ok (rec_db (ow_rec w)) (budgets go cat w).
Proof.
  split; intros d d' Hin.
  - apply budget_loop_rows in Hin as [a ->]. apply ont_budget_id.
  - assert (d ∈ fst <$> budgets go cat w) as Hd by (apply list_elem_of_fmap; by exists (d, d')).
    rewrite budgets_fst in Hd. by apply list_elem_of_filter in Hd as [_ ?].
Qed.

Lemma budgets_nodup go cat w : keys_ok (rec_db (ow_rec w)) → NoDup (fst <$> budgets go cat w).
Proof.
  intros Hk. rewrite budgets_fst. apply NoDup_filter, (NoDup_fmap_1 dev_id). apply Hk.
Qed.

Lemma recompute_optical_cases go cat env v sgo ok now (w : OpticalWorld (G := G)) :
  keys_ok (rec_db (ow_rec w)) →
  let s := rec_db (ow_rec w) in
  let s' := write_signals (budgets go cat w) s in
  ∃ ts w', recompute_optical_paths_for_affected_onts go cat env v sgo ok now w = Some (ts, w') ∧
    if decide (moved_rows go cat w = []) then
      ts = [] ∧ ow_rec w' = ow_rec w ∧ ow_history w' = ow_history w ∧ ow_rows w' = ow_rows w
    else
      ow_history w' = ow_history w ++ ((λ r, signal_event r.2) <$> moved_rows go cat w) ∧
      (∀ k x y, (k, x, y) ∈ ts ↔ ∃ d d', (d, d') ∈ moved_rows go cat w ∧ dev_id d = k ∧
         x = status_of (G := G) s d ∧ y = status_of (G := G) s' d' ∧ x ≠ y) ∧
      (∀ r, r ∈ devices (rec_db (ow_rec w')) ↔ ∃ d, d ∈ devices s ∧
         let d' := new_row (budgets go cat w) d in
         r = if mem (dev_id d) ((λ t, t.1.1) <$> ts) then set_status (status_of (G := G) s' d') d' else d').
Proof.
  intros Hk s s'. pose proof (budgets_are_ok go cat w) as Hb. pose proof (budgets_nodup go cat w Hk) as Hnd.
  unfold recompute_optical_paths_for_affected_onts.
  destruct (budget_loop _ _ _ _ _) as [rows [client memo]] eqn:El.
  assert (budgets go cat w = rows) as Er by (unfold budgets; by rewrite El).
  unfold moved_rows in *. subst rows. fold s in Hb. set (rows := budgets go cat w) in *.
  destruct (filter (λ r, signal_changed r.1 r.2 = true) rows) as [|r0 rest] eqn:Ef; cbn zeta.
  { eexists _, _. split; [reflexivity|]. by rewrite decide_True. }
  rewrite <-Ef. assert (∀ d d', (d, d') ∈ filter (λ r, signal_changed r.1 r.2 = true) rows → (d, d') ∈ rows) as Hsub.
  { by intros d d' [_ ?]%list_elem_of_filter. }
  set (updated := filter (λ r, signal_changed r.1 r.2 = true) rows) in *.
  pose proof (publish_signals ok now updated (ow_history w) (ow_rows w)) as Hp.
  destruct (foldl (λ acc r, publish ok now (signal_event r.2) acc) _ updated) as [history log]. cbn [fst] in Hp. subst history.
  fold s. fold s'.
  set (base := foldl _ ∅ updated). set (old := ow_rec w).
  set (st1 := mkRec s' (rec_cache old) (rec_prop old) (rec_diag old) (rec_events old)).
  assert (keys_ok (rec_db st1)) as Hk1 by by apply write_signals_keys.
  destruct (recompute_baseline_spec (G := G) env v sgo (Some ((λ r, dev_id r.1) <$> updated)) None base st1 Hk1)
    as (ts & st' & E & Hts & _ & Hrows).
  rewrite E. cbn [mbind option_bind]. eexists _, _. split; [reflexivity|]. rewrite decide_False by congruence.
  assert (∀ k x, base !! k = Some x ↔ ∃ d d', (d, d') ∈ updated ∧ dev_id d = k ∧ status_of (G := G) s d = x) as Hbase.
  { intros k x. unfold base. rewrite (baseline_lookup s (status_of (G := G) s)); [|by intros d d' ?%Hsub; eapply budgets_devices|done|by intros y ?%lookup_empty_Some].
    rewrite lookup_empty. naive_solver. }
  assert (∀ d d', (d, d') ∈ updated → d' ∈ devices s' ∧ dev_id d' = dev_id d) as Hnew.
  { intros d d' Hu%Hsub. split; [|by eapply budgets_ids]. unfold s', write_signals, set_devices. simpl.
    rewrite <-(new_row_budget s rows d d') by done. apply list_elem_of_fmap_2. by eapply budgets_devices. }
  split; [done|]. split; cbn [ow_rec rec_db].
  - intros k x y. rewrite Hts. split.
    + intros (n & [Hn Hreq] & <- & (d & d' & Hu & Hid & <-)%Hbase & -> & Hne).
      destruct (Hnew d d' Hu) as [Hd' Hid'].
      assert (n = d') as ->.
      { pose proof (get_device_key (rec_db st1) n Hk1 Hn) as E1. pose proof (get_device_key (rec_db st1) d' Hk1 Hd') as E2. congruence. }
      by exists d, d'.
    + intros (d & d' & Hu & <- & -> & -> & Hne). destruct (Hnew d d' Hu) as [Hd' Hid'].
      exists d'. split.
      * split; [done|]. rewrite Hid'. apply list_elem_of_fmap. by exists (d, d').
      * split; [done|]. split; [apply Hbase; by exists d, d'|done].
  - intros r. rewrite Hrows. simpl. split.
    + intros (n & (d & -> & Hd)%list_elem_of_fmap & ->). exists d. split; [done|]. by rewrite (new_row_id s).
    + intros (d & Hd & ->). exists (new_row rows d). split; [by apply list_elem_of_fmap_2|]. by rewrite (new_row_id s).
Qed.
End recompute.

(** * The Python fallback *)

Section fallback.
Context {G : Type} `{NxGraph G} `{Dijkstra G}.
Context (go : GoOptical) (cat : Catalog) (s : DB).

(** The Go service is not reached, and the client falls back to Python. *)
Definition on_fallback (c : OpticalClient) : Prop :=
  go_available (ensure_connected (connects go) c) = false ∧ use_fallback c = true.

Lemma get_path_fallback k c (m : OpticalState (G := G)) :
  on_fallback c → memo_ok (s, m) →
  ∃ c' m', get_path go s k (c, m) = (python_get_path (resolve_fresh (G := G) s k), (c', m')) ∧
    on_fallback c' ∧ memo_ok (s, m').
Proof.
  intros [Ha Hf] Hm. unfold get_path. cbn [fst snd]. rewrite Ha.
  assert (use_fallback (ensure_connected (connects go) c) = true) as Hu by (unfold ensure_connected; by destruct (connection_attempted c)).
  assert (connection_attempted (ensure_connected (connects go) c) = true) as Hc.
  { unfold ensure_connected. by destruct (connection_attempted c) eqn:E. }
  rewrite Hu, Hc. cbn [use_fallback]. pose proof (resolve_memo s k m Hm) as Hr.
  destruct (resolve_optical_path s k m) as [r m']. destruct Hr as [-> Hm'].
  eexists _, m'. split; [reflexivity|]. done.
Qed.

Lemma budget_loop_fallback onts c (m : OpticalState (G := G)) d d' :
  on_fallback c → memo_ok (s, m) → (d, d') ∈ (budget_loop go cat s onts (c, m)).1 →
  d' = ont_budget cat s (python_get_path (resolve_fresh (G := G) s (dev_id d))) d.
Proof.
  revert c m. induction onts as [|ont onts IH]; intros c m Hc Hm; [set_solver|]. cbn [budget_loop].
  destruct (get_path_fallback (dev_id ont) c m Hc Hm) as (c' & m' & -> & Hc' & Hm').
  specialize (IH c' m' Hc' Hm'). destruct (budget_loop go cat s onts (c', m')) as [rows st]. cbn [fst] in *.
  intros [[= -> ->]|Hin]%elem_of_cons; [done|by apply IH].
Qed.
End fallback.

Lemma fsub_zero x : fsub x fzero = x.
Proof. by destruct x as [[]|[]| |[] m e]. Qed.

(** * The properties *)

(** C39. A recomputation of the optical budgets computes one new row per ONT,
    from some answer of the optical client.  When none of them moved enough (a
    status or presence change, 0.1 dB of power, 0.01 dB of attenuation) nothing is
    stored or published.  Otherwise one event per moved ONT is published in table
    order; every ONT row is written, also those that did not move enough to be
    reported; the returned transitions are exactly the moved ONTs whose evaluated
    status differs before and after; their stored status follows; all other rows
    are as before.  The recomputation always ends. *)
Theorem optical_recompute_spec {G} `{NxGraph G} `{Dijkstra G} go cat env v sgo ok now (w : OpticalWorld (G := G)) :
  keys_ok (rec_db (ow_rec w)) →
  let s := rec_db (ow_rec w) in
  let s' := write_signals (budgets go cat w) s in
  fst <$> budgets go cat w = filter (λ d, is_ont_device d = true) (devices s) ∧
  (∀ d d', (d, d') ∈ budgets go cat w → ∃ answer, d' = ont_budget cat s answer d) ∧
  ∃ ts w', recompute_optical_paths_for_affected_onts go cat env v sgo ok now w = Some (ts, w') ∧
    if decide (moved_rows go cat w = []) then
      ts = [] ∧ ow_rec w' = ow_rec w ∧ ow_history w' = ow_history w ∧ ow_rows w' = ow_rows w
    else
      ow_history w' = ow_history w ++ ((λ r, signal_event r.2) <$> moved_rows go cat w) ∧
      (∀ k x y, (k, x, y) ∈ ts ↔ ∃ d d', (d, d') ∈ moved_rows go cat w ∧ dev_id d = k ∧
         x = status_of (G := G) s d ∧ y = status_of (G := G) s' d' ∧ x ≠ y) ∧
      (∀ r, r ∈ devices (rec_db (ow_rec w')) ↔ ∃ d, d ∈ devices s ∧
         let d' := new_row (budgets go cat w) d in
         r = if mem (dev_id d) ((λ t, t.1.1) <$> ts) then set_status (status_of (G := G) s' d') d' else d').
Proof.
  intros Hk s s'. split; [apply budgets_fst|]. split; [intros d d'; apply budget_loop_rows|].
  by apply recompute_optical_cases.
Qed.

(** Without the Go service the attenuation of the path is lost.  When the
    client works on its Python fallback, an ONT whose path the resolver finds gets
    the full transmit power of its OLT as received power, zero attenuation and the
    status of that margin, whatever the attenuation of the path: the fallback's
    answer carries it under another key than the one the service reads. *)
Lemma fallback_ignores_attenuation {G} `{NxGraph G} `{Dijkstra G} go cat (w : OpticalWorld (G := G)) d d' r :
  let s := rec_db (ow_rec w) in
  on_fallback go (ow_client w) → memo_ok (s, ow_memo w) → (d, d') ∈ budgets go cat w →
  resolve_fresh (G := G) s (dev_id d) = Some r →
  signal_power_dbm d' = Some (tx_of cat s (Some (path_olt_id r))) ∧
  attenuation_db d' = Some fzero ∧
  signal_status d' =
    Some (classify_margin (fsub (tx_of cat s (Some (path_olt_id r))) (get_effective_sensitivity_dbm cat d))).
Proof.
  cbv zeta. intros Hc Hm Hin Hr. apply budget_loop_fallback in Hin; [|done..]. subst d'. rewrite Hr.
  unfold ont_budget, python_get_path. cbn. by rewrite fsub_zero.
Qed.

(** ** A dark ONT: 300 km of fibre, 105 dB *)

Definition dark : DB :=
  mkDB [set_provisioned true (device0 "ont" ONT); set_provisioned true (device0 "o1" OLT)]
    [interface0 "ont-if0" "ont" "if0"; interface0 "o1-pon" "o1" "pon1"]
    [fibre_link "f1" "o1-pon" "ont-if0" (of_Z 300)]
    [mkPhysicalMedium 1 "SMF_G652D" "Single-mode G.652.D" "optical" None] [] [] [] [] [].

Definition dark_world : OpticalWorld (G := AssocGraph) :=
  mkOpticalWorld (mkRec dark empty_graph_cache (mkProp None None) ∅ []) new_client
    (mkOpticalState new_store []) [] [].

Definition no_go : GoOptical := mkGoOptical false (λ _, None).

Lemma dark_keys : keys_ok dark.
Proof. constructor; vm_compute; repeat (constructor; [set_solver|]); constructor. Qed.

Lemma fallback_ignores_attenuation_witness :
  ∃ d d' r, (d, d') ∈ budgets no_go empty_catalog dark_world ∧
    resolve_fresh (G := AssocGraph) dark "ont" = Some r ∧
    fltb (of_Z 104) (total_attenuation_db r) = true ∧
    signal_power_dbm d' = Some fzero ∧ signal_status d' = Some SIG_OK.
Proof.
  destruct (resolve_fresh (G := AssocGraph) dark "ont") as [r|] eqn:E; [|vm_compute in E; discriminate E].
  set (d := set_provisioned true (device0 "ont" ONT)).
  set (d' := ont_budget empty_catalog dark (python_get_path (Some r)) d).
  assert ((d, d') ∈ budgets no_go empty_catalog dark_world) as Hin.
  { unfold d'. rewrite <-E. vm_compute. left. }
  destruct (fallback_ignores_attenuation (G := AssocGraph) no_go empty_catalog dark_world d d' r) as (Hp & _ & Hs).
  - split; reflexivity.
  - split; [|split]; simpl; [set_solver|done|vm_compute; lia].
  - exact Hin.
  - exact E.
  - exists d, d', r. split; [exact Hin|]. split; [reflexivity|].
    vm_compute in E. injection E as <-. split; [vm_compute; reflexivity|]. split; [rewrite Hp; reflexivity|].
    rewrite Hs. vm_compute. reflexivity.
Defined.

Lemma optical_recompute_spec_witness :
  ∃ ts w', recompute_optical_paths_for_affected_onts no_go empty_catalog None 0 None true "t" dark_world = Some (ts, w') ∧
    length (ow_history w') = 1.
Proof.
  destruct (optical_recompute_spec (G := AssocGraph) no_go empty_catalog None 0 None true "t" dark_world dark_keys)
    as (_ & _ & ts & w' & E & Hc).
  exists ts, w'. split; [exact E|]. destruct (decide _) as [He|He].
  - vm_compute in He. discriminate He.
  - destruct Hc as [-> _]. vm_compute. reflexivity.
Defined.
