(* ===== verification/TrafficPath.v ===== *)
(** Traffic paths: [services/traffic/v2_graph.py] ([build_adjacency]) and
    [services/traffic/v2_path.py] ([has_upstream_ok], [bfs_pick_anchor]).

    A subscriber's traffic follows the device path that a breadth-first search
    finds to the preferred anchor.  The result of the forwarding service that
    is consulted when no anchor is reachable is an argument here: the device
    ids of its hops and, per hop, its device and outgoing link. *)

From S2P Require Import Prelude PyFloat Models Worklist Adjacency LinkRules Scenario LinkStatus.
From S2P Require Import L3Trace NxGraph Pathfinding Dependency.

(** * The traffic graph *)

(** [frozenset({a, b})] as a key. *)
Definition pair_key (a b : string) : string * string := if str_leb a b then (a, b) else (b, a).

Record TrafficGraph := mkTraffic {
  tg_neighbors : Adjacency;
  tg_link_by_pair : gmap (string * string) string
}.

(** [iface_to_device] and [device_override_map.get]. *)
Definition override_of (s : DB) (k : string) : option Status := get_device s k ≫= dev_override.

(** The link status evaluated inline (PERF-002). *)
Definition inline_status (s : DB) (ln : Link) : Status :=
  match link_override ln with
  | Some st => st
  | None =>
      let down k := match truthy (if_to_dev s k) with
                    | Some d => bool_decide (override_of s d = Some DOWN)
                    | None => false
                    end in
      if down (a_interface_id ln) then DOWN
      else if down (b_interface_id ln) then DOWN
      else link_status ln
  end.

Definition traffic_arc (s : DB) (ln : Link) : option (string * string) :=
  if negb (is_link_passable s ln) then None
  else if negb (bool_decide (inline_status s ln = UP)) then None
  else
    match truthy (if_to_dev s (a_interface_id ln)), truthy (if_to_dev s (b_interface_id ln)) with
    | Some a, Some b => Some (a, b)
    | _, _ => None
    end.

Definition build_traffic_graph (s : DB) : TrafficGraph :=
  foldl (λ g ln,
    match traffic_arc s ln with
    | Some (a, b) => mkTraffic (add_both a b (tg_neighbors g)) (<[pair_key a b := link_id ln]> (tg_link_by_pair g))
    | None => g
    end) (mkTraffic ∅ ∅) (links s).

(** * Gating *)

(** [has_upstream_ok], given the resolver's result. *)
Definition has_upstream_ok (up_res : UpstreamL3Result) (backbone_present : bool) : bool :=
  if up_ok up_res then true
  else if backbone_present then false
  else
    match up_reasons up_res with
    | [] => false
    | reasons => forallb (λ r, mem r ["no_router_path"; "routers_no_l3"]) reasons
    end.

(** * bfs_pick_anchor *)

Section pick.
Context (start_id : string) (neighbors : Adjacency) (link_by_pair : gmap (string * string) string).
Context (allowed : gset string) (dev_type_by_id : gmap string DeviceType) (anchor_types : list DeviceType).

Record Anchors := mkAnchors {
  found_any : option string; found_core : option string;
  found_backbone : option string; found_pop : option string
}.

(** [found or cur] *)
Definition or_else (found : option string) (cur : string) : option string :=
  match truthy found with Some x => Some x | None => Some cur end.

Definition type_in (cur : string) (ts : list DeviceType) : bool :=
  match dev_type_by_id !! cur with Some t => mem t ts | None => false end.

(** What a popped device contributes. *)
Definition note_anchor (f : Anchors) (cur : string) : Anchors :=
  let f :=
    if negb (String.eqb cur start_id) && type_in cur anchor_types then
      mkAnchors (or_else (found_any f) cur) (found_core f)
        (if type_in cur [BACKBONE_GATEWAY] then or_else (found_backbone f) cur else found_backbone f)
        (if type_in cur [POP] then or_else (found_pop f) cur else found_pop f)
    else f in
  if negb (String.eqb cur start_id) && type_in cur [CORE_SITE; CORE_ROUTER] then
    mkAnchors (found_any f) (or_else (found_core f) cur) (found_backbone f) (found_pop f)
  else f.

(** Queue an allowed neighbour that has no parent yet. *)
Definition adopt (cur : string) (st : gmap string (option string) * list string) (nb : string)
    : gmap string (option string) * list string :=
  if bool_decide (is_Some (st.1 !! nb)) then st
  else if negb (bool_decide (nb ∈ allowed)) then st
  else (<[nb := Some cur]> st.1, st.2 ++ [nb]).

Fixpoint anchor_bfs (fuel : nat) (parents : gmap string (option string)) (q : list string) (f : Anchors)
    : option (gmap string (option string) * Anchors) :=
  match q with
  | [] => Some (parents, f)
  | cur :: rest =>
      match fuel with
      | O => None
      | S fuel' =>
          let '(parents', q') := foldl (adopt cur) (parents, rest) (sorted_adjacent neighbors cur) in
          anchor_bfs fuel' parents' q' (note_anchor f cur)
      end
  end.

(** [while x is not None: path.append(x); x = parents.get(x)] *)
Fixpoint backtrack (fuel : nat) (parents : gmap string (option string)) (x : option string)
    : option (list string) :=
  match x with
  | None => Some []
  | Some k =>
      match fuel with
      | O => None
      | S fuel' => cons k <$> backtrack fuel' parents (default None (parents !! k))
      end
  end.

Definition preferred (f : Anchors) : option string :=
  match truthy (found_backbone f) with
  | Some x => Some x
  | None =>
      match truthy (found_core f) with
      | Some x => Some x
      | None =>
          match truthy (found_pop f) with
          | Some x => Some x
          | None => truthy (found_any f)
          end
      end
  end.

Fixpoint links_along (path : list string) : list string :=
  match path with
  | a :: (b :: _) as rest =>
      match truthy (link_by_pair !! pair_key a b) with
      | Some l => l :: links_along rest
      | None => links_along rest
      end
  | _ => []
  end.

(** [if x not in xs: xs.append(x)] *)
Definition append_new (xs : list string) (x : string) : list string := if mem x xs then xs else xs ++ [x].

(** The forwarding fallback. *)
Definition fallback_path (fw : option (list string * list (option string * option string)))
    : list string * list string :=
  let add_dev nodes (k : option string) :=
    match truthy k with
    | Some d => if bool_decide (d ∈ allowed) then append_new nodes d else nodes
    | None => nodes
    end in
  let '(nodes, lnks) :=
    match fw with
    | None => ([start_id], [])
    | Some (hops, meta) =>
        let nodes := foldl (λ ns h, add_dev ns (Some h)) [start_id] hops in
        let '(nodes, lnks) :=
          foldl (λ st m, (add_dev st.1 m.1,
                          match truthy m.2 with Some l => append_new st.2 l | None => st.2 end))
            (nodes, []) meta in
        let has_true_anchor := existsb (λ x, type_in x anchor_types && negb (String.eqb x start_id)) nodes in
        let any_anchor_exists := existsb (λ kt, mem kt.2 anchor_types) (map_to_list dev_type_by_id) in
        if has_true_anchor || negb any_anchor_exists then (nodes, lnks) else ([start_id], [])
    end in
  (nodes, foldl append_new lnks (links_along nodes)).

Definition bfs_pick_anchor (fw : option (list string * list (option string * option string)))
    : option (list string * list string) :=
  match anchor_bfs (S (size allowed)) {[start_id := None]} [start_id] (mkAnchors None None None None) with
  | None => None
  | Some (parents, f) =>
      match preferred f with
      | None => Some (fallback_path fw)
      | Some a =>
          match backtrack (S (size parents)) parents (Some a) with
          | None => None
          | Some back =>
              let nodes := reverse back in
              let nodes :=
                match nodes with
                | h :: _ => if String.eqb h start_id then nodes
                            else if bool_decide (last nodes = Some start_id) then reverse nodes
                            else [start_id]
                | [] => [start_id]
                end in
              Some (nodes, links_along nodes)
          end
      end
  end.
End pick.

(** * The inline status *)

(** The status evaluated inline for the traffic graph is the one the status
    service evaluates: for a stored link whose ends resolve to devices with
    non-empty ids, [build_adjacency]'s own computation and
    [evaluate_link_status] agree. *)
Lemma inline_status_agrees s l :
  keys_ok s → ids_nonempty s → l ∈ links s → nonempty (link_id l) = true → is_Some (link_ends s l) →
  inline_status s l = evaluate_link_status s l.
Proof.
  intros Hk Hn Hl Hid [[a b] He]. unfold inline_status, evaluate_link_status.
  rewrite (resolve_link_row s l) by done. destruct (link_override l); [done|]. rewrite He.
  unfold link_ends in He.
  destruct (get_interface s (a_interface_id l)) as [ia|] eqn:Ea; [|done].
  destruct (get_interface s (b_interface_id l)) as [ib|] eqn:Eb; [|done].
  destruct (get_device s (if_device_id ia)) as [da|] eqn:Da; [|done].
  destruct (get_device s (if_device_id ib)) as [db|] eqn:Db; [|done]. injection He as -> ->.
  rewrite !if_to_dev_get, Ea, Eb by done. cbn [fmap option_fmap option_map].
  assert (∀ i d, get_device s (if_device_id i) = Some d →
    match truthy (Some (if_device_id i)) with
    | Some d => bool_decide (override_of s d = Some DOWN) | None => false end = is_forced DOWN (dev_override d)) as Hd.
  { intros i d Ed. destruct (get_device_Some _ _ _ Ed) as [Hin Hi]. specialize (Hn d Hin).
    unfold override_of, is_forced. destruct (truthy (Some (if_device_id i))) as [k|] eqn:Et.
    - apply truthy_Some in Et as [[= <-] _]. by rewrite Ed.
    - exfalso. unfold truthy in Et. by destruct (if_device_id i). }
  rewrite (Hd ia a Da), (Hd ib b Db).
  by destruct (is_forced DOWN (dev_override a)), (is_forced DOWN (dev_override b)).
Qed.

Lemma inline_status_agrees_witness : inline_status demo (demo_link "l2") = evaluate_link_status demo (demo_link "l2").
Proof.
  apply (inline_status_agrees demo (demo_link "l2") demo_keys).
  - intros d Hd. repeat (apply elem_of_cons in Hd as [->|Hd]; [discriminate|]). by apply elem_of_nil in Hd.
  - demo_row.
  - reflexivity.
  - vm_compute. by eexists.
Defined.
