(* ===== verification/TrafficPathProofs.v ===== *)
(** The anchor path of a traffic source is a real path to the preferred anchor. *)

From S2P Require Import Prelude PyFloat Models Worklist Adjacency LinkRules Scenario LinkStatus.
From S2P Require Import L3Trace NxGraph Pathfinding Dependency Forwarding TrafficPath.

Section bfs.
Context (start_id : string) (neighbors : Adjacency) (allowed : gset string).
Context (dev_type_by_id : gmap string DeviceType) (anchor_types : list DeviceType).

(** A step of the search. *)
Definition traffic_hop (x y : string) : Prop := y ∈ adjacent neighbors x ∧ y ∈ allowed.

(** A path from the start device, as the search may walk it. *)
Inductive tpath : string → list string → Prop :=
  | tpath_start : tpath start_id [start_id]
  | tpath_snoc x y p : tpath x p → traffic_hop x y → y ∉ p → tpath y (p ++ [y]).

(** The chain of parents of [x], from the start. *)
Inductive chain_to (parents : gmap string (option string)) : string → list string → Prop :=
  | chain_start : parents !! start_id = Some None → chain_to parents start_id [start_id]
  | chain_snoc x y p : parents !! y = Some (Some x) → chain_to parents x p → chain_to parents y (p ++ [y]).

Lemma chain_unique parents x p q : chain_to parents x p → chain_to parents x q → p = q.
Proof.
  intros Hp. revert q. induction Hp as [Hs|x y p Hy Hp IH]; intros q Hq; inversion Hq; subst; try congruence.
  f_equal. apply IH. congruence.
Qed.

Lemma chain_prefix parents x p z :
  chain_to parents x p → z ∈ p → ∃ q, chain_to parents z q ∧ length q ≤ length p.
Proof.
  intros Hp. induction Hp as [Hs|x y p Hy Hp IH]; intros Hz.
  - apply list_elem_of_singleton in Hz as ->. exists [start_id]. split; [by constructor|done].
  - apply elem_of_app in Hz as [Hz|Hz%list_elem_of_singleton].
    + destruct (IH Hz) as (q & ? & ?). exists q. split; [done|]. rewrite length_app. lia.
    + subst z. exists (p ++ [y]). split; [by econstructor|done].
Qed.

Lemma chain_nodup parents x p : chain_to parents x p → NoDup p ∧ (∀ z, z ∈ p → z ∈ dom parents).
Proof.
  intros Hp. induction Hp as [Hs|x y p Hy Hp [Hnd Hd]].
  - split; [apply NoDup_singleton|]. intros z ->%list_elem_of_singleton. by apply elem_of_dom.
  - split.
    + apply NoDup_app. split; [done|]. split; [|apply NoDup_singleton].
      intros z Hz ->%list_elem_of_singleton.
      destruct (chain_prefix _ _ _ _ Hp Hz) as (q & Hq & Hl).
      rewrite (chain_unique _ _ _ _ Hq (chain_snoc _ _ _ _ Hy Hp)), length_app in Hl. simpl in Hl. lia.
    + intros z [Hz| ->%list_elem_of_singleton]%elem_of_app; [auto|]. by apply elem_of_dom.
Qed.

Lemma chain_length parents x p : chain_to parents x p → length p ≤ size parents.
Proof.
  intros [Hnd Hd]%chain_nodup. rewrite <-size_dom.
  rewrite <-(fin_sets.size_list_to_set (C := gset string) p Hnd). apply subseteq_size. set_solver.
Qed.

(** Following the parents gives the chain backwards. *)
Lemma backtrack_chain parents x p fuel :
  chain_to parents x p → length p ≤ fuel → backtrack fuel parents (Some x) = Some (reverse p).
Proof.
  intros Hp. revert fuel. induction Hp as [Hs|x y p Hy Hp IH]; intros [|fuel] Hf;
    rewrite ?length_app in Hf; simpl in *; try lia.
  - rewrite Hs. simpl. by destruct fuel.
  - rewrite Hy. simpl. rewrite IH by lia. by rewrite reverse_app.
Qed.

Lemma chain_insert parents x p n v :
  chain_to parents x p → parents !! n = None → chain_to (<[n := v]> parents) x p.
Proof.
  intros Hp Hn. induction Hp as [Hs|x y p Hy Hp IH].
  - constructor. rewrite lookup_insert_ne; [done|congruence].
  - econstructor; [|done]. rewrite lookup_insert_ne; [done|congruence].
Qed.

Lemma adopt_all cur ns P q P' q' :
  foldl (adopt allowed cur) (P, q) ns = (P', q') →
  ∃ new, q' = q ++ new ∧ NoDup new ∧ (∀ x, x ∈ new ↔ x ∈ ns ∧ P !! x = None ∧ x ∈ allowed) ∧
         (∀ k, P' !! k = if bool_decide (k ∈ new) then Some (Some cur) else P !! k).
Proof.
  revert P q. induction ns as [|n ns IH]; intros P q; cbn [foldl].
  { intros [= <- <-]. exists []. rewrite app_nil_r. split; [done|]. split; [constructor|].
    split; [set_solver|]. intros k. by rewrite bool_decide_false by set_solver. }
  unfold adopt at 2. simpl. case_bool_decide as Hn.
  { intros (new & -> & Hnd & Hnew & HP)%IH. exists new. split; [done|]. split; [done|]. split; [|done].
    intros x. rewrite Hnew, elem_of_cons. destruct Hn as [v Hv]. naive_solver. }
  case_bool_decide as Ha; simpl; intros (new & -> & Hnd & Hnew & HP)%IH.
  2:{ exists new. split; [done|]. split; [done|]. split; [|done].
      intros x. rewrite Hnew, elem_of_cons. naive_solver. }
  assert (n ∉ new) as Hnn by (rewrite Hnew, lookup_insert_eq; naive_solver).
  apply eq_None_not_Some in Hn.
  exists (n :: new). rewrite <-app_assoc. split; [done|]. split; [by constructor|]. split.
  - intros x. rewrite !elem_of_cons, Hnew. destruct (decide (x = n)) as [->|]; [naive_solver|].
    rewrite lookup_insert_ne by done. naive_solver.
  - intros k. rewrite HP. destruct (decide (k = n)) as [->|].
    + rewrite bool_decide_false, lookup_insert_eq, bool_decide_true by set_solver. done.
    + rewrite lookup_insert_ne by done. apply bool_decide_ext_if. set_solver.
Qed.

(** The search state: every known device has a chain made of hops, and known
    devices that left the queue have all their hops known. *)
Record bfs_ok (P : gmap string (option string)) (q : list string) : Prop := {
  bo_start : P !! start_id = Some None;
  bo_chain : ∀ x, x ∈ dom P → ∃ p, chain_to P x p;
  bo_hop : ∀ x y, P !! y = Some (Some x) → x ∈ dom P ∧ traffic_hop x y;
  bo_queue : ∀ x, x ∈ q → x ∈ dom P;
  bo_closed : ∀ x y, x ∈ dom P → x ∉ q → traffic_hop x y → y ∈ dom P
}.

Lemma bfs_ok_init : bfs_ok {[start_id := None]} [start_id].
Proof.
  split.
  - apply lookup_singleton_eq.
  - intros x. rewrite dom_singleton. intros ->%elem_of_singleton. exists [start_id]. constructor.
    apply lookup_singleton_eq.
  - intros x y [_ ?]%lookup_singleton_Some. done.
  - intros x ->%list_elem_of_singleton. rewrite dom_singleton. set_solver.
  - intros x y. rewrite dom_singleton. set_solver.
Qed.

Lemma chain_extend P P' (new : list string) cur x p :
  (∀ k, P' !! k = if bool_decide (k ∈ new) then Some (Some cur) else P !! k) →
  (∀ k, k ∈ new → P !! k = None) → chain_to P x p → chain_to P' x p.
Proof.
  intros HP Hnew Hp. assert (∀ k v, P !! k = Some v → P' !! k = Some v) as Hm.
  { intros k v Hk. rewrite HP. case_bool_decide as E; [|done]. apply Hnew in E. congruence. }
  induction Hp as [Hs|x y p Hy Hp IH]; [constructor; auto|]. econstructor; eauto.
Qed.

Lemma bfs_ok_step P cur rest P' q' :
  bfs_ok P (cur :: rest) → foldl (adopt allowed cur) (P, rest) (sorted_adjacent neighbors cur) = (P', q') →
  bfs_ok P' q' ∧ (∀ x, x ∈ dom P ∧ x ≠ cur ∧ x ∉ rest → x ∉ q') ∧ dom P ⊆ dom P' ∧
  (∀ x, x ∈ dom P' → x ∈ dom P ∨ x ∈ q').
Proof.
  intros Hi (new & -> & Hnd & Hnew & HP)%adopt_all.
  assert (∀ k, k ∈ dom P' ↔ k ∈ dom P ∨ k ∈ new) as Hdom.
  { intros k. rewrite !elem_of_dom, HP. case_bool_decide; naive_solver. }
  assert (cur ∈ dom P) as Hcur by (apply (bo_queue _ _ Hi); set_solver).
  assert (∀ k, k ∈ new → P !! k = None) as Hfresh by (intros k (_ & ? & _)%Hnew; done).
  assert (∀ k, k ∈ new → k ∉ dom P) as Hnd' by (intros k Hk; apply not_elem_of_dom; auto).
  split; [|split; [|split]].
  - split.
    + rewrite HP, bool_decide_false; [apply Hi|]. intros Hs%Hfresh. rewrite (bo_start _ _ Hi) in Hs. done.
    + intros x [Hx|Hx]%Hdom.
      * destruct (bo_chain _ _ Hi x Hx) as [p Hp]. exists p. by eapply chain_extend.
      * destruct (bo_chain _ _ Hi cur Hcur) as [p Hp]. exists (p ++ [x]).
        eapply chain_snoc; [by rewrite HP, bool_decide_true|by eapply chain_extend].
    + intros x y. rewrite HP. case_bool_decide as Hy.
      * intros [= <-]. split; [apply Hdom; by left|]. apply Hnew in Hy as (Hy & _ & Ha).
        split; [by apply elem_of_sorted_adjacent|done].
      * intros [Hx Hh]%(bo_hop _ _ Hi). split; [apply Hdom; by left|done].
    + intros x [Hx|Hx]%elem_of_app; apply Hdom; [left; apply (bo_queue _ _ Hi); set_solver|by right].
    + intros x y [Hx|Hx]%Hdom Hq Hh; [|set_solver]. apply Hdom.
      destruct (decide (x = cur)) as [->|Hne].
      * destruct Hh as [Hadj Hall]. destruct (P !! y) eqn:Ey; [left; by apply elem_of_dom|right].
        apply Hnew. split; [by apply elem_of_sorted_adjacent|done].
      * left. apply (bo_closed _ _ Hi x y); set_solver.
  - intros x (Hx & Hne & Hr) [?|Hxn]%elem_of_app; [done|]. by apply (Hnd' x).
  - intros k Hk. apply Hdom. by left.
  - intros x [?|?]%Hdom; [by left|right]. set_solver.
Qed.

Lemma anchor_bfs_total fuel P q f :
  bfs_ok P q → length q + size (allowed ∖ dom P) ≤ fuel →
  is_Some (anchor_bfs start_id neighbors allowed dev_type_by_id anchor_types fuel P q f).
Proof.
  revert P q f. induction fuel as [|fuel IH]; intros P [|cur rest] f Hi; simpl; try done; try lia.
  intros Hf. destruct (foldl _ _ _) as [P' q'] eqn:E.
  apply IH; [by eapply bfs_ok_step|].
  destruct (adopt_all _ _ _ _ _ _ E) as (new & -> & Hnd & Hnew & HP).
  rewrite length_app.
  assert (length new + size (allowed ∖ dom P') ≤ size (allowed ∖ dom P)); [|lia].
  rewrite <-(fin_sets.size_list_to_set (C := gset string) new Hnd), <-size_union.
  - apply subseteq_size. intros x [Hx%elem_of_list_to_set|[Ha Hx]%elem_of_difference]%elem_of_union.
    + apply Hnew in Hx as (_ & Hn & Ha). apply elem_of_difference. split; [done|]. by apply not_elem_of_dom.
    + apply elem_of_difference. split; [done|]. intros Hd. apply Hx. apply elem_of_dom.
      rewrite HP. case_bool_decide; [done|]. by apply elem_of_dom.
  - intros x Hx%elem_of_list_to_set [_ Hd]%elem_of_difference. apply Hd, elem_of_dom.
    rewrite HP, bool_decide_true by done. done.
Qed.

(** * Anchors *)

Abbreviation tin := (type_in dev_type_by_id).

Definition any_anchor (x : string) : Prop := x ≠ start_id ∧ tin x anchor_types = true.
Definition backbone_anchor (x : string) : Prop := any_anchor x ∧ tin x [BACKBONE_GATEWAY] = true.
Definition pop_anchor (x : string) : Prop := any_anchor x ∧ tin x [POP] = true.
Definition core_anchor (x : string) : Prop := x ≠ start_id ∧ tin x [CORE_SITE; CORE_ROUTER] = true.

(** A slot holds an anchor of its kind as soon as one was popped. *)
Definition slot_ok (A : string → Prop) (W : gset string) (slot : option string) : Prop :=
  (∀ x, slot = Some x → x ∈ W ∧ A x ∧ x ≠ "") ∧ (∀ x, x ∈ W → A x → is_Some slot).

Lemma slot_keep A W slot cur : slot_ok A W slot → ¬ A cur → slot_ok A ({[cur]} ∪ W) slot.
Proof. intros [H1 H2] Hn. split; [naive_solver set_solver|]. intros x [->%elem_of_singleton|?]%elem_of_union ?; eauto; done. Qed.

Lemma slot_or_else A W slot cur :
  slot_ok A W slot → A cur → cur ≠ "" → slot_ok A ({[cur]} ∪ W) (or_else slot cur).
Proof.
  intros [H1 H2] Hc Hne. unfold or_else. destruct (truthy slot) as [y|] eqn:Et.
  - apply truthy_Some in Et as [-> Hy]. split; [|eauto].
    intros x [= <-]. destruct (H1 y eq_refl) as (? & ? & ?). set_solver.
  - split; [|eauto]. intros x [= <-]. set_solver.
Qed.

Record slots_ok (W : gset string) (f : Anchors) : Prop := {
  so_any : slot_ok any_anchor W (found_any f);
  so_core : slot_ok core_anchor W (found_core f);
  so_backbone : slot_ok backbone_anchor W (found_backbone f);
  so_pop : slot_ok pop_anchor W (found_pop f)
}.

Lemma slots_ok_init : slots_ok ∅ (mkAnchors None None None None).
Proof. assert (∀ A, slot_ok A ∅ None) as Hn by (intros A; split; [done|set_solver]). by split. Qed.

Lemma note_anchor_ok W f cur :
  slots_ok W f → (cur ≠ start_id → cur ≠ "") →
  slots_ok ({[cur]} ∪ W) (note_anchor start_id dev_type_by_id anchor_types f cur).
Proof.
  intros [Ha Hc Hb Hp] Hne. unfold note_anchor.
  destruct (String.eqb_spec cur start_id) as [->|Hs]; simpl.
  { split; apply slot_keep; unfold any_anchor, core_anchor, backbone_anchor, pop_anchor, any_anchor; tauto. }
  specialize (Hne Hs).
  assert (slot_ok core_anchor ({[cur]} ∪ W)
    (if tin cur [CORE_SITE; CORE_ROUTER] then or_else (found_core f) cur else found_core f)) as Hc'.
  { destruct (tin cur [CORE_SITE; CORE_ROUTER]) eqn:E; [by apply slot_or_else|].
    apply slot_keep; [done|]. unfold core_anchor. naive_solver congruence. }
  destruct (tin cur anchor_types) eqn:Et.
  - assert (any_anchor cur) as HA by done.
    assert (slot_ok backbone_anchor ({[cur]} ∪ W)
      (if tin cur [BACKBONE_GATEWAY] then or_else (found_backbone f) cur else found_backbone f)) as Hb'.
    { destruct (tin cur [BACKBONE_GATEWAY]) eqn:E; [by apply slot_or_else|].
      apply slot_keep; [done|]. unfold backbone_anchor. naive_solver congruence. }
    assert (slot_ok pop_anchor ({[cur]} ∪ W)
      (if tin cur [POP] then or_else (found_pop f) cur else found_pop f)) as Hp'.
    { destruct (tin cur [POP]) eqn:E; [by apply slot_or_else|].
      apply slot_keep; [done|]. unfold pop_anchor. naive_solver congruence. }
    destruct (tin cur [CORE_SITE; CORE_ROUTER]); split; simpl; try done; by apply slot_or_else.
  - assert (¬ any_anchor cur) as HA by (unfold any_anchor; naive_solver congruence).
    destruct (tin cur [CORE_SITE; CORE_ROUTER]); split; simpl; try done; apply slot_keep; try done;
      unfold backbone_anchor, pop_anchor; tauto.
Qed.

(** With an empty queue the known devices are the reachable ones. *)
Lemma known_reachable P x : bfs_ok P [] → x ∈ dom P ↔ rtc traffic_hop start_id x.
Proof.
  intros Hi. split.
  - intros Hx. destruct (bo_chain _ _ Hi x Hx) as [p Hp]. clear Hx.
    induction Hp as [|w x p Hw Hp IH]; [apply rtc_refl|].
    apply (bo_hop _ _ Hi) in Hw as [_ Hh]. by eapply rtc_r.
  - intros Hr. assert (start_id ∈ dom P) as Hs by (apply elem_of_dom; rewrite (bo_start _ _ Hi); done).
    apply (reaches_closed traffic_hop [start_id] (λ y, y ∈ dom P)); [| |by exists start_id; set_solver].
    + intros y ->%list_elem_of_singleton. done.
    + intros y z Hy Hyz. apply (bo_closed _ _ Hi y z); [done|set_solver|done].
Qed.

Lemma chain_tpath P x p : bfs_ok P [] → chain_to P x p → tpath x p.
Proof.
  intros Hi Hp. induction Hp as [|w x p Hw Hp IH]; [constructor|].
  eapply tpath_snoc; [done|by apply (bo_hop _ _ Hi)|].
  intros Hx. destruct (chain_nodup _ _ _ (chain_snoc _ _ _ _ Hw Hp)) as [Hnd _].
  apply NoDup_app in Hnd as (_ & Hnd & _). apply (Hnd x Hx). set_solver.
Qed.

Lemma tpath_ends x p : tpath x p → head p = Some start_id ∧ last p = Some x ∧ NoDup p.
Proof.
  induction 1 as [|x y p Hp (Hh & Hl & Hnd) Hxy Hy]; [split; [done|split; [done|apply NoDup_singleton]]|].
  split; [by destruct p|]. split; [apply last_snoc|]. apply NoDup_app. split; [done|].
  split; [set_solver|apply NoDup_singleton].
Qed.
Context (allowed_ids : "" ∉ allowed).

Lemma known_nonempty P q x : bfs_ok P q → x ∈ dom P → x ≠ start_id → x ≠ "".
Proof.
  intros Hi Hx Hs. destruct (bo_chain _ _ Hi x Hx) as [p Hp]. destruct Hp as [|w x p Hw Hp]; [done|].
  apply (bo_hop _ _ Hi) in Hw as [_ [_ Ha]]. intros ->. done.
Qed.

(** [W]: the devices already popped. *)
Lemma anchor_bfs_ok fuel P q f W P' f' :
  bfs_ok P q → slots_ok W f → (∀ x, x ∈ W ↔ x ∈ dom P ∧ x ∉ q) → NoDup q →
  anchor_bfs start_id neighbors allowed dev_type_by_id anchor_types fuel P q f = Some (P', f') →
  bfs_ok P' [] ∧ slots_ok (dom P') f'.
Proof.
  revert P q f W. induction fuel as [|fuel IH]; intros P [|cur rest] f W Hi Hs HW Hnq; simpl; try done.
  1-2: intros [= <- <-]; split; [done|]; assert (W = dom P) as <- by (apply set_eq; intros x; rewrite HW; set_solver); done.
  destruct (foldl _ _ _) as [P1 q1] eqn:E. apply NoDup_cons in Hnq as [Hcur Hnq].
  destruct (bfs_ok_step _ _ _ _ _ Hi E) as (Hi1 & Hold & Hsub & Hnew).
  destruct (adopt_all _ _ _ _ _ _ E) as (new & -> & Hnd & Hin & HP).
  assert (cur ∈ dom P) as Hc by (apply (bo_queue _ _ Hi); set_solver).
  assert (∀ x, x ∈ new → x ∉ dom P) as Hfresh by (intros x (_ & Hx & _)%Hin; by apply not_elem_of_dom).
  apply (IH P1 (rest ++ new) (note_anchor start_id dev_type_by_id anchor_types f cur) ({[cur]} ∪ W)); [done| | |].
  - apply note_anchor_ok; [done|]. by apply (known_nonempty P (cur :: rest)).
  - intros x. rewrite elem_of_union, elem_of_singleton, HW, elem_of_app, not_elem_of_cons. split.
    + intros [->|(Hx & Hne & Hr)]; [split; [set_solver|]|split; [set_solver|]].
      * intros [?|?]; [done|]. by apply (Hfresh cur).
      * intros [?|?]; [done|]. by apply (Hfresh x).
    + intros [Hx Hq]. destruct (decide (x = cur)) as [->|]; [by left|right].
      destruct (Hnew x Hx) as [?|Hxq]; [tauto|]. rewrite elem_of_app in Hxq. tauto.
  - apply NoDup_app. split; [done|]. split; [|done]. intros x Hx Hxn. apply (Hfresh x Hxn).
    apply (bo_queue _ _ Hi). set_solver.
Qed.
End bfs.

(** Which anchor the search settles on: a backbone gateway if one is reachable,
    else a core site or router, else a POP, else any other anchor type. *)
Definition preferred_anchor start_id neighbors allowed types anchor_types (a : string) : Prop :=
  let reach := rtc (traffic_hop neighbors allowed) start_id in
  let none (A : string → Prop) := ∀ x, reach x → ¬ A x in
  reach a ∧
  (backbone_anchor start_id types anchor_types a ∨
   (none (backbone_anchor start_id types anchor_types) ∧
    (core_anchor start_id types a ∨
     (none (core_anchor start_id types) ∧
      (pop_anchor start_id types anchor_types a ∨
       (none (pop_anchor start_id types anchor_types) ∧ any_anchor start_id types anchor_types a)))))).

Lemma slot_cases A W slot :
  slot_ok A W slot → (∃ a, truthy slot = Some a ∧ a ∈ W ∧ A a) ∨ (truthy slot = None ∧ ∀ x, x ∈ W → ¬ A x).
Proof.
  intros [H1 H2]. destruct (truthy slot) as [a|] eqn:Et.
  - apply truthy_Some in Et as [-> _]. destruct (H1 a eq_refl) as (? & ? & _). eauto.
  - right. split; [done|]. intros x Hx HA. destruct (H2 x Hx HA) as [y ->].
    destruct (H1 y eq_refl) as (_ & _ & Hy). unfold truthy in Et. by destruct y.
Qed.

Lemma preferred_spec start_id neighbors allowed types anchor_types P f :
  bfs_ok start_id neighbors allowed P [] → slots_ok start_id types anchor_types (dom P) f →
  (∃ a, preferred f = Some a ∧ a ∈ dom P ∧ preferred_anchor start_id neighbors allowed types anchor_types a) ∨
  (preferred f = None ∧ ∀ x, rtc (traffic_hop neighbors allowed) start_id x →
     ¬ any_anchor start_id types anchor_types x ∧ ¬ core_anchor start_id types x).
Proof.
  intros Hi [Ha Hc Hb Hp]. unfold preferred, preferred_anchor.
  setoid_rewrite <-(known_reachable start_id neighbors allowed P _ Hi).
  destruct (slot_cases _ _ _ Hb) as [(x & -> & ? & ?)|[-> Hb']]; [left; eauto 10|].
  destruct (slot_cases _ _ _ Hc) as [(x & -> & ? & ?)|[-> Hc']]; [left; eauto 10|].
  destruct (slot_cases _ _ _ Hp) as [(x & -> & ? & ?)|[-> Hp']]; [left; eauto 12|].
  destruct (slot_cases _ _ _ Ha) as [(x & -> & ? & ?)|[-> Ha']]; [left; eauto 12|]. right. eauto.
Qed.

(** Either the preferred anchor's path, or the fallback. *)
Lemma pick_anchor_cases start_id neighbors lbp allowed types anchor_types fw :
  "" ∉ allowed →
  (∃ a nodes, bfs_pick_anchor start_id neighbors lbp allowed types anchor_types fw =
                Some (nodes, links_along lbp nodes) ∧
     preferred_anchor start_id neighbors allowed types anchor_types a ∧
     tpath start_id neighbors allowed a nodes) ∨
  ((∀ x, rtc (traffic_hop neighbors allowed) start_id x →
      ¬ any_anchor start_id types anchor_types x ∧ ¬ core_anchor start_id types x) ∧
   bfs_pick_anchor start_id neighbors lbp allowed types anchor_types fw =
     Some (fallback_path start_id lbp allowed types anchor_types fw)).
Proof.
  intros He. unfold bfs_pick_anchor.
  set (f0 := mkAnchors None None None None).
  destruct (anchor_bfs_total start_id neighbors allowed types anchor_types (S (size allowed))
              {[start_id := None]} [start_id] f0) as [[P f] E].
  { apply bfs_ok_init. }
  { simpl. apply le_n_S, subseteq_size. set_solver. }
  rewrite E.
  destruct (anchor_bfs_ok start_id neighbors allowed types anchor_types He _ _ _ _ ∅ _ _
              (bfs_ok_init start_id neighbors allowed) (slots_ok_init start_id types anchor_types)
              ltac:(intros x; rewrite dom_singleton; set_solver) (NoDup_singleton _) E) as [Hi Hs].
  destruct (preferred_spec _ _ _ _ _ _ _ Hi Hs) as [(a & -> & Ha & Hpref)|[-> Hno]]; [left|by right].
  destruct (bo_chain _ _ _ _ _ Hi a Ha) as [p Hp].
  pose proof (chain_length _ _ _ _ Hp) as Hl. pose proof (chain_tpath _ _ _ _ _ _ Hi Hp) as Ht.
  destruct (tpath_ends _ _ _ _ _ Ht) as (Hh & _ & _).
  rewrite (backtrack_chain start_id P a p) by (done || lia). rewrite reverse_involutive.
  destruct p as [|h p]; simplify_eq/=. rewrite String.eqb_refl. exists a, (start_id :: p). done.
Qed.

(** [bfs_pick_anchor] always answers.  If an anchor can be reached through
    allowed devices, the returned device path starts at the source, goes from
    neighbour to allowed neighbour without repetition, and ends at an anchor of
    the most preferred kind among all reachable ones; the returned links are
    those of its consecutive pairs.  Otherwise no reachable device is an anchor
    of any kind and the result is the forwarding fallback. *)
Lemma anchor_path_correct start_id neighbors lbp allowed types anchor_types fw :
  "" ∉ allowed →
  (∃ a nodes, bfs_pick_anchor start_id neighbors lbp allowed types anchor_types fw =
                Some (nodes, links_along lbp nodes) ∧
     preferred_anchor start_id neighbors allowed types anchor_types a ∧
     tpath start_id neighbors allowed a nodes) ∨
  ((∀ x, rtc (traffic_hop neighbors allowed) start_id x →
      ¬ any_anchor start_id types anchor_types x ∧ ¬ core_anchor start_id types x) ∧
   bfs_pick_anchor start_id neighbors lbp allowed types anchor_types fw =
     Some (fallback_path start_id lbp allowed types anchor_types fw)).
Proof. apply pick_anchor_cases. Qed.

Lemma anchor_path_correct_witness :
  ∃ a nodes, bfs_pick_anchor "ont" (tg_neighbors (build_traffic_graph demo))
               (tg_link_by_pair (build_traffic_graph demo)) (list_to_set (dev_id <$> devices demo))
               (list_to_map ((λ d, (dev_id d, dev_type d)) <$> devices demo)) [BACKBONE_GATEWAY; POP] None =
             Some (nodes, links_along (tg_link_by_pair (build_traffic_graph demo)) nodes) ∧
    tpath "ont" (tg_neighbors (build_traffic_graph demo)) (list_to_set (dev_id <$> devices demo)) a nodes.
Proof.
  destruct (anchor_path_correct "ont" (tg_neighbors (build_traffic_graph demo))
    (tg_link_by_pair (build_traffic_graph demo)) (list_to_set (dev_id <$> devices demo))
    (list_to_map ((λ d, (dev_id d, dev_type d)) <$> devices demo)) [BACKBONE_GATEWAY; POP] None)
    as [(a & nodes & E & _ & Ht)|[_ E]].
  - apply not_elem_of_list_to_set, mem_false. reflexivity.
  - exists a, nodes. split; [exact E|exact Ht].
  - vm_compute in E. discriminate E.
Defined.

(** * The forwarding fallback *)

(** The flow that [bfs_pick_anchor] sends, and what it reads of the result. *)
Definition probe_flow (start_id : string) : Flow :=
  mkFlow "10.0.0.1" "192.0.2.1" start_id (Some (String.append start_id "-if0")).

Definition forwarding_view (r : FlowResult) : list string * list (option string * option string) :=
  (current_device_id <$> hops r, (λ m, (Some (hm_device_id m), hm_link m)) <$> hop_metadata r).

(** A flow that starts at a device that does not forward is dropped there. *)
Lemma leaf_flow s d :
  get_device s (dev_id d) = Some d → dev_type d ∉ ROUTER_CLASS → dev_type d ≠ AON_SWITCH →
  forwarding_view (resolve_flow_path s (probe_flow (dev_id d)) 16).1 = ([dev_id d], [(Some (dev_id d), None)]).
Proof.
  intros Hd Hr Hs. unfold resolve_flow_path. change (Z.to_nat 16) with 16. cbn [path_loop].
  unfold flow_step. cbn [current_device_id probe_flow]. rewrite Hd, (proj2 (mem_false _ _) Hr).
  unfold is_type. by rewrite bool_decide_false.
Qed.

Lemma fallback_alone start_id lbp allowed types anchor_types :
  fallback_path start_id lbp allowed types anchor_types (Some ([start_id], [(Some start_id, None)])) = ([start_id], []).
Proof.
  assert (∀ k, append_new [k] k = [k]) as Hnew.
  { intros k. unfold append_new. by rewrite (proj2 (mem_true k [k]) (list_elem_of_here _ _)). }
  unfold fallback_path. cbn [foldl fst snd]. destruct (truthy (Some start_id)) as [k|] eqn:Ek.
  - apply truthy_Some in Ek as [[= <-] _]. rewrite !Hnew. destruct (bool_decide _); rewrite ?Hnew; by repeat case_match; simplify_eq.
  - by repeat case_match; simplify_eq.
Qed.

(** The forwarding fallback never helps a traffic source.  Traffic starts at
    ONTs and CPEs; the forwarding service drops a flow at once at any device that
    is neither a router nor a switch.  So when such a source reaches no anchor,
    [bfs_pick_anchor], given the forwarding service's real answer, returns the
    source alone and no link, whatever routes and links exist. *)
Lemma leaf_fallback_empty s d neighbors lbp allowed types anchor_types :
  "" ∉ allowed → get_device s (dev_id d) = Some d → dev_type d ∉ ROUTER_CLASS → dev_type d ≠ AON_SWITCH →
  let fw := Some (forwarding_view (resolve_flow_path s (probe_flow (dev_id d)) 16).1) in
  (∀ x, rtc (traffic_hop neighbors allowed) (dev_id d) x → ¬ any_anchor (dev_id d) types anchor_types x ∧ ¬ core_anchor (dev_id d) types x) →
  bfs_pick_anchor (dev_id d) neighbors lbp allowed types anchor_types fw = Some ([dev_id d], []).
Proof.
  intros He Hd Hr Hs fw Hno. unfold fw. rewrite leaf_flow by done.
  destruct (pick_anchor_cases (dev_id d) neighbors lbp allowed types anchor_types (Some ([dev_id d], [(Some (dev_id d), None)])) He)
    as [(a & nodes & _ & (Hreach & Ha) & _)|[_ ->]]; [|by rewrite fallback_alone].
  exfalso. destruct (Hno a Hreach) as [Hany Hcore].
  destruct Ha as [Ha|[_ [Ha|[_ [Ha|[_ Ha]]]]]]; [apply Hany, Ha|by apply Hcore|apply Hany, Ha|by apply Hany].
Qed.

Lemma leaf_fallback_empty_witness :
  bfs_pick_anchor "ont" ∅ ∅ {["ont"]} ∅ [BACKBONE_GATEWAY]
    (Some (forwarding_view (resolve_flow_path demo (probe_flow "ont") 16).1)) = Some (["ont"], []).
Proof.
  apply (leaf_fallback_empty demo (demo_device "ont")).
  - set_solver.
  - vm_compute. reflexivity.
  - apply mem_false. reflexivity.
  - discriminate.
  - assert (∀ x, rtc (traffic_hop ∅ {["ont"]}) "ont" x → x = "ont") as Halone.
    { intros x Hx. apply rtc_inv in Hx as [->|(y & [Hy _] & _)]; [done|]. unfold adjacent in Hy.
      rewrite lookup_empty in Hy. set_solver. }
    intros x ->%Halone. split; intros [Hn _]; by apply Hn.
Defined.
