(* ===== verification/TrafficTick.v ===== *)
(** One tick of demand: [services/traffic/v2_tick.py].

    Every eligible leaf draws its demand from the generator, takes the path to
    its anchor (from the engine's path cache when it has one) and adds the
    demand to every device and link of the path.  The accumulators are Python
    dictionaries, kept in insertion order, because the later phases publish
    their entries in that order. *)

From S2P Require Import Prelude PyFloat Models Worklist Adjacency LinkRules Scenario Catalog LinkStatus.
From S2P Require Import L3Trace NxGraph Pathfinding Dependency DependencyProofs Forwarding TrafficPath TrafficPathProofs TrafficRand.

(** [d[k] += x] on a [defaultdict(float)] *)
Definition add_to (k : string) (x : float) (d : list (string * float)) : list (string * float) :=
  dict_set k (fadd (default fzero (dict_get d k)) x) d.

(** What one leaf contributes: the entry of [debug_generated] with its path. *)
Record LeafFlow := mkLeafFlow {
  lf_leaf : string; up_bps : float; down_bps : float;
  lf_nodes : list string; lf_links : list string
}.

Record Totals := mkTotals {
  per_device_totals : list (string * float);
  per_device_down_totals : list (string * float);
  per_link_totals : list (string * float);
  per_link_down_totals : list (string * float);
  leaves_count : Z;
  generated : list LeafFlow
}.

Definition no_totals : Totals := mkTotals [] [] [] [] 0 [].

Definition add_flow (t : Totals) (f : LeafFlow) : Totals :=
  mkTotals
    (foldl (λ d k, add_to k (up_bps f) d) (per_device_totals t) (lf_nodes f))
    (foldl (λ d k, add_to k (down_bps f) d) (per_device_down_totals t) (lf_nodes f))
    (foldl (λ d k, add_to k (up_bps f) d) (per_link_totals t) (lf_links f))
    (foldl (λ d k, add_to k (down_bps f) d) (per_link_down_totals t) (lf_links f))
    (leaves_count t + 1) (generated t ++ [f]).

(** [engine._path_cache] *)
Abbreviation PathCache := (gmap string (list string * list string)).

(** [float(max(mbps, 0.0)) * 1e6 * float(r)] *)
Definition demand (mbps r : float) : float := fmul (fmul (fmax mbps fzero) (of_Z 1000000)) r.

(** The arguments of [generate_flows_for_leaves]. *)
Record TickView := mkView {
  v_status : gmap string Status;
  v_allowed : gset string;
  v_neighbors : Adjacency;
  v_link_by_pair : gmap (string * string) string;
  v_types : gmap string DeviceType
}.

(** The anchors of the engine, [ANCHOR_TYPES] of [run_tick]. *)
Definition ANCHOR_TYPES : list DeviceType := [BACKBONE_GATEWAY; POP].

Section tick.
Context {G : Type} `{NxGraph G}.
Context (s : DB) (tariffs : list Tariff) (v : TickView) (seed tick : Z).

(** The path [bfs_pick_anchor] finds, with the forwarding service's answer as fallback. *)
Definition search_path (d : Device) : option (list string * list string) :=
  bfs_pick_anchor (dev_id d) (v_neighbors v) (v_link_by_pair v) (v_allowed v) (v_types v) ANCHOR_TYPES
    (Some (forwarding_view (resolve_flow_path s (probe_flow (dev_id d)) 16).1)).

(** The fallback over the dependency resolver's chain. *)
Definition chain_path (d : Device) (path : list string * list string) : list string * list string :=
  if (1 <? length path.1)%nat then path
  else
    let up_res := upstream_fresh (G := G) s d in
    if up_ok up_res && (1 <? length (up_chain up_res))%nat then
      let chain_nodes := filter (λ x, x ∈ v_allowed v) (up_chain up_res) in
      let chain_links := foldl append_new [] (links_along (v_link_by_pair v) chain_nodes) in
      if existsb (λ x, type_in (v_types v) x ANCHOR_TYPES && negb (String.eqb x (dev_id d))) chain_nodes
      then (chain_nodes, chain_links) else path
    else path.

(** The path of a leaf, [None] only when the search runs out of fuel. *)
Definition leaf_path (cache : PathCache) (d : Device) : option (list string * list string) :=
  path ← match cache !! dev_id d with Some p => Some p | None => search_path d end;
  Some (chain_path d path).

(** [tariff_by_id.get(d.tariff_id)]; the last tariff with the id. *)
Definition tariff_of (d : Device) : option Tariff :=
  t_id0 ← tariff_id d; find_row (λ t, (t_id t =? t_id0)%Z) (reverse tariffs).

(** The body of the loop: the flow of an eligible leaf, and the path cache. *)
Definition leaf_flow_of (cache : PathCache) (d : Device) : option (option LeafFlow * PathCache) :=
  if negb (bool_decide (v_status v !! dev_id d = Some UP)) then Some (None, cache)
  else
    match tariff_of d with
    | None => Some (None, cache)
    | Some tf =>
        let r := deterministic_rand01 seed tick (dev_id d) in
        '(nodes, lnks) ← leaf_path cache d;
        if (length nodes <=? 1)%nat then Some (None, cache)
        else
          Some (Some (mkLeafFlow (dev_id d) (demand (max_up_mbps tf) r) (demand (max_down_mbps tf) r) nodes lnks),
                <[dev_id d := (nodes, lnks)]> cache)
    end.

Fixpoint generate_flows_for_leaves (leaves : list Device) (st : Totals * PathCache) : option (Totals * PathCache) :=
  match leaves with
  | [] => Some st
  | d :: rest =>
      '(f, cache) ← leaf_flow_of st.2 d;
      generate_flows_for_leaves rest (match f with Some f => add_flow st.1 f | None => st.1 end, cache)
  end.
End tick.

(** * Accounting *)

(** The value a dictionary key accumulates over a list of contributions. *)
Definition accumulated (k : string) (xs : list (string * float)) (start : option float) : option float :=
  foldl (λ acc e, if String.eqb e.1 k then Some (fadd (default fzero acc) e.2) else acc) start xs.

(** The contributions of the flows to devices or links, in the order they are added. *)
Definition contributions (members : LeafFlow → list string) (amount : LeafFlow → float) (fs : list LeafFlow)
    : list (string * float) :=
  f ← fs; (λ k, (k, amount f)) <$> members f.

Lemma dict_get_add_to k j x d :
  dict_get (add_to j x d) k = if String.eqb j k then Some (fadd (default fzero (dict_get d k)) x) else dict_get d k.
Proof.
  unfold add_to. rewrite dict_get_set, (String.eqb_sym k j). by destruct (String.eqb_spec j k) as [->|].
Qed.

Lemma dict_get_add_all k x ks d :
  dict_get (foldl (λ d j, add_to j x d) d ks) k = accumulated k ((λ j, (j, x)) <$> ks) (dict_get d k).
Proof.
  revert d. induction ks as [|j ks IH]; intros d; [done|]. csimpl. rewrite IH, dict_get_add_to.
  by destruct (String.eqb j k).
Qed.

Lemma accumulated_app k xs ys start : accumulated k (xs ++ ys) start = accumulated k ys (accumulated k xs start).
Proof. apply foldl_app. Qed.

Lemma contributions_snoc m a fs f : contributions m a (fs ++ [f]) = contributions m a fs ++ ((λ k, (k, a f)) <$> m f).
Proof. unfold contributions. rewrite bind_app. simpl. by rewrite app_nil_r. Qed.

(** The dictionaries are the accumulated contributions of the generated flows. *)
Record totals_ok (t : Totals) : Prop := {
  ok_up k : dict_get (per_device_totals t) k = accumulated k (contributions lf_nodes up_bps (generated t)) None;
  ok_down k : dict_get (per_device_down_totals t) k = accumulated k (contributions lf_nodes down_bps (generated t)) None;
  ok_link_up k : dict_get (per_link_totals t) k = accumulated k (contributions lf_links up_bps (generated t)) None;
  ok_link_down k : dict_get (per_link_down_totals t) k = accumulated k (contributions lf_links down_bps (generated t)) None;
  ok_count : leaves_count t = Z.of_nat (length (generated t))
}.

Lemma no_totals_ok : totals_ok no_totals.
Proof. by split. Qed.

Lemma add_flow_ok t f : totals_ok t → totals_ok (add_flow t f).
Proof.
  intros []. split; try (intros k; unfold add_flow; cbn [per_device_totals per_device_down_totals per_link_totals per_link_down_totals generated];
    rewrite dict_get_add_all, contributions_snoc, accumulated_app; congruence).
  simpl. rewrite length_app. simpl. lia.
Qed.
