(* ===== verification/TrafficTickProofs.v ===== *)
(** What a tick generates: which leaves send, how much, along which path, and
    that the path cache does not matter. *)

From S2P Require Import Prelude PyFloat Models Worklist Adjacency LinkRules Scenario Catalog LinkStatus.
From S2P Require Import L3Trace NxGraph Pathfinding Dependency DependencyProofs Forwarding TrafficPath TrafficPathProofs TrafficRand TrafficTick.

Section tick.
Context {G : Type} `{NxGraph G}.
Context (s : DB) (tariffs : list Tariff) (v : TickView) (seed tick : Z).
Context (Hempty : "" ∉ v_allowed v).

Abbreviation path_of := (leaf_path (G := G) s v).
Abbreviation flow_of := (leaf_flow_of (G := G) s tariffs v seed tick).

Lemma leaf_path_total d : is_Some (path_of ∅ d).
Proof using Hempty.
  unfold leaf_path. rewrite lookup_empty. unfold search_path.
  destruct (pick_anchor_cases (dev_id d) (v_neighbors v) (v_link_by_pair v) (v_allowed v) (v_types v) ANCHOR_TYPES
              (Some (forwarding_view (resolve_flow_path s (probe_flow (dev_id d)) 16).1)) Hempty)
    as [(a & nodes & -> & _)|[_ ->]]; simpl; by eexists.
Qed.

(** The flow of a leaf, computed without the cache. *)
Definition fresh_flow (d : Device) : option LeafFlow := default None (fst <$> flow_of ∅ d).

(** Cached paths are those a search would find now. *)
Definition paths_ok (cache : PathCache) : Prop :=
  ∀ d p, d ∈ devices s → cache !! dev_id d = Some p → path_of ∅ d = Some p ∧ 1 < length p.1.

Lemma chain_path_long d p : 1 < length p.1 → chain_path (G := G) s v d p = p.
Proof. intros Hl. unfold chain_path. by rewrite (proj2 (Nat.ltb_lt _ _) Hl). Qed.

Lemma leaf_path_cached cache d : paths_ok cache → d ∈ devices s → path_of cache d = path_of ∅ d.
Proof.
  intros Hc Hd. unfold leaf_path at 1. destruct (cache !! dev_id d) as [p|] eqn:E.
  - destruct (Hc d p Hd E) as [-> Hl]. simpl. f_equal. by apply chain_path_long.
  - unfold leaf_path. by rewrite lookup_empty.
Qed.

Lemma leaf_flow_run cache d :
  keys_ok s → paths_ok cache → d ∈ devices s →
  ∃ cache', flow_of cache d = Some (fresh_flow d, cache') ∧ paths_ok cache'.
Proof using Hempty.
  intros Hk Hc Hd. unfold fresh_flow. destruct (leaf_path_total d) as [[nodes lnks] Hp].
  pose proof (leaf_path_cached cache d Hc Hd) as Hcd. unfold leaf_flow_of.
  destruct (bool_decide (v_status v !! dev_id d = Some UP)); simpl; [|by eexists].
  destruct (tariff_of tariffs d) as [tf|]; simpl; [|by eexists].
  rewrite Hcd, Hp. simpl. destruct (length nodes <=? 1)%nat eqn:El; simpl; [by eexists|].
  eexists. split; [reflexivity|]. intros d' p Hd' Hl.
  destruct (decide (dev_id d' = dev_id d)) as [He|Hne].
  - rewrite He, lookup_insert_eq in Hl. injection Hl as <-.
    assert (d' = d) as ->.
    { pose proof (get_device_key s d' Hk Hd') as E1. pose proof (get_device_key s d Hk Hd) as E2. congruence. }
    split; [done|]. apply Nat.leb_gt in El. simpl. lia.
  - rewrite lookup_insert_ne in Hl by done. by apply Hc.
Qed.

(** The loop adds the flows of the leaves, in order. *)
Lemma generate_run leaves t cache :
  keys_ok s → paths_ok cache → (∀ d, d ∈ leaves → d ∈ devices s) →
  ∃ cache', generate_flows_for_leaves (G := G) s tariffs v seed tick leaves (t, cache) =
              Some (foldl add_flow t (omap fresh_flow leaves), cache') ∧ paths_ok cache'.
Proof using Hempty.
  intros Hk. revert t cache. induction leaves as [|d leaves IH]; intros t cache Hc Hl; [by eexists|].
  cbn [generate_flows_for_leaves fst snd].
  destruct (leaf_flow_run cache d Hk Hc ltac:(apply Hl; set_solver)) as (cache1 & -> & Hc1). cbn [mbind option_bind].
  destruct (IH (match fresh_flow d with Some f => add_flow t f | None => t end) cache1 Hc1 ltac:(set_solver))
    as (cache2 & -> & Hc2).
  exists cache2. split; [|done]. csimpl. by destruct (fresh_flow d).
Qed.

(** ** The paths *)

Lemma fallback_nodes d fw : ∀ x, x ∈ (fallback_path (dev_id d) (v_link_by_pair v) (v_allowed v) (v_types v) ANCHOR_TYPES fw).1 →
  x = dev_id d ∨ x ∈ v_allowed v.
Proof.
  set (P := λ x, x = dev_id d ∨ x ∈ v_allowed v).
  assert (∀ xs x, Forall P xs → P x → Forall P (append_new xs x)) as Happ.
  { intros xs x Hxs Hx. unfold append_new. destruct (mem x xs); [done|]. apply Forall_app. split; [done|]. by apply Forall_singleton. }
  set (add_dev := λ (nodes : list string) (k : option string),
         match truthy k with Some d => if bool_decide (d ∈ v_allowed v) then append_new nodes d else nodes | None => nodes end).
  assert (∀ xs k, Forall P xs → Forall P (add_dev xs k)) as Hadd.
  { intros xs k Hxs. unfold add_dev. destruct (truthy k); [|done]. case_bool_decide; [|done]. apply Happ; [done|by right]. }
  unfold fallback_path. fold add_dev. destruct fw as [[hops meta]|].
  2:{ simpl. intros x ->%list_elem_of_singleton. by left. }
  assert (∀ l xs, Forall P xs → Forall P (foldl (λ ns h, add_dev ns (Some h)) xs l)) as Hf1.
  { intros l. induction l as [|a l IH]; intros xs Hxs; [done|]. cbn [foldl]. apply IH, Hadd, Hxs. }
  assert (∀ (l : list (option string * option string)) st, Forall P st.1 →
    Forall P (foldl (λ st m, (add_dev st.1 m.1, match truthy m.2 with Some l => append_new st.2 l | None => st.2 end)) st l).1) as Hf2.
  { intros l. induction l as [|a l IH]; intros st Hst; [done|]. cbn [foldl]. apply IH. cbn [fst]. by apply Hadd. }
  assert (Forall P (foldl (λ ns h, add_dev ns (Some h)) [dev_id d] hops)) as H0 by (apply Hf1, Forall_singleton; by left).
  specialize (Hf2 meta (foldl (λ ns h, add_dev ns (Some h)) [dev_id d] hops, []) H0).
  destruct (foldl _ _ meta) as [nodes lnks]. simpl in Hf2. intros x.
  destruct (_ || _); simpl; [|intros ->%list_elem_of_singleton; by left].
  intros Hx. eapply Forall_forall in Hf2; [exact Hf2|done].
Qed.

Lemma tpath_nodes d a p : tpath (dev_id d) (v_neighbors v) (v_allowed v) a p → ∀ x, x ∈ p → x = dev_id d ∨ x ∈ v_allowed v.
Proof. induction 1 as [|x y p Hp IH [_ Hy] Hn]; set_solver. Qed.

(** Every device of a path but its source is allowed. *)
Lemma leaf_path_nodes d p x : path_of ∅ d = Some p → x ∈ p.1 → x = dev_id d ∨ x ∈ v_allowed v.
Proof using Hempty.
  unfold leaf_path. rewrite lookup_empty. unfold search_path. intros (q & Hq & [= <-])%bind_Some.
  assert (∀ x, x ∈ q.1 → x = dev_id d ∨ x ∈ v_allowed v) as Hqn.
  { destruct (pick_anchor_cases (dev_id d) (v_neighbors v) (v_link_by_pair v) (v_allowed v) (v_types v) ANCHOR_TYPES
              (Some (forwarding_view (resolve_flow_path s (probe_flow (dev_id d)) 16).1)) Hempty)
      as [(a & nodes & E & _ & Ht)|[_ E]]; rewrite E in Hq; injection Hq as <-.
    - by eapply tpath_nodes.
    - apply fallback_nodes. }
  unfold chain_path. destruct (1 <? length q.1)%nat; [by apply Hqn|].
  destruct (_ && _); [|by apply Hqn]. destruct (existsb _ _); [|by apply Hqn].
  simpl. intros [? _]%list_elem_of_filter. by right.
Qed.

(** What a generated flow is. *)
Record flow_ok (d : Device) (f : LeafFlow) : Prop := {
  fo_leaf : lf_leaf f = dev_id d;
  fo_up : v_status v !! dev_id d = Some UP;
  fo_demand : ∃ tf, tariff_of tariffs d = Some tf ∧
    up_bps f = demand (max_up_mbps tf) (deterministic_rand01 seed tick (dev_id d)) ∧
    down_bps f = demand (max_down_mbps tf) (deterministic_rand01 seed tick (dev_id d));
  fo_path : path_of ∅ d = Some (lf_nodes f, lf_links f) ∧ 1 < length (lf_nodes f)
}.

Lemma fresh_flow_spec d f : fresh_flow d = Some f ↔ flow_ok d f.
Proof using Hempty.
  unfold fresh_flow, leaf_flow_of. destruct (leaf_path_total d) as [[nodes lnks] Hp]. rewrite Hp.
  case_bool_decide as Hu; simpl; [|split; [done|by intros []]].
  destruct (tariff_of tariffs d) as [tf|] eqn:Et; simpl; [|split; [done|intros [_ _ (? & ? & _) _]; congruence]].
  destruct (length nodes <=? 1)%nat eqn:El; simpl.
  - split; [done|]. intros [_ _ _ [Hq Hl]]. rewrite Hp in Hq. injection Hq as -> ->. apply Nat.leb_le in El. lia.
  - apply Nat.leb_gt in El. split.
    + intros [= <-]. split; simpl; [done|done|eauto|done].
    + intros [Hleaf _ (tf' & Ht & Hup & Hdown) [Hq _]]. assert (tf' = tf) as -> by congruence. rewrite Hp in Hq. injection Hq as -> ->.
      destruct f; simpl in *. by subst.
Qed.
End tick.
