(* ===== verification/TrafficAgg.v ===== *)
(** Aggregation and shaping: [services/traffic/v2_aggregation.py],
    [v2_segments.py], [v2_caches.py] and [v2_dirty.py].

    The totals of a tick become changes of devices and links with their
    utilisation, port metrics, and PON segments whose congestion has hysteresis.
    [None] stands for the exception [int(x)] raises on an infinite or NaN
    capacity. *)

From S2P Require Import Prelude PyFloat Models Scenario Catalog TrafficTick OpticalPath EventStore Congestion.

Definition million : float := of_Z 1000000.

(** [float(d.get(k, 0.0))] *)
Definition get_or_zero (d : list (string * float)) (k : string) : float := default fzero (dict_get d k).

(** * compute_device_changes *)

Record DeviceChange := mkDeviceChange {
  dc_id : string; dc_bps : float; dc_utilization : float; upstream_bps : float; downstream_bps : float
}.

(** [inf] for traffic without a capacity. *)
Definition utilization_of (cap : option Z) (x : float) : float :=
  match cap with
  | Some c => if (c <=? 0)%Z then (if fleb x fzero then fzero else finf) else fdiv x (fmul (of_Z c) million)
  | None => if fleb x fzero then fzero else finf
  end.

(** [cap_map.get(k)]: the last row with the id. *)
Definition cap_of (caps : list (string * option Z)) (k : string) : option Z :=
  mjoin (snd <$> find_row (λ e, String.eqb e.1 k) (reverse caps)).

Definition device_caps (cat : Catalog) (ds : list Device) : option (list (string * option Z)) :=
  mapM (λ d, c ← get_effective_device_capacity_mbps cat d; Some (dev_id d, c)) ds.

(** Metrics are allowed unless the device is forced DOWN; a missing row allows them. *)
Definition allow_metrics (s : DB) (k : string) : bool :=
  match get_device s k with
  | None => true
  | Some d => negb (bool_decide (dev_override d = Some DOWN))
  end.

Definition device_change (s : DB) (caps : list (string * option Z)) (totals down : list (string * float))
    (e : string * float) : DeviceChange :=
  let '(did, x) := e in
  let allow := allow_metrics s did in
  let eff := if allow then x else fzero in
  mkDeviceChange did eff (utilization_of (cap_of caps did) eff)
    (if allow then get_or_zero totals did else fzero)
    (if allow then get_or_zero down did else fzero).

Definition compute_device_changes (s : DB) (cat : Catalog) (totals down : list (string * float))
    : option (list DeviceChange) :=
  caps ← device_caps cat (devices s);
  Some (device_change s caps totals down <$> totals).

(** * compute_link_changes *)

Record LinkChange := mkLinkChange { lc_id : string; lc_bps : float; lc_utilization : float }.

Record PortMetric := mkPortMetric { pm_bps : float; pm_utilization : float; pm_version : Z }.

Definition DEFAULT_LINK_CAP_MBPS : float := of_Z 1000.

Definition iface_caps (cat : Catalog) (s : DB) : option (list (string * option Z)) :=
  mapM (λ i, c ← get_effective_interface_capacity_mbps cat s i; Some (if_id i, c)) (interfaces s).

(** [endpoints.get(lid, ("", ""))] *)
Definition endpoints_of (s : DB) (lid : string) : string * string :=
  match find_row (λ l, String.eqb (link_id l) lid) (reverse (links s)) with
  | Some l => (a_interface_id l, b_interface_id l)
  | None => ("", "")
  end.

(** [float(min(caps)) if caps else DEFAULT_LINK_CAP_MBPS], over the positive ones. *)
Definition link_capacity (caps : list (string * option Z)) (ends : string * string) : float :=
  match omap (λ c, match c with Some z => if (0 <? z)%Z then Some z else None | None => None end)
          [cap_of caps ends.1; cap_of caps ends.2] with
  | [] => DEFAULT_LINK_CAP_MBPS
  | c :: cs => of_Z (foldl Z.min c cs)
  end.

Definition link_change (s : DB) (caps : list (string * option Z)) (e : string * float) : LinkChange :=
  let '(lid, x) := e in
  let cap := link_capacity caps (endpoints_of s lid) in
  mkLinkChange lid x (if fleb cap fzero && fleb x fzero then fzero else fdiv x (fmul cap million)).

(** Up and down traffic of every interface. *)
Definition iface_traffic (s : DB) (totals down : list (string * float)) : list (string * float) :=
  foldl (λ acc (e : string * float),
    let '(a_if, b_if) := endpoints_of s e.1 in
    let total := fadd e.2 (get_or_zero down e.1) in
    let acc := if nonempty a_if then add_to a_if total acc else acc in
    if nonempty b_if then add_to b_if total acc else acc) [] totals.

(** P2P uplinks first; the sort is stable. *)
Definition uplink_first (s : DB) (e : string * float) : nat :=
  match find_row (λ i, String.eqb (if_id i) e.1) (reverse (interfaces s)) with
  | Some i => if bool_decide (if_role i = Some P2P_UPLINK) then 0 else 1
  | None => 1
  end.

Definition ports_map (s : DB) (caps : list (string * option Z)) (traffic : list (string * float))
    : list (string * list (string * PortMetric)) :=
  foldl (λ acc (e : string * float),
    match truthy (if_to_dev s e.1) with
    | None => acc
    | Some dev =>
        let u := utilization_of (cap_of caps e.1) e.2 in
        let m := mkPortMetric e.2 (if feqb u finf then of_Z 1000000000 else u) 0 in
        dict_set dev (dict_set e.1 m (default [] (dict_get acc dev))) acc
    end) [] (sort_by (λ x y, (uplink_first s x <=? uplink_first s y)%nat) traffic).

Definition compute_link_changes (s : DB) (cat : Catalog) (totals down : list (string * float))
    : option (list LinkChange * list (string * list (string * PortMetric))) :=
  match totals with
  | [] => Some ([], [])
  | _ =>
      caps ← iface_caps cat s;
      Some (link_change s caps <$> totals, ports_map s caps (iface_traffic s totals down))
  end.

(** * v2_dirty.py *)

Record PreparedDirty := mkPrepared {
  prep_region_id : option string; prep_device_ids : list string; prep_link_ids : list string;
  tariffs_changed : bool; capacities_changed : bool
}.

Record AggregationDelta := mkDelta { delta_device_ids : list string; delta_link_ids : list string }.

Definition sorted_unique (ids : list string) : list string :=
  sorted_strs (remove_dups (filter (λ i, nonempty i = true) ids)).

(** The devices at the ends of the dirty links. *)
Definition dirty_ends (s : DB) (link_ids : list string) : list string :=
  let iface_ids := l ← filter (λ l, link_id l ∈ link_ids) (links s);
                   filter (λ i, nonempty i = true) [a_interface_id l; b_interface_id l] in
  filter (λ d, nonempty d = true) (if_device_id <$> filter (λ i, if_id i ∈ iface_ids) (interfaces s)).

Definition prepare_dirty (s : DB) (dev_ids link_ids : list string) (region : option string) : PreparedDirty :=
  let links := filter (λ l, nonempty l = true) link_ids in
  mkPrepared region (sorted_unique (filter (λ d, nonempty d = true) dev_ids ++ dirty_ends s links))
    (sorted_unique links) false false.

Definition aggregate_dirty (s : DB) (prepared : PreparedDirty) (incremental : bool) : AggregationDelta :=
  if incremental then mkDelta (prep_device_ids prepared) (prep_link_ids prepared)
  else mkDelta (sorted_unique (dev_id <$> devices s)) (sorted_unique (link_id <$> links s)).
