(* ===== verification/TrafficSegments.v ===== *)
(** PON segments: [services/traffic/v2_segments.py] and [v2_caches.py].

    The ONTs that generated demand are grouped by the PON port of their OLT and
    the neighbour (usually an ODF) through which their optical path leaves it.
    A segment has the capacity of its port, is shaped to it, and its congestion
    has hysteresis over the ticks. *)

From S2P Require Import Prelude PyFloat Models Scenario Catalog TrafficTick OpticalPath EventStore.
From S2P Require Import NxGraph Pathfinding TrafficAgg.

(** * The engine's caches *)

Record TopologyCaches := mkTopology {
  tc_iface_by_id : gmap string Interface;
  tc_dev_by_iface : gmap string string;
  tc_neigh_by_if : gmap string (gset string);
  tc_olt_pon : gmap string (list Interface);
  tc_dev_types : gmap string DeviceType;
  tc_hw_models : gmap string (option Z);
  tc_optical : gmap string (option OpticalPathResult);
  tc_version : option Z
}.

Definition no_topology : TopologyCaches := mkTopology ∅ ∅ ∅ ∅ ∅ ∅ ∅ None.

(** [{row.key: f(row) for row in rows}] *)
Definition dict_of {A B} (key : A → string) (f : A → B) (rows : list A) : gmap string B :=
  foldl (λ m r, <[key r := f r]> m) ∅ rows.

Definition link_neighbours (dev_by_if : gmap string string) (m : gmap string (gset string)) (ln : Link)
    : gmap string (gset string) :=
  match truthy (dev_by_if !! a_interface_id ln), truthy (dev_by_if !! b_interface_id ln) with
  | Some a, Some b =>
      let m := <[a_interface_id ln := {[b]} ∪ default ∅ (m !! a_interface_id ln)]> m in
      <[b_interface_id ln := {[a]} ∪ default ∅ (m !! b_interface_id ln)]> m
  | _, _ => m
  end.

Definition name_leb (i j : Interface) : bool := str_leb (if_name i) (if_name j).

Definition pon_ports (types : gmap string DeviceType) (ifs : list Interface) : gmap string (list Interface) :=
  sort_by name_leb <$> foldl (λ m i,
    if bool_decide (port_role i = Some PON) && nonempty (if_device_id i) &&
       bool_decide (types !! if_device_id i = Some OLT)
    then <[if_device_id i := default [] (m !! if_device_id i) ++ [i]]> m else m) ∅ ifs.

(** Nothing happens while the version is the cached one. *)
Definition ensure_topology_caches (version : Z) (s : DB) (tc : TopologyCaches) : TopologyCaches :=
  if bool_decide (tc_version tc = Some version) then tc
  else
    let types := dict_of dev_id dev_type (devices s) in
    let dev_by_if := dict_of if_id if_device_id (interfaces s) in
    mkTopology (dict_of if_id id (interfaces s)) dev_by_if
      (foldl (link_neighbours dev_by_if) ∅ (links s)) (pon_ports types (interfaces s))
      types (dict_of dev_id hardware_model_id (devices s)) ∅ (Some version).

(** [_profiles_by_hw_model], filled once. *)
Definition ensure_profiles_cache (cat : Catalog) (pc : option (gmap Z (list PortProfile)))
    : option (gmap Z (list PortProfile)) :=
  match pc with
  | Some _ => pc
  | None => Some (sort_by (λ p q, str_leb (pp_name p) (pp_name q)) <$>
      foldl (λ m p, if (pp_hardware_model_id p =? 0)%Z then m
                    else <[pp_hardware_model_id p := default [] (m !! pp_hardware_model_id p) ++ [p]]> m)
        ∅ (port_profiles cat))
  end.

(** * _pon_caps *)

Definition gbps (x : float) : float := fmul x (of_Z 1000000000).

Definition pon_caps (tc : TopologyCaches) (profs : gmap Z (list PortProfile)) (olt : string) (i : Interface)
    : float * float * option Z :=
  let down := of_Z 2500000000 in
  let up := of_Z 1250000000 in
  let hw := truthy_key (mjoin (tc_hw_models tc !! olt)) in
  let ps := default [] (hw ≫= λ k, profs !! k) in
  let pname := strip (default "" (truthy (profile_name i))) in
  let p := match find_row (λ p, String.eqb (strip (pp_name p)) pname) ps with
           | Some p => Some p
           | None => find_row (λ p, bool_decide (pp_port_role p = Some PON)) ps
           end in
  match p with
  | None => (down, up, None)
  | Some p =>
      match speed_gbps p with
      | None => (down, up, max_subscribers p)
      | Some sp =>
          let media := lower (default "" (truthy (pp_media p))) in
          let name_l := lower (pp_name p) in
          if contains "xgs" media || contains "xgs" name_l then (gbps sp, gbps sp, max_subscribers p)
          else if contains "xg" media || contains "xgpon" name_l then
            (gbps sp, of_Z 2500000000, max_subscribers p)
          else (gbps sp, up, max_subscribers p)
      end
  end.

(** * compute_segments_map *)

Record Segment := mkSeg {
  sg_id : string; sg_olt_id : string; sg_pon_port_id : string; sg_odf_id : string;
  subscribers_count : Z; subscribers_max : option Z;
  capacity_down_bps : float; capacity_up_bps : float;
  demand_down_bps : float; demand_up_bps : float;
  used_down_bps : float; used_up_bps : float;
  headroom_down_bps : float; headroom_up_bps : float;
  congested : bool
}.

Definition new_segment (id olt pon odf : string) : Segment :=
  mkSeg id olt pon odf 0 None fzero fzero fzero fzero fzero fzero fzero fzero false.

Section segments.
Context {G : Type} `{NxGraph G} `{Dijkstra G}.
Context (s : DB) (profs : gmap Z (list PortProfile)).

(** The optical path of an ONT, with both caches; [None] entries are looked up again. *)
Definition optical_path (ont : string) (st : TopologyCaches * OpticalState (G := G))
    : option OpticalPathResult * (TopologyCaches * OpticalState (G := G)) :=
  match mjoin (tc_optical st.1 !! ont) with
  | Some r => (Some r, st)
  | None =>
      let tc := st.1 in
      let '(r, memo) := resolve_optical_path s ont st.2 in
      (r, (mkTopology (tc_iface_by_id tc) (tc_dev_by_iface tc) (tc_neigh_by_if tc) (tc_olt_pon tc)
             (tc_dev_types tc) (tc_hw_models tc) (<[ont := r]> (tc_optical tc)) (tc_version tc), memo))
  end.

(** The device next to the OLT on the path. *)
Fixpoint next_to (olt : string) (segs : list PathSegment) : option string :=
  match segs with
  | [] => None
  | sg :: rest =>
      if String.eqb (seg_src sg) olt && nonempty (seg_dst sg) then Some (seg_dst sg)
      else if String.eqb (seg_dst sg) olt && nonempty (seg_src sg) then Some (seg_src sg)
      else next_to olt rest
  end.

Definition neighbours_of (tc : TopologyCaches) (i : Interface) : gset string :=
  default ∅ (tc_neigh_by_if tc !! if_id i).

(** Any neighbour of a PON port, the smallest id. *)
Definition any_neighbour (tc : TopologyCaches) (ports : list Interface) : option string :=
  head (sorted_strs (remove_dups (i ← ports; sorted_strs (elements (neighbours_of tc i))))).

(** Port and neighbour device of an ONT's segment. *)
Definition segment_key (tc : TopologyCaches) (r : OpticalPathResult) : option (string * string * string) :=
  let olt := path_olt_id r in
  if negb (nonempty olt) then None
  else
    ports ← tc_olt_pon tc !! olt;
    odf ← match next_to olt (segments r) with Some d => Some d | None => any_neighbour tc ports end;
    pon ← match find_row (λ i, bool_decide (odf ∈ neighbours_of tc i)) ports with
          | Some i => Some (if_id i)
          | None => if_id <$> head ports
          end;
    Some (olt, pon, odf).

Definition segment_id (pon odf : string) : string := pon +:+ "::" +:+ odf.

(** One ONT joins its segment. *)
Definition join_segment (tc : TopologyCaches) (key : string * string * string) (up down : float)
    (m : list (string * Segment)) : list (string * Segment) :=
  let '(olt, pon, odf) := key in
  let id := segment_id pon odf in
  let e := default (new_segment id olt pon odf) (dict_get m id) in
  let '(cd, cu, mx) :=
    if feqb (capacity_down_bps e) fzero && feqb (capacity_up_bps e) fzero then
      match tc_iface_by_id tc !! pon with
      | Some pi =>
          let '(d, u, max_subs) := pon_caps tc profs olt pi in
          (d, u, match max_subs with Some _ => max_subs | None => subscribers_max e end)
      | None => (capacity_down_bps e, capacity_up_bps e, subscribers_max e)
      end
    else (capacity_down_bps e, capacity_up_bps e, subscribers_max e) in
  dict_set id (mkSeg id (sg_olt_id e) (sg_pon_port_id e) (sg_odf_id e)
    (subscribers_count e + 1) mx cd cu
    (fadd (demand_down_bps e) down) (fadd (demand_up_bps e) up)
    (used_down_bps e) (used_up_bps e) (headroom_down_bps e) (headroom_up_bps e) (congested e)) m.

Fixpoint collect_segments (totals down : list (string * float)) (onts : list string)
    (st : list (string * Segment) * (TopologyCaches * OpticalState (G := G)))
    : list (string * Segment) * (TopologyCaches * OpticalState (G := G)) :=
  match onts with
  | [] => st
  | ont :: rest =>
      let '(r, caches) := optical_path ont st.2 in
      let m := match r ≫= segment_key caches.1 with
               | Some key => join_segment caches.1 key (get_or_zero totals ont) (get_or_zero down ont) st.1
               | None => st.1
               end in
      collect_segments totals down rest (m, caches)
  end.
End segments.

(** ** Shaping and hysteresis *)

Section finish.
Context (detect_threshold clear_threshold : float) (tick : Z).

(** [(dem / cap) if cap > 0 else 0.0] *)
Definition ratio (dem cap : float) : float := if fltb fzero cap then fdiv dem cap else fzero.

Definition shaped (dem cap : float) : float := if fltb fzero cap then fmin dem cap else dem.

Definition segment_util (e : Segment) : float :=
  let cap_d := fmax (capacity_down_bps e) fzero in
  let cap_u := fmax (capacity_up_bps e) fzero in
  let dem_d := fmax (demand_down_bps e) fzero in
  let dem_u := fmax (demand_up_bps e) fzero in
  fmax (ratio dem_d cap_d) (ratio dem_u cap_u).

(** The entry with its shaping fields and its new state. *)
Definition finish_segment (e : Segment) (state : bool) : Segment :=
  let cap_d := fmax (capacity_down_bps e) fzero in
  let cap_u := fmax (capacity_up_bps e) fzero in
  let used_d := shaped (fmax (demand_down_bps e) fzero) cap_d in
  let used_u := shaped (fmax (demand_up_bps e) fzero) cap_u in
  mkSeg (sg_id e) (sg_olt_id e) (sg_pon_port_id e) (sg_odf_id e) (subscribers_count e) (subscribers_max e)
    (capacity_down_bps e) (capacity_up_bps e) (demand_down_bps e) (demand_up_bps e)
    used_d used_u (fmax (fsub cap_d used_d) fzero) (fmax (fsub cap_u used_u) fzero) state.

Definition segment_cleared (sid : string) (e : Segment) : Event :=
  mkBusEvent "segment.congestion.cleared"
    [("id", JStr sid); ("olt_id", JStr (sg_olt_id e)); ("pon_port_id", JStr (sg_pon_port_id e));
     ("odf_id", JStr (sg_odf_id e)); ("tick", JInt tick)] None.

Definition segment_detected (sid : string) (e : Segment) : Event :=
  mkBusEvent "segment.congestion.detected"
    [("id", JStr sid); ("olt_id", JStr (sg_olt_id e)); ("pon_port_id", JStr (sg_pon_port_id e));
     ("odf_id", JStr (sg_odf_id e));
     ("demand_down_bps", JFloat (fmax (demand_down_bps e) fzero));
     ("demand_up_bps", JFloat (fmax (demand_up_bps e) fzero));
     ("capacity_down_bps", JFloat (fmax (capacity_down_bps e) fzero));
     ("capacity_up_bps", JFloat (fmax (capacity_up_bps e) fzero)); ("tick", JInt tick)] None.

Definition segment_over (prev : gset string) (sid : string) (e : Segment) : bool :=
  fleb (if decide (sid ∈ prev) then clear_threshold else detect_threshold) (segment_util e).

Fixpoint finish_segments (prev : gset string) (m : list (string * Segment))
    : list (string * Segment) * gset string * list Event :=
  match m with
  | [] => ([], ∅, [])
  | (sid, e) :: rest =>
      let '(m', current, evs) := finish_segments prev rest in
      let over := segment_over prev sid e in
      let ev := if decide (sid ∈ prev) then (if over then [] else [segment_cleared sid e])
                else (if over then [segment_detected sid e] else []) in
      ((sid, finish_segment e over) :: m', if over then {[sid]} ∪ current else current, ev ++ evs)
  end.
End finish.

Definition ont_ids (tc : TopologyCaches) (totals : list (string * float)) : list string :=
  filter (λ k, match tc_dev_types tc !! k with Some t => mem t [ONT; BUSINESS_ONT] | None => false end = true)
    (sorted_strs (fst <$> totals)).
