(* ===== verification/TrafficSegmentProofs.v ===== *)
(** PON segments: grouping, shaping, and hysteresis. *)

From S2P Require Import Prelude PyFloat Models Scenario Catalog EventStore NxGraph Pathfinding.
From S2P Require Import OpticalPath OpticalPathProofs TrafficTick TrafficAgg TrafficSegments.

(** * Shaping *)

Lemma ratio_spec dem cap : fltb fzero cap = true → ratio dem cap = fdiv dem cap.
Proof. unfold ratio. by intros ->. Qed.

(** What is used never exceeds the demand, nor the capacity of a port that has one. *)
Lemma shaped_bounds dem cap :
  nonneg dem = true → is_nan cap = false →
  nonneg (shaped dem cap) = true ∧ fleb (shaped dem cap) dem = true ∧
  (fltb fzero cap = true → fleb (shaped dem cap) cap = true).
Proof.
  intros Hd Hc. unfold shaped. pose proof (nonneg_not_nan _ Hd) as Hn.
  destruct (fltb fzero cap) eqn:E; [|split; [done|]; split; [by apply fleb_refl|done]].
  split; [|split; [by apply fmin_le_l|intros _; by apply fmin_le_r]].
  unfold fmin. destruct (fltb cap dem); [|done]. unfold nonneg. by apply fltb_fleb.
Qed.

Lemma fmax_zero_nonneg x : is_nan x = false → nonneg (fmax x fzero) = true.
Proof. intros Hx. unfold nonneg. by apply fmax_ge_r. Qed.

(** * Hysteresis *)

Section finish.
Context (detect clear : float) (tick : Z) (prev : gset string).

Abbreviation over := (segment_over detect clear prev).

(** The event of one segment: none on a steady state. *)
Definition change_event (p : string * Segment) : list Event :=
  let '(sid, e) := p in
  if decide (sid ∈ prev) then (if over sid e then [] else [segment_cleared tick sid e])
  else (if over sid e then [segment_detected tick sid e] else []).

Lemma finish_spec m m' current evs :
  finish_segments detect clear tick prev m = (m', current, evs) →
  m' = (λ p, (p.1, finish_segment p.2 (over p.1 p.2))) <$> m ∧
  (∀ k, k ∈ current ↔ ∃ e, (k, e) ∈ m ∧ over k e = true) ∧
  evs = m ≫= change_event.
Proof.
  revert m' current evs. induction m as [|[sid e] m IH]; intros m' current evs; cbn [finish_segments].
  { intros [= <- <- <-]. split; [done|]. split; [set_solver|done]. }
  destruct (finish_segments _ _ _ _ m) as [[m1 c1] e1] eqn:E. intros [= <- <- <-].
  destruct (IH _ _ _ eq_refl) as (-> & Hc & ->). split; [done|]. split; [|done].
  intros k. destruct (over sid e) eqn:Eo.
  - rewrite elem_of_union, elem_of_singleton, Hc. setoid_rewrite elem_of_cons. naive_solver.
  - rewrite Hc. setoid_rewrite elem_of_cons. naive_solver congruence.
Qed.

Lemma change_event_id p ev : ev ∈ change_event p → ("id", JStr p.1) ∈ bus_payload ev.
Proof.
  destruct p as [sid e]. unfold change_event. destruct (decide _), (over sid e); try set_solver;
    intros ->%list_elem_of_singleton; simpl; set_solver.
Qed.
End finish.

(** * Grouping *)

Section group.
Context {G : Type} `{NxGraph G} `{Dijkstra G}.
Context (s : DB) (profs : gmap Z (list PortProfile)).

(** The caches a tick reads agree with the tables. *)
Definition optical_caches_ok (st : TopologyCaches * OpticalState (G := G)) : Prop :=
  (∀ k r, tc_optical st.1 !! k = Some (Some r) → resolve_fresh (G := G) s k = Some r) ∧ memo_ok (s, st.2).

(** Everything but the path cache and the version. *)
Definition same_topology (tc tc' : TopologyCaches) : Prop :=
  tc_iface_by_id tc = tc_iface_by_id tc' ∧ tc_dev_by_iface tc = tc_dev_by_iface tc' ∧
  tc_neigh_by_if tc = tc_neigh_by_if tc' ∧ tc_olt_pon tc = tc_olt_pon tc' ∧
  tc_dev_types tc = tc_dev_types tc' ∧ tc_hw_models tc = tc_hw_models tc'.

(** The versions the two caches belong to. *)
Definition cache_versions (st : TopologyCaches * OpticalState (G := G)) : option Z * Z :=
  (tc_version st.1, topo_version (opt_store st.2)).

Lemma optical_path_run ont st :
  optical_caches_ok st →
  ∃ st', optical_path s ont st = (resolve_fresh (G := G) s ont, st') ∧
    optical_caches_ok st' ∧ same_topology st.1 st'.1 ∧ cache_versions st' = cache_versions st.
Proof.
  intros [Hc Hm]. unfold optical_path. destruct (tc_optical st.1 !! ont) as [[r|]|] eqn:E; simpl.
  1:{ exists st. rewrite (Hc _ _ E). split; [done|]. split; [done|]. by repeat split. }
  all: pose proof (resolve_memo s ont st.2 Hm) as Hr; pose proof (resolve_version s ont st.2) as Hv;
    destruct (resolve_optical_path s ont st.2) as [r memo]; destruct Hr as [-> Hm']; eexists; (split; [reflexivity|]);
    (split; [|split; [by repeat split|unfold cache_versions; cbn [fst snd tc_version] in *; by rewrite Hv]]); split; [|done];
    cbn [fst tc_optical]; intros k r; (destruct (decide (k = ont)) as [->|Hne]; [rewrite lookup_insert_eq; by intros [= ->]|]);
    rewrite lookup_insert_ne by done; apply Hc.
Qed.

Lemma segment_key_same tc tc' r : same_topology tc tc' → segment_key tc r = segment_key tc' r.
Proof.
  intros (_ & _ & Hn & Ho & _). unfold segment_key, any_neighbour, neighbours_of. by rewrite Hn, Ho.
Qed.

Lemma join_segment_same tc tc' key up down m :
  same_topology tc tc' → join_segment profs tc key up down m = join_segment profs tc' key up down m.
Proof.
  intros (Hi & _ & _ & _ & _ & Hh). unfold join_segment, pon_caps. by rewrite Hi, Hh.
Qed.

(** The segment an ONT belongs to. *)
Definition key_of (tc : TopologyCaches) (ont : string) : option (string * string * string) :=
  resolve_fresh (G := G) s ont ≫= segment_key tc.

(** Grouping without caches. *)
Definition group (tc : TopologyCaches) (totals down : list (string * float)) (onts : list string)
    (m : list (string * Segment)) : list (string * Segment) :=
  foldl (λ m ont, match key_of tc ont with
                  | Some key => join_segment profs tc key (get_or_zero totals ont) (get_or_zero down ont) m
                  | None => m
                  end) m onts.

Lemma collect_run tc totals down onts m st :
  optical_caches_ok st → same_topology tc st.1 →
  ∃ st', collect_segments s profs totals down onts (m, st) = (group tc totals down onts m, st') ∧
    optical_caches_ok st' ∧ same_topology tc st'.1 ∧ cache_versions st' = cache_versions st.
Proof.
  revert m st. induction onts as [|ont onts IH]; intros m st Hok Ht; [by exists st|].
  cbn [collect_segments fst snd]. destruct (optical_path_run ont st Hok) as (st1 & -> & Hok1 & Ht1 & Hv1).
  assert (same_topology tc st1.1) as Ht2 by (unfold same_topology in *; intuition congruence).
  rewrite <-Hv1. clear Hv1. destruct st1 as [tc1 memo1]. cbn [fst] in *.
  destruct (IH (match resolve_fresh (G := G) s ont ≫= segment_key tc1 with
                | Some key => join_segment profs tc1 key (get_or_zero totals ont) (get_or_zero down ont) m
                | None => m end) (tc1, memo1) Hok1 Ht2) as (st' & E & Hok' & Ht').
  exists st'. split; [|done]. rewrite E. cbn [group foldl]. unfold key_of at 2.
  destruct (resolve_fresh (G := G) s ont) as [r|]; [|done]. simpl.
  rewrite <-(segment_key_same tc tc1 r Ht2). destruct (segment_key tc r); [|done].
  by rewrite (join_segment_same tc tc1).
Qed.

(** The ONTs of a segment, in order. *)
Definition in_segment (tc : TopologyCaches) (id : string) (ont : string) : Prop :=
  ∃ olt pon odf, key_of tc ont = Some (olt, pon, odf) ∧ segment_id pon odf = id.

#[local] Instance in_segment_dec tc id ont : Decision (in_segment tc id ont).
Proof.
  destruct (key_of tc ont) as [[[olt pon] odf]|] eqn:E.
  - destruct (decide (segment_id pon odf = id)) as [Hid|Hid]; [left|right].
    + by exists olt, pon, odf.
    + intros (? & ? & ? & E' & ?). simplify_eq.
  - right. intros (? & ? & ? & E' & _). congruence.
Defined.

Definition members (tc : TopologyCaches) (id : string) (onts : list string) : list string :=
  filter (in_segment tc id) onts.

(** A segment counts and sums its ONTs. *)
Definition segment_sums (totals down : list (string * float)) (e : option Segment) (ms : list string) : Prop :=
  match e with
  | None => ms = []
  | Some e =>
      ms ≠ [] ∧ subscribers_count e = Z.of_nat (length ms) ∧
      demand_up_bps e = foldl (λ acc k, fadd acc (get_or_zero totals k)) fzero ms ∧
      demand_down_bps e = foldl (λ acc k, fadd acc (get_or_zero down k)) fzero ms
  end.

Lemma group_sums tc totals down onts id :
  segment_sums totals down (dict_get (group tc totals down onts []) id) (members tc id onts).
Proof.
  induction onts as [|ont onts IH] using rev_ind; [done|].
  unfold group, members in *. rewrite foldl_snoc, filter_app. cbn [foldl].
  set (m := foldl _ [] onts) in *. rewrite filter_cons, filter_nil.
  destruct (decide (in_segment tc id ont)) as [(olt & pon & odf & E & Hid)|Hout].
  - rewrite E. unfold join_segment. rewrite Hid.
    set (e0 := default (new_segment id olt pon odf) (dict_get m id)).
    destruct (if feqb (capacity_down_bps e0) fzero && _ then _ else _) as [[cd cu] mx].
    rewrite dict_get_set, String.eqb_refl. simpl.
    split; [by destruct (filter (in_segment tc id) onts)|]. rewrite !foldl_app, length_app. simpl.
    subst e0. destruct (dict_get m id) as [e|]; simpl in *.
    + destruct IH as (_ & -> & -> & ->). split; [lia|done].
    + rewrite IH. done.
  - rewrite app_nil_r. destruct (key_of tc ont) as [[[olt pon] odf]|] eqn:E; [|done].
    unfold join_segment. set (sid := segment_id pon odf). set (e0 := default _ _).
    destruct (if feqb (capacity_down_bps e0) fzero && _ then _ else _) as [[cd cu] mx].
    rewrite dict_get_set. destruct (String.eqb_spec id sid) as [->|Hne]; [|done].
    destruct Hout. by exists olt, pon, odf.
Qed.
End group.

(** ** The events of one segment *)

Definition event_id (ev : Event) : option string :=
  match dict_get (bus_payload ev) "id" with Some (JStr t) => Some t | _ => None end.

Definition events_of (sid : string) : list Event → list Event := filter (λ ev, event_id ev = Some sid).

Lemma events_of_change detect clear tick prev sid p :
  events_of sid (change_event detect clear tick prev p) =
    if String.eqb p.1 sid then change_event detect clear tick prev p else [].
Proof.
  destruct p as [k e]. unfold change_event, events_of.
  destruct (decide _), (segment_over _ _ _ _ _); cbn [fst]; try (by destruct (String.eqb k sid));
    rewrite filter_cons, filter_nil; cbn; (destruct (String.eqb_spec k sid) as [->|Hne]; case_decide; naive_solver).
Qed.

Lemma events_of_absent detect clear tick prev sid m :
  sid ∉ m.*1 → events_of sid (m ≫= change_event detect clear tick prev) = [].
Proof.
  induction m as [|p m IH]; [done|]. rewrite fmap_cons, not_elem_of_cons. intros [Hne Hn]. cbn [mbind list_bind].
  unfold events_of in *. rewrite filter_app. fold (events_of sid). rewrite events_of_change.
  destruct (String.eqb_spec p.1 sid); [congruence|]. by apply IH.
Qed.

Lemma events_of_member detect clear tick prev sid e m :
  NoDup m.*1 → (sid, e) ∈ m →
  events_of sid (m ≫= change_event detect clear tick prev) = change_event detect clear tick prev (sid, e).
Proof.
  induction m as [|p m IH]; [by intros _ ?%elem_of_nil|]. rewrite fmap_cons, NoDup_cons. intros [Hn Hnd] Hin.
  cbn [mbind list_bind]. unfold events_of in *. rewrite filter_app. fold (events_of sid) in *. rewrite events_of_change.
  apply elem_of_cons in Hin as [<-|Hin].
  - cbn [fst]. rewrite String.eqb_refl, events_of_absent by done. apply app_nil_r.
  - destruct (String.eqb_spec p.1 sid) as [He|_]; [|by apply IH].
    destruct Hn. rewrite He. apply list_elem_of_fmap. by exists (sid, e).
Qed.

(** A finished entry is found under its key. *)
Lemma finished_get (st : string → Segment → bool) m sid e :
  NoDup m.*1 → (sid, e) ∈ m →
  dict_get ((λ p : string * Segment, (p.1, finish_segment p.2 (st p.1 p.2))) <$> m) sid = Some (finish_segment e (st sid e)).
Proof.
  intros Hnd Hin. apply dict_get_nodup; [by rewrite <-list_fmap_compose|].
  apply list_elem_of_fmap. by exists (sid, e).
Qed.

Lemma fmax_pos x : fltb fzero x = true → fmax x fzero = x.
Proof.
  intros Hx. unfold fmax. destruct (fltb_not_nan _ _ Hx) as [H0 Hn].
  by rewrite fltb_negb_fleb, (fltb_fleb _ _ Hx).
Qed.

(** * The properties *)


Definition busy_segments : list (string * Segment) :=
  [("pon::odf", mkSeg "pon::odf" "olt" "pon" "odf" 1 None (of_Z 100) (of_Z 100) (of_Z 90) (of_Z 10)
      fzero fzero fzero fzero false)].


(** The segments group the ONTs by PON port.  With caches that agree with the
    tables, whatever they hold, the grouping has for every segment id an entry
    exactly when some ONT of the tick belongs to the segment; the entry counts the
    ONTs of the segment and sums their upstream and downstream demand in the order
    of the ids.  The caches still agree with the tables afterwards, and no version
    moves. *)
Lemma segments_sum_members {G} `{NxGraph G} `{Dijkstra G} s profs totals down onts tc
    (memo : OpticalState (G := G)) id :
  optical_caches_ok s (tc, memo) →
  let out := collect_segments (G := G) s profs totals down onts ([], (tc, memo)) in
  segment_sums totals down (dict_get out.1 id) (members (G := G) s tc id onts) ∧
  optical_caches_ok s out.2 ∧ cache_versions out.2 = cache_versions (tc, memo).
Proof.
  intros Hok. destruct (collect_run s profs tc totals down onts [] (tc, memo) Hok) as (st & E & Hok' & _ & Hv); [by repeat split|].
  cbv zeta. rewrite E. split; [apply group_sums|done].
Qed.

Definition demo_topology : TopologyCaches := ensure_topology_caches 0 demo no_topology.
Definition no_paths : OpticalState (G := AssocGraph) := mkOpticalState new_store [].

Lemma no_paths_ok : optical_caches_ok demo (demo_topology, no_paths).
Proof.
  split; [|split; [|split]; simpl; [set_solver|done|lia]].
  assert (tc_optical demo_topology = ∅) as E by reflexivity. intros k r. cbn [fst]. by rewrite E, lookup_empty.
Qed.

Lemma segments_sum_members_witness :
  ∃ e, dict_get (collect_segments (G := AssocGraph) demo ∅ [] [] ["ont"] ([], (demo_topology, no_paths))).1
         "olt-pon::odf" = Some e ∧ subscribers_count e = 1%Z.
Proof.
  destruct (segments_sum_members (G := AssocGraph) demo ∅ [] [] ["ont"] demo_topology no_paths "olt-pon::odf" no_paths_ok)
    as (Hs & _).
  destruct (dict_get _ _) as [e|].
  - exists e. split; [done|]. destruct Hs as (_ & -> & _). vm_compute. reflexivity.
  - exfalso. vm_compute in Hs. discriminate Hs.
Defined.
