(* ===== verification/TrafficEngine.v ===== *)
(** The traffic engine: [services/traffic/v2_engine.py], [v2_phases.py] and
    [v2_snapshot.py].

    [run_tick] evaluates statuses, builds or reuses the adjacency, generates the
    flows of the leaves, aggregates them, publishes the changes, zeroes what
    became inactive, runs the congestion handlers and publishes the snapshot.
    The engine object, the module-level snapshots and the resolver's memo table
    are the state of a tick.  The thresholds are the constants the constructor
    sets. *)

From S2P Require Import Prelude PyFloat Models Worklist Adjacency LinkRules Scenario Catalog LinkStatus EventStore.
From S2P Require Import L3Trace NxGraph Pathfinding Dependency DependencyProofs Status StatusRecompute.
From S2P Require Import TrafficPath TrafficPathProofs TrafficRand TrafficTick TrafficAgg TrafficSegments OpticalPath Congestion.

Definition LEAF_TYPES : list DeviceType := [ONT; BUSINESS_ONT; AON_CPE].

Definition device_detect_threshold : float := of_Z 1.
Definition device_clear_threshold : float := dec 95 100.
Definition link_detect_threshold : float := of_Z 1.
Definition link_clear_threshold : float := dec 95 100.
Definition segment_detect_threshold : float := dec 95 100.
Definition segment_clear_threshold : float := dec 85 100.

(** * v2_snapshot.py *)

Record DevMetric := mkDevMetric {
  dm_bps : float; dm_utilization : float; dm_version : Z; dm_upstream_bps : float; dm_downstream_bps : float
}.

Record LinkMetric := mkLinkMetric { lm_bps : float; lm_utilization : float; lm_version : Z }.

(** [1e9 if u == inf else u] *)
Definition finite_util (u : float) : float := if feqb u finf then of_Z 1000000000 else u.

Definition build_snapshot_maps (dcs : list DeviceChange) (lcs : list LinkChange)
    : list (string * DevMetric) * list (string * LinkMetric) :=
  (foldl (λ m c, dict_set (dc_id c)
            (mkDevMetric (dc_bps c) (finite_util (dc_utilization c)) 0 (upstream_bps c) (downstream_bps c)) m) [] dcs,
   foldl (λ m c, dict_set (lc_id c) (mkLinkMetric (lc_bps c) (finite_util (lc_utilization c)) 0) m) [] lcs).

Definition zero_device : DevMetric := mkDevMetric fzero fzero 0 fzero fzero.
Definition zero_link : LinkMetric := mkLinkMetric fzero fzero 0.

Record TrafficSnapshot := mkTrafficSnapshot {
  snap_last_tick : Z;
  snap_devices : list (string * DevMetric);
  snap_links : list (string * LinkMetric);
  snap_ports : list (string * list (string * PortMetric));
  snap_segments : list (string * Segment)
}.

(** What a tick publishes. *)
Inductive TrafficEvent :=
  | DeviceMetricsUpdated (changes : list DeviceChange) (tick : Z)
  | LinkMetricsUpdated (changes : list LinkChange) (tick : Z)
  | CongestionChanged (ev : CongestionEvent)
  | SegmentChanged (ev : Event).

(** * The engine *)

Record Engine := mkEngine {
  tick_seq : Z;
  random_seed : Z;
  last_generated : gmap string LeafFlow;
  prev_device_congested : gset string;
  prev_link_congested : gset string;
  last_snapshot : TrafficSnapshot;
  prev_active_devices : gset string;
  prev_active_links : gset string;
  prev_segment_congested : gset string;
  topology : TopologyCaches;
  profiles : option (gmap Z (list PortProfile));
  path_cache : PathCache;
  path_cache_version : option Z;
  adjacency_cache : option (Z * TrafficGraph)
}.

Definition empty_snapshot : TrafficSnapshot := mkTrafficSnapshot 0 [] [] [] [].

Definition new_engine : Engine :=
  mkEngine 0 0xAA55AA55 ∅ ∅ ∅ empty_snapshot ∅ ∅ ∅ no_topology None ∅ None None.

(** ** v2_phases.py *)

Definition zero_device_change (k : string) : DeviceChange := mkDeviceChange k fzero fzero fzero fzero.
Definition zero_link_change (k : string) : LinkChange := mkLinkChange k fzero fzero.

(** What was active at the last tick and is not any more, in order. *)
Definition gone (prev : gset string) (current : list string) : list string :=
  sorted_strs (elements (prev ∖ list_to_set current)).

Definition emit_zero_metrics (dcs : list DeviceChange) (lcs : list LinkChange) (tick : Z) (e : Engine)
    : (list DeviceChange * list LinkChange) * list TrafficEvent :=
  let zero_events := zero_device_change <$> gone (prev_active_devices e) (dc_id <$> dcs) in
  let link_zero_events := zero_link_change <$> gone (prev_active_links e) (lc_id <$> lcs) in
  ((zero_events, link_zero_events),
   (match zero_events with [] => [] | _ => [DeviceMetricsUpdated zero_events tick] end) ++
   (match link_zero_events with [] => [] | _ => [LinkMetricsUpdated link_zero_events tick] end)).

(** ** The phases of run_tick *)

(** Everything a tick changes. *)
Record TrafficWorld {G : Type} := mkTraffic_world {
  tw_engine : Engine;
  tw_optical : OpticalState (G := G);
  tw_events : list TrafficEvent;
  tw_requests : list (string * option string);
  latest_snapshot : option TrafficSnapshot;
  last_nonempty_snapshot : option TrafficSnapshot
}.
#[global] Arguments TrafficWorld : clear implicits.
#[global] Arguments mkTraffic_world {G}.

Section engine.
Context {G : Type} `{NxGraph G} `{Dijkstra G}.

(** The adjacency of the current version (PERF-001). *)
Definition tick_adjacency (version : Z) (s : DB) (e : Engine) : TrafficGraph :=
  match adjacency_cache e with
  | Some (v, g) => if (v =? version)%Z then g else build_traffic_graph s
  | None => build_traffic_graph s
  end.

(** [_path_cache], cleared when the version moved. *)
Definition tick_path_cache (version : Z) (e : Engine) : PathCache :=
  if bool_decide (path_cache_version e = Some version) then path_cache e else ∅.

Definition tick_view (s : DB) (g : TrafficGraph) : TickView :=
  mkView (dict_of dev_id (status_of (G := G) s) (devices s))
    (list_to_set (dev_id <$> filter (λ d, dev_override d ≠ Some DOWN) (devices s)))
    (tg_neighbors g) (tg_link_by_pair g) (dict_of dev_id dev_type (devices s)).

(** Leaves with a tariff whose upstream is viable. *)
Definition gated_leaves (s : DB) : list Device :=
  let backbone_present := existsb (λ d, bool_decide (dev_type d = BACKBONE_GATEWAY)) (devices s) in
  filter (λ d, mem (dev_type d) LEAF_TYPES && bool_decide (is_Some (tariff_id d)) &&
               has_upstream_ok (upstream_fresh (G := G) s d) backbone_present = true) (devices s).

Definition to_item (c : DeviceChange) : TrafficItem := mkItem (dc_id c) (dc_bps c) (dc_utilization c).
Definition link_item (c : LinkChange) : TrafficItem := mkItem (lc_id c) (lc_bps c) (lc_utilization c).

(** [compute_segments_map] on the engine. *)
Definition compute_segments_map (s : DB) (cat : Catalog) (totals down : list (string * float)) (tick : Z)
    (tc : TopologyCaches) (pc : option (gmap Z (list PortProfile))) (prev : gset string) (memo : OpticalState (G := G))
    : list (string * Segment) * (gset string * list Event) *
      (TopologyCaches * OpticalState (G := G) * option (gmap Z (list PortProfile))) :=
  let pc := ensure_profiles_cache cat pc in
  let '(m, (tc', memo')) := collect_segments s (default ∅ pc) totals down (ont_ids tc totals) ([], (tc, memo)) in
  let '(m', current, evs) := finish_segments segment_detect_threshold segment_clear_threshold tick prev m in
  (m', (current, evs), (tc', memo', pc)).

(** The snapshot of a tick, with the zeroed entries merged in. *)
Definition tick_snapshot (tick : Z) (dcs : list DeviceChange) (lcs : list LinkChange)
    (zeros : list DeviceChange * list LinkChange)
    (ports : list (string * list (string * PortMetric))) (segs : list (string * Segment)) : TrafficSnapshot :=
  let '(dev_map, link_map) := build_snapshot_maps dcs lcs in
  mkTrafficSnapshot tick
    (foldl (λ m c, if nonempty (dc_id c) then dict_set (dc_id c) zero_device m else m) dev_map zeros.1)
    (foldl (λ m c, if nonempty (lc_id c) then dict_set (lc_id c) zero_link m else m) link_map zeros.2)
    ports segs.

(** A tick completes, or raises in one of the aggregation phases. *)
Inductive TickResult := Completed (w : TrafficWorld G) | Raised (w : TrafficWorld G).

(** [version] is the pathfinding store's, [async] whether the status recomputation
    is scheduled.  [None] only when a path search runs out of fuel. *)
Definition run_tick (version : Z) (async : bool) (s : DB) (cat : Catalog) (w : TrafficWorld G) : option TickResult :=
  let e := tw_engine w in
  let tick := tick_seq e in
  let requests := tw_requests w ++ (if async then [("status", None)] else []) in
  let g := tick_adjacency version s e in
  '(t, cache) ← generate_flows_for_leaves (G := G) s (tariffs cat) (tick_view s g) (random_seed e) tick
                  (gated_leaves s) (no_totals, tick_path_cache version e);
  let tc := ensure_topology_caches version s (topology e) in
  let generated_map := foldl (λ m f, <[lf_leaf f := f]> m) (last_generated e) (generated t) in
  let raised evs :=
    Raised (mkTraffic_world
      (mkEngine (tick + 1) (random_seed e) generated_map (prev_device_congested e) (prev_link_congested e)
         (last_snapshot e) (prev_active_devices e) (prev_active_links e) (prev_segment_congested e)
         tc (profiles e) cache (Some version) (Some (version, g)))
      (tw_optical w) (tw_events w ++ evs) requests (latest_snapshot w) (last_nonempty_snapshot w)) in
  match compute_device_changes s cat (per_device_totals t) (per_device_down_totals t) with
  | None => Some (raised [])
  | Some dcs =>
      let dev_evs := match dcs with [] => [] | _ => [DeviceMetricsUpdated dcs tick] end in
      match compute_link_changes s cat (per_link_totals t) (per_link_down_totals t) with
      | None => Some (raised dev_evs)
      | Some (lcs, ports) =>
          let '(segs, (seg_congested, seg_evs), (tc', memo', pc')) :=
            compute_segments_map s cat (per_device_totals t) (per_device_down_totals t) tick tc (profiles e)
              (prev_segment_congested e) (tw_optical w) in
          let link_evs := match lcs with [] => [] | _ => [LinkMetricsUpdated lcs tick] end in
          let '(zeros, zero_evs) := emit_zero_metrics dcs lcs tick e in
          let '(dev_congested, dev_cong_evs) :=
            handle_device_congestion device_detect_threshold device_clear_threshold tick
              (prev_device_congested e) (to_item <$> dcs) in
          let '(link_congested, link_cong_evs) :=
            handle_link_congestion link_detect_threshold link_clear_threshold tick
              (prev_link_congested e) (link_item <$> lcs) in
          let snap := tick_snapshot tick dcs lcs zeros ports segs in
          let nonempty_snap := match snap_devices snap, snap_links snap with [], [] => false | _, _ => true end in
          Some (Completed (mkTraffic_world
            (mkEngine (tick + 1) (random_seed e) generated_map dev_congested link_congested snap
               (list_to_set (dc_id <$> dcs)) (list_to_set (lc_id <$> lcs)) seg_congested
               tc' pc' cache (Some version) (Some (version, g)))
            memo'
            (tw_events w ++ dev_evs ++ (SegmentChanged <$> seg_evs) ++ link_evs ++ zero_evs ++
               (CongestionChanged <$> dev_cong_evs) ++ (CongestionChanged <$> link_cong_evs))
            requests (Some snap)
            (if nonempty_snap then Some snap else last_nonempty_snapshot w)))
      end
  end.
End engine.
