(* ===== verification/TrafficEngineProofs.v ===== *)
(** The traffic engine without its caches.

    [plain_tick] is a tick of an engine that keeps no cache: every leaf searches
    its path, every ONT resolves its optical path, the adjacency and the maps of
    the segments phase are rebuilt.  [run_tick] refines it as long as its caches
    agree with the tables, and keeps them so. *)

From S2P Require Import Prelude PyFloat Models Worklist Adjacency LinkRules Scenario Catalog LinkStatus EventStore.
From S2P Require Import L3Trace NxGraph Pathfinding Dependency DependencyProofs Status StatusRecompute.
From S2P Require Import TrafficPath TrafficPathProofs TrafficRand TrafficTick TrafficTickProofs TrafficAgg TrafficSegments.
From S2P Require Import TrafficSegmentProofs OpticalPath OpticalPathProofs Congestion TrafficEngine.

Section engine.
Context {G : Type} `{NxGraph G} `{Dijkstra G}.
Context (cat : Catalog).

(** * The specification *)

Definition fresh_profiles : gmap Z (list PortProfile) := default ∅ (ensure_profiles_cache cat None).

(** The flows of a tick. *)
Definition tick_flows (s : DB) (seed tick : Z) : list LeafFlow :=
  omap (fresh_flow (G := G) s (tariffs cat) (tick_view (G := G) s (build_traffic_graph s)) seed tick) (gated_leaves (G := G) s).

Definition tick_totals (s : DB) (seed tick : Z) : Totals := foldl add_flow no_totals (tick_flows s seed tick).

Definition fresh_topology (s : DB) : TopologyCaches := ensure_topology_caches 0 s no_topology.

(** The engine and the world, with every cache emptied. *)
Definition uncached_engine (e : Engine) : Engine :=
  mkEngine (tick_seq e) (random_seed e) (last_generated e) (prev_device_congested e) (prev_link_congested e)
    (last_snapshot e) (prev_active_devices e) (prev_active_links e) (prev_segment_congested e)
    no_topology None ∅ None None.

Definition uncached (w : TrafficWorld G) : TrafficWorld G :=
  mkTraffic_world (uncached_engine (tw_engine w)) (mkOpticalState new_store []) (tw_events w) (tw_requests w)
    (latest_snapshot w) (last_nonempty_snapshot w).

Definition erase (r : TickResult (G := G)) : TickResult (G := G) :=
  match r with Completed w => Completed (uncached w) | Raised w => Raised (uncached w) end.

Definition plain_segments (s : DB) (t : Totals) (tick : Z) (prev : gset string)
    : list (string * Segment) * gset string * list Event :=
  finish_segments segment_detect_threshold segment_clear_threshold tick prev
    (group (G := G) s fresh_profiles (fresh_topology s) (per_device_totals t) (per_device_down_totals t)
       (ont_ids (fresh_topology s) (per_device_totals t)) []).

Definition plain_tick (async : bool) (s : DB) (w : TrafficWorld G) : TickResult (G := G) :=
  let e := tw_engine w in
  let tick := tick_seq e in
  let t := tick_totals s (random_seed e) tick in
  let requests := tw_requests w ++ (if async then [("status", None)] else []) in
  let generated_map := foldl (λ m f, <[lf_leaf f := f]> m) (last_generated e) (generated t) in
  let raised evs :=
    Raised (uncached (mkTraffic_world
      (mkEngine (tick + 1) (random_seed e) generated_map (prev_device_congested e) (prev_link_congested e)
         (last_snapshot e) (prev_active_devices e) (prev_active_links e) (prev_segment_congested e)
         no_topology None ∅ None None)
      (tw_optical w) (tw_events w ++ evs) requests (latest_snapshot w) (last_nonempty_snapshot w))) in
  match compute_device_changes s cat (per_device_totals t) (per_device_down_totals t) with
  | None => raised []
  | Some dcs =>
      let dev_evs := match dcs with [] => [] | _ => [DeviceMetricsUpdated dcs tick] end in
      match compute_link_changes s cat (per_link_totals t) (per_link_down_totals t) with
      | None => raised dev_evs
      | Some (lcs, ports) =>
          let '(segs, seg_congested, seg_evs) := plain_segments s t tick (prev_segment_congested e) in
          let link_evs := match lcs with [] => [] | _ => [LinkMetricsUpdated lcs tick] end in
          let '(zeros, zero_evs) := emit_zero_metrics dcs lcs tick e in
          let '(dev_congested, dev_cong_evs) :=
            handle_device_congestion device_detect_threshold device_clear_threshold tick
              (prev_device_congested e) (to_item <$> dcs) in
          let '(link_congested, link_cong_evs) :=
            handle_link_congestion link_detect_threshold link_clear_threshold tick
              (prev_link_congested e) (link_item <$> lcs) in
          let snap := tick_snapshot tick dcs lcs zeros ports segs in
          let nonempty_snap := match snap_devices snap, snap_links snap with [], [] => false | _, _ => true end in
          Completed (uncached (mkTraffic_world
            (mkEngine (tick + 1) (random_seed e) generated_map dev_congested link_congested snap
               (list_to_set (dc_id <$> dcs)) (list_to_set (lc_id <$> lcs)) seg_congested
               no_topology None ∅ None None)
            (tw_optical w)
            (tw_events w ++ dev_evs ++ (SegmentChanged <$> seg_evs) ++ link_evs ++ zero_evs ++
               (CongestionChanged <$> dev_cong_evs) ++ (CongestionChanged <$> link_cong_evs))
            requests (Some snap)
            (if nonempty_snap then Some snap else last_nonempty_snapshot w)))
      end
  end.

(** * Coherence of the caches *)

(** [v] is the current version of the pathfinding store. *)
Definition store_version (w : TrafficWorld G) : Z := topo_version (opt_store (tw_optical w)).

Record engine_caches_ok (s : DB) (w : TrafficWorld G) : Prop := {
  ec_adjacency v g : adjacency_cache (tw_engine w) = Some (v, g) →
    (v ≤ store_version w)%Z ∧ (v = store_version w → g = build_traffic_graph s);
  ec_paths v : path_cache_version (tw_engine w) = Some v →
    (v ≤ store_version w)%Z ∧
    (v = store_version w → paths_ok (G := G) s (tick_view (G := G) s (build_traffic_graph s)) (path_cache (tw_engine w)));
  ec_topology v : tc_version (topology (tw_engine w)) = Some v →
    (v ≤ store_version w)%Z ∧
    (v = store_version w →
      same_topology (fresh_topology s) (topology (tw_engine w)) ∧
      ∀ k r, tc_optical (topology (tw_engine w)) !! k = Some (Some r) → resolve_fresh (G := G) s k = Some r);
  ec_memo : memo_ok (s, tw_optical w);
  ec_profiles p : profiles (tw_engine w) = Some p → p = fresh_profiles
}.

Lemma tick_adjacency_ok s w :
  engine_caches_ok s w → tick_adjacency (store_version w) s (tw_engine w) = build_traffic_graph s.
Proof.
  intros Hc. unfold tick_adjacency. destruct (adjacency_cache (tw_engine w)) as [[v g]|] eqn:E; [|done].
  destruct (Z.eqb_spec v (store_version w)) as [Hv|]; [|done]. by apply (ec_adjacency s w Hc v g).
Qed.

Lemma tick_path_cache_ok s w :
  engine_caches_ok s w →
  paths_ok (G := G) s (tick_view (G := G) s (build_traffic_graph s)) (tick_path_cache (store_version w) (tw_engine w)).
Proof.
  intros Hc. unfold tick_path_cache. case_bool_decide as E; [|intros d p _; by rewrite lookup_empty].
  by apply (ec_paths s w Hc (store_version w)).
Qed.

Lemma tick_topology_ok s w :
  engine_caches_ok s w →
  let tc := ensure_topology_caches (store_version w) s (topology (tw_engine w)) in
  same_topology (fresh_topology s) tc ∧ optical_caches_ok s (tc, tw_optical w) ∧ tc_version tc = Some (store_version w).
Proof.
  intros Hc. pose proof (ec_memo s w Hc) as Hm. cbv zeta.
  unfold ensure_topology_caches. case_bool_decide as E.
  - destruct (ec_topology s w Hc _ E) as [_ Ht]. destruct (Ht eq_refl) as [Hs Ho]. split; [done|]. by split.
  - split; [by repeat split|]. split; [|done]. split; [|done]. cbn [fst tc_optical]. intros k r. by rewrite lookup_empty.
Qed.

Lemma allowed_nonempty s g : ids_nonempty s → "" ∉ v_allowed (tick_view (G := G) s g).
Proof.
  intros Hn Hin. unfold tick_view in Hin. cbn [v_allowed] in Hin.
  apply elem_of_list_to_set, list_elem_of_fmap in Hin as (d & Hd & [_ Hin]%list_elem_of_filter).
  by apply (Hn d Hin).
Qed.

Definition world_of (r : TickResult (G := G)) : TrafficWorld G :=
  match r with Completed w => w | Raised w => w end.

(** The new caches belong to the current version. *)
Lemma new_caches_ok s w w' cache tc g :
  engine_caches_ok s w → g = build_traffic_graph s →
  paths_ok (G := G) s (tick_view (G := G) s (build_traffic_graph s)) cache →
  adjacency_cache (tw_engine w') = Some (store_version w, g) →
  path_cache_version (tw_engine w') = Some (store_version w) → path_cache (tw_engine w') = cache →
  topology (tw_engine w') = tc → tc_version tc = Some (store_version w) → same_topology (fresh_topology s) tc →
  optical_caches_ok s (tc, tw_optical w') → store_version w' = store_version w →
  (∀ p, profiles (tw_engine w') = Some p → p = fresh_profiles) →
  engine_caches_ok s w'.
Proof.
  intros Hc -> Hp Ha Hpv <- <- Htv Hst [Ho Hm] Hv Hpr. split; rewrite ?Hv.
  - rewrite Ha. intros v g [= <- <-]. split; [lia|done].
  - rewrite Hpv. intros v [= <-]. split; [lia|done].
  - rewrite Htv. intros v [= <-]. split; [lia|]. intros _. split; [done|exact Ho].
  - exact Hm.
  - exact Hpr.
Qed.

Lemma ensure_profiles_fresh pc :
  (∀ p, pc = Some p → p = fresh_profiles) → ensure_profiles_cache cat pc = Some fresh_profiles.
Proof. intros Hp. destruct pc as [p|]; [simpl; by rewrite (Hp p)|done]. Qed.

Lemma segments_run s w t tick prev :
  engine_caches_ok s w →
  let tc := ensure_topology_caches (store_version w) s (topology (tw_engine w)) in
  ∃ tc' memo', compute_segments_map s cat (per_device_totals t) (per_device_down_totals t) tick tc
      (profiles (tw_engine w)) prev (tw_optical w) =
    ((plain_segments s t tick prev).1.1, ((plain_segments s t tick prev).1.2, (plain_segments s t tick prev).2),
     (tc', memo', Some fresh_profiles)) ∧
    same_topology (fresh_topology s) tc' ∧ optical_caches_ok s (tc', memo') ∧
    tc_version tc' = Some (store_version w) ∧ topo_version (opt_store memo') = store_version w.
Proof.
  intros Hc tc. destruct (tick_topology_ok s w Hc) as (Hst & Ho & Hv). fold tc in Hst, Ho, Hv.
  unfold compute_segments_map. rewrite (ensure_profiles_fresh _ (ec_profiles s w Hc)). change (default ∅ (Some fresh_profiles)) with fresh_profiles.
  assert (ont_ids tc (per_device_totals t) = ont_ids (fresh_topology s) (per_device_totals t)) as Hid.
  { unfold ont_ids. destruct Hst as (_ & _ & _ & _ & -> & _). done. }
  destruct (collect_run s fresh_profiles (fresh_topology s) (per_device_totals t) (per_device_down_totals t)
              (ont_ids tc (per_device_totals t)) [] (tc, tw_optical w) Ho Hst) as ([tc' memo'] & E & Ho' & Hst' & Hv').
  unfold plain_segments. rewrite <-Hid. rewrite E.
  destruct (finish_segments _ _ _ _ _) as [[m' current] evs]. exists tc', memo'. split; [done|].
  split; [done|]. split; [done|]. unfold cache_versions in Hv'. cbn [fst snd] in Hv'. injection Hv' as -> ->. done.
Qed.

Lemma tick_refines async s w :
  keys_ok s → ids_nonempty s → engine_caches_ok s w →
  ∃ r, run_tick (G := G) (store_version w) async s cat w = Some r ∧ erase r = plain_tick async s w ∧
    engine_caches_ok s (world_of r) ∧ store_version (world_of r) = store_version w.
Proof.
  intros Hk Hn Hc. unfold run_tick. cbv zeta. rewrite (tick_adjacency_ok s w Hc).
  set (e := tw_engine w) in *.
  assert (∀ d, d ∈ gated_leaves (G := G) s → d ∈ devices s) as Hg by by intros d [_ ?]%list_elem_of_filter.
  destruct (generate_run (G := G) s (tariffs cat) (tick_view (G := G) s (build_traffic_graph s)) (random_seed e) (tick_seq e)
              (allowed_nonempty s _ Hn) (gated_leaves s) no_totals (tick_path_cache (store_version w) e) Hk
              (tick_path_cache_ok s w Hc) Hg) as (cache & -> & Hp).
  cbn [mbind option_bind]. unfold plain_tick. cbv zeta. fold e.
  change (foldl add_flow no_totals (omap _ (gated_leaves s))) with (tick_totals s (random_seed e) (tick_seq e)).
  set (t := tick_totals s (random_seed e) (tick_seq e)).
  destruct (tick_topology_ok s w Hc) as (Hst & Ho & Hv).
  destruct (compute_device_changes s cat (per_device_totals t) (per_device_down_totals t)) as [dcs|] eqn:Ed;
    [destruct (compute_link_changes s cat (per_link_totals t) (per_link_down_totals t)) as [[lcs ports]|] eqn:El|].
  - destruct (segments_run s w t (tick_seq e) (prev_segment_congested e) Hc) as (tc' & memo' & E & Hst' & Ho' & Hv' & Htv').
    fold e in E. rewrite E. clear E.
    destruct (plain_segments s t (tick_seq e) (prev_segment_congested e)) as [[segs sc] sevs]. cbn [fst snd].
    destruct (emit_zero_metrics dcs lcs (tick_seq e) e) as [zeros zevs].
    destruct (handle_device_congestion _ _ _ _ _) as [dcong devs], (handle_link_congestion _ _ _ _ _) as [lcong levs].
    eexists. split; [reflexivity|]. split; [reflexivity|]. split; [|done].
    eapply (new_caches_ok s w _ cache tc'); try done. by intros p [= <-].
  - eexists. split; [reflexivity|]. split; [reflexivity|]. split; [|done].
    eapply (new_caches_ok s w _ cache); try done. apply (ec_profiles s w Hc).
  - eexists. split; [reflexivity|]. split; [reflexivity|]. split; [|done].
    eapply (new_caches_ok s w _ cache); try done. apply (ec_profiles s w Hc).
Qed.

(** * Histories *)

Inductive EngineOp := Edit (s : DB) | Tick (async : bool).

(** A change of the tables bumps the version of the store, which also clears the resolver's memo table. *)
Definition edit_world (w : TrafficWorld G) : TrafficWorld G :=
  mkTraffic_world (tw_engine w) (bump_version_optical (tw_optical w)).2 (tw_events w) (tw_requests w)
    (latest_snapshot w) (last_nonempty_snapshot w).

(** The world after each tick of a history, without its caches. *)
Fixpoint run_engine (s : DB) (w : TrafficWorld G) (os : list EngineOp) : list (option (TickResult (G := G))) :=
  match os with
  | [] => []
  | Edit s' :: os => run_engine s' (edit_world w) os
  | Tick async :: os =>
      match run_tick (G := G) (store_version w) async s cat w with
      | Some r => Some (erase r) :: run_engine s (world_of r) os
      | None => [None]
      end
  end.

Fixpoint plain_engine (s : DB) (w : TrafficWorld G) (os : list EngineOp) : list (option (TickResult (G := G))) :=
  match os with
  | [] => []
  | Edit s' :: os => plain_engine s' w os
  | Tick async :: os =>
      let r := plain_tick async s w in Some r :: plain_engine s (world_of r) os
  end.

Definition edits_ok (s : DB) (os : list EngineOp) : Prop :=
  (keys_ok s ∧ ids_nonempty s) ∧ ∀ s', Edit s' ∈ os → keys_ok s' ∧ ids_nonempty s'.

(** A plain tick reads no cache. *)
Lemma plain_tick_uncached async s w : plain_tick async s (uncached w) = plain_tick async s w.
Proof. by destruct w as [[]]. Qed.

Lemma edit_caches_ok s s' w : engine_caches_ok s w → engine_caches_ok s' (edit_world w).
Proof.
  intros Hc. assert (store_version (edit_world w) = store_version w + 1)%Z as Hv by done.
  split; rewrite ?Hv; cbn [edit_world tw_engine].
  - intros v g E. apply (ec_adjacency s w Hc) in E as [? _]. split; lia.
  - intros v E. apply (ec_paths s w Hc) in E as [? _]. split; lia.
  - intros v E. apply (ec_topology s w Hc) in E as [? _]. split; lia.
  - apply bump_memo.
  - apply (ec_profiles s w Hc).
Qed.

Lemma engine_refines os s w w' :
  edits_ok s os → engine_caches_ok s w → uncached w = uncached w' →
  run_engine s w os = plain_engine s w' os.
Proof.
  revert s w w'. induction os as [|[s'|async] os IH]; intros s w w' [[Hk Hn] Hos] Hc Hu; [done| |].
  - cbn [run_engine plain_engine]. apply IH.
    + split; [apply Hos; set_solver|]. intros s'' ?. apply Hos. set_solver.
    + by eapply edit_caches_ok.
    + rewrite <-Hu. by destruct w.
  - cbn [run_engine plain_engine]. destruct (tick_refines async s w Hk Hn Hc) as (r & -> & He & Hc' & _).
    assert (erase r = plain_tick async s w') as He'.
    { rewrite He, <-plain_tick_uncached, Hu. apply plain_tick_uncached. }
    cbv zeta. rewrite He'. f_equal. apply IH; [|done|].
    + split; [done|]. intros s'' ?. apply Hos. set_solver.
    + rewrite <-He'. by destruct r as [[[]]|[[]]].
Qed.
End engine.

(** * The snapshot of a tick *)

Lemma add_to_nodup k x d : NoDup (fst <$> d) → NoDup (fst <$> add_to k x d).
Proof. apply dict_set_NoDup. Qed.

Lemma totals_nodup (fs : list LeafFlow) t :
  NoDup (fst <$> per_device_totals t) → NoDup (fst <$> per_link_totals t) →
  NoDup (fst <$> per_device_totals (foldl add_flow t fs)) ∧ NoDup (fst <$> per_link_totals (foldl add_flow t fs)).
Proof.
  assert (∀ x ks d, NoDup (fst <$> d) → NoDup (fst <$> foldl (λ d k, add_to k x d) d ks)) as Hadd.
  { intros x ks. induction ks as [|k ks IH]; intros d Hd; [done|]. cbn [foldl]. by apply IH, add_to_nodup. }
  revert t. induction fs as [|f fs IH]; intros t Hd Hl; [done|]. cbn [foldl]. apply IH; by apply Hadd.
Qed.

Lemma totals_all (fs : list LeafFlow) t : totals_ok t → totals_ok (foldl add_flow t fs).
Proof. revert t. induction fs as [|f fs IH]; intros t Ht; [done|]. cbn [foldl]. by apply IH, add_flow_ok. Qed.

Lemma generated_all (fs : list LeafFlow) t : generated (foldl add_flow t fs) = generated t ++ fs.
Proof.
  revert t. induction fs as [|f fs IH]; intros t; [by rewrite app_nil_r|]. cbn [foldl]. rewrite IH. simpl. by rewrite <-app_assoc.
Qed.

Lemma gone_spec prev current k : k ∈ gone prev current ↔ k ∈ prev ∧ k ∉ current.
Proof. unfold gone. rewrite elem_of_sorted_strs, elem_of_elements, elem_of_difference, elem_of_list_to_set. done. Qed.

Lemma gone_nodup prev current : NoDup (gone prev current).
Proof. unfold gone, sorted_strs. rewrite sort_by_perm. apply NoDup_elements. Qed.

(** Entries for what is gone: zeros under every non-empty id. *)
Lemma zero_entries {A V} (key : A → string) (zero : string → A) (z : V) prev current (m : list (string * V)) k :
  (∀ j, key (zero j) = j) → k ≠ "" →
  dict_get (foldl (λ m c, if nonempty (key c) then dict_set (key c) z m else m) m (zero <$> gone prev current)) k =
    if decide (k ∈ gone prev current) then Some z else dict_get m k.
Proof.
  intros Hkey Hk. revert m. generalize (gone prev current). intros l. induction l as [|j l IH]; intros m.
  { by case_decide as Hin; [apply elem_of_nil in Hin|]. }
  change (zero <$> j :: l) with (zero j :: (zero <$> l)). cbn [foldl]. rewrite IH, Hkey.
  case_decide as Hl; case_decide as Hj; rewrite elem_of_cons in Hj; try tauto.
  - destruct Hj as [->|?]; [|done]. unfold nonempty. rewrite bool_decide_true by done.
    by rewrite dict_get_set, String.eqb_refl.
  - destruct (nonempty j); [|done]. rewrite dict_get_set. destruct (String.eqb_spec k j); [tauto|done].
Qed.

Section snapshot.
Context {G : Type} `{NxGraph G} `{Dijkstra G}.
Context (cat : Catalog) (s : DB) (Hk : keys_ok s) (Hn : ids_nonempty s).

Lemma dict_of_lookup {A B} (key : A → string) (f : A → B) (rows : list A) k x :
  dict_of key f rows !! k = Some x → ∃ r, r ∈ rows ∧ key r = k ∧ f r = x.
Proof.
  unfold dict_of. assert (∀ m : gmap string B, foldl (λ m r, <[key r := f r]> m) m rows !! k = Some x →
    (∃ r, r ∈ rows ∧ key r = k ∧ f r = x) ∨ m !! k = Some x) as Hm.
  { induction rows as [|r rows IH]; intros m; [by right|]. cbn [foldl]. intros [(q & ? & ?)|E]%IH; [left; exists q; set_solver|].
    destruct (decide (key r = k)) as [<-|Hne].
    - rewrite lookup_insert_eq in E. injection E as <-. left. exists r. set_solver.
    - rewrite lookup_insert_ne in E by done. by right. }
  intros E. destruct (Hm ∅ E) as [?|E']; [done|]. by rewrite lookup_empty in E'.
Qed.

Lemma flow_member_allowed seed tick f k :
  f ∈ tick_flows (G := G) cat s seed tick → k ∈ lf_nodes f → allow_metrics s k = true.
Proof using Hk Hn.
  unfold tick_flows. intros (d & [_ Hd]%list_elem_of_filter & Hf)%list_elem_of_omap Hm.
  apply (fresh_flow_spec (G := G) _ _ _ _ _ (allowed_nonempty s _ Hn)) in Hf as [Hleaf Hup _ [Hp _]].
  apply (leaf_path_nodes (G := G) _ _ (allowed_nonempty s _ Hn) _ _ k Hp) in Hm as [->|Hin].
  - unfold tick_view in Hup. cbn [v_status] in Hup. apply dict_of_lookup in Hup as (q & Hq & He & Hs).
    assert (q = d) as ->.
    { pose proof (get_device_key s q Hk Hq) as E1. pose proof (get_device_key s d Hk Hd) as E2. congruence. }
    unfold allow_metrics. rewrite (get_device_key s d Hk Hd). unfold status_of, evaluate_device_status in Hs.
    by destruct (dev_override d) as [[]|].
  - unfold tick_view in Hin. cbn [v_allowed] in Hin.
    apply elem_of_list_to_set, list_elem_of_fmap in Hin as (q & -> & [Ho Hq]%list_elem_of_filter).
    unfold allow_metrics. rewrite (get_device_key s q Hk Hq). by rewrite bool_decide_false.
Qed.

(** A device is in the totals exactly when a flow crosses it. *)
Lemma accumulated_member k (xs : list (string * float)) start x :
  accumulated k xs start = Some x → (∃ y, (k, y) ∈ xs) ∨ start = Some x.
Proof.
  revert start. induction xs as [|[j y] xs IH]; intros start; [by right|]. unfold accumulated. cbn [foldl fst snd].
  intros Hx. apply IH in Hx as [(z & ?)|Hx]; [left; exists z; set_solver|].
  destruct (String.eqb_spec j k) as [->|]; [left; exists y; set_solver|by right].
Qed.

Lemma contributions_member members amount (fs : list LeafFlow) k y :
  (k, y) ∈ contributions members amount fs → ∃ f, f ∈ fs ∧ k ∈ members f.
Proof.
  unfold contributions. intros (f & Hf & Hin)%list_elem_of_bind.
  apply list_elem_of_fmap in Hf as (j & [= -> ->] & Hj). by exists f.
Qed.

(** What the flows of the tick say about a device. *)
Definition device_metric (caps : list (string * option Z)) (fs : list LeafFlow) (k : string) : option DevMetric :=
  x ← accumulated k (contributions lf_nodes up_bps fs) None;
  Some (mkDevMetric x (finite_util (utilization_of (cap_of caps k) x)) 0 x
          (default fzero (accumulated k (contributions lf_nodes down_bps fs) None))).

Lemma changes_metric seed tick caps k :
  let fs := tick_flows (G := G) cat s seed tick in
  let t := tick_totals (G := G) cat s seed tick in
  let dcs := device_change s caps (per_device_totals t) (per_device_down_totals t) <$> per_device_totals t in
  dict_get (build_snapshot_maps dcs []).1 k = device_metric caps fs k ∧
  (k ∈ dc_id <$> dcs ↔ is_Some (accumulated k (contributions lf_nodes up_bps fs) None)).
Proof using Hk Hn.
  intros fs t dcs.
  assert (totals_ok t) as Ht by apply totals_all, no_totals_ok.
  assert (generated t = fs) as Hg by apply generated_all.
  destruct (totals_nodup fs no_totals) as [Hnd _]; [constructor..|].
  change (NoDup (fst <$> per_device_totals t)) in Hnd.
  assert (dc_id <$> dcs = fst <$> per_device_totals t) as Hids.
  { unfold dcs. rewrite <-list_fmap_compose. apply list_fmap_ext. by intros ? [j y] _. }
  split.
  - unfold build_snapshot_maps. cbn [fst]. rewrite foldl_dict_set by by rewrite Hids.
    unfold device_metric. rewrite <-Hg, <-(ok_up t Ht k), <-(ok_down t Ht k).
    destruct (dict_get (per_device_totals t) k) as [x|] eqn:Ex; simpl.
    + pose proof (dict_get_elem _ _ _ Ex) as Hin.
      assert (allow_metrics s k = true) as Ha.
      { rewrite (ok_up t Ht k), Hg in Ex. apply accumulated_member in Ex as [(y & Hy)|?]; [|done].
        apply contributions_member in Hy as (f & Hf & Hm). by eapply flow_member_allowed. }
      destruct (find_row_is_Some (λ c, String.eqb (dc_id c) k) dcs (device_change s caps (per_device_totals t) (per_device_down_totals t) (k, x)))
        as [c Hc]; [by apply list_elem_of_fmap_2|apply String.eqb_refl|].
      rewrite Hc. apply find_row_Some in Hc as [Hc He]. apply String.eqb_eq in He.
      apply list_elem_of_fmap in Hc as ([j y] & -> & Hj). simpl in He. subst j.
      assert (y = x) as -> by (pose proof (dict_get_nodup _ _ _ Hnd Hj); congruence).
      unfold device_change. rewrite Ha. unfold get_or_zero. by rewrite Ex.
    + assert (find_row (λ c, String.eqb (dc_id c) k) dcs = None) as ->; [|done].
      apply find_row_None. intros c Hc. apply String.eqb_neq. intros He.
      assert (k ∈ dc_id <$> dcs) as Hin by (rewrite <-He; by apply list_elem_of_fmap_2).
      rewrite Hids in Hin. apply dict_get_key in Hin as [? Hin]. congruence.
  - rewrite Hids, <-Hg, <-(ok_up t Ht k). symmetry. apply dict_get_key.
Qed.
End snapshot.

Section tick.
Context {G : Type} `{NxGraph G} `{Dijkstra G}.
Context (cat : Catalog).

(** What a finished tick leaves behind. *)
Definition tick_post (s : DB) (w : TrafficWorld G) (r : TickResult (G := G)) : Prop :=
  let e := tw_engine w in
  let fs := tick_flows (G := G) cat s (random_seed e) (tick_seq e) in
  tick_seq (tw_engine (world_of r)) = (tick_seq e + 1)%Z ∧
  match r with
  | Raised w' => (device_caps cat (devices s) = None ∨ iface_caps cat s = None) ∧ latest_snapshot w' = latest_snapshot w
  | Completed w' =>
      ∃ caps snap, device_caps cat (devices s) = Some caps ∧ latest_snapshot w' = Some snap ∧
        snap_last_tick snap = tick_seq e ∧
        (∀ k, k ≠ "" → dict_get (snap_devices snap) k =
           match device_metric caps fs k with
           | Some m => Some m
           | None => if decide (k ∈ prev_active_devices e) then Some zero_device else None
           end) ∧
        (∀ k, k ∈ prev_active_devices (tw_engine w') ↔ is_Some (device_metric caps fs k))
  end.

Lemma plain_tick_post async s w :
  keys_ok s → ids_nonempty s → tick_post s w (plain_tick cat async s w).
Proof.
  intros Hk Hn. unfold plain_tick. cbv zeta. set (e := tw_engine w). unfold tick_post. cbv zeta. fold e.
  set (t := tick_totals (G := G) cat s (random_seed e) (tick_seq e)).
  unfold compute_device_changes, compute_link_changes.
  destruct (device_caps cat (devices s)) as [caps|] eqn:Ecaps; cbn [mbind option_bind]; [|by eauto].
  destruct (match per_link_totals t with [] => Some ([], []) | _ => _ end) as [[lcs ports]|] eqn:El.
  2:{ split; [done|]. split; [|done]. right. destruct (per_link_totals t); [done|].
      destruct (iface_caps cat s); [done|]. done. }
  destruct (plain_segments cat s t (tick_seq e) (prev_segment_congested e)) as [[segs sc] sevs].
  set (dcs := device_change s caps (per_device_totals t) (per_device_down_totals t) <$> per_device_totals t).
  unfold emit_zero_metrics. destruct (handle_device_congestion _ _ _ _ _) as [dcong devs], (handle_link_congestion _ _ _ _ _) as [lcong levs].
  split; [done|]. eexists caps, _. split; [done|]. split; [reflexivity|]. split; [done|].
  set (fs := tick_flows (G := G) cat s (random_seed e) (tick_seq e)).
  assert (∀ k, dict_get (build_snapshot_maps dcs []).1 k = device_metric caps fs k ∧
    (k ∈ dc_id <$> dcs ↔ is_Some (device_metric caps fs k))) as Hcm.
  { intros k. destruct (changes_metric (G := G) cat s Hk Hn (random_seed e) (tick_seq e) caps k) as [Hm Hd].
    split; [exact Hm|]. etrans; [exact Hd|]. fold fs. unfold device_metric.
    destruct (accumulated _ _ _); simpl; split; intros []; simplify_eq; by eexists. }
  split; cbn [tw_engine uncached uncached_engine prev_active_devices].
  - intros k Hne. destruct (Hcm k) as [Hm Hd]. unfold tick_snapshot.
    destruct (build_snapshot_maps dcs lcs) as [dm lm] eqn:Eb. cbn [fst snd snap_devices].
    assert (dm = (build_snapshot_maps dcs []).1) as -> by by injection Eb.
    rewrite (zero_entries dc_id zero_device_change zero_device) by done. rewrite Hm.
    destruct (device_metric caps fs k) as [m|].
    + rewrite decide_False; [done|]. rewrite gone_spec. intros [_ Hc]. apply Hc, Hd. by eexists.
    + destruct (decide (k ∈ prev_active_devices e)) as [Hp|Hp].
      * rewrite decide_True; [done|]. apply gone_spec. split; [done|]. intros Hc%Hd. by destruct Hc.
      * rewrite decide_False; [done|]. rewrite gone_spec. tauto.
  - intros k. rewrite elem_of_list_to_set. apply Hcm.
Qed.

Lemma tick_post_erase s w r : tick_post s w (erase r) → tick_post s w r.
Proof. by destruct r as [[[]]|[[]]]. Qed.
End tick.

(** * The properties *)

(** C3. A tick always ends, and its snapshot accounts for exactly the flows of
    the tick.  The flows are those of the gated leaves that are UP, have a tariff
    and a path of at least two devices, each with the tariff's rates scaled by the
    generator's draw; every device and link of a path receives the flow.  If the
    tick completes, the metrics of a device in the snapshot are the sums of the
    flows that cross it, in leaf order, over its effective capacity; a device that
    no flow crosses any more has zeros if it was active at the previous tick, and
    no entry otherwise; the active devices recorded for the next tick are those
    crossed by a flow.  The tick is aborted, with the snapshot unchanged, only if a
    capacity of the catalog is infinite or not a number. *)
Theorem tick_snapshot_spec {G} `{NxGraph G} `{Dijkstra G} cat async s (w : TrafficWorld G) :
  keys_ok s → ids_nonempty s → engine_caches_ok cat s w →
  let e := tw_engine w in
  (∀ f, f ∈ tick_flows (G := G) cat s (random_seed e) (tick_seq e) ↔
     ∃ d, d ∈ gated_leaves (G := G) s ∧
       flow_ok (G := G) s (tariffs cat) (tick_view (G := G) s (build_traffic_graph s)) (random_seed e) (tick_seq e) d f) ∧
  ∃ r, run_tick (G := G) (store_version w) async s cat w = Some r ∧ tick_post cat s w r.
Proof.
  intros Hk Hn Hc e. split.
  - intros f. unfold tick_flows. rewrite list_elem_of_omap.
    setoid_rewrite (fresh_flow_spec (G := G) _ _ _ _ _ (allowed_nonempty s _ Hn)). done.
  - destruct (tick_refines cat async s w Hk Hn Hc) as (r & -> & He & _). exists r. split; [done|].
    apply tick_post_erase. rewrite He. by apply plain_tick_post.
Qed.


(** ** A tick of the demonstration network *)

Definition subscriber (d : Device) : Device :=
  mkDevice (dev_id d) (dev_name d) (dev_type d) (dev_status d) (provisioned d) (dev_override d)
    (tx_power_dbm d) (sensitivity_min_dbm d) (insertion_loss_db d) (dev_capacity d)
    (signal_power_dbm d) (signal_margin_db d) (attenuation_db d) (signal_status d)
    (parent_container_id d) (slot_id d) (Some 1%Z) (dev_vrf_id d) (hardware_model_id d).

Definition served : DB :=
  set_devices ((λ d, if String.eqb (dev_id d) "ont" then subscriber d else d) <$> devices demo) demo.

Definition idle_world : TrafficWorld AssocGraph :=
  mkTraffic_world new_engine (mkOpticalState new_store []) [] [] None None.

Lemma served_ok : keys_ok served ∧ ids_nonempty served.
Proof.
  split; [constructor; vm_compute; repeat (constructor; [set_solver|]); constructor|].
  intros d Hd. vm_compute in Hd. repeat (apply elem_of_cons in Hd as [->|Hd]; [done|]). by apply elem_of_nil in Hd.
Qed.

Lemma idle_caches cat s : engine_caches_ok cat s idle_world.
Proof. split; try done. split; [|split]; simpl; [set_solver|done|lia]. Qed.

Lemma tick_snapshot_spec_witness :
  ∃ w' snap m, run_tick (G := AssocGraph) 0 true served demo_catalog idle_world = Some (Completed w') ∧
    latest_snapshot w' = Some snap ∧ dict_get (snap_devices snap) "bb" = Some m ∧ fltb fzero (dm_bps m) = true.
Proof.
  destruct (tick_snapshot_spec (G := AssocGraph) demo_catalog true served idle_world (proj1 served_ok) (proj2 served_ok)
              (idle_caches demo_catalog served)) as (_ & r & E & _ & Hpost).
  destruct r as [w'|w'].
  - destruct Hpost as (caps & snap & Hcaps & Hs & _ & Hdev & _).
    pose proof (Hdev "bb" ltac:(discriminate)) as Hb.
    destruct (device_metric _ _ _) as [m|] eqn:Em in Hb.
    + exists w', snap, m. split; [exact E|]. split; [exact Hs|]. split; [exact Hb|].
      vm_compute in Hcaps. injection Hcaps as <-. vm_compute in Em. injection Em as <-. vm_compute. reflexivity.
    + exfalso. vm_compute in Hcaps. injection Hcaps as <-. vm_compute in Em. discriminate Em.
  - exfalso. destruct Hpost as [[Hf|Hf] _]; vm_compute in Hf; discriminate Hf.
Defined.

