(* ===== verification/CausalChain.v ===== *)
(** Causal chains: [detect_causal_chain_python] of [services/status_service.py],
    the fallback for the Go status service, with [_build_dependency_graph_python]
    and [_is_device_up_candidate_python].

    The loop keeps, beside its marks and queue, a dictionary of paths that is
    overwritten while nodes wait in the queue.  It is shown to mark exactly the
    devices reachable from the changed ones and to record a real chain for each. *)

From S2P Require Import Prelude PyFloat Models LinkRules LinkStatus Worklist Scenario.

(** [interface_to_device]: the interfaces of the existing devices. *)
Definition interface_to_device (s : DB) : gmap string string :=
  foldl (λ m d, foldl (λ m i, <[if_id i := dev_id d]> m) m (interfaces_of s (dev_id d))) ∅ (devices s).

(** [graph[u].append(v)], creating the entry when needed. *)
Definition append_arc (u v : string) (g : gmap string (list string)) : gmap string (list string) :=
  <[u := default [] (g !! u) ++ [v]]> g.

Definition build_dependency_graph (s : DB) : gmap string (list string) :=
  let itd := interface_to_device s in
  foldl (λ g l,
    if negb (is_link_passable s l) then g
    else
      match truthy (itd !! a_interface_id l), truthy (itd !! b_interface_id l) with
      | Some a, Some b => append_arc b a (append_arc a b g)
      | _, _ => g
      end) ∅ (links s).

(** [_is_device_up_candidate_python]: any override blocks propagation. *)
Definition is_device_up_candidate (d : Device) : bool :=
  match dev_override d with
  | Some _ => false
  | None => negb (bool_decide (derive_role d = ROLE_ACTIVE) && negb (provisioned d))
  end.

(** Where the traversal goes from [k]. *)
Definition downstream (s : DB) (g : gmap string (list string)) (k : string) : list string :=
  match get_device s k with
  | None => []
  | Some d => if is_device_up_candidate d then default [] (g !! k) else []
  end.

(** One pass over the downstream ids: queue the unvisited ones and set their path. *)
Definition record_path (visited : gset string) (path : list string)
    (st : list string * gmap string (list string)) (j : string) : list string * gmap string (list string) :=
  if decide (j ∈ visited) then st else (st.1 ++ [j], <[j := path ++ [j]]> st.2).

(** [None]: out of fuel, or [KeyError] at [paths[current_id]]. *)
Fixpoint causal_loop (fuel : nat) (s : DB) (g : gmap string (list string)) (visited : gset string)
    (queue : list string) (paths : gmap string (list string))
    : option (gset string * gmap string (list string)) :=
  match queue with
  | [] => Some (visited, paths)
  | cur :: rest =>
      match fuel with
      | O => None
      | S fuel' =>
          if decide (cur ∈ visited) then causal_loop fuel' s g visited rest paths
          else
            let visited' := {[cur]} ∪ visited in
            match downstream s g cur with
            | [] => causal_loop fuel' s g visited' rest paths
            | ns =>
                match paths !! cur with
                | None => None
                | Some path =>
                    let '(queue', paths') := foldl (record_path visited' path) (rest, paths) ns in
                    causal_loop fuel' s g visited' queue' paths'
                end
            end
      end
  end.

Definition causal_fuel (g : gmap string (list string)) (q : list string) : nat :=
  length q + sum_list_with (λ k, length (default [] (g !! k))) (elements (dom g)).

Definition detect_causal_chain (s : DB) (changed : list string)
    : option (gset string * gmap string (list string)) :=
  let g := build_dependency_graph s in
  causal_loop (causal_fuel g changed) s g ∅ changed (list_to_map ((λ k, (k, [k])) <$> changed)).

(** * Correctness *)

Section loop.
Context (s : DB) (g : gmap string (list string)) (changed : list string).

(** A chain of downstream steps from a changed device to [k]. *)
Inductive causal_path : string → list string → Prop :=
  | causal_seed k : k ∈ changed → causal_path k [k]
  | causal_step k j p : causal_path k p → j ∈ downstream s g k → causal_path j (p ++ [j]).

(** Every queued or marked device has a recorded chain, and nothing else does. *)
Record paths_ok (V : gset string) (q : list string) (paths : gmap string (list string)) : Prop := {
  pk_chain : ∀ k p, paths !! k = Some p → causal_path k p;
  pk_some : ∀ k, k ∈ V ∨ k ∈ q ↔ is_Some (paths !! k)
}.

Lemma record_path_fold V path ns q paths q' paths' :
  foldl (record_path V path) (q, paths) ns = (q', paths') →
  q' = push_fifo V q ns ∧
  (∀ k, paths' !! k = if bool_decide (k ∈ ns ∧ k ∉ V) then Some (path ++ [k]) else paths !! k).
Proof.
  revert q paths. unfold push_fifo. induction ns as [|n ns IH]; intros q paths; cbn [foldl].
  { intros [= <- <-]. rewrite filter_nil, app_nil_r. split; [done|]. intros k.
    by rewrite bool_decide_false by set_solver. }
  unfold record_path at 2. rewrite filter_cons. case_decide as Hn; simpl; intros [-> Hp]%IH.
  - rewrite decide_False by tauto. split; [done|]. intros k. rewrite Hp.
    apply bool_decide_ext_if. set_solver.
  - rewrite decide_True by done. split; [by rewrite <-app_assoc|]. intros k. rewrite Hp.
    destruct (decide (k = n)) as [->|Hne].
    + rewrite lookup_insert_eq, (bool_decide_true (n ∈ n :: ns ∧ n ∉ V)) by set_solver.
      by case_bool_decide.
    + rewrite lookup_insert_ne by done. apply bool_decide_ext_if. set_solver.
Qed.

Lemma paths_ok_mark V q paths cur :
  paths_ok V (cur :: q) paths → downstream s g cur = [] → paths_ok ({[cur]} ∪ V) q paths.
Proof.
  intros [Hc Hs] _. split; [done|]. intros k. rewrite <-Hs. set_solver.
Qed.

Lemma paths_ok_step V q paths cur path q' paths' :
  paths_ok V (cur :: q) paths → paths !! cur = Some path →
  foldl (record_path ({[cur]} ∪ V) path) (q, paths) (downstream s g cur) = (q', paths') →
  paths_ok ({[cur]} ∪ V) q' paths'.
Proof.
  intros [Hc Hs] Hp Hf. destruct (record_path_fold _ _ _ _ _ _ _ Hf) as [-> Hl]. split.
  - intros k p. rewrite Hl. case_bool_decide as Hk; [|apply Hc]. intros [= <-].
    eapply causal_step; [by apply Hc|tauto].
  - intros k. rewrite Hl, push_fifo_elem. specialize (Hs k). case_bool_decide as Hk; [naive_solver|].
    rewrite <-Hs. set_solver.
Qed.

(** The marks evolve as in the plain traversal. *)
Lemma causal_loop_explore fuel V q paths :
  paths_ok V q paths →
  match explore push_fifo (downstream s g) fuel V q with
  | None => causal_loop fuel s g V q paths = None
  | Some V' => ∃ paths', causal_loop fuel s g V q paths = Some (V', paths') ∧ paths_ok V' [] paths'
  end.
Proof.
  revert V q paths. induction fuel as [|fuel IH]; intros V [|cur rest] paths Hok; simpl; [eauto..|].
  case_decide as HV.
  { apply IH. destruct Hok as [Hc Hs]. split; [done|]. intros k. rewrite <-Hs. set_solver. }
  assert (is_Some (paths !! cur)) as [path Hp] by (apply (pk_some _ _ _ Hok); set_solver).
  destruct (foldl (record_path ({[cur]} ∪ V) path) (rest, paths) (downstream s g cur)) as [q' paths'] eqn:Hf.
  pose proof (paths_ok_step _ _ _ _ _ _ _ Hok Hp Hf) as Hok'.
  destruct (record_path_fold _ _ _ _ _ _ _ Hf) as [-> _]. specialize (IH _ _ _ Hok').
  destruct (downstream s g cur) as [|n ns]; [|simpl in Hf |- *; rewrite Hp, Hf; exact IH].
  simpl in Hf. unfold push_fifo in IH, Hf |- *. rewrite filter_nil, app_nil_r in *.
  injection Hf as <-. exact IH.
Qed.
End loop.

Lemma changed_paths_ok s g changed :
  paths_ok s g changed ∅ changed (list_to_map ((λ k, (k, [k])) <$> changed)).
Proof.
  assert (∀ l k p, (list_to_map ((λ k, (k, [k])) <$> l) : gmap string (list string)) !! k = Some p ↔
            k ∈ l ∧ p = [k]) as Hl.
  { intros l k p. induction l as [|x l IH]; simpl; [rewrite lookup_empty; set_solver|].
    destruct (decide (x = k)) as [->|Hne]; [rewrite lookup_insert_eq|rewrite lookup_insert_ne by done].
    - set_solver.
    - rewrite IH. set_solver. }
  split.
  - intros k p [Hk ->]%Hl. by constructor.
  - intros k. split; [intros [?|Hk]; [set_solver|]; exists [k]; by apply Hl|].
    intros [p [Hk _]%Hl]. by right.
Qed.

(** The traversal ends with marks and chains. *)
Lemma causal_chain_run s changed :
  let g := build_dependency_graph s in
  ∃ affected paths, detect_causal_chain s changed = Some (affected, paths) ∧
    (∀ k, k ∈ affected ↔ reaches (edge (downstream s g)) changed k) ∧
    (∀ k, is_Some (paths !! k) ↔ k ∈ affected) ∧
    (∀ k p, paths !! k = Some p → causal_path s g changed k p).
Proof.
  intros g. unfold detect_causal_chain. fold g.
  destruct (explore_total push_fifo (downstream s g) push_fifo_length (dom g) (causal_fuel g changed) ∅ changed)
    as [V HV].
  - intros k Hk%not_elem_of_dom. unfold downstream. rewrite Hk. by repeat case_match.
  - unfold causal_fuel, pending_work. apply Nat.add_le_mono_l.
    etrans; [apply (sum_elements_le _ _ (elements (dom g))); set_solver|].
    apply sum_list_with_mono. intros k _. unfold downstream. repeat case_match; simpl; lia.
  - pose proof (causal_loop_explore s g changed (causal_fuel g changed) ∅ changed _
      (changed_paths_ok s g changed)) as Hl.
    rewrite HV in Hl. destruct Hl as (paths & E & Hok). exists V, paths. split; [done|].
    split; [intros k; by apply (explore_reaches _ _ push_fifo_elem _ _ _ k HV)|].
    split; [|apply Hok]. intros k. rewrite <-(pk_some _ _ _ _ _ _ Hok). set_solver.
Qed.

(** The causal chain of a set of changed devices.  The traversal ends, never
    misses a key of its path dictionary, and marks exactly the devices that can
    be reached from the changed ones through passable links, passing only
    through devices that propagate (no override, provisioned if active).  The
    dictionary has an entry for exactly the marked devices, and each entry is a
    chain of such steps from a changed device to that device. *)
Lemma causal_chain_correct s changed :
  let g := build_dependency_graph s in
  ∃ affected paths, detect_causal_chain s changed = Some (affected, paths) ∧
    (∀ k, k ∈ affected ↔ reaches (edge (downstream s g)) changed k) ∧
    (∀ k, is_Some (paths !! k) ↔ k ∈ affected) ∧
    (∀ k p, paths !! k = Some p → causal_path s g changed k p).
Proof. apply causal_chain_run. Qed.
