(* ===== verification/StatusClient.v ===== *)
(** The status client: [clients/go_services/status_client.py].

    After a change a handler asks the client to propagate statuses: the Go
    service only answers which devices are affected, the Python fallback computes
    them by the causal chain; either way Python re-evaluates and stores the status
    of the affected devices.  The answer of the remote call is an argument. *)

From S2P Require Import Prelude PyFloat Models LinkRules Worklist Scenario LinkStatus NxGraph Pathfinding.
From S2P Require Import Dependency DependencyProofs Status StatusRecompute CausalChain.

Record StatusClient := mkStatusClient { sc_go_available : bool; sc_use_fallback : bool }.

(** [PropagateStatus] of the stub: the device ids and the status text, or an RPC error. *)
Abbreviation PropagateReply := (option (list string * string)).

Record PropagateResult := mkPropagated {
  affected_devices : list string;
  affected_links : list string;
  dependency_paths : gmap string (list string);
  pr_source : string
}.

Section client.
Context {G : Type} `{NxGraph G}.

Definition propagate_go (reply : PropagateReply) (update_database : bool) (s : DB) : option (PropagateResult * DB) :=
  '(ids, st) ← reply;
  let s' := if update_database && negb (bool_decide (ids = [])) && negb (String.eqb (lower st) "error")
            then bulk_update_device_statuses (G := G) ids s else s in
  Some (mkPropagated ids [] ∅ "go", s').

(** [None] stands for the [KeyError] of the path dictionary. *)
Definition propagate_python (changed_device_ids : list string) (update_database : bool) (s : DB)
    : option (PropagateResult * DB) :=
  '(affected, paths) ← detect_causal_chain s changed_device_ids;
  let ids := elements affected in
  Some (mkPropagated ids [] paths "python",
        if update_database then bulk_update_device_statuses (G := G) ids s else s).

(** [None]: raised. *)
Definition propagate_status (c : StatusClient) (reply : PropagateReply) (changed_device_ids : list string)
    (update_database : bool) (s : DB) : option (PropagateResult * DB) :=
  if sc_go_available c then
    match propagate_go reply update_database s with
    | Some r => Some r
    | None => if sc_use_fallback c then propagate_python changed_device_ids update_database s else None
    end
  else if sc_use_fallback c then propagate_python changed_device_ids update_database s else None.

(** What a handler does: an exception is printed and the change stands. *)
Definition propagate_or_warn (c : StatusClient) (reply : PropagateReply) (changed : list string) (s : DB) : DB :=
  match propagate_status c reply changed true s with Some (_, s') => s' | None => s end.

(** ** What a propagation stores *)

Lemma bulk_update_elem ids s d' :
  d' ∈ devices (bulk_update_device_statuses (G := G) ids s) ↔
    ∃ d, d ∈ devices s ∧ d' = if mem (dev_id d) ids then set_status (status_of (G := G) s d) d else d.
Proof.
  unfold bulk_update_device_statuses. cbn [devices set_devices]. rewrite list_elem_of_fmap.
  assert (∀ d, (if mem (dev_id d) ids && negb (bool_decide (dev_status d = status_of (G := G) s d))
                then set_status (status_of (G := G) s d) d else d) =
               if mem (dev_id d) ids then set_status (status_of (G := G) s d) d else d) as He.
  { intros d. destruct (mem (dev_id d) ids); [|done]. case_bool_decide as E; [|done]. rewrite <-E. by destruct d. }
  split; intros (d & H1 & H2); exists d; [rewrite <-He|rewrite He]; tauto.
Qed.

Lemma propagate_or_warn_rows c reply changed s :
  ∃ ids, propagate_or_warn c reply changed s = s ∨
         propagate_or_warn c reply changed s = bulk_update_device_statuses (G := G) ids s.
Proof.
  destruct (causal_chain_run s changed) as (affected & paths & E & _).
  assert (propagate_python changed true s =
    Some (mkPropagated (elements affected) [] paths "python", bulk_update_device_statuses (G := G) (elements affected) s)) as Hp.
  { unfold propagate_python. by rewrite E. }
  unfold propagate_or_warn, propagate_status, propagate_go.
  destruct (sc_go_available c), (sc_use_fallback c), reply as [[ids st]|]; cbn [mbind option_bind andb];
    rewrite ?Hp; try (by exists (elements affected); auto); try (by exists []; auto);
    exists ids; (destruct (negb (bool_decide (ids = [])) && _); auto).
Qed.
End client.

(** ** The property *)

(** C8. Status propagation after a change.  With the fallback enabled it never
    raises.  When the Go service is not reached, the affected devices are exactly
    those that can be reached from the changed ones over passable links through
    devices that propagate, each with a recorded chain; the devices whose stored
    status changes are exactly the affected ones whose evaluated status is
    another; nothing else in the database moves.  When the service answers, the
    devices it names are re-evaluated the same way, unless it reports an error. *)
Theorem status_propagation_spec {G} `{NxGraph G} c reply changed s :
  sc_use_fallback c = true →
  ∃ r s', propagate_status (G := G) c reply changed true s = Some (r, s') ∧
    (sc_go_available c = false ∨ reply = None →
       pr_source r = "python" ∧
       (∀ k, k ∈ affected_devices r ↔ reaches (edge (downstream s (build_dependency_graph s))) changed k) ∧
       (∀ k, k ∈ affected_devices r → ∃ p, dependency_paths r !! k = Some p ∧
          causal_path s (build_dependency_graph s) changed k p)) ∧
    (∀ ids st, sc_go_available c = true → reply = Some (ids, st) → pr_source r = "go" ∧ affected_devices r = ids) ∧
    (∀ d', d' ∈ devices s' ↔ ∃ d, d ∈ devices s ∧
       d' = if mem (dev_id d) (affected_devices r) &&
               negb (String.eqb (pr_source r) "go" && match reply with Some (_, st) => String.eqb (lower st) "error" | None => false end)
            then set_status (status_of (G := G) s d) d else d) ∧
    set_devices (devices s) s' = s.
Proof.
  intros Hf. destruct (causal_chain_run s changed) as (affected & paths & E & Ha & Hd & Hp).
  assert (propagate_python (G := G) changed true s = Some (mkPropagated (elements affected) [] paths "python",
            bulk_update_device_statuses (G := G) (elements affected) s)) as Hpy by (unfold propagate_python; by rewrite E).
  assert (∀ s', s' = bulk_update_device_statuses (G := G) (elements affected) s → ∃ r, r = mkPropagated (elements affected) [] paths "python" ∧
    (∀ k, k ∈ affected_devices r ↔ reaches (edge (downstream s (build_dependency_graph s))) changed k) ∧
    (∀ k, k ∈ affected_devices r → ∃ p, dependency_paths r !! k = Some p ∧ causal_path s (build_dependency_graph s) changed k p)) as Hr.
  { intros s' _. eexists. split; [done|]. simpl. setoid_rewrite elem_of_elements. split; [done|].
    intros k [p Hk]%Hd. eauto. }
  destruct (Hr _ eq_refl) as (rp & -> & H1 & H2). clear Hr.
  unfold propagate_status. rewrite Hf, Hpy. unfold propagate_go. cbn [andb].
  destruct (sc_go_available c); [destruct reply as [[ids st]|]|]; cbn [mbind option_bind].
  2, 3: eexists _, _; split; [done|]; split; [done|]; split; [done|]; split; [|by destruct s];
    intros d'; rewrite bulk_update_elem; simpl; by setoid_rewrite andb_true_r.
  eexists _, _. split; [done|]. split; [intros [?|?]; done|]. split; [intros ?? _ [= -> ->]; done|].
  cbn [affected_devices pr_source]. split.
  - intros d'. change (String.eqb "go" "go") with true. cbn [andb]. destruct (String.eqb (lower st) "error"); cbn [negb].
    + rewrite andb_false_r. split; [intros ?; exists d'|intros (d & ? & ->)]; rewrite ?andb_false_r; auto.
    + rewrite andb_true_r. case_bool_decide as Hi; cbn [negb].
      * subst ids. split; [intros ?; exists d'; auto|intros (d & ? & ->); done].
      * rewrite bulk_update_elem. by setoid_rewrite andb_true_r.
  - destruct (negb _ && _); by destruct s.
Qed.

Definition offline : StatusClient := mkStatusClient false true.

Lemma status_propagation_spec_witness :
  ∃ r s', propagate_status (G := AssocGraph) offline None ["olt"] true demo = Some (r, s') ∧ pr_source r = "python".
Proof.
  destruct (status_propagation_spec (G := AssocGraph) offline None ["olt"] demo eq_refl) as (r & s' & E & Hp & _).
  exists r, s'. split; [exact E|]. by apply Hp; left.
Defined.
