(* ===== verification/Devices.v ===== *)
(** Creating, updating, deleting and overriding devices:
    [api/endpoints/devices_helpers_mutation_core.py], [devices_helpers_delete.py],
    [devices_helpers_override.py], [validate_parent_child] of [backend/utils.py],
    [ensure_default_tariffs] and [allocate_backbone_mgmt] of the seeding.

    A handler runs several transactions.  It is a program of the monad [Handler]:
    a state of committed rows, allocator, event store, history and version, and an
    exception that keeps what was committed before it.  The settings and the
    behaviour of the libraries are an argument ([DEnv]). *)

From stdpp Require Import pretty.
From S2P Require Import Prelude PyFloat Models LinkRules Worklist Adjacency Scenario Catalog LinkStatus.
From S2P Require Import EventStore Errors IpAddr Ipam MacAllocator Splitter L3Auto LinkPolicy Links.
From S2P Require Import NxGraph Pathfinding Dependency DependencyProofs Status StatusRecompute CausalChain StatusClient.

(** * Data *)

(** api/schemas.DeviceCreate; [properties] is ignored. *)
Record DeviceCreate := mkDeviceCreate {
  dcr_id : string; dcr_name : string; dcr_type : DeviceType; dcr_status : Status;
  dcr_parent : option string; dcr_hardware : option Z
}.

(** api/schemas.DeviceUpdate: the outer [None] is a field the request leaves out. *)
Record DeviceUpdate := mkDeviceUpdate {
  du_name : option (option string);
  du_status : option (option Status);
  du_parent : option (option string);
  du_slot : option (option string);
  du_properties : bool;                 (* given at all *)
  du_override : option (option Status);
  du_tx_power : option (option float);
  du_sensitivity : option (option float);
  du_insertion_loss : option (option float);
  du_tariff : option (option Z);
  du_hardware : option (option Z)
}.

Record DEnv := mkDEnv {
  denv_now : string;
  denv_mac : string → DbOutcome;        (* of the allocator, per interface id *)
  denv_append_ok : bool;
  denv_get_flushes : bool;              (* [session.get] flushes pending rows *)
  denv_foreign_keys : bool;             (* the database enforces them *)
  denv_setattr_raises : bool;           (* assigning an attribute the model lacks *)
  denv_single_backbone : bool;          (* ENSURE_SINGLE_BACKBONE_GATEWAY *)
  denv_auto_assign : bool;              (* AUTO_ASSIGN_DEFAULT_HARDWARE *)
  denv_backbone_mgmt : bool;            (* ALLOW_BACKBONE_MGMT_IP *)
  denv_client : StatusClient;
  denv_reply : PropagateReply
}.

(** The world of the link handlers with the tables they do not touch. *)
Record Net := mkNet {
  n_world : World;
  n_vrfs : list VRF; n_prefixes : list Prefix; n_records : list ProvisioningRecord;
  n_catalog : Catalog
}.

Definition net_db (n : Net) : DB := w_db (n_world n).

Definition on_world (f : World → World) (n : Net) : Net :=
  mkNet (f (n_world n)) (n_vrfs n) (n_prefixes n) (n_records n) (n_catalog n).

Definition set_db (s : DB) : Net → Net :=
  on_world (λ w, mkWorld s (w_mac w) (w_rows w) (w_history w) (w_topo w) (w_requests w)).
Definition set_rows (rows : list EventStoreRecord) : Net → Net :=
  on_world (λ w, mkWorld (w_db w) (w_mac w) rows (w_history w) (w_topo w) (w_requests w)).
Definition set_mac (m : MacState) : Net → Net := on_world (with_mac m).
Definition set_catalog (c : Catalog) (n : Net) : Net :=
  mkNet (n_world n) (n_vrfs n) (n_prefixes n) (n_records n) c.
Definition set_records (rs : list ProvisioningRecord) (n : Net) : Net :=
  mkNet (n_world n) (n_vrfs n) (n_prefixes n) rs (n_catalog n).

Definition ipam_of (n : Net) : IpamDB := mkIpamDB (net_db n) (n_vrfs n) (n_prefixes n) (n_records n).
Definition set_ipam (w : IpamDB) (n : Net) : Net :=
  mkNet (n_world (set_db (base w) n)) (vrfs w) (prefixes w) (prov_records w) (n_catalog n).

Definition set_bridge_domains (bs : list BridgeDomain) (s : DB) : DB :=
  mkDB (devices s) (interfaces s) (links s) (media s) (addresses s) (routes s) (neighbors s) bs (mac_entries s).

(** * The handler monad *)

Definition Handler (A : Type) : Type := Net → Outcome A * Net.

#[export] Instance Handler_ret : MRet Handler := λ A a n, (Ret a, n).
#[export] Instance Handler_bind : MBind Handler := λ A B f h n,
  let '(r, n') := h n in
  match r with Ret a => f a n' | Raise e => (Raise e, n') | Diverge => (Diverge, n') end.

Definition reads {A} (f : Net → A) : Handler A := λ n, (Ret (f n), n).
Definition writes (f : Net → Net) : Handler unit := λ n, (Ret tt, f n).
Definition lift {A} (o : Outcome A) : Handler A := λ n, (o, n).

Definition db_constraints (n : Net) : Prop := constraints (net_db n) ∧ addr_constraints (addresses (net_db n)).

#[export] Instance db_constraints_dec n : Decision (db_constraints n).
Proof. apply and_dec; apply _. Defined.

(** [s.commit()] of the rows of [n']: a violated constraint rolls them back, but
    not the allocator, whose transactions are its own. *)
Definition commit (n' : Net) : Handler unit := λ n,
  if bool_decide (db_constraints n') then (Ret tt, n')
  else (Raise ConstraintViolation, set_mac (w_mac (n_world n')) n).

(** An exception inside a transaction. *)
Definition in_transaction {A} (o : Outcome A) (m : MacState) : Handler A := λ n,
  match o with Ret a => (Ret a, n) | Raise e => (Raise e, set_mac m n) | Diverge => (Diverge, set_mac m n) end.

(** [PATHFINDING_STORE.bump_version()] *)
Definition bump : Handler Z := λ n,
  let tv := (w_topo (n_world n) + 1)%Z in
  (Ret tv, on_world (λ w, mkWorld (w_db w) (w_mac w) (w_rows w) (w_history w) tv (w_requests w)) n).

Definition publish_event (env : DEnv) (ev : Event) : Handler unit :=
  writes (on_world (λ w,
    let '(history, rows) := publish (denv_append_ok env) (denv_now env) ev (w_history w, w_rows w) in
    mkWorld (w_db w) (w_mac w) rows history (w_topo w) (w_requests w))).

Definition request (scope key : string) : Handler unit :=
  writes (on_world (λ w, mkWorld (w_db w) (w_mac w) (w_rows w) (w_history w) (w_topo w) (w_requests w ++ [(scope, key)]))).

Definition domain_event (env : DEnv) (type k : string) (data : Payload) (rows : list EventStoreRecord)
    : Outcome (list EventStoreRecord) :=
  or_raise (append_domain_event (denv_now env) type k data None rows) (HttpException 500 "unknown domain event type").

(** * validate_parent_child *)

Definition CONTAINERS : list DeviceType := [POP; CORE_SITE].

(** [f"{dev_type}"] *)
Definition type_str (t : DeviceType) : string := "DeviceType." +:+ DeviceType_value t.

(** The error, if any. *)
Definition validate_parent_child (s : DB) (t : DeviceType) (parent_id : option string) : option string :=
  let parent := truthy parent_id in
  let must_be (ok : DeviceType → bool) (msg : string) :=
    match parent with
    | None => None
    | Some p =>
        match get_device s p with
        | None => Some "Parent device not found"
        | Some d => if ok (dev_type d) then None else Some msg
        end
    end in
  if mem t CONTAINERS then
    match parent_id with Some _ => Some (type_str t +:+ " must not have a parent") | None => None end
  else if mem t [BACKBONE_GATEWAY; CORE_ROUTER] then
    must_be (λ u, bool_decide (u = CORE_SITE)) (type_str t +:+ " parent must be CORE_SITE")
  else if mem t [OLT; AON_SWITCH] then must_be (λ u, bool_decide (u = POP)) (type_str t +:+ " parent must be POP")
  else if bool_decide (t = EDGE_ROUTER) then
    must_be (λ u, mem u CONTAINERS) "EDGE_ROUTER parent must be POP or CORE_SITE"
  else if mem t PASSIVE_INLINE then
    match parent with
    | Some p => if bool_decide (is_Some (get_device s p)) then None else Some "Parent container not found"
    | None => None
    end
  else must_be (λ u, negb (mem u CONTAINERS))
         (type_str t +:+ " must not be directly parented by container (POP/CORE_SITE)").

Definition conflict (msg : string) : HttpError := HttpException 409 msg.
Definition not_found : HttpError := HttpException 404 "Not found".

(** UnprocessableError: 400 when the message speaks of a parent. *)
Definition unprocessable (msg : string) : HttpError :=
  HttpException (if contains "parent" (lower msg) then 400 else 422) msg.

Definition check_parent_child (s : DB) (t : DeviceType) (parent : option string) : Outcome unit :=
  match validate_parent_child s t parent with
  | Some err => Raise (unprocessable (if nonempty err then err else "INVALID_PARENT"))
  | None => Ret tt
  end.

(** * Hardware and tariffs *)

Definition hardware_by_id (c : Catalog) (k : Z) : option HardwareModel :=
  find_row (λ m, (hw_id m =? k)%Z) (hardware_models c).

Definition check_hardware (c : Catalog) (t : DeviceType) (k : Z) : Outcome unit :=
  hm ← or_raise (hardware_by_id c k) (unprocessable "INVALID_HARDWARE_MODEL");
  raise_if (negb (bool_decide (hw_device_type hm = t))) (unprocessable "HARDWARE_TYPE_MISMATCH").

(** [order_by(vendor, model, version)] *)
Definition hardware_leb (a b : HardwareModel) : bool :=
  strs_leb [vendor a; hw_model a; hw_version a] [vendor b; hw_model b; hw_version b].

(** The default model of a type: one marked as default, else the first. *)
Definition default_hardware (c : Catalog) (t : DeviceType) : option Z :=
  let rows := sort_by hardware_leb (filter (λ m, hw_device_type m = t) (hardware_models c)) in
  hw_id <$> match find_row (λ m, bool_decide (meta_source m = Some "default")) rows with
            | Some m => Some m
            | None => head rows
            end.

Definition choose_hardware (env : DEnv) (c : Catalog) (p : DeviceCreate) : Outcome (option Z) :=
  match dcr_hardware p with
  | Some k => _ ← check_hardware c (dcr_type p) k; Ret (Some k)
  | None => Ret (if denv_auto_assign env then default_hardware c (dcr_type p) else None)
  end.

Section devices.
Context {row_ids : RowIds} {G : Type} `{NxGraph G}.

Definition DEFAULT_TARIFFS : list (string * float * float * TariffTechnology) := [
  ("Basic 100/20", of_Z 20, of_Z 100, GPON); ("Pro 1000/300", of_Z 300, of_Z 1000, GPON);
  ("AON 300/300", of_Z 300, of_Z 300, AON); ("AON 1000/1000", of_Z 1000, of_Z 1000, AON)].

Definition ensure_default_tariffs (c : Catalog) : Catalog :=
  let existing := t_name <$> tariffs c in
  mkCatalog (hardware_models c) (port_profiles c)
    (foldl (λ ts d,
       let '(name, up, down, tech) := d in
       if mem name existing then ts else ts ++ [mkTariff (next_id (t_id <$> ts)) name up down (Some tech)])
     (tariffs c) DEFAULT_TARIFFS).

Definition required_technology (t : DeviceType) : option TariffTechnology :=
  if mem t [ONT; BUSINESS_ONT] then Some GPON else if bool_decide (t = AON_CPE) then Some AON else None.

(** * The row *)

Definition new_device (c : Catalog) (p : DeviceCreate) (hw : option Z) : Device :=
  let loss :=
    if mem (dcr_type p) PASSIVE_INLINE then m ← (k ← hw; hardware_by_id c k); hw_insertion_loss_db m else None in
  mkDevice (dcr_id p) (dcr_name p) (dcr_type p) (dcr_status p) false None None None loss None
    None None None None (dcr_parent p) None None None hw.

Definition with_tariff (t : option Z) (d : Device) : Device :=
  mkDevice (dev_id d) (dev_name d) (dev_type d) (dev_status d) (provisioned d) (dev_override d)
    (tx_power_dbm d) (sensitivity_min_dbm d) (insertion_loss_db d) (dev_capacity d)
    (signal_power_dbm d) (signal_margin_db d) (attenuation_db d) (signal_status d)
    (parent_container_id d) (slot_id d) t (dev_vrf_id d) (hardware_model_id d).

(** The default tariff of a leaf: the first by name of its technology. *)
Definition assign_default_tariff (d : Device) : Handler Device :=
  match required_technology (dev_type d) with
  | None => mret d
  | Some tech =>
      rows ← reads (λ n, sort_by (λ x y, str_leb (t_name x) (t_name y))
                           (filter (λ t, technology t = Some tech) (tariffs (n_catalog n))));
      match rows with
      | t :: _ =>
          let d := with_tariff (Some (t_id t)) d in
          n ← reads id;
          _ ← commit (set_db (write_device d (net_db n)) n);
          mret d
      | [] => mret d
      end
  end.

(** * Bridge domains *)

Definition SWITCH_LIKE : list DeviceType := [AON_SWITCH; EDGE_ROUTER].

Definition default_domain (s : DB) (d : string) : option BridgeDomain :=
  find_row (λ b, String.eqb (bd_device_id b) d && String.eqb (bd_name b) "default") (bridge_domains s).

Definition ensure_default_domain (d : Device) : Handler unit :=
  if mem (dev_type d) SWITCH_LIKE then
    n ← reads id;
    match default_domain (net_db n) (dev_id d) with
    | Some _ => mret tt
    | None =>
        let s := net_db n in
        commit (set_db (set_bridge_domains (bridge_domains s ++
          [mkBridgeDomain (next_id (bd_id <$> bridge_domains s)) "default" (dev_id d)]) s) n)
    end
  else mret tt.

Definition in_domain (b : Z) (i : Interface) : Interface :=
  mkInterface (if_id i) (if_device_id i) (if_name i) (if_role i) (if_admin_status i) (if_capacity i)
    (port_role i) (Some b) (profile_name i) (if_mac_address i).

Definition joins_domain (d : Device) (i : Interface) : bool :=
  String.eqb (if_device_id i) (dev_id d) && bool_decide (if_bridge_domain_id i = None).

Definition join_row (d : Device) (b : Z) (i : Interface) : Interface :=
  if joins_domain d i then in_domain b i else i.

(** The device's interfaces without a bridge domain join the default one. *)
Definition join_default_domain (d : Device) : Handler unit :=
  if mem (dev_type d) SWITCH_LIKE then
    n ← reads id;
    match default_domain (net_db n) (dev_id d) with
    | None => mret tt
    | Some b =>
        let s := net_db n in
        if existsb (joins_domain d) (interfaces s)
        then commit (set_db (set_interfaces (join_row d (bd_id b) <$> interfaces s) s) n)
        else mret tt
    end
  else mret tt.

(** * Ports of a hardware model *)

(** [(p.name or "port").strip() or "port"] *)
Definition port_base (p : PortProfile) : string :=
  let name := if nonempty (pp_name p) then pp_name p else "port" in
  if nonempty (strip name) then strip name else "port".

Definition port_names_of (p : PortProfile) : list string :=
  let count := Z.to_nat (pp_count p) in
  let base := port_base p in
  if (count =? 1)%nat && mem base ["mgmt0"; "if0"; "mgmt"; "uplink"]
  then [if ends_with "0" base then base else base +:+ "0"]
  else (λ idx : nat, base +:+ pretty idx) <$> seq 1 count.

Definition port_plan (c : Catalog) (hw : Z) : list (PortProfile * string) :=
  p ← filter (λ p, pp_hardware_model_id p = hw) (port_profiles c);
  (λ nm, (p, nm)) <$> port_names_of p.

Definition port_id (d : Device) (nm : string) : string := dev_id d +:+ "-" +:+ nm.

(** The rows of the session while ports are added: flushed ones, pending ones. *)
Record PortSession := mkPorts { ps_db : DB; ps_pending : list Interface; ps_created : bool }.

Definition flush_ports (ps : PortSession) : Outcome PortSession :=
  let s := set_interfaces (interfaces (ps_db ps) ++ ps_pending ps) (ps_db ps) in
  if bool_decide (constraints s) then Ret (mkPorts s [] (ps_created ps)) else Raise ConstraintViolation.

Definition port_row (d : Device) (p : PortProfile) (nm mac : string) (cap : option Z) : Interface :=
  mkInterface (port_id d nm) (dev_id d) nm
    (if String.eqb (lower (default "" (pp_role p))) "management" then Some MANAGEMENT else None)
    ADMIN_UP cap (pp_port_role p) None (Some (port_base p)) (Some mac).

(** One port: look it up, allocate an address, add it. *)
Definition add_port (env : DEnv) (d : Device) (e : PortProfile * string) (ps : PortSession) (m : MacState)
    : Outcome PortSession * MacState :=
  let '(p, nm) := e in
  match (if denv_get_flushes env then flush_ports ps else Ret ps) with
  | Raise e => (Raise e, m)
  | Diverge => (Diverge, m)
  | Ret ps =>
      match get_interface (ps_db ps) (port_id d nm) with
      | Some _ => (Ret ps, m)
      | None =>
          match (match speed_gbps p with None => Some None | Some sp => Some <$> mbps_of_gbps sp end) with
          | None => (Raise (HttpException 500 "cannot convert float to integer"), m)
          | Some cap =>
              match next_mac (denv_mac env (port_id d nm)) m with
              | None => (Diverge, m)
              | Some (mac, m') =>
                  (Ret (mkPorts (ps_db ps) (ps_pending ps ++ [port_row d p nm mac cap]) true), m')
              end
          end
      end
  end.

Fixpoint add_ports (env : DEnv) (d : Device) (plan : list (PortProfile * string)) (ps : PortSession) (m : MacState)
    : Outcome PortSession * MacState :=
  match plan with
  | [] => (Ret ps, m)
  | e :: rest =>
      let '(r, m') := add_port env d e ps m in
      match r with
      | Ret ps' => add_ports env d rest ps' m'
      | Raise x => (Raise x, m')
      | Diverge => (Diverge, m')
      end
  end.

(** The pending interfaces get their events, then everything is committed. *)
Definition commit_ports (env : DEnv) (pending : list Interface) (s : DB) (m : MacState) : Handler unit :=
  n ← reads id;
  rows ← in_transaction (or_raise (port_events (denv_now env) pending (w_rows (n_world n)))
                           (HttpException 500 "unknown domain event type")) m;
  commit (set_mac m (set_rows rows (set_db s n))).

Definition create_ports (env : DEnv) (d : Device) (hw : Z) : Handler unit :=
  n ← reads id;
  let '(r, m) := add_ports env d (port_plan (n_catalog n) hw) (mkPorts (net_db n) [] false) (w_mac (n_world n)) in
  ps ← in_transaction r m;
  _ ← (if ps_created ps
       then commit_ports env (ps_pending ps)
              (set_interfaces (interfaces (ps_db ps) ++ ps_pending ps) (ps_db ps)) m
       else writes (set_mac m));
  join_default_domain d.

(** Without a model: the ports of a splitter, or one default interface. *)
Definition default_ports (env : DEnv) (d : Device) : Handler unit :=
  n ← reads id;
  let s := net_db n in
  if bool_decide (dev_type d = SPLITTER) then
    let s' := ensure_default_ports_for_splitter s d (Some DEFAULT_SPLIT_RATIO) in
    commit_ports env (drop (length (interfaces s)) (interfaces s')) s' (w_mac (n_world n))
  else
    match get_interface s (port_id d "if0") with
    | Some _ => mret tt
    | None =>
        match next_mac (denv_mac env (port_id d "if0")) (w_mac (n_world n)) with
        | None => lift Diverge
        | Some (mac, m) =>
            let i := mkInterface (port_id d "if0") (dev_id d) "if0" None ADMIN_UP None None None None (Some mac) in
            commit_ports env [i] (add_interface i s) m
        end
    end.

(** * allocate_backbone_mgmt *)

Definition as_management (i : Interface) : Interface :=
  mkInterface (if_id i) (if_device_id i) (if_name i) (Some MANAGEMENT) (if_admin_status i) (if_capacity i)
    (port_role i) (if_bridge_domain_id i) (profile_name i) (if_mac_address i).

(** [None]: the prefix is no network. *)
Definition allocate_backbone_mgmt (d : Device) (w : IpamDB) : option IpamDB :=
  let w := ensure_ipam_defaults w in
  match vrf_by_name "mgmt" (vrfs w) with
  | None => Some w
  | Some mgmt =>
      match find_row (labelled (vrf_id mgmt) "core_mgmt") (prefixes w) with
      | None => Some w
      | Some p =>
          let k := port_id d "mgmt0" in
          let s := base w in
          if existsb (λ a, String.eqb (addr_interface_id a) k) (addresses s) then Some w
          else
            let s := match get_interface s k with
                     | None => add_interface (mkInterface k (dev_id d) "mgmt0" (Some MANAGEMENT) ADMIN_UP None None None None None) s
                     | Some _ => set_interfaces (update_row (λ i, String.eqb (if_id i) k) as_management (interfaces s)) s
                     end in
            free ← next_free_ip_in_prefix s p;
            Some (with_base
              match free with
              | Some (ip, len) =>
                  set_addresses (addresses s ++
                    [mkInterfaceAddress (next_id (addr_id <$> addresses s)) k ip len (Some (vrf_id mgmt)) (Some (prefix_id p))]) s
              | None => s
              end w)
      end
  end.

(** The queries of the allocation flush the interface before its event is looked for. *)
Definition backbone_mgmt (d : Device) : Handler unit :=
  n ← reads id;
  w ← lift (or_raise (allocate_backbone_mgmt d (ipam_of n)) (HttpException 500 "ValueError"));
  commit (set_ipam w n).

(** * The response *)

(** What [DeviceOut.from_model] derives: the evaluated status; the capacities
    raise when they are infinite or not a number. *)
Record DeviceOut := mkDeviceOut { do_row : Device; do_status : Status; do_capacity_mbps : option Z }.

Definition from_model (d : Device) : Handler DeviceOut :=
  n ← reads id;
  cap ← lift (or_raise (get_effective_device_capacity_mbps (n_catalog n) d) (HttpException 500 "capacity"));
  _ ← lift (match get_model (n_catalog n) d ≫= capacity_gbps with
            | Some g => if feqb g fzero then Ret tt
                        else _ ← or_raise (mbps_of_gbps g) (HttpException 500 "capacity"); Ret tt
            | None => Ret tt
            end);
  mret (mkDeviceOut d (status_of (G := G) (net_db n) d) cap).

Definition propagate (env : DEnv) (k : string) : Handler unit :=
  writes (λ n, set_db (propagate_or_warn (G := G) (denv_client env) (denv_reply env) [k] (net_db n)) n).

(** * create_device_impl *)

Definition check_create (env : DEnv) (s : DB) (p : DeviceCreate) : Outcome unit :=
  _ ← raise_if (bool_decide (is_Some (get_device s (dcr_id p)))) (conflict "Device ID already exists");
  _ ← raise_if (bool_decide (dcr_type p = BACKBONE_GATEWAY) && denv_single_backbone env &&
                existsb (λ d, is_type d BACKBONE_GATEWAY) (devices s))
        (conflict "Backbone gateway already exists (single mode)");
  check_parent_child s (dcr_type p) (dcr_parent p).

Definition status_str (st : Status) : string :=
  "Status." +:+ match st with UP => "UP" | DOWN => "DOWN" | DEGRADED => "DEGRADED" | BLOCKING => "BLOCKING" end.

(** The first transaction: the device, its event, the seeded tariffs. *)
Definition insert_device (env : DEnv) (p : DeviceCreate) : Handler Device :=
  n ← reads id;
  let c := ensure_default_tariffs (n_catalog n) in
  _ ← lift (check_create env (net_db n) p);
  hw ← lift (choose_hardware env c p);
  let d := new_device c p hw in
  rows ← lift (domain_event env "DEVICE_CREATED" (dev_id d)
                 [("device_type", JStr (DeviceType_value (dev_type d))); ("name", JStr (dev_name d));
                  ("status", JStr (status_str (dev_status d)))] (w_rows (n_world n)));
  _ ← commit (set_catalog c (set_rows rows (set_db (set_devices (devices (net_db n) ++ [d]) (net_db n)) n)));
  mret d.

Definition create_device_impl (env : DEnv) (p : DeviceCreate) : Handler DeviceOut :=
  d ← insert_device env p;
  _ ← bump;
  d ← assign_default_tariff d;
  _ ← ensure_default_domain d;
  _ ← match hardware_model_id d with Some hw => create_ports env d hw | None => default_ports env d end;
  _ ← (if bool_decide (dev_type d = BACKBONE_GATEWAY) && denv_backbone_mgmt env then backbone_mgmt d else mret tt);
  _ ← propagate env (dev_id d);
  from_model d.

(** * update_device_impl *)

Definition check_update (n : Net) (d : Device) (u : DeviceUpdate) : Outcome unit :=
  _ ← match du_hardware u with Some (Some k) => check_hardware (n_catalog n) (dev_type d) k | _ => Ret tt end;
  _ ← match du_parent u with Some parent => check_parent_child (net_db n) (dev_type d) parent | None => Ret tt end;
  match du_tariff u with
  | Some (Some k) =>
      t ← or_raise (find_row (λ t, (t_id t =? k)%Z) (tariffs (n_catalog n))) (unprocessable "TARIFF_NOT_FOUND");
      raise_if match required_technology (dev_type d), technology t with
               | Some req, Some tech => bool_decide (tech ≠ req)
               | _, _ => false
               end (unprocessable "TARIFF_TECH_MISMATCH")
  | _ => Ret tt
  end.

(** The slot is cleared with the parent, and refused without one. *)
Definition normalize_slot (d : Device) (u : DeviceUpdate) : option (option string) :=
  let slot := match du_parent u with Some None => Some None | _ => du_slot u end in
  match slot with
  | Some (Some _) =>
      if bool_decide (mjoin (du_parent u) = None) && bool_decide (parent_container_id d = None) then Some None else slot
  | _ => slot
  end.

(** The keys of [data], sorted. *)
Definition changed_fields (u : DeviceUpdate) (slot : option (option string)) : list string :=
  let given {A} (o : option A) (k : string) := match o with Some _ => [k] | None => [] end in
  given (du_override u) "admin_override_status" ++ given (du_hardware u) "hardware_model_id" ++
  given (du_insertion_loss u) "insertion_loss_db" ++ given (du_name u) "name" ++
  given (du_parent u) "parent_container_id" ++ (if du_properties u then ["properties"] else []) ++
  given (du_sensitivity u) "sensitivity_min_dbm" ++ given slot "slot_id" ++ given (du_status u) "status" ++
  given (du_tariff u) "tariff_id" ++ given (du_tx_power u) "tx_power_dbm".

(** [setattr] of every given field; a name or status cannot be null. *)
Definition updated_row (d : Device) (u : DeviceUpdate) (slot : option (option string)) : option Device :=
  name ← match du_name u with Some o => o | None => Some (dev_name d) end;
  st ← match du_status u with Some o => o | None => Some (dev_status d) end;
  Some (mkDevice (dev_id d) name (dev_type d) st (provisioned d)
    (default (dev_override d) (du_override u)) (default (tx_power_dbm d) (du_tx_power u))
    (default (sensitivity_min_dbm d) (du_sensitivity u)) (default (insertion_loss_db d) (du_insertion_loss u))
    (dev_capacity d) (signal_power_dbm d) (signal_margin_db d) (attenuation_db d) (signal_status d)
    (default (parent_container_id d) (du_parent u)) (default (slot_id d) slot)
    (default (tariff_id d) (du_tariff u)) (dev_vrf_id d) (default (hardware_model_id d) (du_hardware u))).

(** The first transaction of an update. *)
Definition write_update (env : DEnv) (d : Device) (u : DeviceUpdate) : Handler Device :=
  n ← reads id;
  _ ← lift (check_update n d u);
  let slot := normalize_slot d u in
  rows ← lift (domain_event env "DEVICE_UPDATED" (dev_id d)
                 [("device_type", JStr (DeviceType_value (dev_type d))); ("changed_fields", JList (changed_fields u slot))]
                 (w_rows (n_world n)));
  _ ← lift (raise_if (du_properties u && denv_setattr_raises env) (HttpException 500 "ValueError"));
  d' ← lift (or_raise (updated_row d u slot) ConstraintViolation);
  _ ← commit (set_rows rows (set_db (write_device d' (net_db n)) n));
  mret d'.

Definition status_changed_event (k : string) (st : Status) (override : option Status) (tv : Z) : Event :=
  mkBusEvent "device.status.changed"
    [("id", JStr k); ("status", JStr (status_str st)); ("effective_status", JStr (status_str st));
     ("admin_override_status", opt_json (λ o, JStr (status_str o)) override)] (Some tv).

Definition optional_eqb (x y : option float) : bool :=
  match x, y with Some x, Some y => feqb x y | None, None => true | _, _ => false end.

Definition update_device_impl (env : DEnv) (k : string) (u : DeviceUpdate) : Handler DeviceOut :=
  n ← reads id;
  d ← lift (or_raise (get_device (net_db n) k) not_found);
  d' ← write_update env d u;
  tv ← bump;
  _ ← match du_hardware u, hardware_model_id d' with
      | Some _, Some hw => _ ← ensure_default_domain d'; create_ports env d' hw
      | _, _ => mret tt
      end;
  after ← from_model d';
  _ ← (if bool_decide (dev_status d ≠ do_status after) || bool_decide (dev_override d ≠ dev_override d')
       then _ ← publish_event env (status_changed_event k (do_status after) (dev_override d') tv); propagate env k
       else mret tt);
  _ ← (if optional_eqb (tx_power_dbm d) (tx_power_dbm d') && optional_eqb (sensitivity_min_dbm d) (sensitivity_min_dbm d') &&
          optional_eqb (insertion_loss_db d) (insertion_loss_db d')
       then mret tt else request "optical.recompute_paths" k);
  mret after.

(** * delete_device_impl *)

(** The links of the interfaces, each once, in the order of their deletion. *)
Fixpoint distinct_links (seen : list string) (ls : list Link) : list Link :=
  match ls with
  | [] => []
  | l :: rest => if mem (link_id l) seen then distinct_links seen rest else l :: distinct_links (link_id l :: seen) rest
  end.

Definition links_of_device (s : DB) (ids : list string) : list Link :=
  distinct_links [] (k ← ids; filter (λ l, a_interface_id l = k) (links s) ++ filter (λ l, b_interface_id l = k) (links s)).

(** The tables without the device and everything attached to it. *)
Definition purge_device (k : string) (n : Net) : Net :=
  let s := net_db n in
  let ids := if_id <$> interfaces_of s k in
  let gone (i : string) := mem i ids in
  let s' := mkDB (filter (λ d, dev_id d ≠ k) (devices s))
              (filter (λ i, gone (if_id i) = false) (interfaces s))
              (filter (λ l, gone (a_interface_id l) || gone (b_interface_id l) = false) (links s))
              (media s)
              (filter (λ a, gone (addr_interface_id a) = false) (addresses s))
              (filter (λ r, match route_interface_id r with Some i => gone i | None => false end = false) (routes s))
              (filter (λ b, gone (neigh_interface_id b) = false) (neighbors s))
              (filter (λ b, bd_device_id b ≠ k) (bridge_domains s))
              (filter (λ e, gone (mac_interface_id e) = false) (mac_entries s)) in
  let records := match ids with
                 | [] => n_records n
                 | _ => filter (λ r, String.eqb (pr_device_id r) k || gone (pr_interface_id r) = false) (n_records n)
                 end in
  set_records records (set_db s' n).

(** Rows elsewhere that still refer to what was deleted. *)
Definition dangling (k : string) (n n' : Net) : bool :=
  let domains := bd_id <$> filter (λ b, bd_device_id b = k) (bridge_domains (net_db n)) in
  existsb (λ d, bool_decide (parent_container_id d = Some k)) (devices (net_db n')) ||
  existsb (λ r, String.eqb (pr_device_id r) k) (n_records n') ||
  existsb (λ i, match if_bridge_domain_id i with Some b => mem b domains | None => false end) (interfaces (net_db n')) ||
  existsb (λ e, mem (mac_bridge_domain_id e) domains) (mac_entries (net_db n')).

Definition deletion_events (env : DEnv) (d : Device) (ids : list string) (ls : list Link) (rows : list EventStoreRecord)
    : Outcome (list EventStoreRecord) :=
  rows ← domain_event env "DEVICE_DELETED" (dev_id d)
           [("device_type", JStr (DeviceType_value (dev_type d))); ("interface_count", JInt (Z.of_nat (length ids)))] rows;
  foldl (λ acc l, acc ≫= domain_event env "LINK_DELETED" (link_id l) [("deleted_by_device_id", JStr (dev_id d))])
    (Ret rows) ls.

Definition delete_device_impl (env : DEnv) (k : string) : Handler unit :=
  n ← reads id;
  d ← lift (or_raise (get_device (net_db n) k) not_found);
  let ids := if_id <$> interfaces_of (net_db n) k in
  rows ← lift (deletion_events env d ids (links_of_device (net_db n) ids) (w_rows (n_world n)));
  let n' := purge_device k n in
  _ ← lift (raise_if (denv_foreign_keys env && dangling k n n') ConstraintViolation);
  _ ← commit (set_rows rows n');
  _ ← bump;
  mret tt.

(** * set_device_override_impl *)

(** The JSON value: absent or null, a string, or another scalar, which is no status. *)
Inductive OverrideBody := OverrideNull | OverrideText (t : string) | OverrideOther.

Definition override_value (b : OverrideBody) : option (option Status) :=
  match b with
  | OverrideNull => Some None
  | OverrideText t =>
      if String.eqb t "UP" then Some (Some UP) else if String.eqb t "DOWN" then Some (Some DOWN)
      else if String.eqb t "DEGRADED" then Some (Some DEGRADED) else None
  | OverrideOther => None
  end.

Definition override_json (b : OverrideBody) : Json :=
  match b with OverrideText t => JStr t | _ => JNull end.

Definition with_override (o : option Status) (d : Device) : Device :=
  mkDevice (dev_id d) (dev_name d) (dev_type d) (dev_status d) (provisioned d) o
    (tx_power_dbm d) (sensitivity_min_dbm d) (insertion_loss_db d) (dev_capacity d)
    (signal_power_dbm d) (signal_margin_db d) (attenuation_db d) (signal_status d)
    (parent_container_id d) (slot_id d) (tariff_id d) (dev_vrf_id d) (hardware_model_id d).

Definition set_device_override_impl (env : DEnv) (k : string) (body : OverrideBody) : Handler DeviceOut :=
  n ← reads id;
  d ← lift (or_raise (get_device (net_db n) k) not_found);
  let before := status_of (G := G) (net_db n) d in
  o ← lift (or_raise (override_value body) (HttpException 400 "Invalid override status"));
  rows ← lift (domain_event env "DEVICE_UPDATED" k
                 [("field", JStr "admin_override_status"); ("admin_override_status", override_json body)] (w_rows (n_world n)));
  let d' := with_override o d in
  _ ← commit (set_rows rows (set_db (write_device d' (net_db n)) n));
  tv ← bump;
  n' ← reads id;
  let after := status_of (G := G) (net_db n') d' in
  _ ← (if bool_decide (before ≠ after) then publish_event env (status_changed_event k after o tv) else mret tt);
  _ ← request "devices" k;
  from_model d'.
End devices.
