(* ===== verification/LinkChanges.v ===== *)
(** Updating and overriding links: [api/endpoints/links_helpers_update.py] and
    [links_helpers_override.py].

    An update recomputes the optical budgets itself, asks the status client to
    propagate from the two ends, and publishes their changes; an override takes
    the baseline of every device first and runs the status recomputation.  The
    state is the world of the link handlers with the caches of the services they
    call. *)

From S2P Require Import Prelude PyFloat Models LinkRules Worklist Adjacency Scenario Catalog LinkStatus.
From S2P Require Import EventStore Errors MacAllocator Splitter LinkPolicy Links.
From S2P Require Import NxGraph Pathfinding Dependency DependencyProofs Status StatusRecompute CausalChain StatusClient.
From S2P Require Import OpticalPath OpticalService Devices.

(** * Data *)

(** api/schemas.LinkUpdate: the outer [None] is a field the request leaves out. *)
Record LinkUpdate := mkLinkUpdate {
  lu_status : option (option Status);
  lu_override : option (option Status);
  lu_length : option (option float);
  lu_medium : option (option Z)
}.

Record LinkEnv := mkLinkEnv {
  le_now : string;
  le_append_ok : bool;
  le_catalog : Catalog;
  le_optical : GoOptical;
  le_max_span : option float;           (* of the viability check *)
  le_status_go : option (gset string);  (* the Go recomputation *)
  le_client : StatusClient;
  le_reply : PropagateReply
}.

Section changes.
Context {G : Type} `{NxGraph G} `{Dijkstra G}.

(** The caches of the services, and the status events they published. *)
Record Services := mkServices {
  sv_cache : GraphCache;
  sv_prop : PropagationStore;
  sv_diag : gmap string DeviceDiagnostics;
  sv_events : list StatusEvent;
  sv_client : OpticalClient;
  sv_memo : OpticalState (G := G)
}.

Definition LinkState : Type := World * Services.

Definition rec_of (st : LinkState) : RecState :=
  mkRec (w_db st.1) (sv_cache st.2) (sv_prop st.2) (sv_diag st.2) (sv_events st.2).

Definition with_db (s : DB) (w : World) : World :=
  mkWorld s (w_mac w) (w_rows w) (w_history w) (w_topo w) (w_requests w).

(** The state after a status recomputation. *)
Definition after_rec (r : RecState) (st : LinkState) : LinkState :=
  (with_db (rec_db r) st.1,
   mkServices (rec_cache r) (rec_prop r) (rec_diag r) (rec_events r) (sv_client st.2) (sv_memo st.2)).

(** The link's row is replaced, the event appended, everything committed and the
    version bumped. *)
Definition commit_change (l : Link) (rows : list EventStoreRecord) (st : LinkState) : LinkState :=
  let w := st.1 in
  let s := set_links (update_row (λ k, String.eqb (link_id k) (link_id l)) (λ _, l) (links (w_db w))) (w_db w) in
  let sv := st.2 in
  (mkWorld s (w_mac w) rows (w_history w) (w_topo w + 1)%Z (w_requests w),
   mkServices (sv_cache sv) (sv_prop sv) (sv_diag sv) (sv_events sv) (sv_client sv) (bump_version_optical (sv_memo sv)).2).

Definition publish_change (env : LinkEnv) (ev : Event) (st : LinkState) : LinkState :=
  let w := st.1 in
  let '(history, rows) := publish (le_append_ok env) (le_now env) ev (w_history w, w_rows w) in
  (mkWorld (w_db w) (w_mac w) rows history (w_topo w) (w_requests w), st.2).

Definition schedule_link (lid : string) (st : LinkState) : LinkState :=
  let w := st.1 in
  (mkWorld (w_db w) (w_mac w) (w_rows w) (w_history w) (w_topo w) (w_requests w ++ [("links", lid)]), st.2).

Definition override_text (o : option Status) : Json := opt_json (λ st, JStr (Status_value st)) o.

Definition link_response (s : DB) (l : Link) : LinkResolvedOut :=
  mkOut (link_id l) (a_interface_id l) (b_interface_id l)
    (match get_interface s (a_interface_id l) with Some i => if_device_id i | None => "" end)
    (match get_interface s (b_interface_id l) with Some i => if_device_id i | None => "" end)
    (link_status l) (evaluate_link_status s l) (kind l) (link_override l) (length_km l) (physical_medium_id l) None.

(** * update_link_impl *)

(** The device of an interface. *)
Definition device_at (s : DB) (k : string) : option Device := i ← get_interface s k; get_device s (if_device_id i).

(** The devices at the ends of a link, each once. *)
Definition end_devices (s : DB) (l : Link) : list Device :=
  match device_at s (a_interface_id l), device_at s (b_interface_id l) with
  | Some a, Some b => if String.eqb (dev_id a) (dev_id b) then [a] else [a; b]
  | Some a, None => [a]
  | None, Some b => [b]
  | None, None => []
  end.

Definition check_link_update (s : DB) (l : Link) (u : LinkUpdate) : Outcome unit :=
  _ ← raise_if (match lu_length u with Some (Some x) => fltb x fzero | _ => false end) (bad_request "length_km must be >= 0");
  match lu_medium u with
  | Some (Some i) =>
      pm ← or_raise (get_medium s i) (bad_request "Invalid physical_medium_id");
      match device_at s (a_interface_id l), device_at s (b_interface_id l) with
      | Some a_dev, Some b_dev =>
          let cls := classify a_dev b_dev in
          _ ← raise_if (negb (res_allowed cls)) (raise_error INVALID_LINK_TYPE (res_rule_id cls));
          let allowed := allowed_media_codes_for_class (res_link_class cls) in
          raise_if (negb (bool_decide (allowed = [])) && negb (mem (pm_code pm) allowed))
            (bad_request ("Physical medium '" +:+ pm_code pm +:+ "' not allowed for link class '" +:+
               res_link_class cls +:+ "' (rule " +:+ res_rule_id cls +:+ ")"))
      | _, _ => Ret tt
      end
  | _ => Ret tt
  end.

(** A field that is given and differs. *)
Definition optical_recompute_needed (l : Link) (u : LinkUpdate) : bool :=
  match lu_length u with Some x => negb (optional_eqb (length_km l) x) | None => false end ||
  match lu_medium u with Some x => negb (bool_decide (physical_medium_id l = x)) | None => false end.

Definition changed_link_fields (u : LinkUpdate) : list string :=
  let given {A} (o : option A) (k : string) := match o with Some _ => [k] | None => [] end in
  given (lu_override u) "admin_override_status" ++ given (lu_length u) "length_km" ++
  given (lu_medium u) "physical_medium_id" ++ given (lu_status u) "status".

(** [setattr] of the given fields; the status cannot be null. *)
Definition updated_link (l : Link) (u : LinkUpdate) : option Link :=
  st ← match lu_status u with Some o => o | None => Some (link_status l) end;
  Some (mkLink (link_id l) (a_interface_id l) (b_interface_id l) st (kind l) (default (link_override l) (lu_override u))
    (protection_mode l) (default (length_km l) (lu_length u)) (default (physical_medium_id l) (lu_medium u))).

Definition end_event (k : string) (st : Status) (override : option Status) (tv : Z) : Event :=
  mkBusEvent "device.status.changed"
    [("id", JStr k); ("status", JStr (Status_value st)); ("effective_status", JStr (Status_value st));
     ("admin_override_status", override_text override)] (Some tv).

(** The budgets, when an optical field changed. *)
Definition optical_step (env : LinkEnv) (st : LinkState) : LinkState :=
  let w := st.1 in
  match recompute_optical_paths_for_affected_onts (le_optical env) (le_catalog env) (le_max_span env) (w_topo w)
          (le_status_go env) (le_append_ok env) (le_now env)
          (mkOpticalWorld (rec_of st) (sv_client st.2) (sv_memo st.2) (w_history w) (w_rows w)) with
  | Some (_, ow) =>
      let r := ow_rec ow in
      (mkWorld (rec_db r) (w_mac w) (ow_rows ow) (ow_history ow) (w_topo w) (w_requests w),
       mkServices (rec_cache r) (rec_prop r) (rec_diag r) (rec_events r) (ow_client ow) (ow_memo ow))
  | None => st
  end.

(** The devices of the baseline whose evaluated status is another now. *)
Definition moved_ends (s : DB) (baseline : list (string * Status)) : list (string * Status * option Status) :=
  omap (λ b, d ← get_device s b.1;
    let after := status_of (G := G) s d in
    if bool_decide (b.2 = after) then None else Some (b.1, after, dev_override d)) baseline.

(** The ONTs among them are announced in any case. *)
Definition ont_ends (s : DB) (baseline : list (string * Status)) : list (string * Status * option Status) :=
  omap (λ b, d ← get_device s b.1;
    if is_ont_device d then Some (b.1, status_of (G := G) s d, dev_override d) else None) baseline.

Definition announce (env : LinkEnv) (tv : Z) (evs : list (string * Status * option Status)) (st : LinkState) : LinkState :=
  foldl (λ st e, publish_change env (end_event e.1.1 e.1.2 e.2 tv) st) st evs.

(** Propagation from the ends, then the events; an exception of the client skips
    the first events only. *)
Definition status_step (env : LinkEnv) (baseline : list (string * Status)) (st : LinkState) : LinkState :=
  let tv := w_topo st.1 in
  let st1 :=
    match baseline with
    | [] => st
    | _ =>
        match propagate_status (G := G) (le_client env) (le_reply env) baseline.*1 true (w_db st.1) with
        | Some (_, s') => announce env tv (moved_ends s' baseline) (with_db s' st.1, st.2)
        | None => st
        end
    end in
  announce env tv (ont_ends (w_db st1.1) baseline) st1.

Definition update_link_impl (env : LinkEnv) (lid : string) (u : LinkUpdate) (st : LinkState)
    : Outcome LinkResolvedOut * LinkState :=
  let s := w_db st.1 in
  match (l ← or_raise (get_link s lid) not_found;
         _ ← check_link_update s l u;
         rows ← or_raise (append_domain_event (le_now env) "LINK_UPDATED" lid
                            [("changed_fields", JList (changed_link_fields u))] None (w_rows st.1))
                  (HttpException 500 "unknown domain event type");
         l' ← or_raise (updated_link l u) ConstraintViolation;
         Ret (l, l', rows)) with
  | Raise e => (Raise e, st)
  | Diverge => (Diverge, st)
  | Ret (l, l', rows) =>
      let baseline := (λ d, (dev_id d, status_of (G := G) s d)) <$> end_devices s l in
      let st := schedule_link lid (commit_change l' rows st) in
      let st := if optical_recompute_needed l u then optical_step env st else st in
      let st := status_step env baseline st in
      (Ret (link_response (w_db st.1) l'), st)
  end.

(** * set_link_override_impl *)

Definition with_link_override (o : option Status) (l : Link) : Link :=
  mkLink (link_id l) (a_interface_id l) (b_interface_id l) (link_status l) (kind l) o (protection_mode l)
    (length_km l) (physical_medium_id l).

(** The evaluated status of every device. *)
Definition full_baseline (s : DB) : gmap string Status :=
  foldl (λ m d, <[dev_id d := status_of (G := G) s d]> m) ∅ (devices s).

Definition link_override_event (l : Link) (eff : Status) (tv : Z) : Event :=
  mkBusEvent "link.override.changed"
    [("id", JStr (link_id l)); ("a_interface_id", JStr (a_interface_id l)); ("b_interface_id", JStr (b_interface_id l));
     ("status", JStr (Status_value (link_status l))); ("effective_status", JStr (Status_value eff));
     ("admin_override_status", override_text (link_override l))] (Some tv).

Definition link_status_event (l : Link) (eff : Status) (tv : Z) : Event :=
  mkBusEvent "link.status.changed"
    [("id", JStr (link_id l)); ("status", JStr (Status_value (link_status l))); ("effective_status", JStr (Status_value eff));
     ("admin_override_status", override_text (link_override l))] (Some tv).

Definition set_link_override_impl (env : LinkEnv) (lid : string) (body : OverrideBody) (st : LinkState)
    : Outcome LinkResolvedOut * LinkState :=
  let s := w_db st.1 in
  match (l ← or_raise (get_link s lid) not_found;
         o ← or_raise (override_value body) (bad_request "Invalid override status");
         rows ← or_raise (append_domain_event (le_now env) "LINK_UPDATED" lid
                            [("field", JStr "admin_override_status"); ("admin_override_status", override_json body)] None
                            (w_rows st.1))
                  (HttpException 500 "unknown domain event type");
         Ret (with_link_override o l, rows)) with
  | Raise e => (Raise e, st)
  | Diverge => (Diverge, st)
  | Ret (l', rows) =>
      let baseline := full_baseline s in
      let st := commit_change l' rows st in
      let tv := w_topo st.1 in
      let eff := evaluate_link_status (w_db st.1) l' in
      let out := link_response (w_db st.1) l' in
      let st := publish_change env (link_status_event l' eff tv) (publish_change env (link_override_event l' eff tv) st) in
      match recompute_devices_status (G := G) (le_max_span env) tv (le_status_go env) None (Some tv) (Some baseline) (rec_of st) with
      | Some (_, r) => (Ret out, after_rec r st)
      | None => (Ret out, st)
      end
  end.
End changes.
