(* ===== verification/LinkBatch.v ===== *)
(** Creating links in a batch: [api/endpoints/links_batch.py].

    All requests are checked against the committed rows first; if one fails,
    nothing is written.  Otherwise they are created one after the other on one
    session, where a failing request does not stop the others, and everything is
    committed at once.  The session is its rows (committed and pending ones), the
    events appended, the allocator, and whether a failed flush has broken it. *)

From stdpp Require Import pretty.
From S2P Require Import Prelude PyFloat Models LinkRules Worklist Adjacency Scenario Catalog LinkStatus.
From S2P Require Import EventStore Errors MacAllocator Splitter LinkPolicy Links.
From S2P Require Import NxGraph Pathfinding Dependency DependencyProofs Status StatusRecompute CausalChain StatusClient.
From S2P Require Import OpticalPath OpticalService Devices LinkChanges.

Record BatchEnv := mkBatchEnv {
  be_env : LinkEnv;
  be_mac : string → DbOutcome;                  (* of the allocator, per interface id *)
  be_md5 : string → Z;
  be_order : list string → list string          (* iteration order of a set of these ids *)
}.

(** * Phase 1: _validate_link_creation *)

Definition batch_pairing (a_dev b_dev : Device) : Outcome unit :=
  _ ← raise_if (is_type a_dev ODF && is_type b_dev ODF)
        (raise_error LINK_INVALID_PAIRING "Direct ODF↔ODF links (cascades) are not supported.");
  _ ← raise_if ((is_type a_dev OLT && in_class b_dev ONT_CLASS) || (is_type b_dev OLT && in_class a_dev ONT_CLASS))
        (raise_error LINK_INVALID_PAIRING "Direct OLT↔ONT links not allowed. Connect via ODF.");
  if is_type a_dev OLT || is_type b_dev OLT then
    let other := if is_type a_dev OLT then b_dev else a_dev in
    raise_if ((in_class other PASSIVE_INLINE || in_class other ONT_CLASS) && negb (is_type other ODF))
      (raise_error LINK_INVALID_UPSTREAM
         (String.append "ODF must connect upstream to OLT PON-port, not " (DeviceType_value (dev_type other))))
  else Ret tt.

(** [if a_dev_id: s.get(Device, a_dev_id)] *)
Definition device_for (s : DB) (iid : string) : option Device := truthy (dev_from_iface_id s iid) ≫= get_device s.

Definition validate_link_creation (s : DB) (p : LinkCreate) : Outcome unit :=
  _ ← raise_if (bool_decide (is_Some (get_link s (lc_id p)))) already_exists;
  _ ← raise_if (String.eqb (lc_a_interface_id p) (lc_b_interface_id p)) (bad_request "Endpoints must differ");
  a_dev ← or_raise (device_for s (lc_a_interface_id p)) (bad_request "Device not found for interface");
  b_dev ← or_raise (device_for s (lc_b_interface_id p)) (bad_request "Device not found for interface");
  _ ← raise_if (is_type a_dev POP || is_type b_dev POP) (raise_error POP_LINK_DISALLOWED "POP container endpoint");
  let cls := classify a_dev b_dev in
  _ ← raise_if (negb (res_allowed cls)) (raise_error INVALID_LINK_TYPE (res_rule_id cls));
  _ ← batch_pairing a_dev b_dev;
  _ ← enforce_ont_placement_rules s a_dev b_dev (lc_a_interface_id p) (lc_b_interface_id p);
  _ ← match lc_physical_medium_id p with
      | Some i => raise_if (bool_decide (get_medium s i = None)) (bad_request "Invalid physical_medium_id")
      | None => Ret tt
      end;
  raise_if (match lc_length_km p with Some x => fltb x fzero | None => false end) (bad_request "length_km must be >= 0").

(** * Phase 2: _create_link_no_recompute *)

Record BatchSession := mkSession {
  bs_db : DB;
  bs_rows : list EventStoreRecord;
  bs_mac : MacState;
  bs_broken : bool
}.

Definition session_db (s : DB) (b : BatchSession) : BatchSession := mkSession s (bs_rows b) (bs_mac b) (bs_broken b).

(** The medium and the rows after the default media were looked for. *)
Definition batch_medium (md5 : string → Z) (p : LinkCreate) (s : DB) (a_dev b_dev : Device) (cls : LinkRuleResult)
    : Outcome (option Z) * DB :=
  let '(selected, s1) :=
    match lc_physical_medium_id p with
    | None => pick_default_physical_medium_id md5 s (lc_id p) a_dev b_dev
    | Some _ => (None, s)
    end in
  (match (match lc_physical_medium_id p with Some i => Some i | None => selected end) with
   | None => Ret None
   | Some i =>
       m ← or_raise (get_medium s1 i) (bad_request "Invalid physical_medium_id");
       let allowed := allowed_media_codes_for_class (res_link_class cls) in
       _ ← raise_if (negb (bool_decide (allowed = [])) && negb (mem (pm_code m) allowed))
             (bad_request ("Physical medium '" +:+ pm_code m +:+ "' not allowed for link class '" +:+ res_link_class cls +:+ "'"));
       Ret (Some i)
   end, s1).

(** What is checked between the interfaces and the medium. *)
Definition check_ends (s : DB) (p : LinkCreate) (a_dev b_dev : Device) (a_if b_if : Interface) : Outcome unit :=
  _ ← raise_if (String.eqb (if_name a_if) "mgmt0" || String.eqb (if_name b_if) "mgmt0")
        (raise_error INVALID_LINK_TYPE "management interface");
  let '(_, _, canonical_id, user_order_id) := canonical_link_id (lc_a_interface_id p) (lc_b_interface_id p) in
  _ ← raise_if (negb (mem (lc_id p) [canonical_id; user_order_id]))
        (bad_request (String.append "Link id not canonical; expected '" (String.append canonical_id "'")));
  _ ← enforce_pon_role_if_declared s a_dev b_dev a_if b_if;
  enforce_single_upstream_rules s a_dev b_dev.

Definition batch_link (md5 : string → Z) (p : LinkCreate) (s : DB) (cls : LinkRuleResult) (pm : option Z) : Link :=
  let '(a_id, b_id, _, _) := canonical_link_id (lc_a_interface_id p) (lc_b_interface_id p) in
  mkLink (lc_id p) a_id b_id (lc_status p) (if String.eqb (res_link_class cls) "routed_p2p" then P2P else FIBER)
    (lc_override p) None
    (match lc_length_km p with
     | Some x => Some x
     | None => i ← truthy_key pm; derive_default_length_km md5 s (lc_id p) i
     end) pm.

(** The last step: the event's query flushes what is pending, which may fail and
    break the session; then the link is pending.  (The queries of the rules may
    find the violation earlier in the same request, which fails either way.) *)
Definition add_batch_link (now : string) (l : Link) (cls : LinkRuleResult) (b : BatchSession) : Outcome unit * BatchSession :=
  if negb (bool_decide (constraints (bs_db b))) then
    (Raise ConstraintViolation, mkSession (bs_db b) (bs_rows b) (bs_mac b) true)
  else
    match append_domain_event now "LINK_CREATED" (link_id l)
            [("a_interface_id", JStr (a_interface_id l)); ("b_interface_id", JStr (b_interface_id l));
             ("kind", JStr (kind_str (kind l))); ("rule_id", JStr (res_rule_id cls))] None (bs_rows b) with
    | None => (Raise (HttpException 500 "unknown domain event type"), b)
    | Some rows => (Ret tt, mkSession (set_links (links (bs_db b) ++ [l]) (bs_db b)) rows (bs_mac b) (bs_broken b))
    end.

(** The link, its class and the devices of the two requested ends. *)
Definition create_link_no_recompute (env : BatchEnv) (p : LinkCreate) (b : BatchSession)
    : Outcome (Link * LinkRuleResult * string * string) * BatchSession :=
  let s := bs_db b in
  if bs_broken b then (Raise ConstraintViolation, b)
  else
    match device_for s (lc_a_interface_id p), device_for s (lc_b_interface_id p) with
    | Some a_dev, Some b_dev =>
        let cls := classify a_dev b_dev in
        match (ia ← ensure_default_interface (be_mac env (lc_a_interface_id p)) (lc_a_interface_id p) (s, [], bs_mac b);
               ib ← ensure_default_interface (be_mac env (lc_b_interface_id p)) (lc_b_interface_id p) ia.2;
               Ret (ia.1, ib.1, ib.2)) with
        | Raise e => (Raise e, b)
        | Diverge => (Diverge, b)
        | Ret (oa, ob, (s, _, m)) =>
            let b := mkSession s (bs_rows b) m false in
            match oa, ob with
            | Some a_if, Some b_if =>
                match check_ends s p a_dev b_dev a_if b_if with
                | Raise e => (Raise e, b)
                | Diverge => (Diverge, b)
                | Ret _ =>
                    let '(r, s) := batch_medium (be_md5 env) p s a_dev b_dev cls in
                    let b := session_db s b in
                    match r with
                    | Raise e => (Raise e, b)
                    | Diverge => (Diverge, b)
                    | Ret pm =>
                        let l := batch_link (be_md5 env) p s cls pm in
                        let '(r, b) := add_batch_link (le_now (be_env env)) l cls b in
                        (match r with
                         | Ret _ => Ret (l, cls, if_device_id a_if, if_device_id b_if)
                         | Raise e => Raise e
                         | Diverge => Diverge
                         end, b)
                    end
                end
            | _, _ => (Raise (bad_request "Interface creation failed"), b)
            end
        end
    | _, _ => (Raise (bad_request "Device not found"), b)
    end.

(** * batch_create_links *)

Record BatchOut := mkBatchOut { bo_created : list LinkResolvedOut; bo_failed : list (string * HttpError) }.

(** The effective status is evaluated in another session, on the committed rows. *)
Definition batch_response (committed : DB) (l : Link) (cls : LinkRuleResult) (a_dev_id b_dev_id : string) : LinkResolvedOut :=
  mkOut (link_id l) (a_interface_id l) (b_interface_id l) a_dev_id b_dev_id (link_status l)
    (evaluate_link_status committed l) (kind l) (link_override l) (length_km l) (physical_medium_id l) (Some (res_rule_id cls)).

(** The loop of phase 2; [None] when an allocation does not end. *)
Fixpoint create_all (env : BatchEnv) (committed : DB) (ps : list LinkCreate) (b : BatchSession) : option (BatchOut * BatchSession) :=
  match ps with
  | [] => Some (mkBatchOut [] [], b)
  | p :: ps' =>
      let '(r, b1) := create_link_no_recompute env p b in
      match r with
      | Diverge => None
      | Ret (l, cls, a_dev_id, b_dev_id) =>
          '(o, b2) ← create_all env committed ps' b1;
          Some (mkBatchOut (batch_response committed l cls a_dev_id b_dev_id :: bo_created o) (bo_failed o), b2)
      | Raise e =>
          '(o, b2) ← create_all env committed ps' b1;
          Some (mkBatchOut (bo_created o) ((lc_id p, e) :: bo_failed o), b2)
      end
  end.

Fixpoint validate_all (s : DB) (ps : list LinkCreate) : option (list (string * HttpError)) :=
  match ps with
  | [] => Some []
  | p :: ps' =>
      match validate_link_creation s p with
      | Diverge => None
      | Ret _ => validate_all s ps'
      | Raise e => failed ← validate_all s ps'; Some ((lc_id p, e) :: failed)
      end
  end.

Definition MAX_BATCH : nat := 1000.

Section batch.
Context {G : Type} `{NxGraph G} `{Dijkstra G}.

(** Phase 3, after the commit: one bump, one pass over the budgets, the
    recomputations, one event. *)
Definition after_batch (env : BatchEnv) (ids : list string) (count : nat) (st : LinkState (G := G)) : LinkState (G := G) :=
  let w := st.1 in
  let sv := st.2 in
  let st1 : LinkState (G := G) :=
    (mkWorld (w_db w) (w_mac w) (w_rows w) (w_history w) (w_topo w + 1)%Z (w_requests w),
     mkServices (sv_cache sv) (sv_prop sv) (sv_diag sv) (sv_events sv) (sv_client sv) (bump_version_optical (sv_memo sv)).2) in
  let st2 := foldl (λ st k, schedule_link k st) (optical_step (be_env env) st1) ids in
  publish_change (be_env env)
    (mkBusEvent "links.batch.created" [("link_ids", JList ids); ("count", JInt (Z.of_nat count))] (Some (w_topo st1.1))) st2.

Definition batch_create_links (env : BatchEnv) (ps : list LinkCreate) (st : LinkState (G := G))
    : Outcome BatchOut * LinkState (G := G) :=
  let w := st.1 in
  let s := w_db w in
  if bool_decide (ps = []) then (Raise (bad_request "No links provided"), st)
  else if (MAX_BATCH <? length ps)%nat then (Raise (bad_request "Batch size limited to 1000 links (provided: {len(payload.links)})"), st)
  else
    match validate_all s ps with
    | None => (Diverge, st)
    | Some ((_ :: _) as failed) => (Ret (mkBatchOut [] failed), st)
    | Some [] =>
        match create_all env s ps (mkSession s (w_rows w) (w_mac w) false) with
        | None => (Diverge, st)
        | Some (o, b) =>
            let closed : LinkState (G := G) := (with_mac (bs_mac b) w, st.2) in
            if bool_decide (bo_created o = []) then (Ret o, closed)
            else if bs_broken b || negb (bool_decide (constraints (bs_db b))) then
              (Raise (HttpException 500 "Batch create error"), closed)
            else
              let w' := mkWorld (bs_db b) (bs_mac b) (bs_rows b) (w_history w) (w_topo w) (w_requests w) in
              let ids := be_order env (remove_dups (out_id <$> bo_created o)) in
              (Ret o, after_batch env ids (length (bo_created o)) (w', st.2))
        end
    end.
End batch.
