(* ===== verification/SubscriberModel.v ===== *)
(** Subscriber aggregation: [services/subscriber_model.py].

    Every provisioned ONT is attached to the first OLT PON port a breadth-first
    search over cables and passive devices reaches; a provisioned CPE to the
    first AON switch at the other end of one of its own cables, and a switch
    port counts one CPE.  The model is rebuilt from the tables on each request.
    Dictionaries of dictionaries are maps of maps; the constant [source] fields
    are left out. *)

From S2P Require Import Prelude PyFloat Models Worklist.

Definition ONT_TYPES : list DeviceType := [ONT; BUSINESS_ONT].
Definition CPE_TYPES : list DeviceType := [AON_CPE].
Definition PASSIVE_TYPES : list DeviceType := [ODF; NVT; SPLITTER; HOP].
Definition PON_DEFAULT_CAPACITY : Z := 128.

Inductive Domain := DOM_OLT | DOM_AON.

#[export] Instance Domain_eq_dec : EqDecision Domain.
Proof. solve_decision. Defined.

(** * The topology as the model reads it *)

Section topology.
Context (s : DB).

Definition iface_leb (i j : Interface) : bool :=
  strs_leb [if_device_id i; if_name i; if_id i] [if_device_id j; if_name j; if_id j].

Definition interfaces_by_device (d : string) : list Interface :=
  filter (λ i, if_device_id i = d) (sort_by iface_leb (interfaces s)).

Definition link_neighbors (k : string) : gset string :=
  list_to_set (mjoin ((λ l,
    if nonempty (a_interface_id l) && nonempty (b_interface_id l) then
      (if String.eqb (a_interface_id l) k then [b_interface_id l] else []) ++
      (if String.eqb (b_interface_id l) k then [a_interface_id l] else [])
    else []) <$> links s)).

(** The device an interface id leads to. *)
Definition owner_of (k : string) : option (Interface * Device) :=
  i ← get_interface s k; d ← get_device s (if_device_id i); Some (i, d).

Definition sibling_ids (i : Interface) : list string :=
  match get_device s (if_device_id i) with
  | None => []
  | Some d =>
      if mem (dev_type d) (PASSIVE_TYPES ++ ONT_TYPES ++ CPE_TYPES)
      then filter (λ k, k ≠ if_id i) (if_id <$> interfaces_by_device (if_device_id i))
      else []
  end.

(** The AON branch is never taken: CPEs use [trace_direct_aon_anchor]. *)
Definition anchor_here (domain : Domain) (k : string) : option (string * string * string) :=
  match owner_of k with
  | None => None
  | Some (i, d) =>
      match domain with
      | DOM_OLT =>
          if bool_decide (dev_type d = OLT) && bool_decide (port_role i = Some PON)
          then Some (dev_id d, if_id i, "first_reachable_olt_pon") else None
      | DOM_AON =>
          if bool_decide (dev_type d = AON_SWITCH) then Some (dev_id d, if_id i, "first_reachable_aon_switch") else None
      end
  end.

Definition next_ids (k : string) : list string :=
  match owner_of k with
  | None => []
  | Some (i, _) => sorted_strs (elements (link_neighbors k)) ++ sibling_ids i
  end.

Definition known_ids : gset string :=
  list_to_set ((if_id <$> interfaces s) ++ (a_interface_id <$> links s) ++ (b_interface_id <$> links s)).

Definition trace_anchor (start_device : Device) (domain : Domain) : option (string * string * string) :=
  let seeds := if_id <$> interfaces_by_device (dev_id start_device) in
  match search append_one (λ _, true) (anchor_here domain) next_ids (search_fuel known_ids seeds) (list_to_set seeds) seeds with
  | Some (inl anchor) => Some anchor
  | _ => None
  end.

Definition trace_direct_aon_anchor (start_device : Device) : option (string * string * string) :=
  head (omap (λ k,
    '(peer_iface, peer_device) ← owner_of k;
    if bool_decide (dev_type peer_device = AON_SWITCH)
    then Some (dev_id peer_device, if_id peer_iface, "direct_l4_cpe_access_port") else None)
    (mjoin ((λ i, sorted_strs (elements (link_neighbors (if_id i)))) <$> interfaces_by_device (dev_id start_device)))).
End topology.

(** * The model *)

Record Node := mkNode {
  node_type : DeviceType; subscribers : Z; subscriber_ids : list string; subscriber_domain : option Domain
}.

Record MappingDecision := mkDecision {
  dec_subscriber : string; dec_type : DeviceType; counted : option bool; dec_domain : option Domain;
  anchor_device : option string; anchor_interface : option string; reason : string
}.

Record ModelState := mkModelState {
  per_node : gmap string Node;
  pon_occupancy : gmap string (gmap string Z);
  aon_port_candidates : gmap string (gmap string (list string));
  aon_access_occupancy : gmap string (gmap string Z);
  mapping_decisions : list MappingDecision
}.

Definition with_nodes (f : gmap string Node → gmap string Node) (st : ModelState) : ModelState :=
  mkModelState (f (per_node st)) (pon_occupancy st) (aon_port_candidates st) (aon_access_occupancy st) (mapping_decisions st).
Definition with_pon (f : gmap string (gmap string Z) → gmap string (gmap string Z)) (st : ModelState) : ModelState :=
  mkModelState (per_node st) (f (pon_occupancy st)) (aon_port_candidates st) (aon_access_occupancy st) (mapping_decisions st).
Definition with_candidates (f : gmap string (gmap string (list string)) → gmap string (gmap string (list string)))
    (st : ModelState) : ModelState :=
  mkModelState (per_node st) (pon_occupancy st) (f (aon_port_candidates st)) (aon_access_occupancy st) (mapping_decisions st).
Definition with_access (f : gmap string (gmap string Z) → gmap string (gmap string Z)) (st : ModelState) : ModelState :=
  mkModelState (per_node st) (pon_occupancy st) (aon_port_candidates st) (f (aon_access_occupancy st)) (mapping_decisions st).
Definition with_decisions (f : list MappingDecision → list MappingDecision) (st : ModelState) : ModelState :=
  mkModelState (per_node st) (pon_occupancy st) (aon_port_candidates st) (aon_access_occupancy st) (f (mapping_decisions st)).

(** [d[j][k] = f(d[j].get(k, x0))] on a dictionary of dictionaries. *)
Definition update2 {V} (j k : string) (x0 : V) (f : V → V) (m : gmap string (gmap string V)) : gmap string (gmap string V) :=
  let row := default ∅ (m !! j) in <[j := <[k := f (default x0 (row !! k))]> row]> m.

Definition initial_node (d : Device) : Node := mkNode (dev_type d) 0 [] None.

Definition initial_model (s : DB) : ModelState :=
  mkModelState (foldl (λ m d, <[dev_id d := initial_node d]> m) ∅ (devices s)) ∅ ∅ ∅ [].

(** A subscriber joins an anchor; [subscribers] follows the list. *)
Definition join_ids_of (k : string) (ids : list string) : list string :=
  if mem k ids then ids else sorted_strs (ids ++ [k]).

Definition attach (k : string) (dom : Domain) (n : Node) : Node :=
  if mem k (subscriber_ids n) then n
  else let ids := join_ids_of k (subscriber_ids n) in mkNode (node_type n) (Z.of_nat (length ids)) ids (Some dom).

Definition leaf_node (d : Device) (dom : Domain) (n : Node) : Node := mkNode (node_type n) 1 [dev_id d] (Some dom).

Definition is_leaf (d : Device) : bool := mem (dev_type d) (ONT_TYPES ++ CPE_TYPES).

Definition leaf_domain (d : Device) : Domain := if mem (dev_type d) ONT_TYPES then DOM_OLT else DOM_AON.

(** One device of the loop. *)
Definition leaf_step (s : DB) (st : ModelState) (d : Device) : ModelState :=
  let decide_it c dom a := with_decisions (λ ds, ds ++ [mkDecision (dev_id d) (dev_type d) c dom (fst <$> a.1) (snd <$> a.1) a.2]) in
  if negb (is_leaf d) then st
  else if negb (provisioned d) then decide_it (Some false) None (None, "not_provisioned") st
  else
    let dom := leaf_domain d in
    let st := with_nodes (alter (leaf_node d dom) (dev_id d)) st in
    match dom with
    | DOM_AON =>
        match trace_direct_aon_anchor s d with
        | None => decide_it (Some false) (Some dom) (None, "no_direct_aon_access_port") st
        | Some (anchor_id, interface_id, why) =>
            let st := if nonempty interface_id
                      then with_candidates (update2 anchor_id interface_id [] (λ ks, ks ++ [dev_id d])) st else st in
            decide_it None (Some dom) (Some (anchor_id, interface_id), why) st
        end
    | DOM_OLT =>
        match trace_anchor s d dom with
        | None => decide_it (Some false) (Some dom) (None, "no_reachable_anchor") st
        | Some (anchor_id, interface_id, why) =>
            let st := with_nodes (alter (attach (dev_id d) dom) anchor_id) st in
            let st := if nonempty interface_id then with_pon (update2 anchor_id interface_id 0%Z (Z.add 1)) st else st in
            decide_it (Some true) (Some dom) (Some (anchor_id, interface_id), why) st
        end
    end.

(** The verdict on the decisions of one switch port. *)
Definition settle (port counted_id : string) (cpes : list string) (e : MappingDecision) : MappingDecision :=
  if bool_decide (dec_domain e = Some DOM_AON) && bool_decide (anchor_interface e = Some port) then
    if String.eqb (dec_subscriber e) counted_id then
      mkDecision (dec_subscriber e) (dec_type e) (Some true) (dec_domain e) (anchor_device e) (anchor_interface e)
        "direct_l4_cpe_access_port_1_to_1"
    else if mem (dec_subscriber e) cpes then
      mkDecision (dec_subscriber e) (dec_type e) (Some false) (dec_domain e) (anchor_device e) (anchor_interface e)
        "aon_access_port_oversubscribed_1_to_1"
    else e
  else e.

(** A port whose list is empty cannot occur: a candidate is in it when it is made. *)
Definition port_step (anchor_id : string) (st : ModelState) (port : string * list string) : ModelState :=
  let cpes := sorted_strs port.2 in
  match cpes with
  | [] => st
  | counted_id :: _ =>
      let st := with_nodes (alter (λ n, mkNode (node_type n) (subscribers n) (join_ids_of counted_id (subscriber_ids n)) (Some DOM_AON)) anchor_id) st in
      let st := with_access (update2 anchor_id port.1 0%Z (λ _, 1%Z)) st in
      with_decisions (fmap (settle port.1 counted_id cpes)) st
  end.

(** [sorted(d.items())] *)
Definition sorted_items {V} (m : gmap string V) : list (string * V) :=
  omap (λ k, v ← m !! k; Some (k, v)) (sorted_strs (elements (dom m))).

Definition recount (n : Node) : Node :=
  mkNode (node_type n) (Z.of_nat (length (subscriber_ids n))) (subscriber_ids n) (subscriber_domain n).

Definition anchor_step (st : ModelState) (a : string * gmap string (list string)) : ModelState :=
  with_nodes (alter recount a.1) (foldl (port_step a.1) st (sorted_items a.2)).

Definition by_id (d1 d2 : Device) : bool := str_leb (dev_id d1) (dev_id d2).

Definition resolved_state (s : DB) : ModelState :=
  let st := foldl (leaf_step s) (initial_model s) (sort_by by_id (devices s)) in
  foldl anchor_step st (sorted_items (aon_port_candidates st)).

(** [sum(node["subscribers"] for node in per_node.values() if ...)]; the
    dictionary lists the devices in table order. *)
Definition domain_total (s : DB) (st : ModelState) (dom : Domain) (t : DeviceType) : Z :=
  foldr (λ d acc, match per_node st !! dev_id d with
                  | Some n => if bool_decide (subscriber_domain n = Some dom) && bool_decide (node_type n = t)
                              then subscribers n + acc else acc
                  | None => acc
                  end)%Z 0%Z (devices s).

(** [Counter] over a property of the devices. *)
Definition type_count (p : Device → bool) (s : DB) (t : DeviceType) : Z :=
  Z.of_nat (length (filter (λ d, dev_type d = t ∧ p d = true) (devices s))).

Record GlobalCounts := mkGlobal {
  total : Z; provisioned_total : Z; provisioned_olt_domain : Z; provisioned_aon_domain : Z;
  olt_domain : Z; aon_domain : Z
}.

Record PortState := mkPortState { port_count : Z; max_capacity : Z; utilization : float }.

Record SubscriberModel := mkModel {
  raw_by_type : DeviceType → Z;
  provisioned_by_type : DeviceType → Z;
  global : GlobalCounts;
  resolved : ModelState
}.

Definition pon_state (n : Z) : PortState := mkPortState n PON_DEFAULT_CAPACITY (fdiv (of_Z n) (of_Z PON_DEFAULT_CAPACITY)).
Definition access_state (n : Z) : PortState := mkPortState n 1 (of_Z n).

Definition resolve_subscriber_model (s : DB) : SubscriberModel :=
  let st := resolved_state s in
  let prov := type_count provisioned s in
  let olt := domain_total s st DOM_OLT OLT in
  let aon := domain_total s st DOM_AON AON_SWITCH in
  mkModel (type_count (λ _, true) s) prov
    (mkGlobal (olt + aon) (prov ONT + prov BUSINESS_ONT + prov AON_CPE) (prov ONT + prov BUSINESS_ONT) (prov AON_CPE) olt aon)
    st.

(** * The accessors *)

Definition subscriber_parameters (m : SubscriberModel) (k : string) : Z * option Domain * list string :=
  match per_node (resolved m) !! k with
  | Some n => (subscribers n, subscriber_domain n, subscriber_ids n)
  | None => (0%Z, None, [])
  end.

Definition pon_occupancy_for (m : SubscriberModel) (k : string) : gmap string Z := default ∅ (pon_occupancy (resolved m) !! k).
Definition aon_access_occupancy_for (m : SubscriberModel) (k : string) : gmap string Z :=
  default ∅ (aon_access_occupancy (resolved m) !! k).
Definition pon_port_state_for (m : SubscriberModel) (k : string) : gmap string PortState := pon_state <$> pon_occupancy_for m k.
Definition aon_access_port_state_for (m : SubscriberModel) (k : string) : gmap string PortState :=
  access_state <$> aon_access_occupancy_for m k.
