(* ===== verification/SimulationEvents.v ===== *)
(** The simulation event log and its replay:
    [services/simulation_event_engine.py].

    A log is derived from the tables: one event per device, port and link, then
    the subscriber decisions.  Replaying a log folds it into projections.  A
    payload is a dictionary; [None] is a failing lookup, or a key that is not
    a string, which no log built here has. *)

From S2P Require Import Prelude PyFloat Models EventStore Worklist SubscriberModel.

Definition SIMULATION_EVENT_TYPES : list string :=
  ["DEVICE_CREATED"; "PORT_CONNECTED"; "DEVICE_LINKED"; "CPE_PROVISIONED"; "ONT_ASSIGNED"; "SERVICE_BOUND"].

Record SimulationEvent := mkSim { sim_sequence : Z; sim_type : string; sim_payload : Payload; sim_source : string }.

(** [None]: the ValueError of an unsupported type. *)
Definition sim_event (n : Z) (t : string) (data : Payload) : option SimulationEvent :=
  if mem t SIMULATION_EVENT_TYPES then Some (mkSim n t data "CANONICAL_DB_SNAPSHOT") else None.

(** * build_simulation_event_log *)

Definition Domain_value (d : Domain) : string := match d with DOM_OLT => "OLT" | DOM_AON => "AON" end.

Definition device_payload (d : Device) : Payload :=
  [("device_id", JStr (dev_id d)); ("device_type", JStr (DeviceType_value (dev_type d)));
   ("status", JStr (Status_value (dev_status d))); ("provisioned", JBool (provisioned d))].

Definition port_payload (i : Interface) : Payload :=
  [("port_id", JStr (if_id i)); ("device_id", JStr (if_device_id i)); ("name", JStr (if_name i));
   ("port_role", opt_json (λ r, JStr (PortRole_value r)) (port_role i)); ("capacity", opt_json JInt (if_capacity i))].

Definition link_payload (s : DB) (l : Link) : Payload :=
  [("link_id", JStr (link_id l)); ("a_interface_id", JStr (a_interface_id l)); ("b_interface_id", JStr (b_interface_id l));
   ("a_device_id", opt_json (λ i, JStr (if_device_id i)) (get_interface s (a_interface_id l)));
   ("b_device_id", opt_json (λ i, JStr (if_device_id i)) (get_interface s (b_interface_id l)));
   ("kind", JStr (LinkType_value (kind l))); ("status", JStr (Status_value (link_status l)))].

Definition subscriber_payload (e : MappingDecision) : Payload :=
  [("subscriber_id", JStr (dec_subscriber e)); ("subscriber_type", JStr (DeviceType_value (dec_type e)));
   ("anchor_device_id", opt_json JStr (anchor_device e)); ("anchor_interface_id", opt_json JStr (anchor_interface e));
   ("counted", opt_json JBool (counted e)); ("reason", JStr (reason e))].

(** [n] is the sequence of the event before. *)
Definition binding_payload (e : MappingDecision) (n : Z) : Payload :=
  [("subscriber_id", JStr (dec_subscriber e)); ("subscriber_type", JStr (DeviceType_value (dec_type e)));
   ("domain", opt_json (λ d, JStr (Domain_value d)) (dec_domain e));
   ("anchor_device_id", opt_json JStr (anchor_device e)); ("anchor_interface_id", opt_json JStr (anchor_interface e));
   ("source_event_sequence", JInt n)].

(** [append]: the next sequence is the number of events so far. *)
Definition append_sim (t : string) (data : Z → Payload) (evs : list SimulationEvent) : option (list SimulationEvent) :=
  let n := Z.of_nat (length evs) in
  e ← sim_event n t (data n); Some (evs ++ [e]).

Definition append_decision (evs : list SimulationEvent) (e : MappingDecision) : option (list SimulationEvent) :=
  evs ← (if mem (dec_type e) CPE_TYPES then append_sim "CPE_PROVISIONED" (λ _, subscriber_payload e) evs
         else if mem (dec_type e) ONT_TYPES then append_sim "ONT_ASSIGNED" (λ _, subscriber_payload e) evs
         else Some evs);
  if bool_decide (counted e = Some true) then append_sim "SERVICE_BOUND" (λ n, binding_payload e (n - 1)) evs else Some evs.

Definition fold_log {A} (f : list SimulationEvent → A → option (list SimulationEvent)) (l : list A)
    (evs : list SimulationEvent) : option (list SimulationEvent) :=
  foldl (λ acc x, acc ≫= λ evs, f evs x) (Some evs) l.

Definition build_simulation_event_log (s : DB) : option (list SimulationEvent) :=
  evs ← fold_log (λ evs d, append_sim "DEVICE_CREATED" (λ _, device_payload d) evs) (sort_by by_id (devices s)) [];
  evs ← fold_log (λ evs i, append_sim "PORT_CONNECTED" (λ _, port_payload i) evs) (sort_by iface_leb (interfaces s)) evs;
  evs ← fold_log (λ evs l, append_sim "DEVICE_LINKED" (λ _, link_payload s l) evs)
          (sort_by (λ l k, str_leb (link_id l) (link_id k)) (links s)) evs;
  fold_log append_decision
    (sort_by (λ e f, str_leb (dec_subscriber e) (dec_subscriber f)) (mapping_decisions (resolved (resolve_subscriber_model s)))) evs.

(** * replay_simulation_events *)

Record Projection := mkProjection {
  pj_devices : list (string * Payload);
  pj_ports : list (string * Payload);
  pj_links : list (string * Payload);
  ont_assignments : list (string * Payload);
  cpe_provisioning : list (string * Payload);
  service_bindings : list Payload;
  oversubscriptions : list Payload;
  device_counts : gmap string Z;
  olt_subscribers : gmap string Z;
  aon_subscribers : gmap string Z;
  pon_counts : gmap string Z;              (* effective_count of pon_ports *)
  traces : gmap string (list Z)
}.

Definition empty_projection : Projection := mkProjection [] [] [] [] [] [] [] ∅ ∅ ∅ ∅ ∅.

(** [payload[k]] on a string. *)
Definition text (data : Payload) (k : string) : option string :=
  match dict_get data k with Some (JStr t) => Some t | _ => None end.

(** [payload.get(k)], where it is a string that is true. *)
Definition truthy_text (data : Payload) (k : string) : option string := truthy (text data k).

Definition incr (k : string) (m : gmap string Z) : gmap string Z := <[k := (default 0 (m !! k) + 1)%Z]> m.

Definition trace (k : string) (n : Z) (m : gmap string (list Z)) : gmap string (list Z) :=
  <[k := default [] (m !! k) ++ [n]]> m.

Definition trace_all (ks : list string) (n : Z) (p : Projection) : Projection :=
  mkProjection (pj_devices p) (pj_ports p) (pj_links p) (ont_assignments p) (cpe_provisioning p) (service_bindings p)
    (oversubscriptions p) (device_counts p) (olt_subscribers p) (aon_subscribers p) (pon_counts p)
    (foldl (λ m k, trace k n m) (traces p) ks).

(** The branches; [None] is a failing lookup. *)
Definition on_device (data : Payload) (p : Projection) : option (Projection * list string) :=
  k ← text data "device_id";
  Some (mkProjection (dict_set k data (pj_devices p)) (pj_ports p) (pj_links p) (ont_assignments p) (cpe_provisioning p)
          (service_bindings p) (oversubscriptions p) (incr (default "UNKNOWN" (truthy_text data "device_type")) (device_counts p))
          (olt_subscribers p) (aon_subscribers p) (pon_counts p) (traces p), [k]).

Definition on_port (data : Payload) (p : Projection) : option (Projection * list string) :=
  k ← text data "port_id"; d ← text data "device_id";
  Some (mkProjection (pj_devices p) (dict_set k data (pj_ports p)) (pj_links p) (ont_assignments p) (cpe_provisioning p)
          (service_bindings p) (oversubscriptions p) (device_counts p) (olt_subscribers p) (aon_subscribers p) (pon_counts p)
          (traces p), [d]).

Definition on_link (data : Payload) (p : Projection) : option (Projection * list string) :=
  k ← text data "link_id";
  Some (mkProjection (pj_devices p) (pj_ports p) (dict_set k data (pj_links p)) (ont_assignments p) (cpe_provisioning p)
          (service_bindings p) (oversubscriptions p) (device_counts p) (olt_subscribers p) (aon_subscribers p) (pon_counts p)
          (traces p), omap (truthy_text data) ["a_device_id"; "b_device_id"]).

Definition on_ont (data : Payload) (p : Projection) : option (Projection * list string) :=
  k ← text data "subscriber_id";
  Some (mkProjection (pj_devices p) (pj_ports p) (pj_links p) (dict_set k data (ont_assignments p)) (cpe_provisioning p)
          (service_bindings p) (oversubscriptions p) (device_counts p) (olt_subscribers p) (aon_subscribers p) (pon_counts p)
          (traces p), [k]).

Definition on_cpe (data : Payload) (p : Projection) : option (Projection * list string) :=
  k ← text data "subscriber_id";
  let over := match dict_get data "counted" with Some (JBool false) => [data] | _ => [] end in
  Some (mkProjection (pj_devices p) (pj_ports p) (pj_links p) (ont_assignments p) (dict_set k data (cpe_provisioning p))
          (service_bindings p) (oversubscriptions p ++ over) (device_counts p) (olt_subscribers p) (aon_subscribers p)
          (pon_counts p) (traces p), [k]).

Definition on_binding (data : Payload) (p : Projection) : option (Projection * list string) :=
  let put olt aon pon :=
    mkProjection (pj_devices p) (pj_ports p) (pj_links p) (ont_assignments p) (cpe_provisioning p)
      (service_bindings p ++ [data]) (oversubscriptions p) (device_counts p) olt aon pon (traces p) in
  let domain := text data "domain" in
  p' ← (if bool_decide (domain = Some "OLT") then
          a ← text data "anchor_device_id"; i ← text data "anchor_interface_id";
          Some (put (incr a (olt_subscribers p)) (aon_subscribers p) (incr i (pon_counts p)))
        else if bool_decide (domain = Some "AON") then
          a ← text data "anchor_device_id"; Some (put (olt_subscribers p) (incr a (aon_subscribers p)) (pon_counts p))
        else Some (put (olt_subscribers p) (aon_subscribers p) (pon_counts p)));
  k ← text data "subscriber_id";
  Some (p', k :: option_list (truthy_text data "anchor_device_id")).

Definition branch (t : string) : option (Payload → Projection → option (Projection * list string)) :=
  dict_get [("DEVICE_CREATED", on_device); ("PORT_CONNECTED", on_port); ("DEVICE_LINKED", on_link);
            ("ONT_ASSIGNED", on_ont); ("CPE_PROVISIONED", on_cpe); ("SERVICE_BOUND", on_binding)] t.

Definition replay_step (p : Projection) (e : SimulationEvent) : option Projection :=
  match branch (sim_type e) with
  | None => Some p
  | Some f => '(p', ks) ← f (sim_payload e) p; Some (trace_all ks (sim_sequence e) p')
  end.

Definition replay_from (p : Projection) (evs : list SimulationEvent) : option Projection :=
  foldl (λ acc e, acc ≫= λ p, replay_step p e) (Some p) evs.

Record Replay := mkReplay { projection : Projection; event_count : nat; last_sim_sequence : option Z }.

Definition effective_subscriber_count (r : Replay) : nat := length (service_bindings (projection r)).

Definition replay_simulation_events (evs : list SimulationEvent) : option Replay :=
  p ← replay_from empty_projection evs; Some (mkReplay p (length evs) (sim_sequence <$> last evs)).
