(* ===== verification/EventStoreHealth.v ===== *)
(** Health of the event store: [services/event_store_health.py], the switch and
    write guard of [services/event_store_runtime.py] and [db.py], and the replay
    window of [api/endpoints/debug.py].

    A report first copies the log of the current topology into the store, once.
    Static tables of the report (covered paths, Go services) are left out; so are
    the branches that compare two of these constants. *)

From S2P Require Import Prelude PyFloat Models EventStore SubscriberModel SimulationEvents.

(** * event_store_runtime and the guard *)

(** The value of UNOC_EVENTSTORE_ENFORCE, if it is set. *)
Definition event_store_enforcement_enabled (env : option string) : bool :=
  mem (lower (strip (default "1" env))) ["1"; "true"; "yes"; "on"].

Definition _EVENT_STORE_GUARDED_MODELS : list string := ["Device"; "Interface"; "Link"; "ProvisioningRecord"].

(** What the guard refuses to flush: [changed] are the class names of the new,
    dirty and deleted objects of the session. *)
Definition _event_store_write_guard (env : option string) (allowed : bool) (changed : list string) : list string :=
  if negb (event_store_enforcement_enabled env) || allowed then []
  else sorted_strs (elements (list_to_set (C := gset string) (filter (λ c, c ∈ _EVENT_STORE_GUARDED_MODELS) changed))).

(** [projection_write_context]: the body runs with the flag set, and the flag is
    put back, whether the body returns or raises. *)
Definition projection_write_context {A} (body : bool → A * bool) (flag : bool) : A * bool := ((body true).1, flag).

(** * The backfill *)

Definition BACKFILL_SOURCE : string := "BACKFILL_DB_SNAPSHOT".

Definition backfilled (rows : list EventStoreRecord) : bool := existsb (λ r, String.eqb (source r) BACKFILL_SOURCE) rows.

(** [clock n] is the time of the [n]-th append; each append commits. *)
Definition ensure_backfilled_event_store (clock : nat → string) (s : DB) (rows : list EventStoreRecord)
    : option (nat * list EventStoreRecord) :=
  if backfilled rows then Some (0, rows)
  else
    evs ← build_simulation_event_log s;
    Some (foldl (λ st e, (S st.1, append_event (clock st.1) (sim_type e) (sim_payload e) BACKFILL_SOURCE None st.2)) (0, rows) evs).

Definition records_to_simulation_events (records : list EventStoreRecord) : list SimulationEvent :=
  foldl (λ evs r,
    if negb (String.eqb (source r) BACKFILL_SOURCE) then evs
    else if negb (mem (event_type r) SIMULATION_EVENT_TYPES) then evs
    else evs ++ [mkSim (Z.of_nat (length evs)) (event_type r) (payload r) (source r)]) [] records.

(** * build_event_store_health *)

Definition PYTHON_AUTHORITATIVE : string := "authoritative_for_python_guarded_paths_go_not_guarded_but_no_guarded_go_writes".
Definition PARTIALLY_ENFORCED_WITH_BLOCKERS : string := "partially_enforced_with_blockers".
Definition MIGRATION_INCOMPLETE : string := "migration_incomplete".

Record Health := mkHealth {
  h_total_events : nat;
  h_last_event_timestamp : option string;
  h_last_sequence : option Z;
  enforcement_enabled : bool;
  projection_lag : Z;
  write_path_events_recorded : nat;
  legacy_runtime_events_recorded : nat;
  consistency_status : string;
  events_added_this_call : nat;
  backfilled_events_total : nat;
  enforcement_ready : bool;
  projection_summary : Replay
}.

Definition of_source (t : string) (records : list EventStoreRecord) : nat :=
  length (filter (λ r, source r = t) records).

Definition consistency_of (lag : Z) (enforced : bool) : string :=
  if negb (lag =? 0)%Z then PARTIALLY_ENFORCED_WITH_BLOCKERS
  else if negb enforced then MIGRATION_INCOMPLETE else PYTHON_AUTHORITATIVE.

(** [None]: building or replaying the log failed. *)
Definition build_event_store_health (env : option string) (clock : nat → string) (s : DB) (rows : list EventStoreRecord)
    : option (Health * list EventStoreRecord) :=
  '(added, rows) ← ensure_backfilled_event_store clock s rows;
  let snapshot := event_store_snapshot rows in
  let records := sort_by sequence_leb rows in
  let replayable_events := records_to_simulation_events records in
  projections ← replay_simulation_events replayable_events;
  let lag := (Z.of_nat (length replayable_events) - Z.of_nat (event_count projections))%Z in
  let enforced := event_store_enforcement_enabled env in
  Some (mkHealth (total_events snapshot) (last_event_timestamp snapshot) (last_sequence snapshot) enforced lag
          (of_source "WRITE_PATH" records) (of_source "RUNTIME_EVENT_BUS" records) (consistency_of lag enforced)
          added (of_source BACKFILL_SOURCE records) (enforced && (lag =? 0)%Z) projections, rows).

(** * The replay window *)

Record ReplayWindow := mkWindow { window_to : option Z; window_events : list SimulationEvent; window_projections : Replay }.

(** The endpoint rejects negative indices. *)
Definition get_replay (s : DB) (from_index : nat) (to : option nat) : option ReplayWindow :=
  events ← build_simulation_event_log s;
  let end_ := match to with None => length events | Some t => min (t + 1) (length events) end in
  let replay_window := drop from_index (take end_ events) in
  projections ← replay_simulation_events replay_window;
  Some (mkWindow (match replay_window with [] => None | _ => Some (Z.of_nat end_ - 1)%Z end) replay_window projections).
