(* ===== verification/CountSemantics.v ===== *)
(** Physical, provisioned and effective counts: [services/count_semantics.py],
    and the conflicts between them: [services/truth_model.py].

    Device and port types are compared by their values, which are upper case;
    constant descriptive fields of the reports are left out. *)

From S2P Require Import Prelude PyFloat Models Worklist SubscriberModel.

(** * Anchors of their own *)

Section topology.
Context (s : DB).

(** A link from a port to itself is listed twice. *)
Definition links_by_if (k : string) : list Link :=
  mjoin ((λ l, (if String.eqb (a_interface_id l) k then [l] else []) ++ (if String.eqb (b_interface_id l) k then [l] else [])) <$> links s).

Definition peer_of (l : Link) (k : string) : string := if String.eqb (a_interface_id l) k then b_interface_id l else a_interface_id l.

Definition ifaces_by_device (d : string) : list Interface := filter (λ i, if_device_id i = d) (interfaces s).

Definition direct_cpe_anchor (d : Device) : option (string * string) :=
  head (omap (λ peer_id,
    '(peer, peer_device) ← owner_of s peer_id;
    if bool_decide (dev_type peer_device = AON_SWITCH) then Some (if_device_id peer, if_id peer) else None)
    (mjoin ((λ i, (λ l, peer_of l (if_id i)) <$> links_by_if (if_id i)) <$> ifaces_by_device (dev_id d)))).

Definition olt_port (k : string) : option (string * string) :=
  '(iface, current) ← owner_of s k;
  if bool_decide (dev_type current = OLT) && bool_decide (port_role iface = Some PON) then Some (dev_id current, if_id iface) else None.

Definition crossed_types : list DeviceType := [ODF; NVT; SPLITTER; HOP] ++ ONT_TYPES.

Definition onward_ids (k : string) : list string :=
  match owner_of s k with
  | None => []
  | Some (_, current) =>
      filter (λ j, nonempty j = true) ((λ l, peer_of l k) <$> links_by_if k) ++
      (if mem (dev_type current) crossed_types then if_id <$> ifaces_by_device (dev_id current) else [])
  end.

Definition trace_olt_anchor (d : Device) : option (string * string) :=
  let queue := if_id <$> ifaces_by_device (dev_id d) in
  match search append_one (λ _, true) olt_port onward_ids (search_fuel (known_ids s) queue) (list_to_set queue) queue with
  | Some (inl anchor) => Some anchor
  | _ => None
  end.
End topology.

(** * build_count_semantics *)

(** [d[k].add(x)] on a defaultdict of sets. *)
Definition add_member (k x : string) (m : gmap string (gset string)) : gmap string (gset string) :=
  <[k := {[x]} ∪ default ∅ (m !! k)]> m.

Record Attachments := mkAttachments {
  physical_olt : gmap string (gset string);
  physical_pon : gmap string (gmap string (gset string));
  physical_aon : gmap string (gmap string (gset string));
  provisioned_aon : gmap string (gmap string (gset string))
}.

Definition attachment_step (s : DB) (st : Attachments) (d : Device) : Attachments :=
  let k := dev_id d in
  let st := match (if mem (dev_type d) ONT_TYPES then trace_olt_anchor s d else None) with
            | Some (olt_id, pon_id) =>
                mkAttachments (add_member olt_id k (physical_olt st)) (update2 olt_id pon_id ∅ (union {[k]}) (physical_pon st))
                  (physical_aon st) (provisioned_aon st)
            | None => st
            end in
  match (if mem (dev_type d) CPE_TYPES then direct_cpe_anchor s d else None) with
  | Some (aon_id, access_id) =>
      mkAttachments (physical_olt st) (physical_pon st) (update2 aon_id access_id ∅ (union {[k]}) (physical_aon st))
        (if provisioned d then update2 aon_id access_id ∅ (union {[k]}) (provisioned_aon st) else provisioned_aon st)
  | None => st
  end.

Definition attachments (s : DB) : Attachments := foldl (attachment_step s) (mkAttachments ∅ ∅ ∅ ∅) (devices s).

Record CountEntry := mkEntry {
  count_type : string; physical_count : Z; provisioned_count : Z; effective_count : Z; mismatch_warned : bool
}.

Definition mismatch_delta (e : CountEntry) : Z := (physical_count e - provisioned_count e)%Z.

(** [sum] over the values of a dictionary. *)
Definition sum_values {V} (f : V → Z) (m : gmap string V) : Z := foldr (λ x acc, f x.2 + acc)%Z 0%Z (map_to_list m).

Definition set_size (X : gset string) : Z := Z.of_nat (size X).

(** The decision about a subscriber; a later one replaces an earlier one. *)
Definition counted_decisions (m : SubscriberModel) : list (string * MappingDecision) :=
  foldl (λ ds e, if nonempty (dec_subscriber e) then dict_set (dec_subscriber e) e ds else ds) [] (mapping_decisions (resolved m)).

Definition is_counted (m : SubscriberModel) (k : string) : bool :=
  match dict_get (counted_decisions m) k with Some e => bool_decide (counted e = Some true) | None => false end.

Definition device_entry (s : DB) (m : SubscriberModel) (at_ : Attachments) (d : Device) : CountEntry :=
  let k := dev_id d in
  let subs := (subscriber_parameters m k).1.1 in
  let '(physical, prov, effective) :=
    if is_leaf d then (1, if provisioned d then 1 else 0, if is_counted m k then 1 else 0)%Z
    else if bool_decide (dev_type d = OLT) then
      (set_size (default ∅ (physical_olt at_ !! k)), sum_values id (default ∅ (pon_occupancy (resolved m) !! k)), subs)
    else if bool_decide (dev_type d = AON_SWITCH) then
      (sum_values set_size (default ∅ (physical_aon at_ !! k)), sum_values set_size (default ∅ (provisioned_aon at_ !! k)), subs)
    else (Z.of_nat (length (ifaces_by_device s k)), 0%Z, 0%Z) in
  mkEntry (DeviceType_value (dev_type d)) physical prov effective (negb (physical =? prov)%Z).

Record Orphan := mkOrphan { orphan_id : string; orphan_type : DeviceType; orphan_reason : string; mapped_port : option string }.

Definition orphan_of (m : SubscriberModel) (d : Device) : option Orphan :=
  if is_leaf d && provisioned d && negb (is_counted m (dev_id d)) then
    let e := dict_get (counted_decisions m) (dev_id d) in
    Some (mkOrphan (dev_id d) (dev_type d) (match e with Some e => reason e | None => "no_l4_mapping_decision" end)
            (e ≫= anchor_interface))
  else None.

(** A port of an OLT; its occupancy counts as provisioned and as effective. *)
Definition pon_entry (at_ : Attachments) (olt port : string) (n : Z) : CountEntry :=
  mkEntry "PON" (set_size (default ∅ (physical_pon at_ !! olt ≫= lookup port))) n n false.

Definition pon_rows (m : SubscriberModel) : list (string * string * Z) :=
  mjoin ((λ row, (λ port, (row.1, port.1, port.2)) <$> sorted_items row.2) <$> sorted_items (pon_occupancy (resolved m))).

Record CountModel := mkCountModel {
  count_entries : list (string * CountEntry);
  mismatches : list string;
  oversubscription_mapping : list MappingDecision;
  orphaned_devices : list Orphan;
  global_physical : Z; global_provisioned : Z; global_effective : Z
}.

Definition leaf_types : list string := DeviceType_value <$> (ONT_TYPES ++ CPE_TYPES).

Definition leaf_sum (f : CountEntry → Z) (entries : list (string * CountEntry)) : Z :=
  foldr (λ x acc, if mem (count_type x.2) leaf_types then f x.2 + acc else acc)%Z 0%Z entries.

Definition build_count_semantics (s : DB) : CountModel :=
  let m := resolve_subscriber_model s in
  let at_ := attachments s in
  let ds := sort_by by_id (devices s) in
  let entries := foldl (λ es d, dict_set (dev_id d) (device_entry s m at_ d) es) [] ds in
  let entries := foldl (λ es '(olt, port, n), dict_set port (pon_entry at_ olt port n) es) entries (pon_rows m) in
  mkCountModel entries
    (dev_id <$> filter (λ d, mismatch_warned (device_entry s m at_ d) = true) ds)
    (filter (λ e, reason e = "aon_access_port_oversubscribed_1_to_1") (mapping_decisions (resolved m)))
    (omap (orphan_of m) ds)
    (leaf_sum physical_count entries) (leaf_sum provisioned_count entries) (total (global m)).

Definition count_semantics_for (m : CountModel) (device_id : string) : option CountEntry := dict_get (count_entries m) device_id.

(** * truth_model *)

Definition severity (delta effective : Z) : string :=
  let absolute := Z.abs delta in
  if (absolute =? 0)%Z then "none" else if (effective =? 0)%Z || (2 <=? absolute)%Z then "high" else "medium".

Record Conflict := mkConflict {
  conflict_id : string; conflict_type : string; conflict_severity : string; conflict_entry : CountEntry; conflict_delta : Z
}.

Definition truth_types : list string := ["OLT"; "AON_SWITCH"; "PON"] ++ leaf_types.

Definition conflict_of (x : string * CountEntry) : option Conflict :=
  let '(k, e) := x in
  if negb (mem (count_type e) truth_types) then None
  else if (physical_count e =? provisioned_count e)%Z && (provisioned_count e =? effective_count e)%Z then None
  else
    let delta := (effective_count e - provisioned_count e)%Z in
    let delta := if (delta =? 0)%Z then mismatch_delta e else delta in
    Some (mkConflict k (count_type e) (severity delta (effective_count e)) e delta).

(** [sorted(d.items())]; the keys are distinct. *)
Definition conflicts (m : CountModel) : list Conflict :=
  omap conflict_of (sort_by (λ x y, str_leb x.1 y.1) (count_entries m)).

Definition high_severity_count (m : CountModel) : nat := length (filter (λ c, conflict_severity c = "high") (conflicts m)).
