(* ===== verification/PortSummary.v ===== *)
(** Port summaries: [api/endpoints/ports.py].

    A summary has a row per interface: who is attached, how many may be, and the
    effective status.  Single and bulk requests ask the Go service first and
    otherwise compute the rows, which stay in a cache for a second.  Instants are
    nanoseconds.  [_get_olt_pon_occupancy] has no caller and is left out, and so
    are the neighbour sets that a single request computes without using. *)

From S2P Require Import Prelude PyFloat Models Catalog EventStore LinkStatus NxGraph Pathfinding Dependency Status StatusRecompute SubscriberModel.

Record InterfaceSummary := mkSummary {
  sum_id : string; sum_name : string; sum_port_role : option PortRole; effective_status : string;
  occupancy : Z; sum_capacity : option Z;
  provisioned_onts_count : option Z; provisioned_cpes_count : option Z;
  sum_max_capacity : option Z; sum_utilization : option float
}.

(** The key is the topology version and the device; the entry expires. *)
Abbreviation Cache := (gmap (Z * string) (Z * list InterfaceSummary)).

(** * _with_canonical_subscribers *)

Definition patch_pon (n : Z) (st : PortState) (row : InterfaceSummary) : InterfaceSummary :=
  mkSummary (sum_id row) (sum_name row) (sum_port_role row) (effective_status row) n (sum_capacity row)
    (Some (port_count st)) (provisioned_cpes_count row) (truthy_key (Some (max_capacity st))) (Some (utilization st)).

Definition patch_aon (n : Z) (st : PortState) (row : InterfaceSummary) : InterfaceSummary :=
  mkSummary (sum_id row) (sum_name row) (Some PORT_ACCESS) (effective_status row) n (Some (max_capacity st))
    (provisioned_onts_count row) (Some (port_count st)) (Some (max_capacity st)) (Some (utilization st)).

(** A port with an occupancy has a state. *)
Definition patch_with {R} (m : SubscriberModel) (device_id iface_id : string) (pon aon : Z → PortState → R → R) (row : R) : R :=
  let row := match pon_occupancy_for m device_id !! iface_id, pon_port_state_for m device_id !! iface_id with
             | Some n, Some st => pon n st row
             | _, _ => row
             end in
  match aon_access_occupancy_for m device_id !! iface_id, aon_access_port_state_for m device_id !! iface_id with
  | Some n, Some st => aon n st row
  | _, _ => row
  end.

Definition patch_row (m : SubscriberModel) (device_id : string) (row : InterfaceSummary) : InterfaceSummary :=
  patch_with m device_id (sum_id row) patch_pon patch_aon row.

(** The rows of the Go service are dictionaries. *)
Definition patch_dict (m : SubscriberModel) (device_id : string) (item : Payload) : Payload :=
  let iface_id := match dict_get item "id" with Some (JStr t) => t | _ => "" end in
  patch_with m device_id iface_id
    (λ n st item, dict_set "utilization" (JFloat (utilization st)) (dict_set "max_capacity" (JInt (max_capacity st))
       (dict_set "provisioned_onts_count" (JInt (port_count st)) (dict_set "occupancy" (JInt n) item))))
    (λ n st item, dict_set "utilization" (JFloat (utilization st)) (dict_set "capacity" (JInt (max_capacity st))
       (dict_set "max_capacity" (JInt (max_capacity st)) (dict_set "provisioned_cpes_count" (JInt (port_count st))
         (dict_set "occupancy" (JInt n) (dict_set "port_role" (JStr "ACCESS") item))))))
    item.

Definition with_canonical_subscribers (m : SubscriberModel) (device_id : string) (rows : list InterfaceSummary) :=
  patch_row m device_id <$> rows.

(** * The rows of a device *)

Section rows.
Context {G : Type} `{NxGraph G}.

(** The bucket of an interface: a link from a port to itself is in it twice. *)
Definition bucket (s : DB) (k : string) : list Link :=
  mjoin ((λ ln, (if String.eqb (a_interface_id ln) k then [ln] else []) ++ (if String.eqb (b_interface_id ln) k then [ln] else [])) <$> links s).

Definition effective_interface_status (s : DB) (d : Device) (i : Interface) : string :=
  if existsb (λ ln, bool_decide (evaluate_link_status s ln = DOWN)) (bucket s (if_id i)) then "DOWN"
  else Status_value (status_of (G := G) s d).

(** [cap_of]: the capacity of a profile name. *)
Definition interface_summary (s : DB) (m : SubscriberModel) (cap_of : string → option Z) (d : Device) (i : Interface) : InterfaceSummary :=
  let role := port_role i in
  let '(occ, cap) :=
    if bool_decide (role = Some PON) && bool_decide (dev_type d = OLT) then
      let base := strip (default "" (profile_name i)) in
      (default 0%Z (pon_occupancy_for m (dev_id d) !! if_id i), if nonempty base then cap_of base else None)
    else if bool_decide (role = Some PORT_ACCESS) then (Z.of_nat (length (bucket s (if_id i))), None)
    else (Z.min 1 (Z.of_nat (length (bucket s (if_id i)))), Some 1%Z) in
  mkSummary (if_id i) (if_name i) role (effective_interface_status s d i) occ cap None None None None.

Definition role_key (r : option PortRole) : string := match r with None => "" | Some r => PortRole_value r end.

Definition summary_key (row : InterfaceSummary) : list string := [role_key (sum_port_role row); sum_name row; sum_id row].

Definition summary_leb (x y : InterfaceSummary) : bool := strs_leb (summary_key x) (summary_key y).

Definition summary_rows (s : DB) (cap_of : string → option Z) (d : Device) : list InterfaceSummary :=
  let m := resolve_subscriber_model s in
  let ifaces := filter (λ i, if_device_id i = dev_id d) (interfaces s) in
  sort_by summary_leb (with_canonical_subscribers m (dev_id d) (interface_summary s m cap_of d <$> ifaces)).

(** The subscriber limit of a PON profile with a name. *)
Definition pon_capacity (p : PortProfile) : option (string * Z) :=
  let base := strip (pp_name p) in
  if bool_decide (pp_port_role p = Some PON) && nonempty base then pair base <$> max_subscribers p else None.

Definition profile_cap_map (c : Catalog) (d : Device) : list (string * Z) :=
  match hardware_model_id d with
  | None => []
  | Some hw =>
      foldl (λ caps p, match pon_capacity p with Some (base, n) => dict_set base n caps | None => caps end) []
        (filter (λ p, pp_hardware_model_id p = hw) (port_profiles c))
  end.

Definition port_rows (c : Catalog) (s : DB) (d : Device) : list InterfaceSummary :=
  summary_rows s (dict_get (profile_cap_map c d)) d.

(** * The cache *)

Definition PORTS_CACHE_TTL : Z := 1000000000.

Definition cached_rows (cache : Cache) (tv : Z) (k : string) (now : Z) : option (list InterfaceSummary) :=
  '(expiry, rows) ← cache !! (tv, k); if (now <? expiry)%Z then Some rows else None.

(** Expired entries and entries of other versions go when there are too many. *)
Definition cleanup (tv cutoff : Z) (cache : Cache) : Cache :=
  if (2048 <? size cache)%nat then filter (λ e, (cutoff < e.2.1)%Z ∧ e.1.1 = tv) cache else cache.

Inductive SummaryAnswer := NotFound | FromGo (items : list Payload) | Rows (rows : list InterfaceSummary).

(** The cache is read at [now] and written at [later]. *)
Definition get_port_summary (go : option (list Payload)) (c : Catalog) (tv now later : Z) (s : DB) (device_id : string) (cache : Cache)
    : SummaryAnswer * Cache :=
  match go with
  | Some ((_ :: _) as summary) => (FromGo (patch_dict (resolve_subscriber_model s) device_id <$> summary), cache)
  | _ =>
      match cached_rows cache tv device_id now with
      | Some rows => (Rows rows, cache)
      | None =>
          match get_device s device_id with
          | None => (NotFound, cache)
          | Some d =>
              let out := port_rows c s d in
              (Rows out, cleanup tv later (<[(tv, device_id) := (later + PORTS_CACHE_TTL, out)%Z]> cache))
          end
      end
  end.

(** * The bulk request *)

Definition MAX_BULK_IDS : nat := 100.

(** Deduplication that keeps the first occurrence. *)
Fixpoint first_seen (seen ids : list string) : list string :=
  match ids with
  | [] => []
  | x :: ids' => if mem x seen then first_seen seen ids' else x :: first_seen (x :: seen) ids'
  end.

Definition bulk_cap_map (c : Catalog) (models : list Z) : gmap (Z * string) Z :=
  foldl (λ caps p,
    match truthy_key (Some (pp_hardware_model_id p)), pon_capacity p with
    | Some hw, Some (base, n) => <[(hw, base) := n]> caps
    | _, _ => caps
    end) ∅ (filter (λ p, pp_hardware_model_id p ∈ models) (port_profiles c)).

(** The entries of one hardware model. *)
Definition device_profile_cap (caps : gmap (Z * string) Z) (d : Device) (base : string) : option Z :=
  match truthy_key (hardware_model_id d) with Some hw => caps !! (hw, base) | None => None end.

Inductive BulkAnswer := TooMany | BulkFromGo (items : list (string * list Payload)) | BulkRows (rows : list (string * list InterfaceSummary)).

(** The device [k] reads the cache at [now k] and writes it at [later k]. *)
Definition bulk_step (c : Catalog) (tv : Z) (now later : string → Z) (s : DB) (caps : gmap (Z * string) Z)
    (st : list (string * list InterfaceSummary) * Cache) (k : string) : list (string * list InterfaceSummary) * Cache :=
  match get_device s k with
  | None => st
  | Some d =>
      match cached_rows st.2 tv k (now k) with
      | Some rows => (st.1 ++ [(k, rows)], st.2)
      | None =>
          let out := summary_rows s (device_profile_cap caps d) d in
          (st.1 ++ [(k, out)], <[(tv, k) := (later k + PORTS_CACHE_TTL, out)%Z]> st.2)
      end
  end.

Definition get_bulk_port_summary (go : option (list (string * list Payload))) (c : Catalog) (tv : Z) (now later : string → Z) (cutoff : Z)
    (s : DB) (ids : list string) (cache : Cache) : BulkAnswer * Cache :=
  if (MAX_BULK_IDS <? length ids)%nat then (TooMany, cache)
  else
    match ids with
    | [] => (BulkRows [], cache)
    | _ =>
        match go with
        | Some ((_ :: _) as result) =>
            (BulkFromGo ((λ x : string * list Payload, (x.1, patch_dict (resolve_subscriber_model s) x.1 <$> x.2)) <$> result), cache)
        | _ =>
            let ordered_ids := first_seen [] ids in
            let models := omap (λ k, get_device s k ≫= λ d, truthy_key (hardware_model_id d)) ordered_ids in
            let '(results, cache) := foldl (bulk_step c tv now later s (bulk_cap_map c models)) ([], cache) ordered_ids in
            (BulkRows results, cleanup tv cutoff cache)
        end
    end.
End rows.

(** * list_onts_under *)

(** [None] is a 404. *)
Definition list_onts_under (s : DB) (device_id : string) : option (list (string * string * string)) :=
  parent ← get_device s device_id;
  let rows := filter (λ d, parent_container_id d = Some (dev_id parent) ∧ dev_type d ∈ [ONT; BUSINESS_ONT; AON_CPE]) (devices s) in
  let key d := [DeviceType_value (dev_type d); dev_name d; dev_id d] in
  Some ((λ d, (dev_id d, dev_name d, DeviceType_value (dev_type d))) <$> sort_by (λ x y, strs_leb (key x) (key y)) rows).
