(* ===== verification/Coalescer.v ===== *)
(** The recompute coalescer: [services/recompute_coalescer.py].

    Requests are collected and a timer runs one recomputation for all of them.
    The module state is shared by request threads and timer threads and guarded
    by a lock that is not re-entrant.  Three views are given: the functions with
    the lock made explicit, a step relation for the interleaving of threads (a
    step is one critical section), and the recomputation that is run. *)

From S2P Require Import Prelude PyFloat Models LinkRules LinkStatus Worklist Scenario L3Trace.
From S2P Require Import NxGraph Pathfinding Dependency DependencyProofs Status Adjacency StatusRecompute StatusProofs.

(** * The functions and their lock *)

Module Locking.
Record State := mkState {
  enabled : bool;
  debounce_ms : Z;
  timer : bool;                     (* a timer object is installed *)
  locked : bool;
  pending_scopes : gset string;
  pending_keys : gset string;
  executing : bool;
  metrics_scheduled : nat;
  metrics_coalesced_runs : nat;
  metrics_executed : nat
}.

Definition set_locked (b : bool) (st : State) : State :=
  mkState (enabled st) (debounce_ms st) (timer st) b (pending_scopes st) (pending_keys st) (executing st)
    (metrics_scheduled st) (metrics_coalesced_runs st) (metrics_executed st).
Definition set_timer (b : bool) (st : State) : State :=
  mkState (enabled st) (debounce_ms st) b (locked st) (pending_scopes st) (pending_keys st) (executing st)
    (metrics_scheduled st) (metrics_coalesced_runs st) (metrics_executed st).
Definition set_pending (scopes keys : gset string) (st : State) : State :=
  mkState (enabled st) (debounce_ms st) (timer st) (locked st) scopes keys (executing st)
    (metrics_scheduled st) (metrics_coalesced_runs st) (metrics_executed st).
Definition set_executing (b : bool) (st : State) : State :=
  mkState (enabled st) (debounce_ms st) (timer st) (locked st) (pending_scopes st) (pending_keys st) b
    (metrics_scheduled st) (metrics_coalesced_runs st) (metrics_executed st).
Definition add_metrics (s c e : nat) (st : State) : State :=
  mkState (enabled st) (debounce_ms st) (timer st) (locked st) (pending_scopes st) (pending_keys st) (executing st)
    (metrics_scheduled st + s) (metrics_coalesced_runs st + c) (metrics_executed st + e).

(** A computation ends in a state, or blocks for ever on the lock. *)
Inductive Outcome := Done (st : State) | Deadlock.

Definition bind (o : Outcome) (f : State → Outcome) : Outcome :=
  match o with Done st => f st | Deadlock => Deadlock end.

(** [with _STATE.lock:] on one thread: a second acquisition never returns. *)
Definition with_lock (body : State → Outcome) (st : State) : Outcome :=
  if locked st then Deadlock
  else bind (body (set_locked true st)) (λ st', Done (set_locked false st')).

(** [start], from the values of the three environment variables. *)
Definition start (env_enabled env_new env_legacy : option string) (parse : string → option Z)
    (st : State) : State :=
  let on := negb (mem (default "1" env_enabled) ["0"; "false"; "False"]) in
  let env_ms (v : option string) (dflt : Z) : Z :=
    match v with Some t => default dflt (parse t) | None => dflt end in
  let ms := match env_new with
            | Some t => if nonempty t then env_ms env_new 75%Z else env_ms env_legacy 75%Z
            | None => env_ms env_legacy 75%Z
            end in
  mkState on ms (timer st) (locked st) (pending_scopes st) (pending_keys st) (executing st)
    (metrics_scheduled st) (metrics_coalesced_runs st) (metrics_executed st).

Definition stop (st : State) : Outcome :=
  with_lock (λ st, Done (set_pending ∅ ∅ (set_timer false st))) st.

(** [_execute_now]; [succeeds]: the recomputation did not raise. *)
Definition execute_now (succeeds : bool) (st : State) : Outcome :=
  bind (with_lock (λ st, Done (set_pending ∅ ∅ (set_timer false st))) st) (λ st,
  if negb (enabled st) then Done st
  else
    bind (with_lock (λ st, Done (set_executing true st)) st) (λ st,
    let st := if succeeds then add_metrics 0 0 1 st else st in
    with_lock (λ st, Done (set_executing false st)) st)).

(** [schedule]; [starts]: the timer thread could be started. *)
Definition schedule (scope : string) (key : option string) (starts succeeds : bool) (st : State) : Outcome :=
  with_lock (λ st,
    let scopes := if nonempty scope then {[scope]} ∪ pending_scopes st else pending_scopes st in
    let keys := match truthy key with Some k => {[k]} ∪ pending_keys st | None => pending_keys st end in
    let st := set_pending scopes keys st in
    if timer st then Done (add_metrics 0 1 0 st)
    else if starts then Done (set_timer true st)
    else execute_now succeeds (set_timer false st))
  (add_metrics 1 0 0 st).

Definition flush_now (succeeds : bool) (st : State) : Outcome :=
  if locked st then Deadlock
  else if timer st then execute_now succeeds (set_timer false st)
  else Done st.

Definition is_idle (st : State) : bool :=
  negb (timer st) && bool_decide (pending_scopes st = ∅) && bool_decide (pending_keys st = ∅) &&
  negb (executing st).

Definition initial : State := mkState true 150 false false ∅ ∅ false 0 0 0.
End Locking.

(** C30. The fallback of [schedule] blocks for ever.  Whenever no timer is
    installed and the timer thread cannot be started, the fallback runs
    [_execute_now] while the lock is still held, and [_execute_now] begins by
    acquiring the same, non-re-entrant lock.  In every other case the functions
    return with the lock released. *)
Theorem schedule_fallback_deadlocks scope key starts succeeds st :
  Locking.locked st = false →
  (Locking.schedule scope key starts succeeds st = Locking.Deadlock ↔
     Locking.timer st = false ∧ starts = false) ∧
  (∀ st', Locking.schedule scope key starts succeeds st = Locking.Done st' → Locking.locked st' = false) ∧
  (∃ st', Locking.flush_now succeeds st = Locking.Done st' ∧ Locking.locked st' = false) ∧
  (∃ st', Locking.stop st = Locking.Done st' ∧ Locking.is_idle st' = negb (Locking.executing st)).
Proof.
  intros Hl. destruct st as [en ms tm lk sc ks ex m1 m2 m3]. simpl in Hl. subst lk.
  unfold Locking.schedule, Locking.flush_now, Locking.stop, Locking.with_lock. simpl.
  split; [|split; [|split]].
  - destruct tm, starts; simpl; naive_solver.
  - destruct tm, starts; simpl; intros st' [= <-]; done.
  - destruct tm, en; simpl; eexists; split; try done; by destruct succeeds.
  - eexists. split; [done|]. unfold Locking.is_idle. simpl. by rewrite !bool_decide_true.
Qed.

Lemma schedule_fallback_deadlocks_witness :
  Locking.schedule "links" (Some "l1") false true Locking.initial = Locking.Deadlock.
Proof. apply (schedule_fallback_deadlocks "links" (Some "l1") false true Locking.initial); [reflexivity|split; reflexivity]. Defined.

(** * Interleavings *)

Module Threads.
(** A recomputation in flight, between its critical sections. *)
Inductive Phase := Taken | Executing.
#[export] Instance Phase_eq_dec : EqDecision Phase.
Proof. solve_decision. Defined.

Record State := mkState {
  timer : option nat;               (* _STATE.timer: the timer installed last *)
  live : gset nat;                  (* timers started, neither fired nor cancelled *)
  entering : nat;                   (* threads about to run _execute_now *)
  keys : gset string;               (* pending_keys *)
  runs : list (Phase * gset string);
  executing : bool;
  requested : gset string;          (* every key ever scheduled *)
  finished : gset string;           (* keys of completed recomputations *)
  dropped : gset string             (* keys discarded by stop() *)
}.

Definition initial : State := mkState None ∅ 0 ∅ [] false ∅ ∅ ∅.

Definition cancel (t : option nat) (l : gset nat) : gset nat :=
  match t with Some i => l ∖ {[i]} | None => l end.

(** One critical section, with the enabled coalescer. *)
Inductive step : State → State → Prop :=
  | schedule_first st k i :
      timer st = None → i ∉ live st →
      step st (mkState (Some i) ({[i]} ∪ live st) (entering st) ({[k]} ∪ keys st) (runs st) (executing st)
                 ({[k]} ∪ requested st) (finished st) (dropped st))
  | schedule_again st k i :
      timer st = Some i →
      step st (mkState (timer st) (live st) (entering st) ({[k]} ∪ keys st) (runs st) (executing st)
                 ({[k]} ∪ requested st) (finished st) (dropped st))
  | fire st i :                     (* the timer thread enters _execute_now *)
      i ∈ live st →
      step st (mkState (timer st) (live st ∖ {[i]}) (S (entering st)) (keys st) (runs st) (executing st)
                 (requested st) (finished st) (dropped st))
  | flush st i :                    (* flush_now: cancel, then enter _execute_now *)
      timer st = Some i →
      step st (mkState None (cancel (timer st) (live st)) (S (entering st)) (keys st) (runs st) (executing st)
                 (requested st) (finished st) (dropped st))
  | take st n :                     (* first critical section of _execute_now *)
      entering st = S n →
      step st (mkState None (live st) n ∅ ((Taken, keys st) :: runs st) (executing st)
                 (requested st) (finished st) (dropped st))
  | begin st r1 ks r2 :             (* second one: executing = True *)
      runs st = r1 ++ (Taken, ks) :: r2 →
      step st (mkState (timer st) (live st) (entering st) (keys st) (r1 ++ (Executing, ks) :: r2) true
                 (requested st) (finished st) (dropped st))
  | finish st r1 ks r2 :            (* last one: executing = False *)
      runs st = r1 ++ (Executing, ks) :: r2 →
      step st (mkState (timer st) (live st) (entering st) (keys st) (r1 ++ r2) false
                 (requested st) (ks ∪ finished st) (dropped st))
  | stop st :
      step st (mkState None (cancel (timer st) (live st)) (entering st) ∅ (runs st) (executing st)
                 (requested st) (finished st) (keys st ∪ dropped st)).

Definition reachable (st : State) : Prop := rtc step initial st.

Definition is_idle (st : State) : bool :=
  bool_decide (timer st = None) && bool_decide (keys st = ∅) && negb (executing st).

(** Pending requests always have a timer or a thread that will take them, and
    every request is pending, in flight, finished or dropped. *)
Record inv (st : State) : Prop := {
  inv_timer : ∀ i, timer st = Some i → i ∈ live st ∨ entering st ≠ 0;
  inv_pending : ∀ k, k ∈ keys st → live st ≠ ∅ ∨ entering st ≠ 0;
  inv_account : ∀ k, k ∈ requested st →
    k ∈ keys st ∨ (∃ r, r ∈ runs st ∧ k ∈ r.2) ∨ k ∈ finished st ∨ k ∈ dropped st
}.

Lemma inv_initial : inv initial.
Proof. split; simpl; set_solver. Qed.

Lemma runs_mid (r1 r2 : list (Phase * gset string)) p q (ks : gset string) k :
  (∃ r, r ∈ r1 ++ (p, ks) :: r2 ∧ k ∈ r.2) → ∃ r, r ∈ r1 ++ (q, ks) :: r2 ∧ k ∈ r.2.
Proof.
  intros (r & Hr & Hk). apply elem_of_app in Hr as [Hr|[->|Hr]%elem_of_cons];
    [exists r|exists (q, ks)|exists r]; set_solver.
Qed.

Lemma runs_remove (r1 r2 : list (Phase * gset string)) p (ks : gset string) k :
  (∃ r, r ∈ r1 ++ (p, ks) :: r2 ∧ k ∈ r.2) → k ∈ ks ∨ ∃ r, r ∈ r1 ++ r2 ∧ k ∈ r.2.
Proof.
  intros (r & Hr & Hk). apply elem_of_app in Hr as [Hr|[->|Hr]%elem_of_cons];
    [right; exists r; set_solver|by left|right; exists r; set_solver].
Qed.

Lemma inv_step st st' : inv st → step st st' → inv st'.
Proof.
  intros [Ht Hp Ha] Hs. destruct Hs as [st k i Hn Hi|st k i E|st i Hi|st i E|st n E|st r1 ks r2 E|st r1 ks r2 E|st];
    split; simpl.
  - intros j [= <-]. left. set_solver.
  - intros k' _. left. set_solver.
  - intros k' [->%elem_of_singleton|Hk]%elem_of_union; [left; set_solver|].
    destruct (Ha k' Hk) as [?|?]; [left; set_solver|by right].
  - exact Ht.
  - intros k' [->%elem_of_singleton|Hk]%elem_of_union; [|by apply (Hp k')].
    destruct (Ht i E) as [?|?]; [left; set_solver|by right].
  - intros k' [->%elem_of_singleton|Hk]%elem_of_union; [left; set_solver|].
    destruct (Ha k' Hk) as [?|?]; [left; set_solver|by right].
  - intros j _. by right.
  - intros k' _. by right.
  - exact Ha.
  - done.
  - intros k' _. by right.
  - exact Ha.
  - done.
  - set_solver.
  - intros k Hk. destruct (Ha k Hk) as [Hkp|[(r & Hr & Hkr)|?]]; [|right; left; exists r; set_solver|by right; right].
    right; left. exists (Taken, keys st). set_solver.
  - exact Ht.
  - exact Hp.
  - intros k Hk. destruct (Ha k Hk) as [?|[Hr|?]]; [by left| |by right; right].
    right; left. rewrite E in Hr. by eapply runs_mid.
  - exact Ht.
  - exact Hp.
  - intros k Hk. destruct (Ha k Hk) as [?|[Hr|[?|?]]]; [by left| |set_solver..].
    rewrite E in Hr. apply runs_remove in Hr as [?|?]; [set_solver|by right; left].
  - done.
  - set_solver.
  - intros k Hk. destruct (Ha k Hk) as [?|[?|[?|?]]]; [|by right; left|..]; set_solver.
Qed.

Lemma reachable_inv st : reachable st → inv st.
Proof.
  intros Hr. apply (reaches_closed step [initial] inv); [| |by exists initial; set_solver].
  - intros s0 ->%list_elem_of_singleton. apply inv_initial.
  - apply inv_step.
Qed.
End Threads.


(** Two requests, the second one scheduled while the first is executing. *)
Definition one_pending : Threads.State :=
  Threads.mkState (Some 0) {[0]} 0 {["a"]} [] false {["a"]} ∅ ∅.

Lemma one_pending_reachable : Threads.reachable one_pending.
Proof.
  apply rtc_once.
  replace one_pending with (Threads.mkState (Some 0) ({[0]} ∪ ∅) 0 ({["a"]} ∪ ∅) [] false ({["a"]} ∪ ∅) ∅ ∅)
    by (vm_compute; reflexivity).
  apply (Threads.schedule_first Threads.initial "a" 0); [reflexivity|simpl; set_solver].
Qed.


(** [is_idle] can be true while a recomputation is executing.  The
    [executing] flag is one boolean, but two recomputations can overlap: a
    request that arrives while one is executing arms a new timer, whose thread
    does not wait; when the first one finishes it clears the flag of the other. *)
Lemma idle_while_executing :
  ∃ st ks, Threads.reachable st ∧ Threads.is_idle st = true ∧ (Threads.Executing, ks) ∈ Threads.runs st.
Proof.
  eexists _, _. split; [|split].
  - eapply rtc_l; [by apply (Threads.schedule_first _ "a" 0); [|set_solver]|].
    eapply rtc_l; [apply (Threads.fire _ 0); simpl; set_solver|].
    eapply rtc_l; [by apply (Threads.take _ 0)|].
    eapply rtc_l; [by eapply (Threads.begin _ [] _ [])|]. simpl.
    eapply rtc_l; [apply (Threads.schedule_first _ "b" 1); [done|simpl; set_solver]|].
    eapply rtc_l; [apply (Threads.fire _ 1); simpl; set_solver|].
    eapply rtc_l; [by apply (Threads.take _ 0)|]. simpl.
    eapply rtc_l; [by eapply (Threads.begin _ [] _ [_])|]. simpl.
    eapply rtc_l; [by eapply (Threads.finish _ [_] _ [])|]. apply rtc_refl.
  - vm_compute. reflexivity.
  - simpl. apply elem_of_cons. by left.
Qed.

(** * The recomputation that is run *)

Section consolidated.
Context {G : Type} `{NxGraph G}.
Context (env : option float) (store_version : Z).

(** The pending keys that name devices, and those that name links only. *)
Definition resolve_keys (s : DB) (keys : gset string) : Dirty :=
  let ks := sorted_strs (elements keys) in
  mkDirty (filter (λ k, is_Some (get_device s k)) ks)
    (filter (λ k, get_device s k = None ∧ is_Some (get_link s k)) ks).

(** [_run_consolidated_recompute] *)
Definition run_consolidated_recompute (go : option (gset string)) (tv : option Z) (keys : gset string)
    (st : RecState) : option (list (string * Status * Status) * RecState) :=
  let dirty := resolve_keys (rec_db st) keys in
  if bool_decide (dirty_devices dirty = []) && bool_decide (dirty_links dirty = []) then
    recompute_devices_status (G := G) env store_version go None tv None st
  else
    recompute_dirty (G := G) env store_version go dirty (Some (mkConfig true tv None)) st.
End consolidated.

(** C9. A coalesced recomputation never reports or stores a status change.
    Whatever keys are pending and whether or not they resolve, both branches
    compare statuses evaluated on the same database: no transition is returned,
    no [device.status.changed] event is published, and no stored status is
    updated, although this is the path by which mutations trigger status
    updates. *)
Theorem coalesced_recompute_silent {G} `{NxGraph G} env v go tv keys st :
  keys_ok (rec_db st) →
  ∃ st', run_consolidated_recompute (G := G) env v go tv keys st = Some ([], st') ∧
    rec_db st' = rec_db st ∧ rec_events st' = rec_events st.
Proof.
  intros Hk. unfold run_consolidated_recompute. destruct (_ && _).
  - apply silent_run; [done|]. intros d _. by left.
  - by apply recompute_dirty_silent.
Qed.

(** The OLT of the sample network is stored as DOWN although it is up. *)
Definition stale_demo : DB :=
  set_devices ((λ d, if String.eqb (dev_id d) "olt" then set_status DOWN d else d) <$> devices demo) demo.

Lemma stale_demo_keys : keys_ok stale_demo.
Proof. constructor; vm_compute; repeat (constructor; [set_solver|]); constructor. Qed.

Lemma coalesced_recompute_silent_witness :
  status_of (G := AssocGraph) stale_demo (default (device0 "olt" OLT) (get_device stale_demo "olt")) = UP ∧
  ∃ st', run_consolidated_recompute (G := AssocGraph) None 0 None (Some 1%Z) {["olt"]}
           (mkRec stale_demo empty_graph_cache (mkProp None None) ∅ []) = Some ([], st') ∧
         rec_db st' = stale_demo ∧ rec_events st' = [].
Proof.
  split; [vm_compute; reflexivity|].
  apply (coalesced_recompute_silent (G := AssocGraph) None 0 None (Some 1%Z) {["olt"]}
           (mkRec stale_demo empty_graph_cache (mkProp None None) ∅ [])). apply stale_demo_keys.
Defined.
