(* ===== verification/LinksProofs.v ===== *)
(** What link creation and deletion preserve: the topology invariant along every
    sequence of requests, atomicity and totality of a creation, the media that
    are checked and the response that is sent. *)

From S2P Require Import Prelude PyFloat Models LinkRules Worklist Adjacency Scenario LinkStatus L3Trace.
From S2P Require Import EventStore Errors MacAllocator Splitter LinkPolicy Links.
From S2P Require Import NxGraph Pathfinding Dependency DependencyProofs Status StatusRecompute.

(** * Rows that are only added *)

(** The devices are the same and interfaces were only appended. *)
Record extends (s s' : DB) : Prop := {
  ext_devices : devices s' = devices s;
  ext_interfaces : ∃ new, interfaces s' = interfaces s ++ new
}.

Lemma extends_refl s : extends s s.
Proof. split; [done|]. exists []. by rewrite app_nil_r. Qed.

Lemma extends_trans s1 s2 s3 : extends s1 s2 → extends s2 s3 → extends s1 s3.
Proof.
  intros [Hd [n Hn]] [Hd' [n' Hn']]. split; [congruence|]. exists (n ++ n'). by rewrite Hn', Hn, app_assoc.
Qed.

Lemma extends_device s s' k : extends s s' → get_device s' k = get_device s k.
Proof. intros [Hd _]. unfold get_device. by rewrite Hd. Qed.

Lemma extends_type s s' k : extends s s' → device_type_of s' k = device_type_of s k.
Proof. intros He. unfold device_type_of. by rewrite (extends_device s s'). Qed.

Lemma extends_interface s s' k i : extends s s' → get_interface s k = Some i → get_interface s' k = Some i.
Proof. intros [_ [n Hn]] Hi. unfold get_interface in *. by rewrite Hn, find_row_app, Hi. Qed.

Lemma extends_end_ids s s' l x y : extends s s' → end_ids s l = Some (x, y) → end_ids s' l = Some (x, y).
Proof.
  intros He. unfold end_ids.
  destruct (get_interface s (a_interface_id l)) eqn:Ea, (get_interface s (b_interface_id l)) eqn:Eb; try done.
  by rewrite (extends_interface s s' _ _ He Ea), (extends_interface s s' _ _ He Eb).
Qed.

Lemma extends_joins s s' l x y : extends s s' → is_Some (end_ids s l) → link_joins s' l x y ↔ link_joins s l x y.
Proof.
  intros He [[a b] E]. unfold link_joins. rewrite E, (extends_end_ids s s' l a b He E). done.
Qed.

Lemma extends_typed_ends s s' l r : extends s s' → typed_ends s l = Some r → typed_ends s' l = Some r.
Proof.
  intros He. destruct r as [[x tx] [y ty]]. rewrite !typed_ends_Some, !(extends_type s s' _ He).
  intros (E & ? & ?). split; [by eapply extends_end_ids|done].
Qed.

(** * The invariant *)

Definition typed (t : DeviceType) : Device := device0 "" t.

(** Pairs of types a link may join. *)
Record admissible (t u : DeviceType) : Prop := {
  ad_class : res_allowed (classify (typed t) (typed u)) = true;
  ad_pop : t ≠ POP ∧ u ≠ POP;
  ad_odf : ¬ (t = ODF ∧ u = ODF);
  ad_olt : (t = OLT → u ∈ PASSIVE_INLINE ++ ONT_CLASS → u = ODF) ∧
           (u = OLT → t ∈ PASSIVE_INLINE ++ ONT_CLASS → t = ODF)
}.

#[export] Instance admissible_dec t u : Decision (admissible t u).
Proof.
  refine (cast_if (decide (
    (res_allowed (classify (typed t) (typed u)) = true ∧ (t ≠ POP ∧ u ≠ POP)) ∧ ¬ (t = ODF ∧ u = ODF) ∧
    (t = OLT → u ∈ PASSIVE_INLINE ++ ONT_CLASS → u = ODF) ∧ (u = OLT → t ∈ PASSIVE_INLINE ++ ONT_CLASS → t = ODF))));
  [abstract (destruct_and?; by split)|abstract (intros [????]; naive_solver)].
Defined.

(** A link from the ODF [k] up to an OLT. *)
Definition olt_link (s : DB) (k : string) (l : Link) : Prop :=
  device_type_of s k = Some ODF ∧ ∃ x, link_joins s l k x ∧ device_type_of s x = Some OLT.

(** An OUT port of a splitter. *)
Definition out_port (s : DB) (o : Interface) : Prop :=
  device_type_of s (if_device_id o) = Some SPLITTER ∧ starts_with "out" (lower (if_name o)) = true.

(** A link from the port [o] to an ONT. *)
Definition ont_link (s : DB) (o : Interface) (l : Link) : Prop :=
  if_id o ∈ [a_interface_id l; b_interface_id l] ∧
  ∃ i t, get_interface s (peer_interface l (if_id o)) = Some i ∧
         device_type_of s (if_device_id i) = Some t ∧ t ∈ ONT_CLASS.

Record topology_ok (s : DB) : Prop := {
  t_constraints : constraints s;
  t_sorted : ∀ l, l ∈ links s → str_ltb (a_interface_id l) (b_interface_id l) = true;
  t_ends : ∀ l, l ∈ links s → ∃ x tx y ty, typed_ends s l = Some ((x, tx), (y, ty)) ∧
             x ≠ "" ∧ y ≠ "" ∧ admissible tx ty;
  t_odf : ∀ k l l', l ∈ links s → l' ∈ links s → olt_link s k l → olt_link s k l' → l = l';
  t_out : ∀ o l l', o ∈ interfaces s → out_port s o → l ∈ links s → l' ∈ links s →
            ont_link s o l → ont_link s o l' → l = l'
}.

(** The clauses that need neither the constraints nor the port rule. *)
Record wired (s : DB) : Prop := {
  wd_sorted : ∀ l, l ∈ links s → str_ltb (a_interface_id l) (b_interface_id l) = true;
  wd_ends : ∀ l, l ∈ links s → ∃ x tx y ty, typed_ends s l = Some ((x, tx), (y, ty)) ∧
              x ≠ "" ∧ y ≠ "" ∧ admissible tx ty;
  wd_odf : ∀ k l l', l ∈ links s → l' ∈ links s → olt_link s k l → olt_link s k l' → l = l'
}.

Lemma topology_wired s : topology_ok s → wired s.
Proof. intros []. by split. Qed.

Lemma topology_keys s : topology_ok s → keys_ok s.
Proof. intros H. apply H. Qed.
#[export] Hint Resolve topology_keys : unoc.

Lemma wired_end_ids s l : wired s → l ∈ links s → is_Some (end_ids s l).
Proof.
  intros Ht Hl. destruct (wd_ends s Ht l Hl) as (x & tx & y & ty & (E & _)%typed_ends_Some & _). by rewrite E.
Qed.

Lemma t_end_ids s l : topology_ok s → l ∈ links s → is_Some (end_ids s l).
Proof. intros Ht%topology_wired. by apply wired_end_ids. Qed.

(** A link that satisfies [t_ends] resolves both of its interfaces. *)
Lemma end_ids_interfaces s l x y :
  end_ids s l = Some (x, y) → ∃ i j, get_interface s (a_interface_id l) = Some i ∧
    get_interface s (b_interface_id l) = Some j ∧ x = if_device_id i ∧ y = if_device_id j.
Proof.
  unfold end_ids. destruct (get_interface s (a_interface_id l)) eqn:Ea, (get_interface s (b_interface_id l)) eqn:Eb;
    naive_solver.
Qed.

Lemma extends_ont_link s s' o l :
  extends s s' → is_Some (end_ids s l) → ont_link s' o l ↔ ont_link s o l.
Proof.
  intros He [[x y] E]. destruct (end_ids_interfaces _ _ _ _ E) as (i & j & Ei & Ej & _ & _).
  assert (∀ k, k ∈ [a_interface_id l; b_interface_id l] →
    get_interface s' (peer_interface l k) = get_interface s (peer_interface l k)) as Hp.
  { intros k Hk. unfold peer_interface. case_bool_decide.
    - by rewrite Ej, (extends_interface s s' _ _ He Ej).
    - by rewrite Ei, (extends_interface s s' _ _ He Ei). }
  unfold ont_link. split; intros [Hin (i' & t & Hi & Ht & Ho)]; (split; [done|]); exists i', t.
  - rewrite <-Hp, <-(extends_type s s') by done. done.
  - rewrite Hp, (extends_type s s') by done. done.
Qed.

Lemma admissible_sym t u : admissible t u → admissible u t.
Proof.
  intros [Hc [Hp Hp'] Ho [H1 H2]]. split; [|done|naive_solver|done].
  by rewrite classify_sym.
Qed.

(** An interface that an old link mentions is an old interface. *)
Lemma mentioned_old s s' o l :
  topology_ok s → extends s s' → keys_ok s' → l ∈ links s → o ∈ interfaces s' →
  if_id o ∈ [a_interface_id l; b_interface_id l] → o ∈ interfaces s.
Proof.
  intros Ht He Hk Hl Ho Hin. destruct (t_end_ids s l Ht Hl) as [[x y] E].
  destruct (end_ids_interfaces _ _ _ _ E) as (i & j & Ei & Ej & _ & _).
  assert (∀ k i, get_interface s k = Some i → if_id o = k → o ∈ interfaces s) as Hold.
  { intros k i' Hi' Hko. pose proof (extends_interface s s' _ _ He Hi') as Hi2.
    rewrite <-Hko, get_interface_key in Hi2 by done. injection Hi2 as ->. by destruct (get_interface_Some _ _ _ Hi'). }
  apply elem_of_cons in Hin as [Hin|[Hin|Hin%elem_of_nil]%elem_of_cons]; [exact (Hold _ _ Ei Hin)|exact (Hold _ _ Ej Hin)|done].
Qed.

Lemma wired_olt_link s s' k l : wired s → extends s s' → l ∈ links s → olt_link s' k l → olt_link s k l.
Proof.
  intros Ht He Hl. unfold olt_link. rewrite (extends_type s s') by done. intros [? (z & Hj & Hz)].
  split; [done|]. exists z.
  split; [by apply (extends_joins s s' _ _ _ He (wired_end_ids s l Ht Hl))|by rewrite <-(extends_type s s')].
Qed.

Lemma wired_olt_link_up s s' k l : wired s → extends s s' → l ∈ links s → olt_link s k l → olt_link s' k l.
Proof.
  intros Ht He Hl. unfold olt_link. rewrite (extends_type s s') by done. intros [? (z & Hj & Hz)].
  split; [done|]. exists z.
  split; [by apply (extends_joins s s' _ _ _ He (wired_end_ids s l Ht Hl))|by rewrite (extends_type s s')].
Qed.

(** One more link between admissible ends. *)
Lemma wired_add s s' l x tx y ty :
  wired s → extends s s' → links s' = links s ++ [l] →
  str_ltb (a_interface_id l) (b_interface_id l) = true →
  typed_ends s' l = Some ((x, tx), (y, ty)) → x ≠ "" → y ≠ "" → admissible tx ty →
  (∀ k l0, olt_link s' k l → l0 ∈ links s → ¬ olt_link s k l0) → wired s'.
Proof.
  intros Ht He Hls Hlt Hte Hx Hy Had Hodf.
  split; setoid_rewrite Hls; setoid_rewrite elem_of_app; setoid_rewrite list_elem_of_singleton.
  - intros l0 [Hl0| ->]; [by apply (wd_sorted s Ht)|done].
  - intros l0 [Hl0| ->].
    + destruct (wd_ends s Ht l0 Hl0) as (x0 & tx0 & y0 & ty0 & E & ? & ? & ?). exists x0, tx0, y0, ty0.
      split; [by eapply extends_typed_ends|done].
    + by exists x, tx, y, ty.
  - intros k l1 l2 [H1| ->] [H2| ->] Ho1 Ho2; [| | |done].
    + apply (wd_odf s Ht k); eauto using wired_olt_link.
    + by destruct (Hodf k l1); eauto using wired_olt_link.
    + by destruct (Hodf k l2); eauto using wired_olt_link.
Qed.

(** One more link keeps the invariant when it respects the two counting rules. *)
Lemma topology_add s s' l x tx y ty :
  topology_ok s → extends s s' → links s' = links s ++ [l] → constraints s' →
  str_ltb (a_interface_id l) (b_interface_id l) = true →
  typed_ends s' l = Some ((x, tx), (y, ty)) → x ≠ "" → y ≠ "" → admissible tx ty →
  (∀ k l0, olt_link s' k l → l0 ∈ links s → ¬ olt_link s k l0) →
  (∀ o l0, o ∈ interfaces s → out_port s o → ont_link s' o l → l0 ∈ links s → ¬ ont_link s o l0) →
  topology_ok s'.
Proof.
  intros Ht He Hls Hc Hlt Hte Hx Hy Had Hodf Hout.
  destruct (wired_add s s' l x tx y ty (topology_wired s Ht) He Hls Hlt Hte Hx Hy Had Hodf) as [Hs Hends Ho].
  assert (∀ o l0, l0 ∈ links s → ont_link s' o l0 → ont_link s o l0) as Hon.
  { intros o l0 Hl0. by apply (extends_ont_link s s' o l0 He (t_end_ids s l0 Ht Hl0)). }
  split; [done..|]. setoid_rewrite Hls. setoid_rewrite elem_of_app. setoid_rewrite list_elem_of_singleton.
  intros o l1 l2 Hoi Hp H1 H2 Ho1 Ho2.
  assert (∀ l0, l0 ∈ links s → ont_link s' o l0 → o ∈ interfaces s ∧ out_port s o ∧ ont_link s o l0) as Hold.
  { intros l0 Hl0 Hol0. split; [|split; [|by apply Hon]].
    - apply (mentioned_old s s' o l0); try done; [apply Hc|by destruct Hol0].
    - unfold out_port in *. by rewrite <-(extends_type s s'). }
  destruct H1 as [H1| ->], H2 as [H2| ->]; [| | |done].
  - destruct (Hold l1 H1 Ho1) as (? & ? & ?), (Hold l2 H2 Ho2) as (_ & _ & ?). by apply (t_out s Ht o).
  - destruct (Hold l1 H1 Ho1) as (? & ? & ?). by destruct (Hout o l1).
  - destruct (Hold l2 H2 Ho2) as (? & ? & ?). by destruct (Hout o l2).
Qed.

(** Removing links keeps it, since every clause speaks of all links. *)
Lemma constraints_fewer_links s P `{∀ l, Decision (P l)} :
  constraints s → constraints (set_links (filter P (links s)) s).
Proof.
  intros [[K1 K2 K3 K4] C1 C2 C3 C4]. split; [split| ..]; simpl; try done.
  - eapply sublist_NoDup; [exact K3|apply fmap_sublist, sublist_filter].
  - eapply sublist_NoDup; [exact C3|apply fmap_sublist, sublist_filter].
Qed.

Lemma topology_fewer_links s P `{∀ l, Decision (P l)} :
  topology_ok s → topology_ok (set_links (filter P (links s)) s).
Proof.
  intros Ht. split; [apply constraints_fewer_links, Ht|..]; simpl.
  - intros l [_ Hl]%list_elem_of_filter. by apply (t_sorted s Ht).
  - intros l [_ Hl]%list_elem_of_filter. by apply (t_ends s Ht).
  - intros k l l' [_ Hl]%list_elem_of_filter [_ Hl']%list_elem_of_filter. by apply (t_odf s Ht).
  - intros o l l' Ho Hp [_ Hl]%list_elem_of_filter [_ Hl']%list_elem_of_filter. by apply (t_out s Ht).
Qed.

(** ** Derived columns *)

(** A database change that writes only derived device columns: the services
    called after a commit store statuses and signal values. *)
Record derived_only (s s' : DB) : Prop := {
  do_devices : (λ d, (dev_id d, dev_type d)) <$> devices s' = (λ d, (dev_id d, dev_type d)) <$> devices s;
  do_interfaces : interfaces s' = interfaces s;
  do_links : links s' = links s;
  do_media : media s' = media s
}.

Lemma find_type_map (ds ds' : list Device) k :
  (λ d, (dev_id d, dev_type d)) <$> ds' = (λ d, (dev_id d, dev_type d)) <$> ds →
  dev_type <$> find_row (λ d, String.eqb (dev_id d) k) ds' = dev_type <$> find_row (λ d, String.eqb (dev_id d) k) ds.
Proof.
  revert ds'. induction ds as [|d ds IH]; intros [|d' ds']; simpl; intros E; try done.
  injection E as E1 E2 E3. rewrite E1. case_match; simpl; [by rewrite E2|auto].
Qed.

Lemma topology_derived s s' : derived_only s s' → topology_ok s → topology_ok s'.
Proof.
  intros [Hd Hi Hl Hm] Ht.
  assert (∀ k, device_type_of s' k = device_type_of s k) as Hty by (intros k; by apply find_type_map).
  assert (∀ k, get_interface s' k = get_interface s k) as Hgi by (intros k; unfold get_interface; by rewrite Hi).
  assert (∀ l, end_ids s' l = end_ids s l) as He by (intros l; unfold end_ids; by rewrite !Hgi).
  assert (∀ l, typed_ends s' l = typed_ends s l) as Hte.
  { intros l. unfold typed_ends. rewrite He. destruct (end_ids s l) as [[]|]; [|done]. by rewrite !Hty. }
  assert (dev_id <$> devices s' = dev_id <$> devices s) as Hids.
  { apply (f_equal (fmap (M := list) fst)) in Hd. by rewrite <-!list_fmap_compose in Hd. }
  destruct Ht as [[[K1 K2 K3 K4] C1 C2 C3 C4] Ts Te To Tu].
  split; [split; [split|..]|..]; rewrite ?Hids, ?Hi, ?Hl, ?Hm; try done.
  - intros l Hl'. rewrite Hte. by apply Te.
  - intros k l l' Hl1 Hl2. unfold olt_link, link_joins. setoid_rewrite Hty. setoid_rewrite He. by apply To.
  - intros o l l' Ho. unfold out_port, ont_link. setoid_rewrite Hty. setoid_rewrite Hgi. by apply Tu.
Qed.

Lemma bulk_update_derived {G} `{NxGraph G} ids s : derived_only s (bulk_update_device_statuses (G := G) ids s).
Proof.
  split; try done. simpl. rewrite <-list_fmap_compose. apply list_fmap_ext. intros i d _. simpl. by case_match.
Qed.

(** * A successful creation *)

(** Classification and pair rules only look at the types: 196 cases. *)
Lemma checks_admissible a b :
  is_type a POP || is_type b POP = false → res_allowed (classify a b) = true → check_pairing a b = Ret tt →
  admissible (dev_type a) (dev_type b).
Proof.
  destruct a as [ia na ta], b as [ib nb tb]; destruct ta, tb; vm_compute; try discriminate;
    intros _ _ _; apply (bool_decide_unpack _); vm_compute; exact I.
Qed.

Lemma check_request_Ret s p a b cls :
  check_request s p = Ret (a, b, cls) →
  lc_a_interface_id p ≠ lc_b_interface_id p ∧ get_link s (lc_id p) = None ∧
  (∃ k, dev_from_iface_id s (lc_a_interface_id p) = Some k ∧ k ≠ "" ∧ get_device s k = Some a) ∧
  (∃ k, dev_from_iface_id s (lc_b_interface_id p) = Some k ∧ k ≠ "" ∧ get_device s k = Some b) ∧
  cls = classify a b ∧ admissible (dev_type a) (dev_type b) ∧
  enforce_ont_placement_rules s a b (lc_a_interface_id p) (lc_b_interface_id p) = Ret tt.
Proof.
  unfold check_request. intros H. outcome H. injection H as <- <- <-.
  repeat match goal with u : unit |- _ => destruct u end.
  assert (∀ k, nonempty k = true → k ≠ "") as Hne by (by intros []).
  repeat match goal with
  | H : truthy ?o ≫= _ = Some _ |- _ =>
      let k := fresh "k" in let E := fresh "E" in
      destruct (truthy o) as [k|] eqn:E; [|done]; apply truthy_Some in E as [E ?]
  | H : String.eqb _ _ = false |- _ => apply String.eqb_neq in H
  | H : negb _ = false |- _ => apply negb_false_iff in H
  | H : bool_decide (is_Some _) = false |- _ => apply bool_decide_eq_false, eq_None_not_Some in H
  end.
  split; [done|]. split; [done|]. split; [eauto|]. split; [eauto|]. split; [done|]. split; [|done].
  by apply checks_admissible.
Qed.

(** The interface a handler gets for an id, and the rows it leaves. *)
Lemma ensure_Ret dbo k s pend m i s' pend' m' :
  ensure_default_interface dbo k (s, pend, m) = Ret (Some i, (s', pend', m')) →
  if_id i = k ∧ get_interface s' k = Some i ∧ dev_from_iface_id s k = Some (if_device_id i) ∧
  devices s' = devices s ∧ links s' = links s ∧ media s' = media s ∧
  ∃ new, interfaces s' = interfaces s ++ new ∧ pend' = pend ++ new ∧
    ∀ j, j ∈ new → if_id j = k ∧ if_name j = "if0" ∧ get_interface s k = None.
Proof.
  unfold ensure_default_interface, dev_from_iface_id. destruct (get_interface s k) as [j|] eqn:Ej.
  { intros [= -> -> -> ->]. destruct (get_interface_Some _ _ _ Ej) as [_ <-]. repeat (split; [done|]).
    exists []. rewrite !app_nil_r. set_solver. }
  destruct (ends_with "-if0" k) eqn:Ek; [|done]. destruct (get_device s (drop_last 4 k)) as [d|] eqn:Ed; [|done].
  destruct (next_mac dbo m) as [[mac m1]|]; [|done]. intros [= <- <- <- <-].
  apply get_device_Some in Ed as [_ Ed]. split; [done|].
  split; [unfold get_interface; simpl; rewrite find_row_app; unfold get_interface in Ej; rewrite Ej; simpl; by rewrite String.eqb_refl|].
  split; [by rewrite Ed|]. split; [done|]. split; [done|]. split; [done|]. eexists. split; [done|]. split; [done|].
  intros j ->%list_elem_of_singleton. done.
Qed.

(** [ensure_default_interface] for one end leaves the other end's device as it was. *)
Lemma dev_from_other s s' k j :
  devices s' = devices s → (∃ new, interfaces s' = interfaces s ++ new ∧ ∀ i, i ∈ new → if_id i = j) → k ≠ j →
  dev_from_iface_id s' k = dev_from_iface_id s k.
Proof.
  intros Hd (new & Hi & Hnew) Hne. unfold dev_from_iface_id, get_device. rewrite Hd.
  assert (get_interface s' k = get_interface s k) as ->; [|done]. unfold get_interface. rewrite Hi, find_row_app.
  case_match; [done|]. destruct (find_row _ new) as [i|] eqn:E; [|done].
  apply find_row_Some in E as [Hin Hk%String.eqb_eq]. by rewrite (Hnew i Hin) in Hk.
Qed.

Lemma sorted_pair_ltb x y :
  x ≠ y → let '(u, v) := if str_ltb y x then (y, x) else (x, y) in str_ltb u v = true.
Proof.
  intros Hne. destruct (str_ltb y x) eqn:E; [done|]. rewrite str_ltb_leb in *. apply negb_false_iff in E.
  apply negb_true_iff. destruct (str_leb y x) eqn:E'; [|done]. by destruct Hne; apply str_leb_antisym.
Qed.

(** Seeding adds media rows behind the existing ones. *)
Lemma ensure_media_prefix s : media s `prefix_of` media (ensure_physical_media s).
Proof.
  unfold ensure_physical_media. cbn [media set_media set_interfaces_media_links].
  generalize (pm_code <$> media s) as codes. intros codes. generalize (media s) as ms. induction CANONICAL_MEDIA as [|[[[c n] k] r] ds IH]; intros ms; simpl; [by exists []; rewrite app_nil_r|].
  etrans; [|apply IH]. case_match; [done|by eexists].
Qed.

Lemma pick_default_rows md5 s k a b r s' :
  pick_default_physical_medium_id md5 s k a b = (r, s') →
  devices s' = devices s ∧ interfaces s' = interfaces s ∧ links s' = links s ∧ media s `prefix_of` media s'.
Proof.
  assert (∀ s, media s `prefix_of` media (ensure_physical_media (ensure_physical_media s))) as H2.
  { intros s0. etrans; apply ensure_media_prefix. }
  unfold pick_default_physical_medium_id. intros E. repeat case_match; simplify_eq; eauto using ensure_media_prefix.
Qed.

Lemma choose_medium_Ret env p s a b cls pm s' :
  choose_medium env p s a b cls = Ret (pm, s') →
  devices s' = devices s ∧ interfaces s' = interfaces s ∧ links s' = links s ∧ media s `prefix_of` media s' ∧
  (∀ i, pm = Some i → ∃ m, get_medium s' i = Some m ∧
     (allowed_media_codes_for_class (res_link_class cls) = [] ∨
      pm_code m ∈ allowed_media_codes_for_class (res_link_class cls))).
Proof.
  unfold choose_medium.
  destruct (match lc_physical_medium_id p with Some _ => _ | None => _ end) as [sel s1] eqn:E.
  assert (devices s1 = devices s ∧ interfaces s1 = interfaces s ∧ links s1 = links s ∧
    media s `prefix_of` media s1) as (? & ? & ? & ?).
  { destruct (lc_physical_medium_id p); [by simplify_eq|by eapply pick_default_rows]. }
  destruct (match lc_physical_medium_id p with Some i => Some i | None => sel end) as [i|]; intros Hr.
  - outcome Hr. injection Hr as <- <-. repeat (split; [done|]). intros j [= <-].
    match goal with H : get_medium _ _ = Some ?m |- _ => exists m; split; [exact H|] end.
    match goal with H : _ && _ = false |- _ => apply andb_false_iff in H as [H|H]; apply negb_false_iff in H end.
    + left. by bools.
    + right. by apply mem_true.
  - injection Hr as <- <-. done.
Qed.

(** What [prepare_link] checked, and the link it returns. *)
Record prepared (p : LinkCreate) (s : DB) (a b : Device) (cls : LinkRuleResult) (a_if b_if : Interface)
    (l : Link) (s' : DB) : Prop := {
  pr_id : link_id l = lc_id p;
  pr_ends : (a_interface_id l, b_interface_id l) =
              if str_ltb (lc_b_interface_id p) (lc_a_interface_id p)
              then (lc_b_interface_id p, lc_a_interface_id p) else (lc_a_interface_id p, lc_b_interface_id p);
  pr_status : link_status l = lc_status p ∧ link_override l = lc_override p;
  pr_upstream : enforce_single_upstream_rules s a b = Ret tt;
  pr_pon : enforce_pon_role_if_declared s a b a_if b_if = Ret tt;
  pr_rows : devices s' = devices s ∧ interfaces s' = interfaces s ∧ links s' = links s ∧ media s `prefix_of` media s';
  pr_medium : ∀ i, physical_medium_id l = Some i → ∃ m, get_medium s' i = Some m ∧
    (allowed_media_codes_for_class (res_link_class cls) = [] ∨
     pm_code m ∈ allowed_media_codes_for_class (res_link_class cls))
}.

Lemma prepare_Ret env p s a b cls a_if b_if l s' :
  prepare_link env p s a b cls a_if b_if = Ret (l, s') → prepared p s a b cls a_if b_if l s'.
Proof.
  unfold prepare_link, canonical_link_id.
  destruct (if str_ltb (lc_b_interface_id p) (lc_a_interface_id p) then _ else _) as [x y] eqn:Exy.
  intros H. outcome H. repeat match goal with u : unit |- _ => destruct u end.
  match goal with H : choose_medium _ _ _ _ _ _ = Ret ?r |- _ => destruct r as [pm s1]; rename H into Hc end.
  injection H as <- <-. apply choose_medium_Ret in Hc as (? & ? & ? & ? & Hmed).
  split; simpl; try done.
Qed.

Record created (env : Env) (p : LinkCreate) (w : World) (out : LinkResolvedOut) (w' : World)
    (a b : Device) (a_if b_if : Interface) (l : Link) (s1 s2 : DB) (new : list Interface) : Prop := {
  cr_request : check_request (w_db w) p = Ret (a, b, classify a b);
  cr_session : devices s1 = devices (w_db w) ∧ links s1 = links (w_db w) ∧ media s1 = media (w_db w) ∧
               interfaces s1 = interfaces (w_db w) ++ new;
  cr_new : ∀ j, j ∈ new → if_name j = "if0" ∧ get_interface (w_db w) (if_id j) = None ∧
             if_id j ∈ [lc_a_interface_id p; lc_b_interface_id p];
  cr_a : get_interface s1 (lc_a_interface_id p) = Some a_if ∧ if_device_id a_if = dev_id a;
  cr_b : get_interface s1 (lc_b_interface_id p) = Some b_if ∧ if_device_id b_if = dev_id b;
  cr_prepared : prepared p s1 a b (classify a b) a_if b_if l s2;
  cr_constraints : constraints (set_links (links s2 ++ [l]) s2);
  cr_after : ∃ rows m, creation_events env (still_pending env p a b new) l (classify a b) (w_rows w) = Some rows ∧
    (out, w') = after_create env l (classify a b) a_if b_if
      (mkWorld (set_links (links s2 ++ [l]) s2) m rows (w_history w) (w_topo w) (w_requests w))
}.

#[global] Arguments cr_request {env p w out w' a b a_if b_if l s1 s2 new} _.
#[global] Arguments cr_session {env p w out w' a b a_if b_if l s1 s2 new} _.
#[global] Arguments cr_new {env p w out w' a b a_if b_if l s1 s2 new} _.
#[global] Arguments cr_a {env p w out w' a b a_if b_if l s1 s2 new} _.
#[global] Arguments cr_b {env p w out w' a b a_if b_if l s1 s2 new} _.
#[global] Arguments cr_prepared {env p w out w' a b a_if b_if l s1 s2 new} _.
#[global] Arguments cr_constraints {env p w out w' a b a_if b_if l s1 s2 new} _.
#[global] Arguments cr_after {env p w out w' a b a_if b_if l s1 s2 new} _.
#[global] Arguments pr_rows {p s a b cls a_if b_if l s'} _.
#[global] Arguments pr_ends {p s a b cls a_if b_if l s'} _.
#[global] Arguments pr_upstream {p s a b cls a_if b_if l s'} _.
#[global] Arguments pr_medium {p s a b cls a_if b_if l s'} _.
#[global] Arguments pr_id {p s a b cls a_if b_if l s'} _.

Lemma commit_Ret env cls pend l s a_if b_if w out w' :
  commit_link env cls pend l s a_if b_if w = (Ret out, w') →
  constraints (set_links (links s ++ [l]) s) ∧
  ∃ rows, creation_events env pend l cls (w_rows w) = Some rows ∧
    (out, w') = after_create env l cls a_if b_if
      (mkWorld (set_links (links s ++ [l]) s) (w_mac w) rows (w_history w) (w_topo w) (w_requests w)).
Proof.
  unfold commit_link. case_bool_decide as Hc; simpl; [|done].
  destruct (creation_events env pend l cls (w_rows w)) as [rows|] eqn:Er; [|done].
  destruct (after_create env l cls a_if b_if _) as [o v] eqn:Ea. intros [= <- <-]. split; [done|].
  exists rows. by rewrite Ea.
Qed.

Lemma create_Ret env p w out w' :
  create_link_impl env p w = (Ret out, w') →
  ∃ a b a_if b_if l s1 s2 new, created env p w out w' a b a_if b_if l s1 s2 new.
Proof.
  unfold create_link_impl. destruct (check_request (w_db w) p) as [[[a b] cls]| |] eqn:Er; [|done..].
  destruct (ensure_default_interface (env_mac_a env) (lc_a_interface_id p) (w_db w, [], w_mac w))
    as [[oa [[sa pa] ma]]| |] eqn:Ea; [|done..].
  cbn [mbind Outcome_bind snd fst].
  destruct (ensure_default_interface (env_mac_b env) (lc_b_interface_id p) (sa, pa, ma))
    as [[ob [[sb pb] mb]]| |] eqn:Eb; [|done..].
  cbn [mbind Outcome_bind snd fst]. destruct oa as [a_if|]; [|done]. destruct ob as [b_if|]; [|done].
  destruct (prepare_link env p sb a b cls a_if b_if) as [[l s2]| |] eqn:Ep; [|done..].
  intros (Hc & rows & Hev & Haft)%commit_Ret.
  destruct (check_request_Ret _ _ _ _ _ Er) as (Hne & _ & (ka & Eka & _ & Ga) & (kb & Ekb & _ & Gb) & -> & _ & _).
  destruct (ensure_Ret _ _ _ _ _ _ _ _ _ Ea) as (Ia & Gia & Dia & Da & La & Ma & na & Na & Pa & Hna).
  destruct (ensure_Ret _ _ _ _ _ _ _ _ _ Eb) as (Ib & Gib & Dib & Db & Lb & Mb & nb & Nb & Pb & Hnb).
  assert (extends sa sb) as Hext by (split; [done|by exists nb]).
  assert (dev_from_iface_id sa (lc_b_interface_id p) = dev_from_iface_id (w_db w) (lc_b_interface_id p)) as Hdb.
  { apply (dev_from_other _ _ _ (lc_a_interface_id p)); [done| |done]. exists na. split; [done|].
    intros i Hi. by apply Hna. }
  exists a, b, a_if, b_if, l, sb, s2, (na ++ nb). split; try done.
  - rewrite Db, Da, Lb, La, Mb, Ma, Nb, Na, app_assoc. done.
  - intros j [Hj|Hj]%elem_of_app.
    + destruct (Hna j Hj) as (-> & -> & ?). split; [done|]. split; [done|]. by left.
    + destruct (Hnb j Hj) as (E1 & E2 & E3). rewrite E1. split; [done|]. split; [|by right; left].
      unfold get_interface in *. rewrite Na, find_row_app in E3. revert E3. by case_match.
  - split; [by apply (extends_interface sa)|]. apply get_device_Some in Ga as [_ <-]. congruence.
  - split; [done|]. apply get_device_Some in Gb as [_ <-]. congruence.
  - by eapply prepare_Ret.
  - exists rows, mb. simpl in Pa. subst pa pb. done.
Qed.

(** * The counting rules *)

Lemma upstream_link_olt s odf l :
  dev_type odf = ODF → olt_link s (dev_id odf) l → is_upstream_link s odf l = true.
Proof.
  intros Ht [Hk (x & Hj & Hx)]. unfold is_upstream_link.
  assert (x ≠ dev_id odf) as Hne by (intros ->; congruence).
  destruct Hj as [-> | ->].
  - rewrite String.eqb_refl. simpl. rewrite Hx. unfold is_type. by rewrite !bool_decide_true.
  - rewrite String.eqb_refl, orb_true_r. simpl. rewrite (proj2 (String.eqb_neq _ _) Hne), Hx.
    unfold is_type. by rewrite !bool_decide_true.
Qed.

(** An admitted ODF-OLT link finds no other upstream of the ODF. *)
Lemma single_upstream_odf s a b :
  enforce_single_upstream_rules s a b = Ret tt →
  ∀ odf l, (odf = a ∧ dev_type b = OLT ∨ odf = b ∧ dev_type a = OLT) → dev_type odf = ODF →
    l ∈ links s → ¬ olt_link s (dev_id odf) l.
Proof.
  intros Hr odf l Hcase Ht Hl Ho. unfold enforce_single_upstream_rules in Hr. apply bind_Ret in Hr as ([] & Hr & _).
  assert ((is_type a ODF && is_type b OLT) || (is_type b ODF && is_type a OLT) = true) as Hc.
  { apply orb_true_iff. unfold is_type. destruct Hcase as [[-> Hb]|[-> Ha]]; [left|right]; by rewrite !bool_decide_true. }
  rewrite Hc in Hr. apply raise_if_Ret in Hr. apply Nat.leb_gt in Hr.
  assert ((if is_type a ODF then a else b) = odf) as E.
  { unfold is_type. destruct Hcase as [[-> Hb]|[-> Ha]]; [by rewrite bool_decide_true|].
    rewrite bool_decide_false; [done|]. congruence. }
  rewrite E in Hr. unfold count_upstream_links in Hr.
  assert (l ∈ filter (λ l, is_upstream_link s odf l = true) (links s)) as Hin.
  { apply list_elem_of_filter. split; [by apply upstream_link_olt|done]. }
  destruct (filter _ (links s)); [by apply elem_of_nil in Hin|]. simpl in Hr. lia.
Qed.

(** In a well-formed topology every interface of a link has an owner. *)
Lemma end_owner s l k :
  topology_ok s → l ∈ links s → k ∈ [a_interface_id l; b_interface_id l] →
  ∃ i, get_interface s k = Some i ∧ owner s k = Some (if_device_id i).
Proof.
  intros Ht Hl Hk. destruct (t_ends s Ht l Hl) as (x & tx & y & ty & (E & _)%typed_ends_Some & Hx & Hy & _).
  destruct (end_ids_interfaces _ _ _ _ E) as (i & j & Ei & Ej & -> & ->).
  assert (∀ i, get_interface s k = Some i → if_device_id i ≠ "" → owner s k = Some (if_device_id i)) as Ho.
  { intros i' Hi' Hne. unfold owner. rewrite if_to_dev_get, Hi' by auto with unoc. simpl.
    destruct (if_device_id i'); [done|done]. }
  apply elem_of_cons in Hk as [->|[->|Hk%elem_of_nil]%elem_of_cons]; eauto. done.
Qed.

Lemma counterparts_end s i j :
  j ∈ counterparts s i → ∃ l, l ∈ links s ∧ j ∈ [a_interface_id l; b_interface_id l].
Proof.
  intros (l & Hl & Hj)%counterparts_spec. exists l. split; [done|]. destruct Hj as [[_ ->]|[_ ->]].
  - right. by left.
  - unfold peer_interface. case_bool_decide; [right; by left|by left].
Qed.

Lemma counterparts_owned s i j :
  topology_ok s → edge (counterparts s) i j → edge (owned_counterparts s) i j.
Proof.
  intros Ht Hj. apply list_elem_of_filter. split; [|done].
  destruct (counterparts_end s i j Hj) as (l & Hl & Hin). destruct (end_owner s l j Ht Hl Hin) as (k & _ & ->). done.
Qed.

Lemma is_ont_type s d t : device_type_of s d = Some t → t ∈ ONT_CLASS → is_ont s d = true.
Proof.
  unfold device_type_of, is_ont. destruct (get_device s d); simpl; [|done]. intros [= ->]. apply mem_true.
Qed.

(** A link from a port to an ONT makes the port serve that ONT. *)
Lemma ont_link_serves s o l :
  topology_ok s → o ∈ interfaces s → out_port s o → l ∈ links s → ont_link s o l → ∃ x, port_onts s (if_id o) x.
Proof.
  intros Ht Ho [Hsp _] Hl [Hin (i & t & Hi & Hty & Hont)]. exists (if_device_id i), (peer_interface l (if_id o)).
  assert (peer_interface l (if_id o) ∈ [a_interface_id l; b_interface_id l]) as Hp.
  { unfold peer_interface. case_bool_decide; [right; by left|by left]. }
  destruct (end_owner s l _ Ht Hl Hp) as (i' & Hi' & Ho'). rewrite Hi in Hi'. injection Hi' as <-.
  split; [|split; [|split; [done|by eapply is_ont_type]]].
  - eapply reaches_step; [apply reaches_seed; by left|]. apply counterparts_owned; [done|].
    apply counterparts_spec. exists l. split; [done|]. unfold peer_interface.
    apply elem_of_cons in Hin as [Hin|[Hin|Hin%elem_of_nil]%elem_of_cons]; [| |done].
    + left. rewrite Hin, bool_decide_true by done. done.
    + right. rewrite Hin. done.
  - intros E. rewrite E, get_interface_key in Hi by auto with unoc. injection Hi as <-.
    rewrite Hsp in Hty. injection Hty as <-. apply mem_true in Hont. done.
Qed.

(** A port from which links lead to an interface of an ONT serves an ONT. *)
Lemma reaching_serves s o k :
  topology_ok s → o ∈ interfaces s → device_type_of s (if_device_id o) = Some SPLITTER →
  (∀ i, get_interface s k = Some i → ∃ t, device_type_of s (if_device_id i) = Some t ∧ t ∈ ONT_CLASS) →
  reaches (edge (counterparts s)) [if_id o] k → ∃ x, port_onts s (if_id o) x.
Proof.
  intros Ht Ho Hsp Hont Hr.
  assert (k ≠ if_id o) as Hne.
  { intros ->. destruct (Hont o) as (t & Hty & Hin); [auto with unoc|]. rewrite Hsp in Hty. injection Hty as <-.
    apply mem_true in Hin. done. }
  pose proof Hr as (z & ->%list_elem_of_singleton & Hrt).
  apply rtc_inv_r in Hrt as [E|(u & _ & Hu)]; [congruence|].
  destruct (counterparts_end s u k Hu) as (l & Hl & Hin). destruct (end_owner s l k Ht Hl Hin) as (i & Hi & Hw).
  destruct (Hont i Hi) as (t & Hty & Hin').
  exists (if_device_id i), k. split; [|split; [done|split; [done|by eapply is_ont_type]]].
  revert Hr. apply reaches_closed; [intros; by apply reaches_seed|].
  intros x y Hx Hxy. eapply reaches_step; [exact Hx|by apply counterparts_owned].
Qed.

(** A splitter that admits an ONT on its OUT port has no ONT on that port. *)
Lemma splitter_free_port s sp o ont_if x y l :
  topology_ok s → dev_type sp = SPLITTER → o ∈ interfaces s → if_device_id o = dev_id sp → out_port s o →
  (∀ i, get_interface s ont_if = Some i → ∃ t, device_type_of s (if_device_id i) = Some t ∧ t ∈ ONT_CLASS) →
  (x = if_id o ∧ y = ont_if ∨ x = ont_if ∧ y = if_id o) →
  splitter_free s sp ont_if x y → l ∈ links s → ¬ ont_link s o l.
Proof.
  intros Ht Hsp Ho Hd Hp Hont Hxy [Hfree _] Hl Hol. pose proof Hp as [Hty Hname].
  unfold serving_port in Hfree. destruct (find_out_run s sp ont_if Hsp) as (r & Er & Hr). rewrite Er in Hfree.
  destruct r as [o'|].
  { destruct Hr as (bef & aft & Houts & Hreach & _).
    assert (o' ∈ out_interfaces s sp) as [Ho' Hd']%out_interfaces_own by (rewrite Houts; set_solver).
    destruct (reaching_serves s o' ont_if Ht Ho') as [z Hz]; [by rewrite Hd', <-Hd|done..|].
    by destruct (Hfree o' eq_refl z). }
  destruct (ont_link_serves s o l Ht Ho Hp Hl Hol) as [z Hz].
  refine (Hfree o _ z Hz). f_equal.
  assert (get_interface s (if_id o) = Some o) as Go by auto with unoc.
  destruct Hxy as [[-> ->]|[-> ->]]; rewrite Go, Hname.
  - by rewrite bool_decide_true.
  - destruct (get_interface s ont_if) as [i|] eqn:Ei; [|by rewrite bool_decide_true].
    rewrite (bool_decide_false (if_device_id i = _)); [by rewrite bool_decide_true|].
    intros E. destruct (Hont i eq_refl) as (t & Hi & Hin). rewrite E, <-Hd, Hty in Hi. injection Hi as <-.
    apply mem_true in Hin. done.
Qed.

(** The placement rules protect the OUT port at either end of the new link. *)
Lemma placement_port s a b ia ib o l :
  topology_ok s → a ∈ devices s → b ∈ devices s → enforce_ont_placement_rules s a b ia ib = Ret tt →
  o ∈ interfaces s → out_port s o →
  (if_id o = ia ∧ if_device_id o = dev_id a ∧ dev_type b ∈ ONT_CLASS ∧
     (∀ i, get_interface s ib = Some i → if_device_id i = dev_id b) ∨
   if_id o = ib ∧ if_device_id o = dev_id b ∧ dev_type a ∈ ONT_CLASS ∧
     (∀ i, get_interface s ia = Some i → if_device_id i = dev_id a)) →
  l ∈ links s → ¬ ont_link s o l.
Proof.
  intros Ht Ha Hb Hr Ho Hp Hside Hl. pose proof (topology_keys s Ht) as Hk.
  assert (∀ d, d ∈ devices s → device_type_of s (dev_id d) = Some (dev_type d)) as Hty.
  { intros d Hd. unfold device_type_of. by rewrite get_device_key. }
  assert (SPLITTER ∉ ONT_CLASS) as Hno by (by apply mem_false).
  destruct (ont_placement_run s a b ia ib Hk Ha Hb) as [_ Hrun]. apply Hrun in Hr. clear Hrun. pose proof Hp as [Hsp _].
  destruct Hside as [(Eo & Ed & Hont & Hi)|(Eo & Ed & Hont & Hi)]; rewrite Ed, Hty in Hsp by done; injection Hsp as Hsp.
  - assert (in_class a ONT_CLASS = false) as Ea by (apply mem_false; congruence). rewrite Ea in Hr.
    destruct Hr as [[_ Hr]|[Hr|(_ & _ & Hr)]]; [done|congruence|].
    apply (splitter_free_port s a o ib ia ib l); auto.
    intros i Gi. rewrite (Hi i Gi), Hty by done. eauto.
  - assert (in_class a ONT_CLASS = true) as Ea by (by apply mem_true). rewrite Ea in Hr.
    destruct Hr as [[Hr _]|[Hr|(_ & _ & Hr)]]; [done|congruence|].
    apply (splitter_free_port s b o ia ia ib l); auto.
    intros i Gi. rewrite (Hi i Gi), Hty by done. eauto.
Qed.

Section Creation.
Context {env : Env} {p : LinkCreate} {w : World} {out : LinkResolvedOut} {w' : World}.
Context {a b : Device} {a_if b_if : Interface} {l : Link} {s1 s2 : DB} {new : list Interface}.
Hypothesis Hcr : created env p w out w' a b a_if b_if l s1 s2 new.

Local Abbreviation s := (w_db w).
Local Abbreviation s' := (set_links (links s2 ++ [l]) s2).

Lemma created_devices :
  (a ∈ devices s ∧ dev_id a ≠ "") ∧ (b ∈ devices s ∧ dev_id b ≠ "").
Proof.
  destruct (check_request_Ret _ _ _ _ _ (cr_request Hcr))
    as (_ & _ & (ka & _ & Na & [Ga <-]%get_device_Some) & (kb & _ & Nb & [Gb <-]%get_device_Some) & _). done.
Qed.

Lemma created_extends : extends s s1 ∧ extends s s' ∧ links s' = links s ++ [l] ∧ interfaces s' = interfaces s1.
Proof.
  destruct (cr_session Hcr) as (Hd & Hl & _ & Hi).
  destruct (pr_rows (cr_prepared Hcr)) as (Hd2 & Hi2 & Hl2 & _).
  split; [split; [done|by eexists]|]. simpl. split; [split; simpl; [congruence|]; exists new; congruence|].
  split; [congruence|done].
Qed.

Lemma created_interfaces :
  get_interface s' (lc_a_interface_id p) = Some a_if ∧ get_interface s' (lc_b_interface_id p) = Some b_if.
Proof.
  destruct created_extends as (_ & _ & _ & Hi). unfold get_interface. rewrite Hi.
  split; [apply (cr_a Hcr)|apply (cr_b Hcr)].
Qed.

(** The ends of the link, in the order of their ids. *)
Lemma created_ends :
  a_interface_id l = lc_a_interface_id p ∧ b_interface_id l = lc_b_interface_id p ∧
    end_ids s' l = Some (dev_id a, dev_id b) ∨
  a_interface_id l = lc_b_interface_id p ∧ b_interface_id l = lc_a_interface_id p ∧
    end_ids s' l = Some (dev_id b, dev_id a).
Proof.
  destruct created_interfaces as [Ga Gb].
  destruct (cr_a Hcr) as [_ Da], (cr_b Hcr) as [_ Db].
  pose proof (pr_ends (cr_prepared Hcr)) as He.
  unfold end_ids. destruct (str_ltb _ _); injection He as -> ->; rewrite Ga, Gb, Da, Db; auto.
Qed.

Lemma created_type d : d ∈ devices s → topology_ok s → device_type_of s' (dev_id d) = Some (dev_type d).
Proof.
  intros Hd Ht. destruct created_extends as (_ & He & _). rewrite (extends_type s s') by done.
  unfold device_type_of. by rewrite get_device_key by auto with unoc.
Qed.

Lemma created_upstream k l0 : topology_ok s → olt_link s' k l → l0 ∈ links s → ¬ olt_link s k l0.
Proof.
  intros Ht [Hk (x & Hj & Hx)] Hl0 [Hk0 (x0 & Hj0 & Hx0)].
  destruct created_devices as [[Ha _] [Hb _]], created_extends as (He & _ & _ & _).
  destruct (cr_session Hcr) as (_ & Hls & _).
  pose proof (pr_upstream (cr_prepared Hcr)) as Hup.
  assert (olt_link s1 k l0) as Ho.
  { split; [by rewrite (extends_type s s1)|]. exists x0. rewrite (extends_type s s1) by done.
    split; [|done]. by apply (extends_joins s s1 l0 k x0 He (t_end_ids s l0 Ht Hl0)). }
  assert (k = dev_id a ∧ x = dev_id b ∨ k = dev_id b ∧ x = dev_id a) as Hkx.
  { destruct created_ends as [(_ & _ & E)|(_ & _ & E)], Hj as [Hj|Hj]; rewrite E in Hj; injection Hj as <- <-; auto. }
  rewrite <-Hls in Hl0.
  destruct Hkx as [[-> ->]|[-> ->]]; rewrite created_type in Hk, Hx by done; injection Hk as Hk; injection Hx as Hx.
  - eapply (single_upstream_odf s1 a b Hup a l0); auto.
  - eapply (single_upstream_odf s1 a b Hup b l0); auto.
Qed.

Lemma created_port o l0 :
  topology_ok s → o ∈ interfaces s → out_port s o → ont_link s' o l → l0 ∈ links s → ¬ ont_link s o l0.
Proof.
  intros Ht Ho Hp [Hin (i & t & Hi & Hty & Hont)] Hl0.
  destruct created_devices as [[Ha _] [Hb _]], created_extends as (He & He' & _), created_interfaces as [Ga Gb].
  destruct (cr_a Hcr) as [_ Da], (cr_b Hcr) as [_ Db].
  destruct (check_request_Ret _ _ _ _ _ (cr_request Hcr)) as (Hne & _ & _ & _ & _ & _ & Hpl).
  assert (get_interface s (if_id o) = Some o) as Go by auto with unoc. pose proof (extends_interface s s' _ _ He' Go) as Go'.
  assert (if_id o = lc_a_interface_id p ∧ i = b_if ∨ if_id o = lc_b_interface_id p ∧ i = a_if) as Hcase.
  { unfold peer_interface in Hi. destruct created_ends as [(Ea & Eb & _)|(Ea & Eb & _)]; rewrite Ea, Eb in Hin, Hi;
      (apply elem_of_cons in Hin as [Hin|Hin%list_elem_of_singleton]); rewrite Hin in Hi;
      revert Hi; case_bool_decide; simplify_eq; rewrite ?Ga, ?Gb; intros [= <-]; auto. }
  eapply (placement_port s a b _ _ o l0 Ht Ha Hb Hpl Ho Hp); [|done].
  destruct Hcase as [[Eo ->]|[Eo ->]]; [left|right]; (split; [done|]); rewrite Eo in Go'.
  - rewrite Ga in Go'. injection Go' as <-. split; [done|]. rewrite Db, created_type in Hty by done. injection Hty as ->.
    split; [done|]. intros j Hj. apply (extends_interface s s' _ _ He') in Hj. congruence.
  - rewrite Gb in Go'. injection Go' as <-. split; [done|]. rewrite Da, created_type in Hty by done. injection Hty as ->.
    split; [done|]. intros j Hj. apply (extends_interface s s' _ _ He') in Hj. congruence.
Qed.

Lemma created_topology : topology_ok s → topology_ok s'.
Proof.
  intros Ht. destruct created_devices as [[Ha Na] [Hb Nb]], created_extends as (He & He' & Hl & _).
  pose proof (check_request_Ret _ _ _ _ _ (cr_request Hcr)) as (Hne & _ & _ & _ & _ & Had & _).
  pose proof (pr_ends (cr_prepared Hcr)) as Hends.
  assert (str_ltb (a_interface_id l) (b_interface_id l) = true) as Hlt.
  { pose proof (sorted_pair_ltb _ _ Hne) as Hs. by rewrite <-Hends in Hs. }
  pose proof (cr_constraints Hcr) as Hc.
  destruct created_ends as [(_ & _ & E)|(_ & _ & E)].
  - apply (topology_add s s' l (dev_id a) (dev_type a) (dev_id b) (dev_type b)); try done.
    + apply typed_ends_Some. rewrite !created_type by done. done.
    + intros k l0. by apply created_upstream.
    + intros o l0. by apply created_port.
  - apply (topology_add s s' l (dev_id b) (dev_type b) (dev_id a) (dev_type a)); try done.
    + apply typed_ends_Some. rewrite !created_type by done. done.
    + by apply admissible_sym.
    + intros k l0. by apply created_upstream.
    + intros o l0. by apply created_port.
Qed.
End Creation.

(** * Sequences of requests *)

Lemma publish_all_gapless env evs st : gapless st.2 → gapless (publish_all env evs st).2.
Proof.
  unfold publish_all. revert st. induction evs as [|ev evs IH]; intros st Hg; simpl; [done|].
  apply IH, publish_gapless, Hg.
Qed.

Lemma creation_events_gapless env pend l cls rows rows' :
  creation_events env pend l cls rows = Some rows' → gapless rows → gapless rows'.
Proof.
  unfold creation_events. intros Hr Hg. apply bind_Some in Hr as (rows1 & Hr1 & Hr).
  eapply append_domain_gapless; [exact Hr|]. by eapply port_events_gapless.
Qed.

(** What the part after the commit does to the world. *)
Lemma after_create_world env l cls a_if b_if w out w' :
  (out, w') = after_create env l cls a_if b_if w →
  w_db w' = (env_go env (w_db w)).1 ∧ w_topo w' = (w_topo w + 2)%Z ∧ w_mac w' = w_mac w ∧
  w_requests w' = w_requests w ++ [("links", link_id l)] ∧ (gapless (w_rows w) → gapless (w_rows w')).
Proof.
  unfold after_create. destruct (env_go env (w_db w)) as [s' ok].
  match goal with |- context [if ok then ?x else ?y] => destruct (if ok then x else y) as [h rows] eqn:E end.
  intros [= -> ->]. simpl. split; [done|]. split; [lia|]. split; [done|]. split; [done|]. intros Hg.
  change rows with (h, rows).2. rewrite <-E. destruct ok; repeat apply publish_all_gapless; done.
Qed.

(** A refused creation only leaves the allocator's own transactions behind. *)
Lemma create_refused env p w r w' :
  create_link_impl env p w = (r, w') → (∀ out, r ≠ Ret out) → w' = with_mac (w_mac w') w.
Proof.
  assert (w = with_mac (w_mac w) w) as Hw by (by destruct w).
  unfold create_link_impl, commit_link. intros E Hr. repeat case_match; simplify_eq; try done.
  all: by edestruct Hr.
Qed.

Inductive LinkOp := OpCreate (env : Env) (p : LinkCreate) | OpDelete (env : Env) (lid : string).

Definition op_env (o : LinkOp) : Env := match o with OpCreate env _ | OpDelete env _ => env end.

Definition link_op (w : World) (o : LinkOp) : World :=
  match o with OpCreate env p => (create_link_impl env p w).2 | OpDelete env lid => (delete_link_impl env lid w).2 end.

Lemma delete_run env lid w r w' :
  delete_link_impl env lid w = (r, w') →
  (get_link (w_db w) lid = None ∧ r = Raise (HttpException 404 "Not found") ∧ w' = w) ∨
  (is_Some (get_link (w_db w) lid) ∧ r = Ret tt ∧
   w_db w' = (env_go env (set_links (filter (λ k, link_id k ≠ lid) (links (w_db w))) (w_db w))).1 ∧
   w_topo w' = (w_topo w + 1)%Z ∧ w_mac w' = w_mac w ∧ w_requests w' = w_requests w ++ [("links", lid)] ∧
   (gapless (w_rows w) → gapless (w_rows w'))).
Proof.
  unfold delete_link_impl. destruct (get_link (w_db w) lid) as [l|]; [|intros [= <- <-]; by left].
  intros E. right. split; [by eexists|]. revert E.
  destruct (append_domain_event _ _ _ _ _ _) as [rows|] eqn:Er; [|by vm_compute in Er].
  destruct (env_go env _) as [s2 ok].
  match goal with |- context [if ok then ?x else ?y] => destruct (if ok then x else y) as [h rows'] eqn:E end.
  intros [= <- <-]. simpl. repeat (split; [done|]). intros Hg.
  change rows' with (h, rows').2. rewrite <-E.
  assert (gapless rows) by (eapply append_domain_gapless; eauto).
  destruct ok; repeat apply publish_all_gapless; done.
Qed.

(** One request keeps both invariants. *)
Lemma link_op_inv w o :
  (∀ s, derived_only s (env_go (op_env o) s).1) → topology_ok (w_db w) → gapless (w_rows w) →
  topology_ok (w_db (link_op w o)) ∧ gapless (w_rows (link_op w o)).
Proof.
  intros Hgo Ht Hg. destruct o as [env p|env lid]; simpl in *.
  - destruct (create_link_impl env p w) as [r w'] eqn:E. simpl. destruct r as [out|e|].
    2,3: apply create_refused in E as ->; [done|by intros].
    destruct (create_Ret _ _ _ _ _ E) as (a & b & a_if & b_if & l & s1 & s2 & new & Hcr).
    destruct (cr_after Hcr) as (rows & m & Hev & Haft). apply after_create_world in Haft as (-> & _ & _ & _ & Hrows).
    split; [|by eapply Hrows, creation_events_gapless].
    eapply topology_derived; [apply Hgo|]. by eapply created_topology.
  - destruct (delete_link_impl env lid w) as [r w'] eqn:E. simpl.
    apply delete_run in E as [(_ & _ & ->)|(_ & _ & -> & _ & _ & _ & Hrows)]; [done|]. split; [|auto].
    eapply topology_derived; [apply Hgo|]. by apply topology_fewer_links.
Qed.

(** ** A small network that is built by requests *)

Definition request (a b id : string) (medium : option Z) : LinkCreate :=
  mkLinkCreate id a b FIBER UP None None None medium.

(** The status service recomputes the devices at hand. *)
Definition go_status (s : DB) : DB * bool :=
  (bulk_update_device_statuses (G := AssocGraph) (dev_id <$> devices s) s, true).

Definition env0 : Env := mkEnv "t" DbOk DbOk true (λ _, 0%Z) true go_status.

Lemma env0_derived s : derived_only s (env_go env0 s).1.
Proof. apply bulk_update_derived. Qed.

Definition bare : DB := mkDB demo_devices demo_interfaces [] [] [] [] [] [] [].
Definition bare_world : World := mkWorld bare fresh_state [] [] 0 [].

(** The access chain is connected and one link is removed again. *)
Definition build_requests : list LinkOp := [
  OpCreate env0 (request "cr-if1" "olt-up" "cr-if1__olt-up" None);
  OpCreate env0 (request "olt-pon" "odf-if0" "olt-pon__odf" None);
  OpCreate env0 (request "odf-if1" "spl-in" "odf-if1__spl-in" None);
  OpCreate env0 (request "spl-out1" "ont-if0" "spl-out1__ont" None);
  OpDelete env0 "cr-if1__olt-up"].

Lemma bare_ok : topology_ok bare.
Proof.
  split; simpl; try (intros; by set_solver). apply (bool_decide_unpack _). vm_compute. exact I.
Qed.

(** The topology invariant survives every sequence of link requests.  Each
    request creates or deletes a link, may succeed, be refused or fail, and may
    be followed by status writes of the Go services.  In the end every link
    still joins two existing devices of an admissible pair with its interface
    ids in order, the table constraints hold, no ODF has two OLT links, no OUT
    port of a splitter has two ONT links, and the event log has no gap. *)
Lemma link_requests_keep_topology ops w :
  (∀ o, o ∈ ops → ∀ s, derived_only s (env_go (op_env o) s).1) →
  topology_ok (w_db w) → gapless (w_rows w) →
  topology_ok (w_db (foldl link_op w ops)) ∧ gapless (w_rows (foldl link_op w ops)).
Proof.
  revert w. induction ops as [|o ops IH]; intros w Hgo Ht Hg; simpl; [done|].
  destruct (link_op_inv w o) as [Ht' Hg']; [apply Hgo; by left|done..|].
  apply IH; [|done..]. intros o' Ho'. apply Hgo. by right.
Qed.

Lemma link_requests_keep_topology_witness :
  topology_ok (w_db (foldl link_op bare_world build_requests)) ∧
  link_id <$> links (w_db (foldl link_op bare_world build_requests)) = ["olt-pon__odf"; "odf-if1__spl-in"; "spl-out1__ont"].
Proof.
  split; [|vm_compute; reflexivity].
  apply (link_requests_keep_topology build_requests bare_world).
  - intros o Ho s. repeat (apply elem_of_cons in Ho as [->|Ho]; [apply env0_derived|]). by apply elem_of_nil in Ho.
  - apply bare_ok.
  - apply gapless_nil.
Defined.

(** ** Totality *)

Lemma check_request_total s p : keys_ok s → check_request s p ≠ Diverge.
Proof.
  intros Hk H. unfold check_request in H. diverge H; try done.
  - unfold check_pairing in H. diverge H. revert H; clear. case_match; [apply raise_if_total|done].
  - repeat match goal with
    | Hm : or_raise (truthy ?o ≫= _) _ = Ret _ |- _ =>
        apply or_raise_Ret in Hm; destruct (truthy o); [|done]; apply get_device_Some in Hm as [? _]
    end.
    eapply ont_placement_run; [exact Hk| | |exact H]; done.
Qed.

Lemma ensure_total dbo k s pend m :
  (Z.of_nat (size (used m)) + 1 < CAP)%Z →
  match ensure_default_interface dbo k (s, pend, m) with
  | Ret (_, (_, _, m')) => (size (used m') ≤ size (used m) + 2)%nat
  | Raise _ => True
  | Diverge => False
  end.
Proof.
  intros Hm. unfold ensure_default_interface. destruct (get_interface s k); [lia|].
  destruct (ends_with _ k); [|lia]. destruct (get_device s _); [|lia].
  destruct (next_mac_run dbo m Hm) as (mac & m' & -> & _ & _ & _ & Hs). done.
Qed.

Lemma choose_medium_total env p s a b cls : choose_medium env p s a b cls ≠ Diverge.
Proof.
  unfold choose_medium. destruct (match lc_physical_medium_id p with Some _ => _ | None => _ end) as [sel s1].
  case_match; [|done]. intros Hd. diverge Hd. done.
Qed.

Lemma prepare_total env p s a b cls a_if b_if : prepare_link env p s a b cls a_if b_if ≠ Diverge.
Proof.
  unfold prepare_link. destruct (canonical_link_id _ _) as [[[x y] c] u]. intros Hd. diverge Hd.
  all: revert Hd; clear.
  all: try apply choose_medium_total.
  all: try unfold enforce_pon_role_if_declared; repeat case_match; first [done|apply raise_if_total].
Qed.

Lemma create_total env p w :
  keys_ok (w_db w) → (Z.of_nat (size (used (w_mac w))) + 3 < CAP)%Z → (create_link_impl env p w).1 ≠ Diverge.
Proof.
  intros Hk Hm. unfold create_link_impl.
  destruct (check_request (w_db w) p) as [[[a b] cls]| |] eqn:Er; [|done|by apply check_request_total in Er].
  pose proof (ensure_total (env_mac_a env) (lc_a_interface_id p) (w_db w) [] (w_mac w)) as Ha.
  destruct (ensure_default_interface _ _ _) as [[oa [[sa pa] ma]]| |]; [|done|by destruct Ha; lia].
  cbn [mbind Outcome_bind snd fst].
  pose proof (ensure_total (env_mac_b env) (lc_b_interface_id p) sa pa ma) as Hb.
  destruct (ensure_default_interface _ _ _) as [[ob [[sb pb] mb]]| |]; [|done|destruct Hb; lia].
  cbn [mbind Outcome_bind snd fst]. destruct oa as [a_if|], ob as [b_if|]; try done.
  destruct (prepare_link _ _ _ _ _ _ _ _) as [[l s2]| |] eqn:Ep; [|done|by apply prepare_total in Ep].
  unfold commit_link. repeat case_match; done.
Qed.

(** C11. A link request is atomic and always ends.  With a few MAC addresses to
    spare the handler never runs out of fuel.  A refused request changes nothing
    but the MAC allocator, whose table has its own transactions.  An accepted
    one adds exactly the requested link behind the existing ones, creates
    nothing but missing [-if0] interfaces of the two ends and canonical media
    rows, touches no device before the Go services run, moves the topology
    version by two and schedules one recomputation for the link. *)
Theorem create_link_atomic env p w r w' :
  keys_ok (w_db w) → (Z.of_nat (size (used (w_mac w))) + 3 < CAP)%Z →
  create_link_impl env p w = (r, w') →
  match r with
  | Diverge => False
  | Raise _ => w' = with_mac (w_mac w') w
  | Ret out => ∃ s' l new,
      w_db w' = (env_go env s').1 ∧ devices s' = devices (w_db w) ∧
      interfaces s' = interfaces (w_db w) ++ new ∧ links s' = links (w_db w) ++ [l] ∧
      media (w_db w) `prefix_of` media s' ∧ link_id l = lc_id p ∧
      (∀ j, j ∈ new → if_name j = "if0" ∧ get_interface (w_db w) (if_id j) = None ∧
         if_id j ∈ [lc_a_interface_id p; lc_b_interface_id p]) ∧
      w_topo w' = (w_topo w + 2)%Z ∧ w_requests w' = w_requests w ++ [("links", lc_id p)]
  end.
Proof.
  intros Hk Hm E. pose proof (create_total env p w Hk Hm) as Hnd. rewrite E in Hnd. destruct r as [out|e|]; [|..|done].
  2: by eapply create_refused.
  destruct (create_Ret _ _ _ _ _ E) as (a & b & a_if & b_if & l & s1 & s2 & new & Hcr).
  destruct (cr_after Hcr) as (rows & m & _ & Haft). apply after_create_world in Haft as (Hdb & Htv & _ & Hreq & _).
  destruct (cr_session Hcr) as (Hd1 & Hl1 & Hm1 & Hi1), (pr_rows (cr_prepared Hcr)) as (Hd2 & Hi2 & Hl2 & Hm2).
  exists (set_links (links s2 ++ [l]) s2), l, new. rewrite <-(pr_id (cr_prepared Hcr)).
  simpl in *. split; [done|]. repeat (split; [congruence|]). split; [apply (cr_new Hcr)|]. done.
Qed.

(** Devices that have no interface yet. *)
Definition new_port_world : World :=
  mkWorld (mkDB demo_devices [] [] [] [] [] [] [] []) fresh_state [] [] 0 [].

Lemma new_port_keys : keys_ok (w_db new_port_world).
Proof. constructor; vm_compute; repeat (constructor; [set_solver|]); constructor. Qed.

Lemma create_link_atomic_witness :
  ∃ r w', create_link_impl env0 (request "cr-if0" "olt-if0" "cr__olt" None) new_port_world = (r, w') ∧
    if_id <$> interfaces (w_db w') = ["cr-if0"; "olt-if0"] ∧
    w_requests w' = w_requests new_port_world ++ [("links", "cr__olt")].
Proof.
  destruct (create_link_impl env0 (request "cr-if0" "olt-if0" "cr__olt" None) new_port_world) as [r w'] eqn:E.
  pose proof (create_link_atomic _ _ _ _ _ new_port_keys eq_refl E) as H. exists r, w'. split; [done|].
  vm_compute in E. injection E as <- <-. split; [reflexivity|].
  destruct H as (s' & l & new & _ & _ & _ & _ & _ & _ & _ & _ & Hr). exact Hr.
Defined.

(** * What the response says *)

Lemma after_create_out env l cls a_if b_if w out w' :
  (out, w') = after_create env l cls a_if b_if w →
  out_id out = link_id l ∧ (out_a_interface_id out, out_b_interface_id out) = (a_interface_id l, b_interface_id l) ∧
  out_a_device_id out = if_device_id a_if ∧ out_b_device_id out = if_device_id b_if ∧
  out_physical_medium_id out = physical_medium_id l ∧ out_rule_id out = Some (res_rule_id cls).
Proof.
  unfold after_create. destruct (env_go env (w_db w)) as [s' ok].
  match goal with |- context [if ok then ?x else ?y] => destruct (if ok then x else y) as [h rows] end.
  by intros [= -> ->].
Qed.

(** The response pairs interfaces and devices in different orders.  The
    interface ids come back sorted, the device ids in the order of the request:
    [a_device_id] is the device of the requested a end.  So for a request whose
    second interface id is the smaller one, [a_interface_id] names the
    requested b end and [a_device_id] the device at the other end of the link. *)
Lemma response_devices env p w out w' :
  create_link_impl env p w = (Ret out, w') →
  dev_from_iface_id (w_db w) (lc_a_interface_id p) = Some (out_a_device_id out) ∧
  dev_from_iface_id (w_db w) (lc_b_interface_id p) = Some (out_b_device_id out) ∧
  (out_a_interface_id out, out_b_interface_id out) =
    (if str_ltb (lc_b_interface_id p) (lc_a_interface_id p)
     then (lc_b_interface_id p, lc_a_interface_id p) else (lc_a_interface_id p, lc_b_interface_id p)).
Proof.
  intros E. destruct (create_Ret _ _ _ _ _ E) as (a & b & a_if & b_if & l & s1 & s2 & new & Hcr).
  destruct (cr_after Hcr) as (rows & m & _ & Haft). apply after_create_out in Haft as (_ & -> & -> & -> & _).
  destruct (check_request_Ret _ _ _ _ _ (cr_request Hcr))
    as (_ & _ & (ka & Eka & _ & [_ Ga]%get_device_Some) & (kb & Ekb & _ & [_ Gb]%get_device_Some) & _).
  destruct (cr_a Hcr) as [_ ->], (cr_b Hcr) as [_ ->]. rewrite Eka, Ekb, Ga, Gb. split; [done|]. split; [done|].
  apply (pr_ends (cr_prepared Hcr)).
Qed.

(** A request with the larger interface id first: [a_device_id] does not own [a_interface_id]. *)
Lemma response_devices_witness :
  ∃ out w', create_link_impl env0 (request "olt-if0" "cr-if0" "cr__olt" None) new_port_world = (Ret out, w') ∧
    out_a_interface_id out = "cr-if0" ∧ out_a_device_id out = "olt" ∧
    dev_from_iface_id (w_db new_port_world) "olt-if0" = Some (out_a_device_id out).
Proof.
  destruct (create_link_impl env0 (request "olt-if0" "cr-if0" "cr__olt" None) new_port_world) as [[out| |] w'] eqn:E;
    [|vm_compute in E; discriminate E..].
  pose proof (response_devices _ _ _ _ _ E) as [H _]. exists out, w'. split; [done|].
  vm_compute in E. injection E as <- <-. split; [reflexivity|]. split; [reflexivity|]. exact H.
Defined.

(** * Media *)

(** The classes of both tables have the same media, uplinks apart. *)
Lemma class_media a b :
  res_allowed (classify a b) = true → res_link_class (classify a b) ≠ "access_uplink" →
  allowed_media_codes_for_class (res_link_class (classify a b)) ≠ [] ∧
  allowed_media_codes_for_class (res_link_class (classify_link a b)) =
    allowed_media_codes_for_class (res_link_class (classify a b)).
Proof.
  destruct a as [ia na ta], b as [ib nb tb]; destruct ta, tb; vm_compute; try discriminate; intros; try done;
    match goal with H : ?x ≠ ?x |- _ => by destruct H end.
Qed.

(** Media of accepted links.  The devices at the two ends are of an
    admitted pair, and a link is stored either without a medium or with an
    existing one; that medium is one which the viability rules allow for the
    link, except on uplinks of an OLT or AON switch to a router: there the
    admission class [access_uplink] has no media table and every medium passes. *)
Lemma created_link_medium env p w out w' :
  create_link_impl env p w = (Ret out, w') →
  ∃ a b s' l, get_device (w_db w) (out_a_device_id out) = Some a ∧ get_device (w_db w) (out_b_device_id out) = Some b ∧
    w_db w' = (env_go env s').1 ∧ l ∈ links s' ∧ link_id l = out_id out ∧
    physical_medium_id l = out_physical_medium_id out ∧ out_rule_id out = Some (res_rule_id (classify a b)) ∧
    ∀ i, out_physical_medium_id out = Some i → ∃ m, get_medium s' i = Some m ∧
      (pm_code m ∈ allowed_media_codes_for_class (res_link_class (classify_link a b)) ∨
       res_link_class (classify a b) = "access_uplink").
Proof.
  intros E. destruct (create_Ret _ _ _ _ _ E) as (a & b & a_if & b_if & l & s1 & s2 & new & Hcr).
  destruct (cr_after Hcr) as (rows & m & _ & Haft). pose proof (after_create_world _ _ _ _ _ _ _ _ Haft) as (Hdb & _).
  apply after_create_out in Haft as (-> & _ & -> & -> & -> & ->).
  destruct (check_request_Ret _ _ _ _ _ (cr_request Hcr))
    as (_ & _ & (ka & _ & _ & Ga) & (kb & _ & _ & Gb) & _ & Had & _).
  destruct (cr_a Hcr) as [_ ->], (cr_b Hcr) as [_ ->].
  destruct (get_device_Some _ _ _ Ga) as [_ Ea], (get_device_Some _ _ _ Gb) as [_ Eb].
  exists a, b, (set_links (links s2 ++ [l]) s2), l. rewrite Ea, Eb. repeat (split; [done|]).
  split; [simpl; set_solver|]. repeat (split; [done|]). intros i Hi.
  destruct (pr_medium (cr_prepared Hcr) i Hi) as (md & Hmd & Hcode). exists md. split; [done|].
  destruct (decide (res_link_class (classify a b) = "access_uplink")) as [|Hn]; [by right|left].
  destruct (class_media a b) as [Hne ->]; [|done|by destruct Hcode].
  rewrite <-(ad_class _ _ Had). by destruct a, b.
Qed.

(** A copper uplink between the OLT and the core router is accepted; the link
    is not viable, because the class [access_uplink_olt] is single-mode only. *)
Definition copper_world : World :=
  mkWorld (ensure_physical_media bare) fresh_state [] [] 0 [].

Lemma created_link_medium_witness :
  ∃ out w' l, create_link_impl env0 (request "cr-if1" "olt-up" "cr-if1__olt-up" (Some 6%Z)) copper_world = (Ret out, w') ∧
    get_link (w_db w') (out_id out) = Some l ∧ is_link_physically_viable None (w_db w') l = false ∧
    ∃ a, get_device (w_db copper_world) (out_a_device_id out) = Some a.
Proof.
  destruct (create_link_impl env0 (request "cr-if1" "olt-up" "cr-if1__olt-up" (Some 6%Z)) copper_world)
    as [[out| |] w'] eqn:E; [|vm_compute in E; discriminate E..].
  pose proof (created_link_medium _ _ _ _ _ E) as (a & _ & _ & _ & Ha & _).
  vm_compute in E. injection E as <- <-. eexists _, _, _. split; [reflexivity|]. split; [vm_compute; reflexivity|].
  split; [vm_compute; reflexivity|]. exists a. exact Ha.
Defined.

(** * Gaps of the rules *)

Definition accepted {A} (o : Outcome A) : bool := match o with Ret _ => true | _ => false end.

(** The OLT, ODF and splitter are connected, the ONT is not. *)
Definition headed_world : World := foldl link_op bare_world (take 3 build_requests).

Definition ont_to_odf : LinkCreate := request "odf-if1" "ont-if0" "odf-if1__ont" None.
Definition ont_to_splitter : LinkCreate := request "spl-out1" "ont-if0" "spl-out1__ont" None.

(** Whether an ONT may have two upstreams depends on the order of the requests:
    the single-upstream rule only runs for links between an ONT and an ODF. *)
Lemma ont_upstream_order :
  accepted (create_link_impl env0 ont_to_splitter (link_op headed_world (OpCreate env0 ont_to_odf))).1 = true ∧
  (create_link_impl env0 ont_to_odf (link_op headed_world (OpCreate env0 ont_to_splitter))).1 =
    Raise (multiple_upstreams (demo_device "ont")).
Proof. split; vm_compute; reflexivity. Qed.

(** The capacity rules of a splitter look at OUT ports only: any other interface
    of the splitter takes ONTs without limit. *)
Lemma splitter_limit_bypassed :
  let spl_if0 := request "spl-if0" "ont-if0" "spl__ont" None in
  let w := foldl link_op headed_world [OpCreate env0 spl_if0] in
  accepted (create_link_impl env0 spl_if0 headed_world).1 = true ∧
  compute_splitter_usage (w_db w) (demo_device "spl") = Some (2, 0, 0).
Proof. split; vm_compute; reflexivity. Qed.

(** When the medium is defaulted, the interfaces created on the way are flushed
    before the events are written, so no [PORT_CONNECTED] is recorded for them. *)
Lemma port_connected_lost env p a b pending : lc_physical_medium_id p = None → still_pending env p a b pending = [].
Proof. unfold still_pending. by intros ->. Qed.

Lemma port_connected_lost_run :
  let w := (create_link_impl env0 (request "cr-if0" "olt-if0" "cr__olt" None) new_port_world).2 in
  length (interfaces (w_db w)) = 2 ∧ "PORT_CONNECTED" ∉ event_type <$> w_rows w.
Proof. split; [vm_compute; reflexivity|]. by apply mem_false. Qed.
