(* ===== verification/LinkChangesProofs.v ===== *)
(** What updates and overrides of links keep and report. *)

From S2P Require Import Prelude PyFloat Models LinkRules Worklist Adjacency Scenario Catalog LinkStatus L3Trace.
From S2P Require Import EventStore Errors MacAllocator Splitter LinkPolicy Links.
From S2P Require Import NxGraph Pathfinding Dependency DependencyProofs Status StatusRecompute StatusProofs CausalChain StatusClient.
From S2P Require Import OpticalPath OpticalPathProofs OpticalService OpticalServiceProofs LinksProofs Devices LinkChanges.

(** * The topology under changes of link columns *)

Definition link_key (l : Link) : string * string * string := (link_id l, a_interface_id l, b_interface_id l).

Lemma link_key_ends l l' : link_key l = link_key l' →
  link_id l = link_id l' ∧ a_interface_id l = a_interface_id l' ∧ b_interface_id l = b_interface_id l'.
Proof. by intros [=]. Qed.

Lemma topology_relinked s ls :
  topology_ok s → link_key <$> ls = link_key <$> links s → topology_ok (set_links ls s).
Proof.
  intros Ht Hkey. set (s' := set_links ls s).
  assert (∀ l, l ∈ ls → ∃ l0, l0 ∈ links s ∧ link_key l = link_key l0) as Hold.
  { intros l Hl. apply (list_elem_of_fmap_2 link_key) in Hl. rewrite Hkey in Hl.
    apply list_elem_of_fmap in Hl as (l0 & ? & ?). eauto. }
  assert (∀ l l0, link_key l = link_key l0 → typed_ends s' l = typed_ends s l0 ∧
    (∀ x y, link_joins s' l x y ↔ link_joins s l0 x y) ∧ (∀ o, ont_link s' o l ↔ ont_link s o l0)) as Hsame.
  { intros l l0 (_ & Ea & Eb)%link_key_ends. unfold typed_ends, link_joins, ont_link, end_ids, peer_interface.
    rewrite Ea, Eb. done. }
  assert (link_id <$> ls = link_id <$> links s) as Hids.
  { apply (f_equal (fmap (M := list) (λ q : string * string * string, q.1.1))) in Hkey. by rewrite <-!list_fmap_compose in Hkey. }
  assert (constraints s') as Hc.
  { destruct (t_constraints s Ht) as [[K1 K2 K3 K4] C1 C2 C3 C4].
    split; [split|..]; try done; unfold s'; cbn [links set_links set_interfaces_media_links]; [by rewrite Hids|].
    apply (f_equal (fmap (M := list) (λ q : string * string * string, (q.1.2, q.2)))) in Hkey.
    rewrite <-!list_fmap_compose in Hkey. by rewrite (Hkey : (λ l, (a_interface_id l, b_interface_id l)) <$> ls = _). }
  assert (∀ l l' l0, l ∈ ls → l' ∈ ls → link_key l = link_key l0 → link_key l' = link_key l0 → l = l') as Huniq.
  { intros l l' l0 Hl Hl' (E & _)%link_key_ends (E' & _)%link_key_ends.
    pose proof (get_link_key s' l (c_keys s' Hc) Hl) as G. pose proof (get_link_key s' l' (c_keys s' Hc) Hl') as G'. congruence. }
  split; [done|..].
  - intros l (l0 & Hl0 & (_ & -> & ->)%link_key_ends)%Hold. by apply (t_sorted s Ht).
  - intros l (l0 & Hl0 & (-> & _)%Hsame)%Hold. by apply (t_ends s Ht).
  - intros k l l' Hl Hl'. destruct (Hold l Hl) as (l0 & Hl0 & E), (Hold l' Hl') as (l1 & Hl1 & E').
    unfold olt_link. destruct (Hsame l l0 E) as (_ & Hj & _), (Hsame l' l1 E') as (_ & Hj' & _).
    setoid_rewrite Hj. setoid_rewrite Hj'. intros Ho Ho'. apply (Huniq l l' l0); try done.
    by rewrite (t_odf s Ht k l0 l1 Hl0 Hl1 Ho Ho').
  - intros o l l' Ho Hp Hl Hl'. destruct (Hold l Hl) as (l0 & Hl0 & E), (Hold l' Hl') as (l1 & Hl1 & E').
    destruct (Hsame l l0 E) as (_ & _ & ->), (Hsame l' l1 E') as (_ & _ & ->). intros Ho1 Ho2.
    apply (Huniq l l' l0); try done. by rewrite (t_out s Ht o l0 l1 Ho Hp Hl0 Hl1 Ho1 Ho2).
Qed.

(** Replacing the row of a link by one with the same key. *)
Lemma update_link_keys s l l0 :
  keys_ok s → l0 ∈ links s → link_key l = link_key l0 →
  link_key <$> update_row (λ k, String.eqb (link_id k) (link_id l)) (λ _, l) (links s) = link_key <$> links s.
Proof.
  intros Hk Hl0 E. pose proof (link_key_ends _ _ E) as (Eid & _). rewrite Eid.
  assert (∀ r, r ∈ links s → String.eqb (link_id r) (link_id l0) = true → r = l0) as Hr.
  { intros r Hr Er%String.eqb_eq. pose proof (get_link_key s r Hk Hr) as G. pose proof (get_link_key s l0 Hk Hl0) as G0. congruence. }
  clear Hl0. induction (links s) as [|r rs IH]; simpl; [done|]. destruct (String.eqb (link_id r) (link_id l0)) eqn:Er; csimpl.
  - f_equal. rewrite E. by rewrite (Hr r (list_elem_of_here _ _) Er).
  - f_equal. apply IH. intros x Hx. apply Hr. by right.
Qed.

(** * What the services called afterwards write *)

(** Only derived device columns. *)
Definition derived (s s' : DB) : Prop :=
  derived_only s s' ∧ addresses s' = addresses s ∧ routes s' = routes s ∧ neighbors s' = neighbors s ∧
  bridge_domains s' = bridge_domains s ∧ mac_entries s' = mac_entries s.

Lemma derived_refl s : derived s s.
Proof. by repeat split. Qed.

Lemma derived_trans s1 s2 s3 : derived s1 s2 → derived s2 s3 → derived s1 s3.
Proof.
  intros ([D1 I1 L1 M1] & A1 & R1 & N1 & B1 & E1) ([D2 I2 L2 M2] & A2 & R2 & N2 & B2 & E2).
  split; [split|split_and!]; congruence.
Qed.

Lemma derived_set_devices s ds : dev_id <$> ds = dev_id <$> devices s → dev_type <$> ds = dev_type <$> devices s →
  derived s (StatusRecompute.set_devices ds s).
Proof.
  intros Hi Ht. split; [|done]. split; try done. cbn [devices StatusRecompute.set_devices].
  revert Hi Ht. generalize (devices s). induction ds as [|d ds IH]; intros [|d' ds']; csimpl; try done.
  intros [= -> Hi] [= -> Ht]. f_equal. by apply IH.
Qed.

Section changes.
Context {G : Type} `{NxGraph G} `{Dijkstra G}.

Lemma bulk_derived ids s : derived s (bulk_update_device_statuses (G := G) ids s).
Proof.
  apply derived_set_devices; rewrite <-list_fmap_compose; apply list_fmap_ext; intros _ d _; simpl; by case_match.
Qed.

Lemma propagate_derived c reply ids s r s' :
  propagate_status (G := G) c reply ids true s = Some (r, s') → derived s s'.
Proof.
  intros E. destruct (propagate_or_warn_rows (G := G) c reply ids s) as (aff & Hr).
  unfold propagate_or_warn in Hr. rewrite E in Hr. destruct Hr as [->| ->]; [apply derived_refl|apply bulk_derived].
Qed.

Lemma recompute_derived env v go ids tv b st ts st' :
  recompute_devices_status (G := G) env v go ids tv b st = Some (ts, st') → derived (rec_db st) (rec_db st').
Proof.
  destruct (recompute_run (G := G) env v go ids tv b st) as (ts0 & st0 & -> & _ & Hdb & _). intros [= <- <-].
  rewrite Hdb. destruct ts0; [apply derived_refl|apply bulk_derived].
Qed.

Lemma ont_budget_type cat s a d : dev_type (ont_budget cat s a d) = dev_type d.
Proof. unfold ont_budget. by destruct (negb _). Qed.

(** The row an ONT gets keeps its id and type. *)
Lemma new_row_key go cat (w : OpticalWorld (G := G)) d :
  keys_ok (rec_db (ow_rec w)) → d ∈ devices (rec_db (ow_rec w)) →
  dev_id (new_row (budgets go cat w) d) = dev_id d ∧ dev_type (new_row (budgets go cat w) d) = dev_type d.
Proof.
  intros Hk Hd. unfold new_row. destruct (find_row _ _) as [[d1 d2]|] eqn:E; [|done].
  apply find_row_Some in E as [Hin Hid%String.eqb_eq]. cbn [fst snd] in *.
  assert (d1 = d) as ->.
  { assert (d1 ∈ fst <$> budgets go cat w) as Hd1 by (apply list_elem_of_fmap; by exists (d1, d2)).
    rewrite budgets_fst in Hd1. apply list_elem_of_filter in Hd1 as [_ Hd1].
    pose proof (get_device_key _ d Hk Hd) as E1. pose proof (get_device_key _ d1 Hk Hd1) as E2. congruence. }
  apply budget_loop_rows in Hin as [a ->]. by rewrite ont_budget_id, ont_budget_type.
Qed.

Lemma optical_derived go cat env v sgo ok now (w w' : OpticalWorld (G := G)) ts :
  keys_ok (rec_db (ow_rec w)) →
  recompute_optical_paths_for_affected_onts go cat env v sgo ok now w = Some (ts, w') →
  derived (rec_db (ow_rec w)) (rec_db (ow_rec w')) ∧ (gapless (ow_rows w) → gapless (ow_rows w')).
Proof.
  intros Hk. pose proof (new_row_key go cat w) as Hrow. unfold budgets in Hrow.
  unfold recompute_optical_paths_for_affected_onts. destruct (budget_loop _ _ _ _ _) as [rows [client memo]].
  destruct (filter _ rows) as [|r0 rest]; cbv zeta; [intros [= _ <-]; split; [apply derived_refl|done]|].
  destruct (foldl (λ acc r, publish ok now (signal_event r.2) acc) _ _) as [history log] eqn:Ep.
  destruct (recompute_devices_status _ _ _ _ _ _ _) as [[ts' st']|] eqn:Er; [|done]. intros [= _ <-].
  apply recompute_derived in Er. cbn [ow_rec ow_rows rec_db] in *. split.
  - refine (derived_trans _ _ _ _ Er).
    apply derived_set_devices; rewrite <-list_fmap_compose; apply list_fmap_ext; intros i d Hd;
      by apply (Hrow d Hk), list_elem_of_lookup_2 in Hd || apply (Hrow d Hk); eapply list_elem_of_lookup_2.
  - intros Hg. change log with (history, log).2. rewrite <-Ep. apply foldl_invariant; [|done].
    intros y r _ Hy. by apply publish_gapless.
Qed.

(** ** The steps of an update *)

(** What the steps after the commit may do. *)
Definition follows (st st' : LinkState (G := G)) : Prop :=
  derived (w_db st.1) (w_db st'.1) ∧ (gapless (w_rows st.1) → gapless (w_rows st'.1)) ∧
  w_mac st'.1 = w_mac st.1 ∧ w_topo st'.1 = w_topo st.1 ∧ w_requests st'.1 = w_requests st.1.

Lemma follows_refl st : follows st st.
Proof. split; [apply derived_refl|done]. Qed.

Lemma follows_trans st1 st2 st3 : follows st1 st2 → follows st2 st3 → follows st1 st3.
Proof.
  intros (D1 & G1 & M1 & T1 & R1) (D2 & G2 & M2 & T2 & R2). split; [by eapply derived_trans|]. split; [auto|]. split_and!; congruence.
Qed.

Lemma publish_follows env ev st : follows st (publish_change env ev st).
Proof.
  unfold publish_change. destruct (publish _ _ _ _) as [h rows] eqn:E. split; [apply derived_refl|]. split; [|done].
  simpl. intros Hg. change rows with (h, rows).2. rewrite <-E. by apply publish_gapless.
Qed.

Lemma announce_follows env tv evs st : follows st (announce env tv evs st).
Proof.
  unfold announce. apply foldl_invariant; [|apply follows_refl]. intros y e _ Hy.
  eapply follows_trans; [exact Hy|apply publish_follows].
Qed.

Lemma optical_follows env st : keys_ok (w_db st.1) → follows st (optical_step env st).
Proof.
  intros Hk. unfold optical_step. destruct (recompute_optical_paths_for_affected_onts _ _ _ _ _ _ _ _) as [[ts ow]|] eqn:E; [|apply follows_refl].
  apply optical_derived in E as [Hd Hg]; [|done]. done.
Qed.

Lemma status_follows env b st : follows st (status_step env b st).
Proof.
  unfold status_step. set (st1 := match b with [] => st | _ => _ end).
  assert (follows st st1) as H1; [|eapply follows_trans; [exact H1|apply announce_follows]].
  unfold st1. destruct b as [|x b]; [apply follows_refl|].
  destruct (propagate_status _ _ _ _ _) as [[r s']|] eqn:E; [|apply follows_refl].
  eapply follows_trans; [|apply announce_follows]. split; [by eapply propagate_derived|done].
Qed.

(** ** The committed change *)

(** The table with the row of one link replaced. *)
Definition relink (s : DB) (l' : Link) : DB :=
  set_links ((λ k, if String.eqb (link_id k) (link_id l') then l' else k) <$> links s) s.

Lemma update_row_unique {A} (key : A → string) k (x : A) (rows : list A) :
  NoDup (key <$> rows) →
  update_row (λ r, String.eqb (key r) k) (λ _, x) rows = (λ r, if String.eqb (key r) k then x else r) <$> rows.
Proof.
  induction rows as [|r rows IH]; csimpl; [done|]. rewrite NoDup_cons. intros [Hr Hn].
  destruct (String.eqb_spec (key r) k) as [<-|_]; [|by rewrite IH]. f_equal. symmetry.
  clear IH Hn. induction rows as [|y rows IH]; [done|]. csimpl.
  destruct (String.eqb_spec (key y) (key r)) as [E|_]; [destruct Hr; rewrite <-E; by left|].
  f_equal. apply IH. intros Hin. apply Hr. by right.
Qed.

Lemma commit_change_db l' rows (st : LinkState (G := G)) :
  keys_ok (w_db st.1) → w_db (commit_change l' rows st).1 = relink (w_db st.1) l'.
Proof. intros Hk. unfold commit_change, relink. simpl. f_equal. apply update_row_unique, Hk. Qed.

Lemma relink_topology s l l' :
  topology_ok s → get_link s (link_id l') = Some l → link_key l' = link_key l → topology_ok (relink s l').
Proof.
  intros Ht Hl E. apply topology_relinked; [done|]. rewrite <-update_row_unique by apply (topology_keys s Ht).
  apply get_link_Some in Hl as [Hl _]. eapply update_link_keys; [by apply topology_keys|exact Hl|done].
Qed.

Lemma updated_link_key l u l' : updated_link l u = Some l' → link_key l' = link_key l.
Proof. unfold updated_link. destruct (match lu_status u with Some _ => _ | None => _ end); [|done]. by intros [= <-]. Qed.

Lemma announce_history env tv evs (st : LinkState (G := G)) :
  let st' := announce env tv evs st in
  w_db st'.1 = w_db st.1 ∧ st'.2 = st.2 ∧
  w_history st'.1 = w_history st.1 ++ ((λ e, end_event e.1.1 e.1.2 e.2 tv) <$> evs).
Proof.
  cbv zeta. revert st. induction evs as [|e evs IH]; intros st; simpl; [by rewrite app_nil_r|].
  destruct (IH (publish_change env (end_event e.1.1 e.1.2 e.2 tv) st)) as (-> & -> & ->).
  unfold publish_change. simpl. by rewrite <-app_assoc.
Qed.

Lemma check_link_update_total s l u : check_link_update s l u ≠ Diverge.
Proof.
  unfold check_link_update. intros Hd. diverge Hd. destruct (lu_medium u) as [[i|]|]; [|done..]. diverge Hd.
  destruct (device_at s (a_interface_id l)), (device_at s (b_interface_id l)); try done.
  diverge Hd. by destruct (raise_if_total _ _ Hd).
Qed.

(** What an accepted update consists of. *)
Lemma update_run env lid u st :
  topology_ok (w_db st.1) →
  (∃ e, update_link_impl env lid u st = (Raise e, st)) ∨
  ∃ l l' rows st1 st', update_link_impl env lid u st = (Ret (link_response (w_db st'.1) l'), st') ∧
    get_link (w_db st.1) lid = Some l ∧ check_link_update (w_db st.1) l u = Ret tt ∧ updated_link l u = Some l' ∧
    (gapless (w_rows st.1) → gapless rows) ∧ st1 = schedule_link lid (commit_change l' rows st) ∧
    w_db st1.1 = relink (w_db st.1) l' ∧ topology_ok (w_db st1.1) ∧
    st' = status_step env ((λ d, (dev_id d, status_of (G := G) (w_db st.1) d)) <$> end_devices (w_db st.1) l)
            (if optical_recompute_needed l u then optical_step env st1 else st1) ∧
    follows st1 st'.
Proof.
  intros Ht. unfold update_link_impl. destruct (get_link (w_db st.1) lid) as [l|] eqn:Hl; cbn [or_raise mbind Outcome_bind]; [|by left; eexists].
  destruct (check_link_update (w_db st.1) l u) as [[]|e|] eqn:Hc; cbn [or_raise mbind Outcome_bind]; [|by left; eexists|].
  2:{ by destruct (check_link_update_total _ _ _ Hc). }
  destruct (append_domain_event _ _ _ _ _ _) as [rows|] eqn:Er; cbn [or_raise mbind Outcome_bind]; [|by left; eexists].
  destruct (updated_link l u) as [l'|] eqn:Hu; cbn [or_raise mbind Outcome_bind]; [|by left; eexists]. right.
  pose proof (updated_link_key _ _ _ Hu) as Hkey. pose proof (link_key_ends _ _ Hkey) as (Eid & _).
  pose proof (get_link_Some _ _ _ Hl) as [_ El].
  set (st1 := schedule_link lid (commit_change l' rows st)).
  assert (w_db st1.1 = relink (w_db st.1) l') as Hdb by (apply commit_change_db, topology_keys, Ht).
  assert (topology_ok (w_db st1.1)) as Ht1.
  { rewrite Hdb. eapply relink_topology; [done| |exact Hkey]. by rewrite Eid, El. }
  eexists l, l', rows, st1, _. split; [reflexivity|]. split_and!; try done.
  { intros Hg. by eapply append_domain_gapless. }
  eapply follows_trans; [|apply status_follows].
  destruct (optical_recompute_needed l u); [|apply follows_refl]. by apply optical_follows, topology_keys.
Qed.

(** ** The override *)

Lemma full_baseline_lookup s d :
  keys_ok s → d ∈ devices s → full_baseline (G := G) s !! dev_id d = Some (status_of (G := G) s d).
Proof.
  intros Hk Hd. unfold full_baseline.
  assert (∀ ds (m : gmap string Status), (∀ x, x ∈ ds → x ∈ devices s) →
    (d ∈ ds ∨ m !! dev_id d = Some (status_of (G := G) s d)) →
    foldl (λ m d, <[dev_id d := status_of (G := G) s d]> m) m ds !! dev_id d = Some (status_of (G := G) s d)) as Hg; [|by apply Hg; auto].
  intros ds. induction ds as [|x ds IH]; intros m Hsub Hm; simpl; [destruct Hm as [Hm|Hm]; [by apply elem_of_nil in Hm|done]|].
  apply IH; [intros y Hy; apply Hsub; by right|]. destruct (decide (dev_id x = dev_id d)) as [E|Hne].
  - right. assert (x = d) as ->; [|by rewrite lookup_insert_eq].
    pose proof (get_device_key s x Hk (Hsub x (list_elem_of_here _ _))) as E1. pose proof (get_device_key s d Hk Hd) as E2. congruence.
  - rewrite lookup_insert_ne by done. destruct Hm as [[->|Hm]%elem_of_cons|Hm]; auto. done.
Qed.

(** A relinked database has the same devices. *)
Definition status_moved (s s1 : DB) (d : Device) : Prop := status_of (G := G) s d ≠ status_of (G := G) s1 d.

Lemma override_recompute env tv v s s1 st go :
  keys_ok s → keys_ok s1 → devices s1 = devices s → rec_db st = s1 →
  ∃ ts st', recompute_devices_status (G := G) env v go None (Some tv) (Some (full_baseline (G := G) s)) st = Some (ts, st') ∧
    rec_events st' = rec_events st ++
      ((λ d, mkStatusEvent (dev_id d) (status_of (G := G) s1 d) (dev_override d) (Some tv)) <$>
         filter (λ d, status_moved s s1 d) (devices s)) ∧
    (∀ r, r ∈ devices (rec_db st') ↔
       ∃ d, d ∈ devices s ∧ r = if decide (status_moved s s1 d) then set_status (status_of (G := G) s1 d) d else d).
Proof.
  intros Hk Hk1 Hd Edb.
  destruct (recompute_run (G := G) env v go None (Some tv) (Some (full_baseline (G := G) s)) st) as (ts & st' & E & Hts & Hdb & Hev & _).
  exists ts, st'. split; [done|]. rewrite Edb in *. rewrite Hd in Hts.
  assert (∀ d, d ∈ devices s → transition (G := G) s1 (Some (full_baseline (G := G) s)) d =
    if decide (status_moved s s1 d) then Some (dev_id d, status_of (G := G) s d, status_of (G := G) s1 d) else None) as Htr.
  { intros d Hin. rewrite transition_row by (done || by rewrite Hd). simpl. rewrite full_baseline_lookup by done. simpl.
    unfold status_moved. destruct (decide _) as [Hm|Hm]; [by rewrite bool_decide_false|].
    by rewrite bool_decide_true by by destruct (decide (status_of (G := G) s d = status_of (G := G) s1 d)). }
  split.
  - rewrite Hev. f_equal. rewrite Hts.
    assert (∀ ds : list Device, (∀ d, d ∈ ds → d ∈ devices s) →
      status_event s1 (Some tv) <$> omap (transition (G := G) s1 (Some (full_baseline (G := G) s))) ds =
      (λ d, mkStatusEvent (dev_id d) (status_of (G := G) s1 d) (dev_override d) (Some tv)) <$> filter (λ d, status_moved s s1 d) ds) as Hg; [|by apply Hg].
    intros ds. induction ds as [|d ds IH]; intros Hsub; [done|]. rewrite filter_cons. cbn [omap list_omap].
    rewrite Htr by (apply Hsub; by left). destruct (decide (status_moved s s1 d)).
    + csimpl. rewrite IH by (intros x Hx; apply Hsub; by right). f_equal. unfold status_event. simpl. f_equal.
      rewrite <-Hd in Hsub. by rewrite (get_device_key s1 d Hk1 (Hsub d (list_elem_of_here _ _))).
    + apply IH. intros x Hx. apply Hsub. by right.
  - assert (∀ d, d ∈ devices s → mem (dev_id d) ((λ t, t.1.1) <$> ts) = bool_decide (status_moved s s1 d)) as Hmem.
    { intros d Hin. apply eq_bool_prop_intro. rewrite !Is_true_true. rewrite mem_true, bool_decide_eq_true, Hts.
      rewrite transition_ids; try done; [|by rewrite Hd|by rewrite Hd]. rewrite Htr by done. destruct (decide _); naive_solver. }
    assert (∀ d, d ∈ devices s → (if mem (dev_id d) ((λ t, t.1.1) <$> ts) then set_status (status_of (G := G) s1 d) d else d) =
      if decide (status_moved s s1 d) then set_status (status_of (G := G) s1 d) d else d) as Hrow.
    { intros d Hin. rewrite Hmem by done. case_bool_decide; by destruct (decide _). }
    intros r. rewrite Hdb. destruct ts as [|t ts0].
    + rewrite Hd. split; [intros Hr; exists r; split; [done|]; by rewrite <-Hrow|intros (d & Hr & ->); by rewrite <-Hrow].
    + rewrite bulk_update_rows, Hd. split; intros (d & Hin & ->); exists d; (split; [done|]); by rewrite Hrow.
Qed.
End changes.

(** What an accepted override does. *)
Lemma override_run {G} `{NxGraph G} `{Dijkstra G} env lid body (st : LinkState (G := G)) :
  topology_ok (w_db st.1) →
  let s := w_db st.1 in
  (∃ e, set_link_override_impl env lid body st = (Raise e, st)) ∨
  ∃ l o st', set_link_override_impl env lid body st = (Ret (link_response (relink s (with_link_override o l)) (with_link_override o l)), st') ∧
    get_link s lid = Some l ∧ override_value body = Some o ∧
    let s1 := relink s (with_link_override o l) in
    sv_events st'.2 = sv_events st.2 ++
      ((λ d, mkStatusEvent (dev_id d) (status_of (G := G) s1 d) (dev_override d) (Some (w_topo st.1 + 1)%Z)) <$>
         filter (λ d, status_moved (G := G) s s1 d) (devices s)) ∧
    (∀ r, r ∈ devices (w_db st'.1) ↔
       ∃ d, d ∈ devices s ∧ r = if decide (status_moved (G := G) s s1 d) then set_status (status_of (G := G) s1 d) d else d) ∧
    derived s1 (w_db st'.1) ∧ topology_ok (w_db st'.1) ∧
    w_topo st'.1 = (w_topo st.1 + 1)%Z ∧ (gapless (w_rows st.1) → gapless (w_rows st'.1)).
Proof.
  intros Ht s. unfold set_link_override_impl. fold s. destruct (get_link s lid) as [l|] eqn:Hl; [|by left; eexists].
  cbn [or_raise mbind Outcome_bind]. destruct (override_value body) as [o|] eqn:Ho; [|by left; eexists]. cbn [or_raise mbind Outcome_bind].
  destruct (append_domain_event _ _ _ _ _ _) as [rows|] eqn:Er; [|by vm_compute in Er]. cbn [or_raise mbind Outcome_bind].
  right. pose proof (get_link_Some _ _ _ Hl) as [_ El]. set (l' := with_link_override o l). set (st1 := commit_change l' rows st).
  assert (w_db st1.1 = relink s l') as Hdb by (apply commit_change_db, topology_keys, Ht).
  assert (topology_ok (relink s l')) as Ht1 by (eapply relink_topology; [done|simpl; by rewrite El|done]).
  set (st2 := publish_change env _ (publish_change env _ st1)).
  assert (follows st1 st2) as Hf by (eapply follows_trans; apply publish_follows).
  assert (w_db st2.1 = relink s l') as Hdb2 by (rewrite <-Hdb; done).
  destruct (override_recompute (G := G) (le_max_span env) (w_topo st1.1) (w_topo st1.1) s (relink s l') (rec_of st2) (le_status_go env))
    as (ts & r & E & Hev & Hrows); [by apply topology_keys..|done|done|].
  rewrite E, Hdb. eexists l, o, _. split; [reflexivity|]. split; [done|]. split; [done|].
  apply recompute_derived in E as Hder. split; [exact Hev|]. split; [exact Hrows|].
  assert (derived (relink s l') (rec_db r)) as Hd by (by rewrite <-Hdb2).
  split; [exact Hd|]. split; [eapply topology_derived; [apply Hd|done]|]. split; [done|].
  intros Hg. apply Hf. simpl. by eapply append_domain_gapless.
Qed.

(** Either request keeps what the inventory invariant needs. *)
Definition keeps_topology {G} `{NxGraph G} (st st' : LinkState (G := G)) : Prop :=
  topology_ok (w_db st'.1) ∧ (gapless (w_rows st.1) → gapless (w_rows st'.1)) ∧
  ∃ ls, derived (set_links ls (w_db st.1)) (w_db st'.1).

Lemma keeps_topology_refl {G} `{NxGraph G} (st : LinkState (G := G)) : topology_ok (w_db st.1) → keeps_topology st st.
Proof. intros Ht. split; [done|]. split; [done|]. exists (links (w_db st.1)). by repeat split. Qed.

Lemma update_keeps {G} `{NxGraph G} `{Dijkstra G} env lid u (st : LinkState (G := G)) :
  topology_ok (w_db st.1) → keeps_topology st (update_link_impl env lid u st).2.
Proof.
  intros Ht. destruct (update_run env lid u st Ht)
    as [(e & ->)|(l & l' & rows & st1 & st' & -> & _ & _ & _ & Hg & -> & Hdb & Ht1 & _ & Hd & Hrows & _)];
    [by apply keeps_topology_refl|].
  split; [by eapply topology_derived; [apply Hd|]|]. split; [intros ?; by apply Hrows, Hg|].
  eexists. rewrite Hdb in Hd. exact Hd.
Qed.

Lemma override_keeps {G} `{NxGraph G} `{Dijkstra G} env lid b (st : LinkState (G := G)) :
  topology_ok (w_db st.1) → keeps_topology st (set_link_override_impl env lid b st).2.
Proof.
  intros Ht. destruct (override_run env lid b st Ht)
    as [(e & ->)|(l & o & st' & -> & _ & _ & _ & _ & Hd & Ht' & _ & Hg)]; [by apply keeps_topology_refl|].
  split; [done|]. split; [done|]. eexists. exact Hd.
Qed.

(** * The properties *)


Lemma propagate_fallback {G} `{NxGraph G} c reply ids s :
  sc_use_fallback c = true →
  ∃ r s', propagate_status (G := G) c reply ids true s = Some (r, s') ∧
    (sc_go_available c = false → ∃ aff : gset string,
       (∀ k, k ∈ aff ↔ reaches (edge (downstream s (build_dependency_graph s))) ids k) ∧
       s' = bulk_update_device_statuses (G := G) (elements aff) s).
Proof.
  intros Hf. destruct (causal_chain_run s ids) as (aff & paths & E & Ha & _).
  assert (propagate_python (G := G) ids true s = Some (mkPropagated (elements aff) [] paths "python",
            bulk_update_device_statuses (G := G) (elements aff) s)) as Hp by (unfold propagate_python; by rewrite E).
  unfold propagate_status. rewrite Hf, Hp. destruct (sc_go_available c).
  - destruct (propagate_go _ _ _) as [[r s']|]; eexists _, _; split; done.
  - eexists _, _. split; [done|]. intros _. eauto.
Qed.

(** The status step when the client answers. *)
Lemma status_step_run {G} `{NxGraph G} `{Dijkstra G} env (b : list (string * Status)) (st : LinkState (G := G)) :
  sc_use_fallback (le_client env) = true →
  let st' := status_step env b st in
  w_history st'.1 = w_history st.1 ++
    ((λ e, end_event e.1.1 e.1.2 e.2 (w_topo st.1)) <$> (moved_ends (w_db st'.1) b ++ ont_ends (w_db st'.1) b)) ∧
  (sc_go_available (le_client env) = false → ∀ d, d ∈ devices (w_db st.1) →
     reaches (edge (downstream (w_db st.1) (build_dependency_graph (w_db st.1)))) b.*1 (dev_id d) →
     set_status (status_of (G := G) (w_db st.1) d) d ∈ devices (w_db st'.1)).
Proof.
  intros Hf. cbv zeta. unfold status_step. destruct b as [|x b].
  { simpl. rewrite app_nil_r. split; [done|]. intros _ d _ (y & Hy & _). by apply elem_of_nil in Hy. }
  destruct (propagate_fallback (G := G) (le_client env) (le_reply env) (x :: b).*1 (w_db st.1) Hf) as (r & s' & E & Hpy).
  rewrite E. set (st1 := announce env _ (moved_ends s' (x :: b)) _).
  destruct (announce_history env (w_topo st.1) (moved_ends s' (x :: b)) (with_db s' st.1, st.2)) as (D1 & _ & H1). fold st1 in D1, H1.
  destruct (announce_history env (w_topo st.1) (ont_ends (w_db st1.1) (x :: b)) st1) as (D2 & _ & H2).
  rewrite D2, H2, H1, D1. cbn [w_db w_history with_db fst]. split; [by rewrite fmap_app, app_assoc|].
  intros Hgo d Hd Hr. destruct (Hpy Hgo) as (aff & Ha & ->). apply bulk_update_elem. exists d. split; [done|].
  assert (mem (dev_id d) (elements aff) = true) as ->; [|done]. apply mem_true, elem_of_elements, Ha, Hr.
Qed.

(** The given fields and no others. *)
Definition field_written {A} (given : option A) (old new : A) : Prop :=
  match given with Some x => new = x | None => new = old end.

Record writes_given (l : Link) (u : LinkUpdate) (l' : Link) : Prop := {
  wg_key : link_key l' = link_key l ∧ kind l' = kind l ∧ protection_mode l' = protection_mode l;
  wg_status : field_written (lu_status u) (Some (link_status l)) (Some (link_status l'));
  wg_override : field_written (lu_override u) (link_override l) (link_override l');
  wg_length : field_written (lu_length u) (length_km l) (length_km l');
  wg_medium : field_written (lu_medium u) (physical_medium_id l) (physical_medium_id l')
}.

Lemma updated_link_fields l u l' : updated_link l u = Some l' → writes_given l u l'.
Proof.
  unfold updated_link. intros (st & Hst & [= <-])%bind_Some.
  destruct u as [[o|] [v|] [x|] [m|]]; split; simpl in *; naive_solver.
Qed.

(** C15. An update of a link.  A refused request changes nothing.  An accepted one
    writes exactly the given columns of that link (besides device columns the
    services derive), keeps the topology well-formed, moves the version by one
    and schedules one recomputation.  When no optical field changed and the
    status client may fall back, the published events are one for each end whose
    evaluated status moved and then one for each end that is an ONT; when the Go
    service is not available, every device that depends on an end has its
    evaluated status stored. *)
Theorem link_update_exact {G} `{NxGraph G} `{Dijkstra G} env lid u (st : LinkState (G := G)) :
  topology_ok (w_db st.1) →
  let s := w_db st.1 in
  match update_link_impl env lid u st with
  | (Ret out, st') =>
      ∃ l l', get_link s lid = Some l ∧ check_link_update s l u = Ret tt ∧ writes_given l u l' ∧
        let s1 := relink s l' in
        let s2 := w_db st'.1 in
        let ends := (λ d, (dev_id d, status_of (G := G) s d)) <$> end_devices s l in
        out = link_response s2 l' ∧ derived s1 s2 ∧ topology_ok s2 ∧ (gapless (w_rows st.1) → gapless (w_rows st'.1)) ∧
        w_topo st'.1 = (w_topo st.1 + 1)%Z ∧ w_requests st'.1 = w_requests st.1 ++ [("links", lid)] ∧
        (optical_recompute_needed l u = false → sc_use_fallback (le_client env) = true →
           w_history st'.1 = w_history st.1 ++
             ((λ e, end_event e.1.1 e.1.2 e.2 (w_topo st.1 + 1)%Z) <$> (moved_ends (G := G) s2 ends ++ ont_ends (G := G) s2 ends)) ∧
           (sc_go_available (le_client env) = false → ∀ d, d ∈ devices s →
              reaches (edge (downstream s1 (build_dependency_graph s1))) ends.*1 (dev_id d) →
              set_status (status_of (G := G) s1 d) d ∈ devices s2))
  | (Raise _, st') => st' = st
  | (Diverge, _) => False
  end.
Proof.
  intros Ht s. destruct (update_run env lid u st Ht)
    as [(e & ->)|(l & l' & rows & st1 & st' & -> & Hl & Hc & Hu & Hg & -> & Hdb & Ht1 & Est & Hf)]; [done|].
  exists l, l'. split_and!; try done; [by apply updated_link_fields|]. cbv zeta. pose proof Hf as (Hd & Hrows & _ & Htopo & Hreq). rewrite Hdb in Hd.
  split_and!; try done.
  - eapply topology_derived; [apply Hd|]. by rewrite <-Hdb.
  - intros Hgs. by apply Hrows, Hg.
  - intros Ho Hfb. rewrite Ho in Est.
    pose proof (status_step_run env ((λ d, (dev_id d, status_of (G := G) s d)) <$> end_devices s l)
                  (schedule_link lid (commit_change l' rows st)) Hfb) as Hrun.
    cbv zeta in Hrun. change (w_db st.1) with s in Est. rewrite <-Est in Hrun. rewrite Hdb in Hrun. exact Hrun.
Qed.

(** ** Witnesses *)

Definition routed_world : World :=
  mkWorld (mkDB demo_devices demo_interfaces [] [] (addresses demo) (routes demo) [] [] []) fresh_state [] [] 0 [].

Definition built_ops : list LinkOp :=
  OpCreate env0 (LinksProofs.request "bb-if0" "cr-if0" "bb__cr" None) :: take 4 build_requests.

Definition built_world : World := foldl link_op routed_world built_ops.

Lemma built_topology : topology_ok (w_db built_world) ∧ gapless (w_rows built_world).
Proof.
  unfold built_world. apply foldl_invariant.
  - intros w o Ho [Ht Hg]. apply link_op_inv; [|done..]. intros s.
    repeat (apply elem_of_cons in Ho as [->|Ho]; [apply env0_derived|]). by apply elem_of_nil in Ho.
  - split; [|apply gapless_nil]. split; simpl; try (intros; by set_solver). apply (bool_decide_unpack _). vm_compute. exact I.
Qed.

Definition link_env0 : LinkEnv := mkLinkEnv "t" true empty_catalog no_go None None offline None.

Definition no_services : Services (G := AssocGraph) :=
  mkServices empty_graph_cache (mkProp None None) ∅ [] new_client (mkOpticalState new_store []).

Definition built_state : LinkState (G := AssocGraph) := (built_world, no_services).


Definition link_down : LinkUpdate := mkLinkUpdate (Some (Some DOWN)) None None None.

(** The ONT at the end is announced twice. *)
Lemma link_update_exact_witness :
  ∃ out st', update_link_impl link_env0 "spl-out1__ont" link_down built_state = (Ret out, st') ∧
    ((λ e, (bus_event_type e, dict_get (bus_payload e) "id")) <$> drop (length (w_history built_world)) (w_history st'.1)) =
      [("device.status.changed", Some (JStr "ont")); ("device.status.changed", Some (JStr "ont"))].
Proof.
  pose proof (link_update_exact link_env0 "spl-out1__ont" link_down built_state (proj1 built_topology)) as H.
  destruct (update_link_impl link_env0 "spl-out1__ont" link_down built_state) as [[out|e|] st'] eqn:E;
    [|exfalso; vm_compute in E; discriminate E..].
  exists out, st'. split; [done|]. destruct H as (l & l' & Hl & _ & Hu & _ & _ & _ & _ & _ & _ & Hev).
  destruct (Hev ltac:(vm_compute in Hl; injection Hl as <-; reflexivity) eq_refl) as [-> _].
  clear Hev. vm_compute in Hl. injection Hl as <-.
  apply (f_equal snd) in E. cbn [snd] in E. rewrite <-E. vm_compute. reflexivity.
Defined.
