(* ===== verification/LinkBatchProofs.v ===== *)
(** What a batch of link creations does: against single creations, and what it
    keeps of the topology. *)

From S2P Require Import Prelude PyFloat Models LinkRules Worklist Adjacency Scenario Catalog LinkStatus L3Trace.
From S2P Require Import EventStore Errors MacAllocator Splitter LinkPolicy Links.
From S2P Require Import NxGraph Pathfinding Dependency DependencyProofs Status StatusRecompute CausalChain StatusClient.
From S2P Require Import OpticalPath OpticalPathProofs OpticalService LinksProofs Devices LinkChanges LinkChangesProofs LinkBatch.

(** * The two sets of checks *)

Lemma batch_pairing_Ret a b : batch_pairing a b = Ret tt ↔ check_pairing a b = Ret tt.
Proof.
  unfold batch_pairing, check_pairing, raise_if. destruct (is_type a ODF && is_type b ODF); [done|]. cbn [mbind Outcome_bind].
  destruct ((is_type a OLT && in_class b ONT_CLASS) || (is_type b OLT && in_class a ONT_CLASS)); [by split|]. cbn [mbind Outcome_bind]. destruct (is_type a OLT || is_type b OLT); [|done].
  destruct (_ && negb _); by split.
Qed.

Definition medium_exists (s : DB) (p : LinkCreate) : Prop :=
  match lc_physical_medium_id p with Some i => get_medium s i ≠ None | None => True end.

Definition length_ok (p : LinkCreate) : Prop :=
  match lc_length_km p with Some x => fltb x fzero = false | None => True end.

(** The first phase admits what a single creation admits before it touches the
    interfaces, with an existing medium and a length that is not negative. *)
Lemma validate_Ret s p :
  validate_link_creation s p = Ret tt ↔
    (∃ a b, check_request s p = Ret (a, b, classify a b)) ∧ medium_exists s p ∧ length_ok p.
Proof.
  unfold validate_link_creation, check_request, device_for, medium_exists, length_ok.
  destruct (bool_decide (is_Some (get_link s (lc_id p)))), (String.eqb _ _); cbn [raise_if mbind Outcome_bind];
    try (split; [done|by intros [(a & b & [=]) _]]).
  destruct (truthy (dev_from_iface_id s (lc_a_interface_id p)) ≫= get_device s) as [a|]; cbn [or_raise mbind Outcome_bind];
    [|split; [done|by intros [(? & ? & [=]) _]]].
  destruct (truthy (dev_from_iface_id s (lc_b_interface_id p)) ≫= get_device s) as [b|]; cbn [or_raise mbind Outcome_bind];
    [|split; [done|by intros [(? & ? & [=]) _]]].
  destruct (is_type a POP || is_type b POP); cbn [raise_if mbind Outcome_bind]; [split; [done|by intros [(? & ? & [=]) _]]|].
  destruct (negb (res_allowed (classify a b))); cbn [raise_if mbind Outcome_bind]; [split; [done|by intros [(? & ? & [=]) _]]|].
  pose proof (batch_pairing_Ret a b) as Hp.
  destruct (batch_pairing a b) as [[]|e|], (check_pairing a b) as [[]|e'|]; cbn [mbind Outcome_bind];
    try discriminate (proj1 Hp eq_refl); try discriminate (proj2 Hp eq_refl); try (split; [done|by intros [(? & ? & [=]) _]]).
  destruct (enforce_ont_placement_rules _ _ _ _ _) as [[]|e|]; cbn [mbind Outcome_bind]; try (split; [done|by intros [(? & ? & [=]) _]]).
  assert (∀ A B, (∃ a0 b0, Ret (a, b, classify a b) = Ret (a0, b0, classify a0 b0)) ∧ A ∧ B ↔ A ∧ B) as ->
    by (intros; split; [by intros (_ & ?)|split; [by exists a, b|done]]).
  destruct (lc_physical_medium_id p) as [i|]; [case_bool_decide as Em|]; cbn [raise_if mbind Outcome_bind];
    [split; [done|by intros [[] _]]|..]; destruct (lc_length_km p) as [x|]; try destruct (fltb x fzero); cbn [raise_if];
    naive_solver.
Qed.

Section prepare.
Context (env : Env) (p : LinkCreate) (s : DB) (a b : Device).

Lemma batch_medium_agrees cls pm s' :
  choose_medium env p s a b cls = Ret (pm, s') ↔ batch_medium (env_md5 env) p s a b cls = (Ret pm, s').
Proof.
  unfold choose_medium, batch_medium.
  destruct (match lc_physical_medium_id p with Some _ => _ | None => _ end) as [sel s1].
  destruct (match lc_physical_medium_id p with Some i => Some i | None => sel end) as [i|]; [|naive_solver].
  destruct (get_medium s1 i); cbn [or_raise mbind Outcome_bind]; [|split; [done|by intros [=]]].
  destruct (negb _ && negb _); cbn [raise_if mbind Outcome_bind]; [split; [done|by intros [=]]|]. naive_solver.
Qed.

Lemma check_ends_prepare cls a_if b_if l s' :
  medium_exists s p → length_ok p →
  prepare_link env p s a b cls a_if b_if = Ret (l, s') ↔
    check_ends s p a b a_if b_if = Ret tt ∧
    ∃ pm, batch_medium (env_md5 env) p s a b cls = (Ret pm, s') ∧ l = batch_link (env_md5 env) p s' cls pm.
Proof.
  intros Hm Hl. unfold prepare_link, check_ends, batch_link, length_ok, medium_exists in *.
  destruct (raise_if (_ || _) _) as [[]|e|]; cbn [mbind Outcome_bind]; try (split; [done|by intros [[=] _]]).
  destruct (canonical_link_id _ _) as [[[x y] c] u].
  destruct (negb (mem (lc_id p) [c; u])); cbn [raise_if mbind Outcome_bind]; [split; [done|by intros [[=] _]]|].
  assert (match lc_length_km p with Some x => fltb x fzero | None => false end = false) as ->
    by (by destruct (lc_length_km p)). cbn [raise_if mbind Outcome_bind].
  assert (match lc_physical_medium_id p with
          | Some i => raise_if (bool_decide (get_medium s i = None)) (bad_request "Invalid physical_medium_id")
          | None => Ret tt end = Ret tt) as ->.
  { destruct (lc_physical_medium_id p); [|done]. by rewrite bool_decide_false. }
  cbn [mbind Outcome_bind].
  destruct (enforce_pon_role_if_declared _ _ _ _ _) as [[]|e|]; cbn [mbind Outcome_bind]; try (split; [done|by intros [[=] _]]).
  destruct (enforce_single_upstream_rules s a b) as [[]|e|]; cbn [mbind Outcome_bind]; try (split; [done|by intros [[=] _]]).
  destruct (choose_medium env p s a b cls) as [[pm s1]|e|] eqn:Ec; cbn [mbind Outcome_bind].
  - pose proof (proj1 (batch_medium_agrees cls pm s1) Ec) as Eb. split.
    + intros [= <- <-]. split; [done|]. exists pm. split; [done|]. by destruct (truthy_key pm).
    + intros (_ & pm' & Eb' & ->). rewrite Eb in Eb'. injection Eb' as <- <-. by destruct (truthy_key pm).
  - split; [done|]. intros (_ & pm & Eb & _). apply batch_medium_agrees in Eb. congruence.
  - split; [done|]. intros (_ & pm & Eb & _). apply batch_medium_agrees in Eb. congruence.
Qed.
End prepare.

(** * One request of a batch *)

Lemma device_for_Some s iid d :
  (∃ k, dev_from_iface_id s iid = Some k ∧ k ≠ "" ∧ get_device s k = Some d) → device_for s iid = Some d.
Proof. intros (k & E & Hk & Hd). unfold device_for. rewrite E. by destruct k. Qed.

Lemma constraints_prefix s l : constraints (set_links (links s ++ [l]) s) → constraints s.
Proof.
  intros [[K1 K2 K3 K4] C1 C2 C3 C4]. simpl in *. rewrite fmap_app in K3. rewrite fmap_app in C3.
  apply NoDup_app in K3 as [K3 _], C3 as [C3 _]. split; [split|..]; done.
Qed.

Lemma creation_events_total env pend l cls rows : is_Some (creation_events env pend l cls rows).
Proof.
  unfold creation_events. assert (∃ r, port_events (env_now env) pend rows = Some r) as [r ->]; [|by eexists].
  unfold port_events. revert rows. induction pend as [|i pend IH]; intros rows; simpl; [by eexists|]. apply IH.
Qed.

Lemma add_batch_Ret now l cls b b' :
  add_batch_link now l cls b = (Ret tt, b') →
  constraints (bs_db b) ∧ bs_db b' = set_links (links (bs_db b) ++ [l]) (bs_db b) ∧ bs_mac b' = bs_mac b ∧
  bs_broken b' = bs_broken b ∧ (gapless (bs_rows b) → gapless (bs_rows b')).
Proof.
  unfold add_batch_link. case_bool_decide as Hc; cbn [negb]; [|done].
  destruct (append_domain_event _ _ _ _ _ _) as [rows|] eqn:E; [|done]. intros [= <-]. split_and!; try done.
  intros Hg. by eapply append_domain_gapless.
Qed.

Lemma add_batch_run now l cls b :
  constraints (bs_db b) → ∃ b', add_batch_link now l cls b = (Ret tt, b').
Proof.
  intros Hc. unfold add_batch_link. rewrite bool_decide_true by done. cbn [negb].
  destruct (append_domain_event _ _ _ _ _ _) as [rows|] eqn:E; [by eexists|by vm_compute in E].
Qed.

(** The steps of a request that was created. *)
Record batch_created (env : BatchEnv) (p : LinkCreate) (b : BatchSession) (l : Link) (x y : string)
    (b' : BatchSession) (a_dev b_dev : Device) (a_if b_if : Interface) (s1 s2 : DB) (pm : option Z) : Prop := {
  bc_session : bs_broken b = false;
  bc_devices : device_for (bs_db b) (lc_a_interface_id p) = Some a_dev ∧ device_for (bs_db b) (lc_b_interface_id p) = Some b_dev;
  bc_ensure : ∃ sa pa ma pb,
    ensure_default_interface (be_mac env (lc_a_interface_id p)) (lc_a_interface_id p) (bs_db b, [], bs_mac b)
      = Ret (Some a_if, (sa, pa, ma)) ∧
    ensure_default_interface (be_mac env (lc_b_interface_id p)) (lc_b_interface_id p) (sa, pa, ma)
      = Ret (Some b_if, (s1, pb, bs_mac b'));
  bc_ends : check_ends s1 p a_dev b_dev a_if b_if = Ret tt;
  bc_medium : batch_medium (be_md5 env) p s1 a_dev b_dev (classify a_dev b_dev) = (Ret pm, s2);
  bc_link : l = batch_link (be_md5 env) p s2 (classify a_dev b_dev) pm;
  bc_owners : x = if_device_id a_if ∧ y = if_device_id b_if;
  bc_constraints : constraints s2;
  bc_db : bs_db b' = set_links (links s2 ++ [l]) s2;
  bc_broken : bs_broken b' = false;
  bc_rows : gapless (bs_rows b) → gapless (bs_rows b')
}.

Lemma no_recompute_Ret env p b l cls x y b' :
  create_link_no_recompute env p b = (Ret (l, cls, x, y), b') →
  ∃ a_dev b_dev a_if b_if s1 s2 pm, cls = classify a_dev b_dev ∧
    batch_created env p b l x y b' a_dev b_dev a_if b_if s1 s2 pm.
Proof.
  unfold create_link_no_recompute. destruct (bs_broken b) eqn:Hb; [done|].
  cbv zeta. destruct (device_for (bs_db b) (lc_a_interface_id p)) as [a_dev|] eqn:Da; [|done].
  destruct (device_for (bs_db b) (lc_b_interface_id p)) as [b_dev|] eqn:Dbv; [|done].
  destruct (ensure_default_interface (be_mac env (lc_a_interface_id p)) _ _) as [[oa [[sa pa] ma]]|e|] eqn:Ea; [|done..].
  cbn [mbind Outcome_bind snd fst].
  destruct (ensure_default_interface (be_mac env (lc_b_interface_id p)) _ _) as [[ob [[sb pb] mb]]|e|] eqn:Eb; [|done..].
  cbn [mbind Outcome_bind snd fst]. destruct oa as [a_if|]; [|done]. destruct ob as [b_if|]; [|done].
  destruct (check_ends _ _ _ _ _ _) as [[]|e|] eqn:Ec; [|done..].
  destruct (batch_medium _ _ _ _ _ _) as [r s2] eqn:Em. destruct r as [pm|e|]; [|done..].
  destruct (add_batch_link _ _ _ _) as [r b2] eqn:Eadd. destruct r as [[]|e|]; [|done..].
  intros [= <- <- <- <- <-]. apply add_batch_Ret in Eadd as (Hc & Hdb & Hmac & Hbr & Hrows). cbn in *.
  exists a_dev, b_dev, a_if, b_if, sb, s2, pm. split; [done|]. split; try done.
  exists sa, pa, ma, pb. by rewrite Hmac.
Qed.

Lemma no_recompute_run env p b a_dev b_dev a_if b_if sa pa ma s1 pb mb s2 pm :
  bs_broken b = false →
  device_for (bs_db b) (lc_a_interface_id p) = Some a_dev → device_for (bs_db b) (lc_b_interface_id p) = Some b_dev →
  ensure_default_interface (be_mac env (lc_a_interface_id p)) (lc_a_interface_id p) (bs_db b, [], bs_mac b)
    = Ret (Some a_if, (sa, pa, ma)) →
  ensure_default_interface (be_mac env (lc_b_interface_id p)) (lc_b_interface_id p) (sa, pa, ma) = Ret (Some b_if, (s1, pb, mb)) →
  check_ends s1 p a_dev b_dev a_if b_if = Ret tt →
  batch_medium (be_md5 env) p s1 a_dev b_dev (classify a_dev b_dev) = (Ret pm, s2) → constraints s2 →
  let l := batch_link (be_md5 env) p s2 (classify a_dev b_dev) pm in
  ∃ b', create_link_no_recompute env p b = (Ret (l, classify a_dev b_dev, if_device_id a_if, if_device_id b_if), b') ∧
    bs_db b' = set_links (links s2 ++ [l]) s2 ∧ bs_mac b' = mb ∧ bs_broken b' = false.
Proof.
  intros Hb Da Db Ea Eb Ec Em Hc l. unfold create_link_no_recompute. rewrite Hb. cbv zeta. rewrite Da, Db, Ea.
  cbn [mbind Outcome_bind snd fst]. rewrite Eb. cbn [mbind Outcome_bind snd fst]. rewrite Ec, Em.
  destruct (add_batch_run (le_now (be_env env)) l (classify a_dev b_dev) (session_db s2 (mkSession s1 (bs_rows b) mb false)) Hc) as [b' E].
  fold l. rewrite E. exists b'. split; [done|]. apply add_batch_Ret in E as (_ & -> & -> & -> & _). done.
Qed.

(** * A batch of one request *)

Section services.
Context {G : Type} `{NxGraph G} `{Dijkstra G}.

Lemma schedule_follows ids (st : LinkState (G := G)) :
  let st' := foldl (λ st k, schedule_link k st) st ids in
  w_db st'.1 = w_db st.1 ∧ w_mac st'.1 = w_mac st.1 ∧ w_topo st'.1 = w_topo st.1 ∧ w_rows st'.1 = w_rows st.1 ∧
  w_requests st'.1 = w_requests st.1 ++ ((λ k, ("links", k)) <$> ids).
Proof.
  cbv zeta. revert st. induction ids as [|k ids IH]; intros st; simpl; [by rewrite app_nil_r|].
  destruct (IH (schedule_link k st)) as (-> & -> & -> & -> & ->). simpl. by rewrite <-app_assoc.
Qed.

(** After the commit only derived columns change. *)
Lemma after_batch_follows env ids n (st : LinkState (G := G)) :
  keys_ok (w_db st.1) →
  let st' := after_batch env ids n st in
  derived (w_db st.1) (w_db st'.1) ∧ w_mac st'.1 = w_mac st.1 ∧ w_topo st'.1 = (w_topo st.1 + 1)%Z ∧
  (gapless (w_rows st.1) → gapless (w_rows st'.1)) ∧
  w_requests st'.1 = w_requests st.1 ++ ((λ k, ("links", k)) <$> ids).
Proof.
  intros Hk. cbv zeta. unfold after_batch. set (st1 := (_, _) : LinkState (G := G)).
  pose proof (optical_follows (be_env env) st1 Hk) as (D1 & G1 & M1 & T1 & R1).
  destruct (schedule_follows ids (optical_step (be_env env) st1)) as (D2 & M2 & T2 & G2 & R2).
  set (st2 := foldl _ _ ids) in *. set (ev := mkBusEvent _ _ _).
  destruct (publish_follows (be_env env) ev st2) as (D3 & G3 & M3 & T3 & R3).
  split; [eapply derived_trans; [|exact D3]; by rewrite D2|]. rewrite M3, M2, M1, T3, T2, T1, R3, R2, R1.
  split; [done|]. split; [done|]. split; [|done]. intros Hg. apply G3. rewrite G2. by apply G1.
Qed.
End services.

Lemma validate_total s p : keys_ok s → validate_link_creation s p ≠ Diverge.
Proof.
  intros Hk Hd. unfold validate_link_creation in Hd. diverge Hd; try (by apply raise_if_total in Hd).
  - unfold batch_pairing in Hd. diverge Hd. revert Hd; clear. case_match; [apply raise_if_total|done].
  - unfold device_for in *. repeat match goal with
    | Hm : or_raise (truthy ?o ≫= _) _ = Ret _ |- _ =>
        apply or_raise_Ret in Hm; destruct (truthy o); [|done]; apply get_device_Some in Hm as [? _]
    end.
    eapply ont_placement_run; [exact Hk| | |exact Hd]; done.
  - revert Hd. case_match; [apply raise_if_total|done].
Qed.

Lemma medium_exists_media s s' p : media s' = media s → medium_exists s' p ↔ medium_exists s p.
Proof. intros E. unfold medium_exists, get_medium. by rewrite E. Qed.

Lemma ensure_media dbo k s pend m o s' pend' m' :
  ensure_default_interface dbo k (s, pend, m) = Ret (o, (s', pend', m')) → media s' = media s.
Proof.
  unfold ensure_default_interface. destruct (get_interface s k); [by intros [= _ <- _ _]|].
  destruct (ends_with _ _); [|by intros [= _ <- _ _]]. destruct (get_device s _); [|by intros [= _ <- _ _]].
  destruct (next_mac dbo m) as [[]|]; [|done]. by intros [= _ <- _ _].
Qed.

(** A single creation that is accepted: its parts. *)
Lemma create_parts env p w out w1 :
  create_link_impl env p w = (Ret out, w1) →
  ∃ a b a_if b_if sa pa ma s1 pb mb s2 pm,
    check_request (w_db w) p = Ret (a, b, classify a b) ∧ medium_exists (w_db w) p ∧ length_ok p ∧
    device_for (w_db w) (lc_a_interface_id p) = Some a ∧ device_for (w_db w) (lc_b_interface_id p) = Some b ∧
    ensure_default_interface (env_mac_a env) (lc_a_interface_id p) (w_db w, [], w_mac w) = Ret (Some a_if, (sa, pa, ma)) ∧
    ensure_default_interface (env_mac_b env) (lc_b_interface_id p) (sa, pa, ma) = Ret (Some b_if, (s1, pb, mb)) ∧
    check_ends s1 p a b a_if b_if = Ret tt ∧ batch_medium (env_md5 env) p s1 a b (classify a b) = (Ret pm, s2) ∧
    let l := batch_link (env_md5 env) p s2 (classify a b) pm in
    constraints (set_links (links s2 ++ [l]) s2) ∧
    ∃ rows, (out, w1) = after_create env l (classify a b) a_if b_if
      (mkWorld (set_links (links s2 ++ [l]) s2) mb rows (w_history w) (w_topo w) (w_requests w)).
Proof.
  unfold create_link_impl. destruct (check_request (w_db w) p) as [[[a b] cls]| |] eqn:Er; [|done..].
  destruct (check_request_Ret _ _ _ _ _ Er) as (_ & _ & Da & Db & -> & _ & _).
  destruct (ensure_default_interface (env_mac_a env) (lc_a_interface_id p) (w_db w, [], w_mac w))
    as [[oa [[sa pa] ma]]| |] eqn:Ea; [|done..].
  cbn [mbind Outcome_bind snd fst].
  destruct (ensure_default_interface (env_mac_b env) (lc_b_interface_id p) (sa, pa, ma))
    as [[ob [[sb pb] mb]]| |] eqn:Eb; [|done..].
  cbn [mbind Outcome_bind snd fst]. destruct oa as [a_if|]; [|done]. destruct ob as [b_if|]; [|done].
  destruct (prepare_link env p sb a b (classify a b) a_if b_if) as [[l s2]| |] eqn:Ep; [|done..].
  intros (Hc & rows & _ & Haft)%commit_Ret.
  assert (medium_exists sb p ∧ length_ok p) as [Hm Hl].
  { revert Ep. clear. unfold prepare_link, medium_exists, length_ok. destruct (canonical_link_id _ _) as [[[x y] c] u].
    intros H. outcome H. destruct (lc_physical_medium_id p), (lc_length_km p);
      repeat match goal with H : raise_if _ _ = Ret _ |- _ => apply raise_if_Ret in H end; bools; done. }
  destruct (proj1 (check_ends_prepare env p sb a b (classify a b) a_if b_if l s2 Hm Hl) Ep) as (He & pm & Em & ->).
  exists a, b, a_if, b_if, sa, pa, ma, sb, pb, mb, s2, pm. split_and!; try done.
  - rewrite <-(medium_exists_media _ sb); [done|]. apply ensure_media in Ea, Eb. congruence.
  - by apply device_for_Some.
  - by apply device_for_Some.
  - by exists rows.
Qed.

(** The same parts make a creation accepted. *)
Lemma create_run env p w a b a_if b_if sa pa ma s1 pb mb s2 pm :
  check_request (w_db w) p = Ret (a, b, classify a b) → medium_exists (w_db w) p → length_ok p →
  ensure_default_interface (env_mac_a env) (lc_a_interface_id p) (w_db w, [], w_mac w) = Ret (Some a_if, (sa, pa, ma)) →
  ensure_default_interface (env_mac_b env) (lc_b_interface_id p) (sa, pa, ma) = Ret (Some b_if, (s1, pb, mb)) →
  check_ends s1 p a b a_if b_if = Ret tt → batch_medium (env_md5 env) p s1 a b (classify a b) = (Ret pm, s2) →
  constraints (set_links (links s2 ++ [batch_link (env_md5 env) p s2 (classify a b) pm]) s2) →
  ∃ out w1, create_link_impl env p w = (Ret out, w1).
Proof.
  intros Er Hm Hl Ea Eb He Em Hc. unfold create_link_impl. rewrite Er, Ea. cbn [mbind Outcome_bind snd fst].
  rewrite Eb. cbn [mbind Outcome_bind snd fst].
  assert (prepare_link env p s1 a b (classify a b) a_if b_if = Ret (batch_link (env_md5 env) p s2 (classify a b) pm, s2)) as ->.
  { apply check_ends_prepare; [|done|]; [|by eauto]. rewrite (medium_exists_media (w_db w)); [done|].
    apply ensure_media in Ea, Eb. congruence. }
  unfold commit_link. rewrite bool_decide_true by done. cbn [negb].
  match goal with |- context [creation_events ?e ?q ?l ?c ?r] => destruct (creation_events_total e q l c r) as [rows ->] end.
  destruct (after_create _ _ _ _ _ _) as [o w']. by eexists _, _.
Qed.

Definition with_effective (e : Status) (o : LinkResolvedOut) : LinkResolvedOut :=
  mkOut (out_id o) (out_a_interface_id o) (out_b_interface_id o) (out_a_device_id o) (out_b_device_id o)
    (out_status o) e (out_kind o) (out_override o) (out_length_km o) (out_physical_medium_id o) (out_rule_id o).

(** The environment of a single creation and the one of a batch: the same digest
    and allocator, and Go services that write derived columns only. *)
Record same_services (env : Env) (benv : BatchEnv) (p : LinkCreate) : Prop := {
  ss_md5 : env_md5 env = be_md5 benv;
  ss_mac_a : env_mac_a env = be_mac benv (lc_a_interface_id p);
  ss_mac_b : env_mac_b env = be_mac benv (lc_b_interface_id p);
  ss_go : ∀ s, derived s (env_go env s).1
}.

Section single.
Context {G : Type} `{NxGraph G} `{Dijkstra G}.

Definition created_alike (out : LinkResolvedOut) (w1 : World) (r : Outcome BatchOut * LinkState (G := G)) : Prop :=
  ∃ eff s st1, r = (Ret (mkBatchOut [with_effective eff out] []), st1) ∧
    derived s (w_db w1) ∧ derived s (w_db st1.1) ∧ w_mac st1.1 = w_mac w1.

Lemma batch_of_created env benv p (st : LinkState (G := G)) out w1 :
  same_services env benv p → create_link_impl env p st.1 = (Ret out, w1) →
  created_alike out w1 (batch_create_links benv [p] st).
Proof.
  intros [E5 Ea Eb Hgo] Hc. apply create_parts in Hc as (a & b & a_if & b_if & sa & pa & ma & s1 & pb & mb & s2 & pm
    & Hr & Hm & Hl & Da & Db & Hea & Heb & He & Hmd & Hc & rows & Hout).
  rewrite Ea in Hea. rewrite Eb in Heb. rewrite E5 in Hmd, Hc, Hout.
  set (l := batch_link (be_md5 benv) p s2 (classify a b) pm) in *.
  destruct (no_recompute_run benv p (mkSession (w_db st.1) (w_rows st.1) (w_mac st.1) false) a b a_if b_if sa pa ma s1 pb mb s2 pm)
    as (b' & Hrun & Hdb & Hmac & Hbr); try done; [by eapply constraints_prefix|].
  fold l in Hrun, Hdb. unfold created_alike, batch_create_links. cbn [length validate_all create_all].
  rewrite (proj2 (validate_Ret _ _)) by eauto. rewrite Hrun. cbn [mbind option_bind bo_created bo_failed].
  rewrite (bool_decide_false ([p] = [])), (bool_decide_false (_ :: _ = [])), Hbr, Hdb by done.
  rewrite bool_decide_true by done. cbn [negb orb].
  match goal with |- context [after_batch ?e ?i ?n ?x] =>
    pose proof (after_batch_follows e i n x (c_keys _ Hc)) as (Hd & Hm' & _) end.
  eexists _, _, _. split; [f_equal; unfold batch_response; do 3 f_equal|].
  - revert Hout. unfold after_create. destruct (env_go _ _) as [s' ok]. clear. case_match. by intros [= -> _].
  - apply after_create_world in Hout as (-> & _ & -> & _). split; [apply Hgo|]. split; [exact Hd|]. by rewrite Hm'.
Qed.

Lemma created_of_batch env benv p (st st1 : LinkState (G := G)) o :
  same_services env benv p → batch_create_links benv [p] st = (Ret o, st1) → bo_created o ≠ [] →
  ∃ out w1, create_link_impl env p st.1 = (Ret out, w1).
Proof.
  intros [E5 Ea Eb Hgo]. unfold batch_create_links. cbn [length validate_all create_all].
  rewrite (bool_decide_false ([p] = [])) by done. cbn -[create_link_no_recompute after_batch].
  destruct (validate_link_creation (w_db st.1) p) as [[]|e|] eqn:Ev; [|by intros [= <- _]|done].
  apply validate_Ret in Ev as ((a & b & Hr) & Hm & Hl).
  destruct (create_link_no_recompute _ _ _) as [[[[[l cls] x] y]|e|] b'] eqn:Er; cbn -[after_batch]; [|by intros [= <- _]|done].
  apply no_recompute_Ret in Er as (a' & b1 & a_if & b_if & s1 & s2 & pm & -> & [_ [Da Db] (sa & pa & ma & pb & Hea & Heb) He Hmd -> _ _ Hdb Hbr _]).
  pose proof (check_request_Ret _ _ _ _ _ Hr) as (_ & _ & Da' & Db' & _).
  apply device_for_Some in Da', Db'. cbn [bs_db bs_mac] in *. assert (a' = a) as -> by congruence. assert (b1 = b) as -> by congruence.
  rewrite Hbr, Hdb. cbn -[after_batch]. case_bool_decide as Hc; [|done]. intros _ _.
  eapply create_run; try done; rewrite ?E5, ?Ea, ?Eb; done.
Qed.

(** A batch that creates nothing only moves the allocator. *)
Lemma batch_refused env ps (st st1 : LinkState (G := G)) r :
  batch_create_links env ps st = (r, st1) → (∀ o, r = Ret o → bo_created o = []) → ∃ m, st1 = (with_mac m st.1, st.2).
Proof.
  destruct st as [[d m h rws t q] sv]. unfold batch_create_links. cbn -[create_all validate_all after_batch MAX_BATCH Nat.ltb].
  destruct (bool_decide (ps = [])); [intros [= _ <-] _; by eexists|].
  destruct (MAX_BATCH <? length ps)%nat; [intros [= _ <-] _; by eexists|].
  destruct (validate_all _ _) as [[|e es]|]; [|intros [= _ <-] _; by eexists..].
  destruct (create_all _ _ _ _) as [[o b]|]; [|intros [= _ <-] _; by eexists].
  destruct (bool_decide (bo_created o = [])) eqn:Hb; [intros [= _ <-] _; by eexists|].
  destruct (bs_broken b || _); [intros [= _ <-] _; by eexists|]. intros [= <- _] He.
  by destruct (bool_decide_eq_false_1 _ Hb (He o eq_refl)).
Qed.

(** C00: a batch of one request creates a link exactly when a single creation
    would: the answer has the same link, apart from the effective status, which
    the batch evaluates before the commit; the rows are the same up to columns
    derived afterwards, and the allocator ends in the same state.  Otherwise
    nothing is created and only the allocator may have moved. *)
Theorem singleton_batch_agrees env benv p (st : LinkState (G := G)) :
  same_services env benv p →
  match create_link_impl env p st.1 with
  | (Ret out, w1) => created_alike out w1 (batch_create_links benv [p] st)
  | _ => ∃ r m, batch_create_links benv [p] st = (r, (with_mac m st.1, st.2)) ∧ ∀ o, r = Ret o → bo_created o = []
  end.
Proof.
  intros Hs. destruct (create_link_impl env p st.1) as [r1 w1] eqn:Ec. destruct (batch_create_links benv [p] st) as [r st1] eqn:Er.
  assert ((∀ out, r1 ≠ Ret out) →
    ∃ r' m, (r, st1) = (r', (with_mac m st.1, st.2)) ∧ ∀ o, r' = Ret o → bo_created o = []) as Hno.
  { intros Hnot. assert (∀ o, r = Ret o → bo_created o = []) as Hempty.
    { intros o ->. destruct (decide (bo_created o = [])) as [|Hne]; [done|].
      destruct (created_of_batch env benv p st st1 o Hs Er Hne) as (out & w' & E). exfalso. apply (Hnot out). congruence. }
    destruct (batch_refused benv [p] st st1 r Er Hempty) as [m ->]. by exists r, m. }
  destruct r1 as [out|e|]; [|by apply Hno..]. rewrite <-Er. by eapply batch_of_created.
Qed.
End single.

(** * A whole batch *)

(** The session after some requests, on top of the committed rows: interfaces
    were appended, each one a default interface of the device its id names. *)
Record session_ext (s x : DB) : Prop := {
  se_devices : devices x = devices s;
  se_new : ∃ new, interfaces x = interfaces s ++ new ∧
    ∀ j, j ∈ new → ends_with "-if0" (if_id j) = true ∧ drop_last 4 (if_id j) = if_device_id j
}.

Lemma session_ext_refl s : session_ext s s.
Proof. split; [done|]. exists []. rewrite app_nil_r. split; [done|]. by intros j ?%elem_of_nil. Qed.

Lemma session_extends s x : session_ext s x → extends s x.
Proof. intros [Hd (new & Hi & _)]. split; [done|by exists new]. Qed.

Lemma session_ext_rows s x x' :
  session_ext s x → devices x' = devices x → interfaces x' = interfaces x → session_ext s x'.
Proof. intros [Hd (new & Hi & Hn)] Ed Ei. split; [congruence|]. exists new. split; [congruence|done]. Qed.

(** The phases agree on the devices of a request. *)
Lemma device_for_session s x k : session_ext s x → device_for x k = device_for s k.
Proof.
  intros [Hd (new & Hi & Hn)]. unfold device_for, dev_from_iface_id, get_device. rewrite Hd.
  unfold get_interface. rewrite Hi, find_row_app. destruct (find_row _ (interfaces s)); [done|].
  destruct (find_row _ new) as [j|] eqn:E; [|done]. apply find_row_Some in E as [Hj Ek%String.eqb_eq].
  destruct (Hn j Hj) as [He <-]. rewrite Ek in He |- *. by rewrite He.
Qed.

Lemma ensure_session dbo k s x pend m o x' pend' m' :
  ensure_default_interface dbo k (x, pend, m) = Ret (o, (x', pend', m')) → session_ext s x →
  session_ext s x' ∧ links x' = links x ∧ extends x x'.
Proof.
  unfold ensure_default_interface. intros E Hs. destruct (get_interface x k); [injection E as _ <- _ _; eauto using extends_refl|].
  destruct (ends_with "-if0" k) eqn:Ek; [|injection E as _ <- _ _; eauto using extends_refl].
  destruct (get_device x (drop_last 4 k)) as [d|] eqn:Ed; [|injection E as _ <- _ _; eauto using extends_refl].
  destruct (next_mac dbo m) as [[mac m1]|]; [|done]. injection E as _ <- _ _.
  destruct Hs as [Hd (new & Hi & Hn)]. split; [|split; [done|split; [done|by eexists]]].
  split; [done|]. eexists. cbn [interfaces add_interface set_interfaces_media_links]. rewrite Hi, <-app_assoc.
  split; [done|]. intros j [Hj|Hj]%elem_of_app; [by apply Hn|]. apply list_elem_of_singleton in Hj as ->.
  split; [done|]. cbn [if_id if_device_id]. symmetry. by apply get_device_Some in Ed as [_ ?].
Qed.

Lemma batch_medium_rows md5 p s a b cls r s' :
  batch_medium md5 p s a b cls = (r, s') → devices s' = devices s ∧ interfaces s' = interfaces s ∧ links s' = links s.
Proof.
  unfold batch_medium. destruct (match lc_physical_medium_id p with Some _ => _ | None => _ end) as [sel s1] eqn:E.
  intros [= _ <-]. destruct (lc_physical_medium_id p); [by simplify_eq|]. by apply pick_default_rows in E as (? & ? & ? & _).
Qed.

(** The link clauses survive rows without links. *)
Lemma wired_extends s s' : wired s → extends s s' → links s' = links s → wired s'.
Proof.
  intros Hw He Hl. split; rewrite Hl.
  - apply Hw.
  - intros l Hin. destruct (wd_ends s Hw l Hin) as (x & tx & y & ty & E & Hr). exists x, tx, y, ty.
    split; [by eapply extends_typed_ends|done].
  - intros k l l' Hin Hin' Ho Ho'. apply (wd_odf s Hw k); eauto using wired_olt_link.
Qed.

Lemma check_ends_Ret s p a b a_if b_if :
  check_ends s p a b a_if b_if = Ret tt → enforce_single_upstream_rules s a b = Ret tt.
Proof. unfold check_ends. destruct (canonical_link_id _ _) as [[[x y] c] u]. by intros (? & _ & (? & _ & (? & _ & ?)%bind_Ret)%bind_Ret)%bind_Ret. Qed.

Lemma batch_link_ends md5 p s cls pm :
  lc_a_interface_id p ≠ lc_b_interface_id p →
  let l := batch_link md5 p s cls pm in
  link_id l = lc_id p ∧ str_ltb (a_interface_id l) (b_interface_id l) = true ∧
  (a_interface_id l = lc_a_interface_id p ∧ b_interface_id l = lc_b_interface_id p ∨
   a_interface_id l = lc_b_interface_id p ∧ b_interface_id l = lc_a_interface_id p).
Proof.
  intros Hne l. subst l. unfold batch_link, canonical_link_id. pose proof (sorted_pair_ltb _ _ Hne) as Hs.
  destruct (str_ltb (lc_b_interface_id p) (lc_a_interface_id p)); cbn [link_id a_interface_id b_interface_id]; auto.
Qed.

(** What a request adds to the session. *)
Record session_step (s : DB) (b b' : BatchSession) (ls : list Link) : Prop := {
  ss_ext : session_ext s (bs_db b');
  ss_wired : wired (bs_db b');
  ss_links : links (bs_db b') = links (bs_db b) ++ ls;
  ss_rows : gapless (bs_rows b) → gapless (bs_rows b')
}.

Section session.
Context (s : DB) (Hk : keys_ok s).

Lemma session_owner r k i z :
  device_for s k = Some z → session_ext s r → dev_from_iface_id r k = Some (if_device_id i) → if_device_id i = dev_id z.
Proof.
  intros Hz Hx Ho. rewrite <-(device_for_session s r) in Hz by done. unfold device_for in Hz. rewrite Ho in Hz.
  destruct (truthy (Some (if_device_id i))) as [k'|] eqn:Et; [|done]. apply truthy_Some in Et as [[= ->] _].
  by apply get_device_Some in Hz as [_ ->].
Qed.

Lemma session_type r z : session_ext s r → z ∈ devices s → device_type_of r (dev_id z) = Some (dev_type z).
Proof.
  intros Hx Hz. rewrite (extends_type s) by by apply session_extends. unfold device_type_of. by rewrite get_device_key.
Qed.

(** A link between devices that pass the upstream rule on the rows before it. *)
Lemma session_wired_add x s1 x' a b u v l :
  wired x → extends x s1 → links s1 = links x → extends s1 x' → session_ext s x' → links x' = links x ++ [l] →
  enforce_single_upstream_rules s1 a b = Ret tt → (u = a ∧ v = b ∨ u = b ∧ v = a) →
  u ∈ devices s → v ∈ devices s → dev_id u ≠ "" → dev_id v ≠ "" → admissible (dev_type u) (dev_type v) →
  str_ltb (a_interface_id l) (b_interface_id l) = true → end_ids x' l = Some (dev_id u, dev_id v) → wired x'.
Proof.
  intros Hw Hx1 Hl1 Hx' Hs Hl Hup Huv Iu Iv Nu Nv Had Hlt E.
  apply (wired_add x _ l (dev_id u) (dev_type u) (dev_id v) (dev_type v)); try done.
  { by eapply extends_trans. }
  { apply typed_ends_Some. by rewrite !session_type. }
  intros k l0 [Hk1 (z & Hj & Hz1)] Hl0 Ho0. apply (wired_olt_link_up x s1 k l0 Hw Hx1 Hl0) in Ho0.
  assert (∃ o w, (o = a ∧ w = b ∨ o = b ∧ w = a) ∧ o ∈ devices s ∧ w ∈ devices s ∧ k = dev_id o ∧ z = dev_id w)
    as (o & w & How & Io & Iw & -> & ->).
  { destruct Hj as [Hj|Hj]; rewrite E in Hj; injection Hj as <- <-; [exists u, v|exists v, u]; naive_solver. }
  rewrite session_type in Hk1, Hz1 by done. injection Hk1 as Hk1. injection Hz1 as Hz1.
  eapply (single_upstream_odf s1 a b Hup o l0); [naive_solver|done|congruence|done].
Qed.

Lemma batch_created_step env p b l x y b' a_dev b_dev a_if b_if s1 s2 pm :
  session_ext s (bs_db b) → wired (bs_db b) → validate_link_creation s p = Ret tt →
  batch_created env p b l x y b' a_dev b_dev a_if b_if s1 s2 pm → link_id l = lc_id p ∧ session_step s b b' [l].
Proof.
  intros Hs Hw Hv [_ [Da Db] (sa & pa & ma & pb & Ea & Eb) He%check_ends_Ret Hm -> _ Hc Hdb _ Hrows].
  apply validate_Ret in Hv as ((a & b0 & Hr) & _).
  apply check_request_Ret in Hr as (Hne & _ & Fa & Fb & _ & Had & _).
  pose proof (ensure_session _ _ s _ _ _ _ _ _ _ Ea Hs) as (Hsa & Hla & Xa).
  pose proof (ensure_session _ _ s _ _ _ _ _ _ _ Eb Hsa) as (Hs1 & Hlb & Xb).
  apply ensure_Ret in Ea as (_ & Ga & Oa & _), Eb as (_ & Gb & Ob & Hdb1 & _).
  apply (extends_interface _ _ _ _ Xb) in Ga. apply batch_medium_rows in Hm as (Hd2 & Hi2 & Hl2).
  pose proof (device_for_Some _ _ _ Fa) as Ha. pose proof (device_for_Some _ _ _ Fb) as Hb.
  rewrite (device_for_session s), Ha in Da by done. rewrite (device_for_session s), Hb in Db by done.
  injection Da as <-. injection Db as <-.
  apply (session_owner _ _ _ _ Ha Hs) in Oa. apply (session_owner _ _ _ _ Hb Hsa) in Ob.
  set (l := batch_link (be_md5 env) p s2 _ pm) in *.
  destruct (batch_link_ends (be_md5 env) p s2 (classify a b0) pm Hne) as (Hid & Hlt & Hends). fold l in Hid, Hlt, Hends.
  assert (links (bs_db b') = links (bs_db b) ++ [l]) as Hl by (rewrite Hdb; cbn; congruence).
  assert (session_ext s (bs_db b')) as Hx by (eapply session_ext_rows; [exact Hs1|rewrite Hdb; cbn; congruence..]).
  assert (extends s1 (bs_db b')) as X1 by (split; [rewrite Hdb; cbn; congruence|exists []; rewrite app_nil_r, Hdb; cbn; congruence]).
  apply (extends_interface _ _ _ _ X1) in Ga, Gb.
  assert (∀ z k, (∃ d, dev_from_iface_id s k = Some d ∧ d ≠ "" ∧ get_device s d = Some z) → z ∈ devices s ∧ dev_id z ≠ "") as Hz.
  { intros z k (d & _ & Hd & [? <-]%get_device_Some). done. }
  destruct (Hz _ _ Fa) as [Ia Na], (Hz _ _ Fb) as [Ib Nb]. split; [done|]. split; [done| |done|done].
  assert (extends (bs_db b) s1) as X by by eapply extends_trans.
  assert (links s1 = links (bs_db b)) as Hl1 by congruence.
  destruct Hends as [[Ea Eb]|[Ea Eb]];
    [apply (session_wired_add (bs_db b) s1 (bs_db b') a b0 a b0 l)|apply (session_wired_add (bs_db b) s1 (bs_db b') a b0 b0 a l)];
    auto using admissible_sym; unfold end_ids; rewrite Ea, Eb, Ga, Gb; congruence.
Qed.

Lemma session_step_kept b b' :
  wired (bs_db b) → session_ext s (bs_db b') → extends (bs_db b) (bs_db b') → links (bs_db b') = links (bs_db b) →
  bs_rows b' = bs_rows b → session_step s b b' [].
Proof.
  intros Hw Hs Hx Hl Hr. split; [done|by eapply wired_extends|by rewrite app_nil_r|by rewrite Hr].
Qed.

Lemma session_step_trans b1 b2 b3 ls1 ls2 :
  session_step s b1 b2 ls1 → session_step s b2 b3 ls2 → session_step s b1 b3 (ls1 ++ ls2).
Proof.
  intros [E1 W1 L1 R1] [E2 W2 L2 R2]. split; [done|done|by rewrite L2, L1, app_assoc|auto].
Qed.

(** A request that fails may leave interfaces and media in the session. *)
Lemma batch_failed_step env p b r b' :
  create_link_no_recompute env p b = (r, b') → (∀ out, r ≠ Ret out) →
  session_ext s (bs_db b) → wired (bs_db b) → session_step s b b' [].
Proof.
  intros E Hr Hs Hw.
  assert (session_step s b b []) as Hrefl by (apply session_step_kept; auto using extends_refl).
  unfold create_link_no_recompute in E. destruct (bs_broken b); [by injection E as _ <-|]. cbv zeta in E.
  destruct (device_for _ _) as [a_dev|]; [|by injection E as _ <-].
  destruct (device_for _ _) as [b_dev|]; [|by injection E as _ <-].
  destruct (ensure_default_interface (be_mac env (lc_a_interface_id p)) _ _) as [[oa [[sa pa] ma]]|e|] eqn:Ea;
    [|by injection E as _ <-..].
  cbn [mbind Outcome_bind snd fst] in E.
  destruct (ensure_default_interface (be_mac env (lc_b_interface_id p)) _ _) as [[ob [[sb pb] mb]]|e|] eqn:Eb;
    [|by injection E as _ <-..].
  cbn [mbind Outcome_bind snd fst] in E.
  destruct (ensure_session _ _ s _ _ _ _ _ _ _ Ea Hs) as (Hsa & Hla & Xa).
  destruct (ensure_session _ _ s _ _ _ _ _ _ _ Eb Hsa) as (Hsb & Hlb & Xb).
  assert (∀ x rows m br, devices x = devices sb → interfaces x = interfaces sb → links x = links sb → rows = bs_rows b →
    session_step s b (mkSession x rows m br) []) as Hkept.
  { intros x rows m br Ed Ei El ->. apply session_step_kept; try done; cbn [bs_db].
    - by apply (session_ext_rows s sb).
    - eapply extends_trans; [exact Xa|]. eapply extends_trans; [exact Xb|]. split; [done|]. exists []. by rewrite app_nil_r.
    - congruence. }
  destruct oa as [a_if|], ob as [b_if|]; [|injection E as _ <-; by apply Hkept..].
  destruct (check_ends _ _ _ _ _ _) as [u|e|]; [|injection E as _ <-; by apply Hkept..].
  destruct (batch_medium _ _ _ _ _ _) as [pm s2] eqn:Em. apply batch_medium_rows in Em as (Hd & Hi & Hl).
  destruct pm as [pm|e|]; [|injection E as _ <-; by apply Hkept..].
  unfold add_batch_link, session_db in E. cbn [bs_db bs_rows bs_mac bs_broken] in E.
  destruct (negb _); [injection E as _ <-; by apply Hkept|].
  destruct (append_domain_event _ _ _ _ _ _); injection E as <- <-; [by edestruct Hr|by apply Hkept].
Qed.

(** What a run of phase 2 does to the session, and how the answer sorts the
    requests. *)
Lemma create_all_run env committed ps b o b' :
  create_all env committed ps b = Some (o, b') → (∀ p, p ∈ ps → validate_link_creation s p = Ret tt) →
  session_ext s (bs_db b) → wired (bs_db b) →
  ∃ ls, session_step s b b' ls ∧ out_id <$> bo_created o = link_id <$> ls ∧
    lc_id <$> ps ≡ₚ (link_id <$> ls) ++ (bo_failed o).*1.
Proof.
  revert b o b'. induction ps as [|p ps IH]; intros b o b' E Hv Hs Hw; cbn [create_all] in E.
  { injection E as <- <-. exists []. split; [|done]. apply session_step_kept; auto using extends_refl. }
  destruct (create_link_no_recompute env p b) as [r b1] eqn:Er.
  assert (∀ p, p ∈ ps → validate_link_creation s p = Ret tt) as Hvs by (intros; apply Hv; by right).
  destruct r as [[[[l cls] x] y]|e|]; [| |done];
    destruct (create_all env committed ps b1) as [[o' b2]|] eqn:E1; try done; injection E as <- <-.
  - apply no_recompute_Ret in Er as (a_dev & b_dev & a_if & b_if & s1 & s2 & pm & -> & Hb).
    destruct (batch_created_step _ _ _ _ _ _ _ _ _ _ _ _ _ _ Hs Hw (Hv p (list_elem_of_here _ _)) Hb) as [Hid Hst].
    destruct (IH b1 o' b2 E1 Hvs (ss_ext _ _ _ _ Hst) (ss_wired _ _ _ _ Hst)) as (ls & Hst' & Hout & Hperm).
    exists (l :: ls). split; [by apply (session_step_trans b b1 b2 [l] ls)|]. csimpl. rewrite Hout, Hperm. by rewrite Hid.
  - pose proof (batch_failed_step env p b _ b1 Er ltac:(done) Hs Hw) as Hst.
    destruct (IH b1 o' b2 E1 Hvs (ss_ext _ _ _ _ Hst) (ss_wired _ _ _ _ Hst)) as (ls & Hst' & Hout & Hperm).
    exists ls. split; [by apply (session_step_trans b b1 b2 [] ls)|]. split; [done|]. csimpl. rewrite Hperm.
    by rewrite Permutation_middle.
Qed.
End session.

Definition refusals (s : DB) (ps : list LinkCreate) : list (string * HttpError) :=
  omap (λ p, match validate_link_creation s p with Raise e => Some (lc_id p, e) | _ => None end) ps.

Lemma validate_all_total s ps : keys_ok s → validate_all s ps = Some (refusals s ps).
Proof.
  intros Hk. induction ps as [|p ps IH]; [done|]. cbn [validate_all]. unfold refusals. csimpl.
  pose proof (validate_total s p Hk) as Hd. destruct (validate_link_creation s p) as [[]|e|]; [done| |done].
  rewrite IH. done.
Qed.

Lemma no_refusals s ps : keys_ok s → refusals s ps = [] → ∀ p, p ∈ ps → validate_link_creation s p = Ret tt.
Proof.
  intros Hk. induction ps as [|p ps IH]; unfold refusals; csimpl; [by intros _ p ?%elem_of_nil|].
  pose proof (validate_total s p Hk) as Hd. destruct (validate_link_creation s p) as [[]|e|] eqn:E; [|done..].
  intros Hr q [->|Hq]%elem_of_cons; [done|by apply IH].
Qed.

Lemma batch_medium_total md5 p s a b cls : (batch_medium md5 p s a b cls).1 ≠ Diverge.
Proof.
  unfold batch_medium. destruct (match lc_physical_medium_id p with Some _ => _ | None => _ end) as [sel s1]. cbn [fst].
  case_match; [|done]. intros Hd. diverge Hd. done.
Qed.

Lemma check_ends_total s p a b a_if b_if : check_ends s p a b a_if b_if ≠ Diverge.
Proof.
  unfold check_ends. destruct (canonical_link_id _ _) as [[[x y] c] u]. intros Hd. diverge Hd.
  all: revert Hd; clear; try unfold enforce_pon_role_if_declared; repeat case_match; first [done|apply raise_if_total].
Qed.

Lemma no_recompute_total env p b :
  (Z.of_nat (size (used (bs_mac b))) + 3 < CAP)%Z →
  let '(r, b') := create_link_no_recompute env p b in
  r ≠ Diverge ∧ (size (used (bs_mac b')) ≤ size (used (bs_mac b)) + 4)%nat.
Proof.
  intros Hm. unfold create_link_no_recompute. destruct (bs_broken b); [split; [done|lia]|]. cbv zeta.
  destruct (device_for _ _) as [a|]; [|split; [done|lia]]. destruct (device_for _ _) as [d|]; [|split; [done|lia]].
  pose proof (ensure_total (be_mac env (lc_a_interface_id p)) (lc_a_interface_id p) (bs_db b) [] (bs_mac b) ltac:(lia)) as Ha.
  destruct (ensure_default_interface _ _ _) as [[oa [[sa pa] ma]]| |]; [|split; [done|lia]|done].
  cbn [mbind Outcome_bind snd fst].
  pose proof (ensure_total (be_mac env (lc_b_interface_id p)) (lc_b_interface_id p) sa pa ma ltac:(lia)) as Hb.
  destruct (ensure_default_interface _ _ _) as [[ob [[sb pb] mb]]| |]; [|split; [done|lia]|done].
  cbn [mbind Outcome_bind snd fst]. destruct oa as [a_if|], ob as [b_if|]; try (split; [done|cbn; lia]).
  pose proof (check_ends_total sb p a d a_if b_if) as Hc.
  destruct (check_ends _ _ _ _ _ _) as [u|e|]; [|split; [done|cbn; lia]|done].
  pose proof (batch_medium_total (be_md5 env) p sb a d (classify a d)) as Hd.
  destruct (batch_medium _ _ _ _ _ _) as [[pm|e|] s2]; [|split; [done|cbn; lia]|done].
  unfold add_batch_link, session_db. cbn [bs_db bs_rows bs_mac bs_broken].
  destruct (negb _); [split; [done|cbn; lia]|]. destruct (append_domain_event _ _ _ _ _ _); split; try done; cbn; lia.
Qed.

Lemma create_all_total env s ps b :
  (Z.of_nat (size (used (bs_mac b))) + 4 * Z.of_nat (length ps) < CAP)%Z → is_Some (create_all env s ps b).
Proof.
  revert b. induction ps as [|p ps IH]; intros b Hm; cbn [create_all length] in *; [by eexists|].
  pose proof (no_recompute_total env p b ltac:(lia)) as Hr. destruct (create_link_no_recompute env p b) as [r b1].
  destruct Hr as [Hd Hs]. destruct (IH b1 ltac:(lia)) as [[o b2] E].
  destruct r as [[[[l cls] x] y]|e|]; [| |done]; rewrite E; by eexists.
Qed.

Section batch.
Context {G : Type} `{NxGraph G} `{Dijkstra G}.

(** The rows a batch commits, on top of the rows it started from. *)
Record batch_committed (s s' : DB) (ps : list LinkCreate) (o : BatchOut) : Prop := {
  bt_valid : refusals s ps = [];
  bt_extends : extends s s';
  bt_links : ∃ ls, links s' = links s ++ ls ∧ out_id <$> bo_created o = link_id <$> ls;
  bt_sorted : lc_id <$> ps ≡ₚ (out_id <$> bo_created o) ++ (bo_failed o).*1;
  bt_constraints : constraints s';
  bt_wired : wired s'
}.

(** C00: what a batch does, on a topology that satisfies the invariant.  If some
    request fails the first checks, the answer lists exactly the failing
    requests with their errors, creates nothing and changes nothing.  Otherwise
    a batch that creates links commits them all at once, behind the old ones:
    every request is either created or reported, the unique constraints hold,
    every link joins admissible ends and no ODF has two OLTs; the topology
    version moves by one for the whole batch and each link is scheduled.  A
    batch that creates nothing only moves the allocator.  With enough addresses
    left a batch always answers. *)
Theorem batch_request_spec env ps (st st1 : LinkState (G := G)) r :
  topology_ok (w_db st.1) → batch_create_links env ps st = (r, st1) →
  match r with
  | Ret o =>
      if bool_decide (bo_created o = []) then
        (∃ m, st1 = (with_mac m st.1, st.2)) ∧ bo_failed o ≠ [] ∧
        (refusals (w_db st.1) ps ≠ [] → bo_failed o = refusals (w_db st.1) ps ∧ st1 = st)
      else ∃ s', batch_committed (w_db st.1) s' ps o ∧ derived s' (w_db st1.1) ∧
        w_topo st1.1 = (w_topo st.1 + 1)%Z ∧ (gapless (w_rows st.1) → gapless (w_rows st1.1)) ∧
        w_requests st1.1 = w_requests st.1 ++ ((λ k, ("links", k)) <$> be_order env (remove_dups (out_id <$> bo_created o)))
  | Raise _ => ∃ m, st1 = (with_mac m st.1, st.2)
  | Diverge => (CAP ≤ Z.of_nat (size (used (w_mac st.1))) + 4 * Z.of_nat (length ps))%Z
  end.
Proof.
  intros Ht Hrun. pose proof (batch_refused env ps st st1 r Hrun) as Href.
  pose proof (topology_keys _ Ht) as Hk.
  unfold batch_create_links in Hrun. cbv zeta in Hrun.
  destruct (bool_decide (ps = [])) eqn:Hne; [injection Hrun as <- <-; by apply Href|].
  apply bool_decide_eq_false in Hne.
  destruct (MAX_BATCH <? length ps)%nat; [injection Hrun as <- <-; by apply Href|].
  rewrite validate_all_total in Hrun by done.
  destruct (refusals (w_db st.1) ps) as [|e es] eqn:Erf.
  2: { injection Hrun as <- <-. cbn [bo_created bo_failed]. rewrite bool_decide_true by done.
       split; [apply Href; naive_solver|done]. }
  set (b0 := mkSession _ _ _ _) in Hrun.
  pose proof (create_all_total env (w_db st.1) ps b0) as Htot.
  destruct (create_all env (w_db st.1) ps b0) as [[o b]|] eqn:Eall.
  2: { injection Hrun as <- <-. cbn [bs_mac b0] in Htot. apply Z.nlt_ge. intros Hlt. by destruct (Htot Hlt). }
  destruct (create_all_run (w_db st.1) Hk env (w_db st.1) ps b0 o b Eall (no_refusals _ _ Hk Erf)
    (session_ext_refl _) (topology_wired _ Ht)) as (ls & [Hx Hw Hl Hg] & Hout & Hperm).
  rewrite <-Hout in Hperm. destruct (bool_decide (bo_created o = [])) eqn:Hc.
  { injection Hrun as <- <-. rewrite Hc. apply bool_decide_eq_true in Hc.
    split; [apply Href; naive_solver|]. split; [|done]. intros Hf. rewrite Hc, Hf in Hperm.
    by apply Permutation_nil_r, fmap_nil_inv in Hperm. }
  destruct (bs_broken b || negb _) eqn:Hb; [injection Hrun as <- <-; by apply Href|].
  apply orb_false_iff in Hb as [_ Hb%negb_false_iff%bool_decide_eq_true].
  injection Hrun as <- <-. rewrite Hc. exists (bs_db b).
  match goal with |- context [after_batch ?e ?i ?n ?x] =>
    destruct (after_batch_follows e i n x (c_keys _ Hb)) as (Hd & _ & Htv & Hgl & Hrq) end.
  split; [split; eauto using session_extends|]. split; [exact Hd|]. split; [exact Htv|].
  split; [intros Hg0; apply Hgl, Hg, Hg0|exact Hrq].
Qed.
End batch.

(** * Concrete batches *)

(** A splitter under an ODF and an OLT, and two ONTs. *)
Definition two_onts : World :=
  foldl link_op
    (mkWorld (mkDB (demo_devices ++ [device0 "ont2" ONT]) demo_interfaces [] [] [] [] [] [] []) fresh_state [] [] 0 [])
    (take 3 build_requests).

Definition splitter_state : LinkState (G := AssocGraph) := (two_onts, no_services).

Definition batch_env0 : BatchEnv := mkBatchEnv link_env0 (λ _, DbOk) (λ _, 0%Z) (λ ids, ids).

Definition single_env : Env := mkEnv "t" DbOk DbOk true (λ _, 0%Z) true (λ s, (s, true)).

Lemma single_services p : same_services single_env batch_env0 p.
Proof. split; [done..|]. intros s. apply derived_refl. Qed.

Lemma two_onts_topology : topology_ok (w_db two_onts) ∧ gapless (w_rows two_onts).
Proof.
  unfold two_onts. apply foldl_invariant.
  - intros w o Ho [Ht Hg]. apply link_op_inv; [|done..]. intros s.
    repeat (apply elem_of_cons in Ho as [->|Ho]; [apply env0_derived|]). by apply elem_of_nil in Ho.
  - split; [|apply gapless_nil]. split; simpl; try (intros; by set_solver). apply (bool_decide_unpack _). vm_compute. exact I.
Qed.

Definition first_ont : LinkCreate := LinksProofs.request "spl-out1" "ont-if0" "spl-out1__ont" None.
Definition second_ont : LinkCreate := LinksProofs.request "spl-out1" "ont2-if0" "spl-out1__ont2" None.
Definition misnamed : LinkCreate := LinksProofs.request "spl-out2" "ont2-if0" "to-ont2" None.

Lemma singleton_batch_agrees_witness :
  ∃ eff out w1 st1, create_link_impl single_env second_ont splitter_state.1 = (Ret out, w1) ∧
    batch_create_links batch_env0 [second_ont] splitter_state = (Ret (mkBatchOut [with_effective eff out] []), st1) ∧
    out_id out = "spl-out1__ont2".
Proof.
  assert (∃ out, (create_link_impl single_env second_ont splitter_state.1).1 = Ret out ∧ out_id out = "spl-out1__ont2") as (out & Eo & Hid).
  { eexists. split; [vm_compute; reflexivity|vm_compute; reflexivity]. }
  pose proof (singleton_batch_agrees single_env batch_env0 second_ont splitter_state (single_services _)) as H.
  destruct (create_link_impl single_env second_ont splitter_state.1) as [r w1] eqn:E. cbn [fst] in Eo. subst r.
  destruct H as (eff & s & st1 & Hb & _). exists eff, out, w1, st1. exact (conj eq_refl (conj Hb Hid)).
Defined.

(** The batch answers with two links and one failure, and links are committed:
    "all links must pass the same validation" and "the entire batch is rolled
    back" hold for the first phase only.  Both ONTs end on one OUT port, which
    single creations refuse. *)
Lemma batch_request_spec_witness :
  ∃ o st1, batch_create_links batch_env0 [first_ont; second_ont; misnamed] splitter_state = (Ret o, st1) ∧
    out_id <$> bo_created o = ["spl-out1__ont"; "spl-out1__ont2"] ∧ (bo_failed o).*1 = ["to-ont2"] ∧
    ∃ s', batch_committed (w_db splitter_state.1) s' [first_ont; second_ont; misnamed] o ∧ derived s' (w_db st1.1).
Proof.
  assert (∃ o, (batch_create_links batch_env0 [first_ont; second_ont; misnamed] splitter_state).1 = Ret o ∧
    out_id <$> bo_created o = ["spl-out1__ont"; "spl-out1__ont2"] ∧ (bo_failed o).*1 = ["to-ont2"]) as (o & Eo & Ec & Ef).
  { eexists. split; [vm_compute; reflexivity|]. split; vm_compute; reflexivity. }
  destruct (batch_create_links batch_env0 [first_ont; second_ont; misnamed] splitter_state) as [r st1] eqn:E.
  cbn [fst] in Eo. subst r.
  pose proof (batch_request_spec batch_env0 _ splitter_state st1 _ (proj1 two_onts_topology) E) as H.
  exists o, st1. split; [exact eq_refl|]. split; [exact Ec|]. split; [exact Ef|].
  assert (bool_decide (bo_created o = []) = false) as Hb by (apply bool_decide_eq_false; intros Hb; by rewrite Hb in Ec).
  cbv iota beta in H. rewrite Hb in H. destruct H as (s' & Hc & Hd & _). exists s'. exact (conj Hc Hd).
Defined.

(** One after the other, the second ONT is refused. *)
Lemma batch_overfills_port :
  let batched := batch_create_links batch_env0 [first_ont; second_ont] splitter_state in
  let w1 := (create_link_impl single_env first_ont two_onts).2 in
  (create_link_impl single_env first_ont two_onts).1 ≠ Diverge ∧
  accepted (create_link_impl single_env second_ont w1).1 = false ∧
  link_id <$> filter (λ l, "spl-out1" ∈ [a_interface_id l; b_interface_id l]) (links (w_db batched.2.1)) =
    ["spl-out1__ont"; "spl-out1__ont2"].
Proof. split_and!; [vm_compute; discriminate|vm_compute; reflexivity..]. Qed.
