(* ===== verification/SubscriberModelProofs.v ===== *)
(** What the subscriber model attaches and counts. *)

From S2P Require Import Prelude PyFloat Models Worklist Scenario SubscriberModel.

(** * Lookups in dictionaries of dictionaries *)

Definition lookup2 {V} (x0 : V) (m : gmap string (gmap string V)) (j k : string) : V := default x0 (m !! j ≫= lookup k).

Lemma lookup2_update {V} (x0 : V) f m j k j' k' :
  lookup2 x0 (update2 j k x0 f m) j' k' = if decide ((j', k') = (j, k)) then f (lookup2 x0 m j k) else lookup2 x0 m j' k'.
Proof.
  unfold lookup2, update2. destruct (decide (j' = j)) as [->|Hj].
  - rewrite lookup_insert_eq. cbn [mbind option_bind]. destruct (decide (k' = k)) as [->|Hk].
    + rewrite lookup_insert_eq, decide_True by done. cbn [default from_option]. f_equal. by destruct (m !! j).
    + rewrite lookup_insert_ne, decide_False by congruence. by destruct (m !! j).
  - rewrite lookup_insert_ne, decide_False by congruence. done.
Qed.

Lemma elem_of_sorted_items {V} (m : gmap string V) k v : (k, v) ∈ sorted_items m ↔ m !! k = Some v.
Proof.
  unfold sorted_items. rewrite list_elem_of_omap. setoid_rewrite elem_of_sorted_strs. setoid_rewrite elem_of_elements.
  setoid_rewrite elem_of_dom. split.
  - intros (k' & _ & (v' & Hv & [= -> ->])%bind_Some). done.
  - intros Hv. exists k. split; [by eexists|]. by rewrite Hv.
Qed.

Lemma sorted_items_NoDup {V} (m : gmap string V) : NoDup (sorted_items m).*1.
Proof.
  unfold sorted_items. assert (NoDup (sorted_strs (elements (dom m)))) as Hn
    by (unfold sorted_strs; rewrite sort_by_perm; apply NoDup_elements).
  revert Hn. generalize (sorted_strs (elements (dom m))) as ks. induction ks as [|k ks IH]; intros Hn; [constructor|].
  apply NoDup_cons in Hn as [Hk Hn]. csimpl. destruct (m !! k) as [v|]; csimpl; [|by apply IH].
  constructor; [|by apply IH]. intros ((k' & v') & -> & (j & Hj & (w & _ & [= -> ->])%bind_Some)%list_elem_of_omap)%list_elem_of_fmap. done.
Qed.

(** * Anchors *)

Section anchors.
Context (s : DB).

Local Abbreviation path_to d := (reaches (hop (λ _, true) (next_ids s)) (if_id <$> interfaces_by_device s (dev_id d))).

Lemma known_hop x y : hop (λ _ : string, true) (next_ids s) x y → y ∈ known_ids s.
Proof.
  intros [Hy _]. unfold next_ids in Hy. destruct (owner_of s x) as [[i d]|]; [|by apply elem_of_nil in Hy].
  unfold known_ids. rewrite elem_of_list_to_set, !elem_of_app. apply elem_of_app in Hy as [Hy|Hy].
  - apply elem_of_sorted_strs, elem_of_elements in Hy. unfold link_neighbors in Hy. rewrite elem_of_list_to_set in Hy.
    apply list_elem_of_join in Hy as (r & Hy & (l & -> & Hl)%list_elem_of_fmap).
    destruct (nonempty (a_interface_id l) && _); [|by apply elem_of_nil in Hy].
    assert (y = b_interface_id l ∨ y = a_interface_id l) as [-> | ->];
      [|right; right; by apply list_elem_of_fmap_2|right; left; by apply list_elem_of_fmap_2].
    apply elem_of_app in Hy as [Hy|Hy]; destruct (String.eqb _ _); set_solver.
  - left. unfold sibling_ids in Hy. destruct (get_device s (if_device_id i)); [|by apply elem_of_nil in Hy].
    destruct (mem _ _); [|by apply elem_of_nil in Hy]. apply list_elem_of_filter in Hy as [_ Hy].
    apply list_elem_of_fmap in Hy as (j & -> & Hj). apply list_elem_of_fmap_2.
    apply list_elem_of_filter in Hj as [_ Hj]. by rewrite elem_of_sort_by in Hj.
Qed.

(** The breadth-first search ends, at an anchor port it can reach, if there is one. *)
Lemma trace_anchor_spec d dom :
  match trace_anchor s d dom with
  | Some a => ∃ k, path_to d k ∧ anchor_here s dom k = Some a
  | None => ∀ k, path_to d k → anchor_here s dom k = None
  end.
Proof.
  unfold trace_anchor. set (seeds := if_id <$> _).
  destruct (search_run (B := string * string * string) append_one (λ _, true) (anchor_here s dom) (next_ids s) append_one_perm
    (known_ids s) seeds known_hop) as [r E]. rewrite E. apply search_reaches in E; [|exact append_one_perm].
  destruct r as [a|V]; [done|]. by intros k; apply E.
Qed.

Lemma owner_of_Some k i d : owner_of s k = Some (i, d) →
  i ∈ interfaces s ∧ if_id i = k ∧ d ∈ devices s ∧ dev_id d = if_device_id i.
Proof.
  unfold owner_of. intros (i' & Hi & (d' & Hd & [= -> ->])%bind_Some)%bind_Some.
  apply get_interface_Some in Hi as [? ?]. apply get_device_Some in Hd as [? ?]. done.
Qed.

(** The OLT and PON port an ONT is attached to, the switch and port of a CPE. *)
Definition olt_anchor (d : Device) : option (string * string) :=
  if mem (dev_type d) ONT_TYPES && provisioned d then fst <$> trace_anchor s d DOM_OLT else None.

Definition cpe_anchor (d : Device) : option (string * string) :=
  if mem (dev_type d) CPE_TYPES && provisioned d then fst <$> trace_direct_aon_anchor s d else None.

Lemma olt_anchor_Some d o p : olt_anchor d = Some (o, p) →
  (dev_type d ∈ ONT_TYPES ∧ provisioned d = true) ∧
  ∃ i x, owner_of s p = Some (i, x) ∧ dev_type x = OLT ∧ dev_id x = o ∧ x ∈ devices s ∧ i ∈ interfaces s ∧ if_id i = p.
Proof.
  unfold olt_anchor. destruct (mem _ _ && _) eqn:E; [|done]. apply andb_true_iff in E as [?%mem_true ?].
  pose proof (trace_anchor_spec d DOM_OLT) as Ht. destruct (trace_anchor s d DOM_OLT) as [[a w]|]; [|done].
  intros [= ->]. split; [done|]. destruct Ht as (k & _ & Ht). unfold anchor_here in Ht.
  destruct (owner_of s k) as [[i x]|] eqn:Eo; [|done]. destruct (_ && _) eqn:E2; [|done]. bools. injection Ht as <- <- _.
  exists i, x. destruct (owner_of_Some _ _ _ Eo) as (? & <- & ? & ?). done.
Qed.

Lemma cpe_anchor_Some d a p : cpe_anchor d = Some (a, p) →
  (dev_type d ∈ CPE_TYPES ∧ provisioned d = true) ∧
  ∃ i x, owner_of s p = Some (i, x) ∧ dev_type x = AON_SWITCH ∧ dev_id x = a ∧ x ∈ devices s ∧ i ∈ interfaces s ∧ if_id i = p.
Proof.
  unfold cpe_anchor. destruct (mem _ _ && _) eqn:E; [|done]. apply andb_true_iff in E as [?%mem_true ?].
  unfold trace_direct_aon_anchor. destruct (head _) as [[b w]|] eqn:Hh; [|done]. intros [= ->]. split; [done|].
  apply head_Some_elem_of, list_elem_of_omap in Hh as (k & _ & ([i x] & Eo & Hh)%bind_Some).
  case_bool_decide; [|done]. injection Hh as <- <- _. exists i, x. destruct (owner_of_Some _ _ _ Eo) as (? & <- & ? & ?). done.
Qed.
End anchors.

(** * The loop over the leaves *)

Section model.
Context (s : DB) (Hk : keys_ok s) (Hids : ∀ i, i ∈ interfaces s → if_id i ≠ "").

Lemma device_unique d d' : d ∈ devices s → d' ∈ devices s → dev_id d = dev_id d' → d = d'.
Proof.
  intros Hd Hd' E. pose proof (get_device_key s d Hk Hd) as H1. pose proof (get_device_key s d' Hk Hd') as H2. congruence.
Qed.

(** The domain of the nodes that can have subscribers. *)
Definition node_domain (d : Device) : Domain := if mem (dev_type d) (OLT :: ONT_TYPES) then DOM_OLT else DOM_AON.

(** [x] is listed at the device [a] after the first loop. *)
Definition joins (x : Device) (a : string) : Prop :=
  (is_leaf x = true ∧ provisioned x = true ∧ dev_id x = a) ∨ ∃ p, olt_anchor s x = Some (a, p).

Record node_ok (d : Device) (P : string → Prop) (n : Node) : Prop := {
  no_type : node_type n = dev_type d;
  no_nodup : NoDup (subscriber_ids n);
  no_ids : ∀ k, k ∈ subscriber_ids n ↔ P k;
  no_domain : subscriber_domain n = if decide (subscriber_ids n = []) then None else Some (node_domain d)
}.

Definition counted_right (n : Node) : Prop := subscribers n = Z.of_nat (length (subscriber_ids n)).

(** What is decided about a leaf before the ports of the switches are settled. *)
Definition leaf_decision (d : Device) : MappingDecision :=
  let mk c dom a why := mkDecision (dev_id d) (dev_type d) c dom (fst <$> a) (snd <$> a) why in
  if negb (provisioned d) then mk (Some false) None None "not_provisioned"
  else if mem (dev_type d) ONT_TYPES then
    match trace_anchor s d DOM_OLT with
    | Some (a, p, why) => mk (Some true) (Some DOM_OLT) (Some (a, p)) why
    | None => mk (Some false) (Some DOM_OLT) None "no_reachable_anchor"
    end
  else
    match trace_direct_aon_anchor s d with
    | Some (a, p, why) => mk None (Some DOM_AON) (Some (a, p)) why
    | None => mk (Some false) (Some DOM_AON) None "no_direct_aon_access_port"
    end.

Definition nodes_ok (P : Device → string → Prop) (m : gmap string Node) : Prop :=
  ∀ d, d ∈ devices s → ∃ n, m !! dev_id d = Some n ∧ counted_right n ∧ node_ok d (P d) n.

Definition joined (L : list Device) (d : Device) (k : string) : Prop := ∃ x, x ∈ L ∧ dev_id x = k ∧ joins x (dev_id d).

Record leaf_inv (L : list Device) (st : ModelState) : Prop := {
  li_decisions : mapping_decisions st = leaf_decision <$> filter (λ d, is_leaf d = true) L;
  li_nodes : nodes_ok (joined L) (per_node st);
  li_pon : ∀ o p, lookup2 0%Z (pon_occupancy st) o p = Z.of_nat (length (filter (λ x, olt_anchor s x = Some (o, p)) L));
  li_candidates : ∀ a p, lookup2 [] (aon_port_candidates st) a p = dev_id <$> filter (λ x, cpe_anchor s x = Some (a, p)) L;
  li_access : aon_access_occupancy st = ∅
}.

Lemma olt_anchor_device x o p : olt_anchor s x = Some (o, p) → ∃ d, d ∈ devices s ∧ dev_id d = o ∧ dev_type d = OLT ∧ p ≠ "".
Proof. intros (_ & i & d & _ & ? & ? & ? & Hi & <-)%olt_anchor_Some. exists d. auto. Qed.

Lemma cpe_anchor_device x a p : cpe_anchor s x = Some (a, p) → ∃ d, d ∈ devices s ∧ dev_id d = a ∧ dev_type d = AON_SWITCH ∧ p ≠ "".
Proof. intros (_ & i & d & _ & ? & ? & ? & Hi & <-)%cpe_anchor_Some. exists d. auto. Qed.

Lemma joins_leaf x d : d ∈ devices s → x ∈ devices s → is_leaf d = true → joins x (dev_id d) → x = d.
Proof.
  intros Hd Hx Hl [(_ & _ & E)|[p (o & Ho & E & Ht & _)%olt_anchor_device]]; [by apply device_unique|].
  apply (device_unique o d Ho Hd) in E. subst o. unfold is_leaf in Hl. by rewrite Ht in Hl.
Qed.

Lemma initial_nodes d : d ∈ devices s → per_node (initial_model s) !! dev_id d = Some (initial_node d).
Proof.
  intros Hd. unfold initial_model. cbn [per_node]. apply foldl_insert_lookup; [apply Hk|done].
Qed.

Lemma leaf_inv_nil : leaf_inv [] (initial_model s).
Proof.
  split; try done. intros d Hd. exists (initial_node d). split; [by apply initial_nodes|]. split; [done|].
  split; try done; [constructor|]. intros k. split; [by intros ?%elem_of_nil|]. by intros (x & ?%elem_of_nil & _).
Qed.

(** An attached leaf extends the node of its anchor. *)
Lemma attach_ok d dom k P n :
  node_ok d P n → counted_right n → dom = node_domain d → ¬ P k →
  node_ok d (λ j, P j ∨ j = k) (attach k dom n) ∧ counted_right (attach k dom n).
Proof.
  intros [Ht Hn Hi Hd] Hc -> Hk'. unfold attach, join_ids_of. assert (mem k (subscriber_ids n) = false) as ->
    by (apply mem_false; by rewrite Hi).
  set (ids := sorted_strs _). assert (ids ≡ₚ subscriber_ids n ++ [k]) as Hp by apply sort_by_perm.
  split; [|done]. split; cbn [node_type subscriber_ids subscriber_domain]; [done|..].
  - rewrite Hp. apply NoDup_app. split; [done|]. split; [|apply NoDup_singleton].
    intros j Hj ->%list_elem_of_singleton. by apply Hk', Hi.
  - intros j. rewrite Hp, elem_of_app, list_elem_of_singleton, Hi. done.
  - rewrite decide_False; [done|]. intros E. rewrite E in Hp. symmetry in Hp. apply Permutation_nil_r in Hp. by destruct (subscriber_ids n).
Qed.

Lemma node_ok_iff d P Q n : (∀ k, P k ↔ Q k) → node_ok d P n → node_ok d Q n.
Proof. intros E [Ht Hn Hi Hd]. split; [done|done| |done]. intros k. by rewrite Hi. Qed.

(** The anchors of a device, as the loop computes them. *)
Lemma olt_anchor_ont d : dev_type d ∈ ONT_TYPES → provisioned d = true → olt_anchor s d = fst <$> trace_anchor s d DOM_OLT.
Proof. intros Ht%mem_true Hp. unfold olt_anchor. by rewrite Ht, Hp. Qed.

Lemma cpe_anchor_cpe d : dev_type d ∈ CPE_TYPES → provisioned d = true → cpe_anchor s d = fst <$> trace_direct_aon_anchor s d.
Proof. intros Ht%mem_true Hp. unfold cpe_anchor. by rewrite Ht, Hp. Qed.

Lemma leaf_kind d : is_leaf d = true → dev_type d ∈ ONT_TYPES ∧ dev_type d ∉ CPE_TYPES ∨ dev_type d ∉ ONT_TYPES ∧ dev_type d ∈ CPE_TYPES.
Proof.
  unfold is_leaf. intros [H|H]%mem_true%elem_of_app; [left|right]; (split; [try done|]).
  - intros H'. apply mem_true in H, H'. revert H H'. unfold mem. by destruct (dev_type d).
  - intros H'. apply mem_true in H, H'. revert H H'. unfold mem. by destruct (dev_type d).
  - done.
Qed.

(** Only leaves have anchors. *)
Lemma olt_anchor_leaf x a : olt_anchor s x = Some a → is_leaf x = true ∧ provisioned x = true ∧ dev_type x ∈ ONT_TYPES.
Proof.
  destruct a as [o p]. intros ((Ht & Hp) & _)%olt_anchor_Some. split; [|done]. unfold is_leaf. apply mem_true.
  apply elem_of_app. by left.
Qed.

Lemma cpe_anchor_leaf x a : cpe_anchor s x = Some a → is_leaf x = true ∧ provisioned x = true ∧ dev_type x ∈ CPE_TYPES.
Proof.
  destruct a as [o p]. intros ((Ht & Hp) & _)%cpe_anchor_Some. split; [|done]. unfold is_leaf. apply mem_true.
  apply elem_of_app. by right.
Qed.

(** ** Nodes *)

Lemma nodes_ok_iff P Q m : (∀ d k, d ∈ devices s → P d k ↔ Q d k) → nodes_ok P m → nodes_ok Q m.
Proof.
  intros E Hm d Hd. destruct (Hm d Hd) as (n & ? & ? & ?). exists n. split; [done|]. split; [done|].
  eapply node_ok_iff; [|done]. auto.
Qed.

Lemma nodes_alter P Q m f o :
  nodes_ok P m → o ∈ devices s →
  (∀ n, node_ok o (P o) n → counted_right n → node_ok o (Q o) (f n) ∧ counted_right (f n)) →
  (∀ d k, d ∈ devices s → d ≠ o → P d k ↔ Q d k) → nodes_ok Q (alter f (dev_id o) m).
Proof.
  intros Hm Ho Hf HQ d Hd. destruct (Hm d Hd) as (n & Hn & Hc & Hok). destruct (decide (dev_id d = dev_id o)) as [E|Hne].
  - apply device_unique in E as ->; [|done..]. exists (f n). rewrite lookup_alter_eq, Hn. split; [done|]. destruct (Hf n Hok Hc). done.
  - exists n. rewrite lookup_alter_ne by congruence.
    split; [done|]. split; [done|]. eapply node_ok_iff; [|exact Hok]. intros k. apply HQ; congruence.
Qed.

Lemma nodes_leaf P m d :
  nodes_ok P m → d ∈ devices s → is_leaf d = true → (∀ k, ¬ P d k) →
  nodes_ok (λ d0 k, P d0 k ∨ k = dev_id d ∧ d0 = d) (alter (leaf_node d (leaf_domain d)) (dev_id d) m).
Proof.
  intros Hm Hd Hl Hf. eapply nodes_alter; [exact Hm|done|..].
  - intros n [Ht _ _ _] _. split; [|done]. split; cbn [leaf_node node_type subscriber_ids subscriber_domain]; [done|apply NoDup_singleton|..].
    + intros k. rewrite list_elem_of_singleton. naive_solver.
    + rewrite decide_False by done. f_equal. unfold leaf_domain, node_domain.
      destruct (leaf_kind d Hl) as [[H1 H2]|[H1 H2]].
      * rewrite !(proj2 (mem_true _ _)); [done|by right|done].
      * rewrite !(proj2 (mem_false _ _)); [done| |done].
        apply mem_true in H2. revert H2. clear. unfold mem. destruct (dev_type d); vm_compute; try done. intros _ ?. set_solver.
  - intros d0 k _ Hne. naive_solver.
Qed.

Lemma nodes_attach P m o k :
  nodes_ok P m → o ∈ devices s → ¬ P o k →
  nodes_ok (λ d0 j, P d0 j ∨ j = k ∧ d0 = o) (alter (attach k (node_domain o)) (dev_id o) m).
Proof.
  intros Hm Ho Hf. eapply nodes_alter; [exact Hm|done|..].
  - intros n Hn Hc. destruct (attach_ok o (node_domain o) k (P o) n Hn Hc eq_refl Hf) as [H1 H2]. split; [|done].
    eapply node_ok_iff; [|exact H1]. naive_solver.
  - intros d0 j _ Hne. naive_solver.
Qed.

Lemma joined_snoc L d0 k x :
  joined (L ++ [x]) d0 k ↔ joined L d0 k ∨ (k = dev_id x ∧ joins x (dev_id d0)).
Proof. unfold joined. setoid_rewrite elem_of_app. setoid_rewrite list_elem_of_singleton. naive_solver. Qed.

(** ** One step *)

Section step.
Context (L : list Device) (d : Device) (HL : ∀ x, x ∈ L → x ∈ devices s) (Hd : d ∈ devices s) (Hnew : d ∉ L).

Lemma joined_fresh d0 : d0 ∈ devices s → ¬ joined L d0 (dev_id d).
Proof. intros Hd0 (x & Hx & E & _). apply device_unique in E; [|auto..]. by subst. Qed.

Lemma joined_leaf_fresh k : is_leaf d = true → ¬ joined L d k.
Proof. intros Hl (x & Hx & _ & Hj). apply joins_leaf in Hj; auto. by subst. Qed.

Lemma filter_snoc_no {A} (P : A → Prop) `{∀ x, Decision (P x)} (l : list A) x : ¬ P x → filter P (l ++ [x]) = filter P l.
Proof. intros. by rewrite filter_app, filter_cons_False, app_nil_r. Qed.

Lemma filter_snoc_yes {A} (P : A → Prop) `{∀ x, Decision (P x)} (l : list A) x : P x → filter P (l ++ [x]) = filter P l ++ [x].
Proof. intros. by rewrite filter_app, filter_cons_True. Qed.

Lemma leaf_inv_snoc st st' :
  leaf_inv L st →
  mapping_decisions st' = mapping_decisions st ++ (if is_leaf d then [leaf_decision d] else []) →
  nodes_ok (λ d0 k, joined L d0 k ∨ k = dev_id d ∧ joins d (dev_id d0)) (per_node st') →
  (∀ o p, lookup2 0%Z (pon_occupancy st') o p =
     (lookup2 0 (pon_occupancy st) o p + (if decide (olt_anchor s d = Some (o, p)) then 1 else 0))%Z) →
  (∀ a p, lookup2 [] (aon_port_candidates st') a p =
     lookup2 [] (aon_port_candidates st) a p ++ (if decide (cpe_anchor s d = Some (a, p)) then [dev_id d] else [])) →
  aon_access_occupancy st' = aon_access_occupancy st → leaf_inv (L ++ [d]) st'.
Proof.
  intros [Hdec Hn Hp Hc Ha] Hdec' Hn' Hp' Hc' Ha'. split.
  - rewrite Hdec', Hdec. destruct (is_leaf d) eqn:El.
    + by rewrite filter_snoc_yes, fmap_app.
    + by rewrite filter_snoc_no, app_nil_r by congruence.
  - eapply nodes_ok_iff; [|exact Hn']. intros d0 k _. simpl. by rewrite joined_snoc.
  - intros o p. rewrite Hp', Hp. case_decide.
    + rewrite filter_snoc_yes, length_app by done. simpl. lia.
    + rewrite filter_snoc_no by done. lia.
  - intros a p. rewrite Hc', Hc. case_decide.
    + by rewrite filter_snoc_yes, fmap_app.
    + by rewrite filter_snoc_no, app_nil_r.
  - by rewrite Ha', Ha.
Qed.

(** Joining as a leaf only, or at an anchor as well. *)
Lemma joins_self d0 : d0 ∈ devices s → is_leaf d = true → provisioned d = true → olt_anchor s d = None →
  joins d (dev_id d0) ↔ d0 = d.
Proof.
  intros Hd0 Hl Hp Ho. unfold joins. split.
  - intros [(_ & _ & E)|[p E]]; [by apply device_unique|congruence].
  - intros ->. by left.
Qed.

Lemma joins_anchor d0 o p : d0 ∈ devices s → o ∈ devices s → is_leaf d = true → provisioned d = true →
  olt_anchor s d = Some (dev_id o, p) → joins d (dev_id d0) ↔ d0 = d ∨ d0 = o.
Proof.
  intros Hd0 Hoo Hl Hp Ho. unfold joins. split.
  - intros [(_ & _ & E)|[q E]]; [left; by apply device_unique|right]. rewrite Ho in E. injection E as E _. by apply device_unique.
  - intros [-> | ->]; [by left|right; by exists p].
Qed.

Lemma joins_nothing d0 : is_leaf d && provisioned d = false → ¬ joins d (dev_id d0).
Proof.
  intros Hl [(H1 & H2 & _)|(p & (H1 & H2 & _)%olt_anchor_leaf)]; by rewrite H1, H2 in Hl.
Qed.

(** A device that is no subscriber. *)
Lemma leaf_inv_idle st : leaf_inv L st → is_leaf d && provisioned d = false → leaf_inv (L ++ [d]) (leaf_step s st d).
Proof.
  intros Hi Hlp. pose proof (li_nodes _ _ Hi) as Hn.
  assert (olt_anchor s d = None) as Ho.
  { destruct (olt_anchor s d) eqn:E; [|done]. apply olt_anchor_leaf in E as (H1 & H2 & _). by rewrite H1, H2 in Hlp. }
  assert (cpe_anchor s d = None) as Hc.
  { destruct (cpe_anchor s d) eqn:E; [|done]. apply cpe_anchor_leaf in E as (H1 & H2 & _). by rewrite H1, H2 in Hlp. }
  assert (nodes_ok (λ d0 k, joined L d0 k ∨ k = dev_id d ∧ joins d (dev_id d0)) (per_node st)) as Hsame.
  { eapply nodes_ok_iff; [|exact Hn]. intros d0 k _. pose proof (joins_nothing d0 Hlp). tauto. }
  unfold leaf_step. destruct (is_leaf d) eqn:Hl; cbn [negb andb] in *.
  - rewrite Hlp. cbn [negb]. apply (leaf_inv_snoc st); rewrite ?Hl; auto;
      [cbn; unfold leaf_decision; by rewrite Hlp|..];
      intros x p; cbn; rewrite ?Ho, ?Hc, decide_False by done; rewrite ?app_nil_r; lia || done.
  - apply (leaf_inv_snoc st); rewrite ?Hl, ?app_nil_r; auto;
      intros x p; rewrite ?Ho, ?Hc, decide_False by done; rewrite ?app_nil_r; lia || done.
Qed.

(** A provisioned ONT. *)
Lemma leaf_inv_ont st : leaf_inv L st → dev_type d ∈ ONT_TYPES → is_leaf d = true → provisioned d = true →
  leaf_inv (L ++ [d]) (leaf_step s st d).
Proof.
  intros Hi Ht Hl Hp.
  assert (leaf_domain d = DOM_OLT) as Edom by (unfold leaf_domain; by rewrite (proj2 (mem_true _ _) Ht)).
  pose proof (nodes_leaf _ _ d (li_nodes _ _ Hi) Hd Hl (λ k, joined_leaf_fresh k Hl)) as Hn1.
  assert (cpe_anchor s d = None) as Hcp.
  { destruct (cpe_anchor s d) eqn:E; [|done]. apply cpe_anchor_leaf in E as (_ & _ & E). by destruct (leaf_kind d Hl) as [[_ ?]|[? _]]. }
  pose proof (olt_anchor_ont d Ht Hp) as Ho. unfold leaf_step. rewrite Hl, Hp. cbn [negb]. rewrite Edom in *.
  destruct (trace_anchor s d DOM_OLT) as [[[o p] why]|] eqn:Etr; cbn [fmap option_fmap option_map fst] in Ho.
  - destruct (olt_anchor_device d o p Ho) as (od & Hod & <- & Hot & Hpne). unfold nonempty. rewrite bool_decide_true by done.
    apply (leaf_inv_snoc st); rewrite ?Hl; auto; cbn.
    + unfold leaf_decision. by rewrite Hp, (proj2 (mem_true _ _) Ht), Etr.
    + assert (node_domain od = DOM_OLT) as Eod by (unfold node_domain; by rewrite Hot).
      rewrite <-Eod at 1. eapply nodes_ok_iff; [|apply (nodes_attach _ _ od (dev_id d) Hn1 Hod)].
      * intros d0 k Hd0. simpl. rewrite (joins_anchor d0 od p) by done. naive_solver.
      * intros [Hj|[_ E]]; [by apply (joined_fresh od Hod)|]. unfold is_leaf in Hl. by rewrite <-E, Hot in Hl.
    + intros o' p'. rewrite lookup2_update, Ho. destruct (decide ((o', p') = (dev_id od, p))) as [E|Hne].
      * injection E as -> ->. rewrite decide_True by done. lia.
      * rewrite decide_False by congruence. lia.
    + intros a q. by rewrite Hcp, decide_False, app_nil_r by done.
  - apply (leaf_inv_snoc st); rewrite ?Hl; auto; cbn.
    + unfold leaf_decision. by rewrite Hp, (proj2 (mem_true _ _) Ht), Etr.
    + eapply nodes_ok_iff; [|exact Hn1]. intros d0 k Hd0. simpl. by rewrite (joins_self d0).
    + intros o' p'. rewrite Ho, decide_False by done. lia.
    + intros a q. by rewrite Hcp, decide_False, app_nil_r by done.
Qed.

(** A provisioned CPE. *)
Lemma leaf_inv_cpe st : leaf_inv L st → dev_type d ∈ CPE_TYPES → is_leaf d = true → provisioned d = true →
  leaf_inv (L ++ [d]) (leaf_step s st d).
Proof.
  intros Hi Ht Hl Hp. assert (dev_type d ∉ ONT_TYPES) as Hnt by (by destruct (leaf_kind d Hl) as [[_ ?]|[? _]]).
  assert (leaf_domain d = DOM_AON) as Edom by (unfold leaf_domain; by rewrite (proj2 (mem_false _ _) Hnt)).
  assert (olt_anchor s d = None) as Ho.
  { destruct (olt_anchor s d) eqn:E; [|done]. by apply olt_anchor_leaf in E as (_ & _ & ?). }
  pose proof (cpe_anchor_cpe d Ht Hp) as Hcp.
  assert (nodes_ok (λ d0 k, joined L d0 k ∨ k = dev_id d ∧ joins d (dev_id d0))
            (alter (leaf_node d (leaf_domain d)) (dev_id d) (per_node st))) as Hn2.
  { eapply nodes_ok_iff; [|apply (nodes_leaf _ _ d (li_nodes _ _ Hi) Hd Hl (λ k, joined_leaf_fresh k Hl))].
    intros d0 k Hd0. simpl. by rewrite (joins_self d0). }
  unfold leaf_step. rewrite Hl, Hp. cbn [negb]. rewrite Edom in *.
  destruct (trace_direct_aon_anchor s d) as [[[o p] why]|] eqn:Etr; cbn [fmap option_fmap option_map fst] in Hcp.
  - destruct (cpe_anchor_device d o p Hcp) as (od & Hod & <- & Hot & Hpne).
    unfold nonempty. rewrite bool_decide_true by done. apply (leaf_inv_snoc st); rewrite ?Hl; auto; cbn.
    + unfold leaf_decision. by rewrite Hp, (proj2 (mem_false _ _) Hnt), Etr.
    + intros o' p'. rewrite Ho, decide_False by done. lia.
    + intros a q. rewrite lookup2_update, Hcp. destruct (decide ((a, q) = (dev_id od, p))) as [E|Hne].
      * injection E as -> ->. by rewrite decide_True.
      * by rewrite decide_False, app_nil_r by congruence.
  - apply (leaf_inv_snoc st); rewrite ?Hl; auto; cbn.
    + unfold leaf_decision. by rewrite Hp, (proj2 (mem_false _ _) Hnt), Etr.
    + intros o' p'. rewrite Ho, decide_False by done. lia.
    + intros a q. by rewrite Hcp, decide_False, app_nil_r by done.
Qed.

Lemma leaf_inv_step st : leaf_inv L st → leaf_inv (L ++ [d]) (leaf_step s st d).
Proof.
  intros Hi. destruct (is_leaf d && provisioned d) eqn:E; [|by apply leaf_inv_idle].
  apply andb_true_iff in E as [Hl Hp]. destruct (leaf_kind d Hl) as [[Ht _]|[_ Ht]]; [by apply leaf_inv_ont|by apply leaf_inv_cpe].
Qed.
End step.

(** ** The loop *)

Definition in_order : list Device := sort_by by_id (devices s).

Lemma in_order_elem d : d ∈ in_order ↔ d ∈ devices s.
Proof. apply elem_of_sort_by. Qed.

Lemma in_order_NoDup : NoDup in_order.
Proof. unfold in_order. rewrite sort_by_perm. apply (NoDup_fmap_1 dev_id), Hk. Qed.

Lemma leaf_loop : leaf_inv in_order (foldl (leaf_step s) (initial_model s) in_order).
Proof.
  assert (∀ L, NoDup L → (∀ x, x ∈ L → x ∈ devices s) → leaf_inv L (foldl (leaf_step s) (initial_model s) L)) as H.
  { induction L as [|d L IH] using rev_ind; intros Hn HL; [apply leaf_inv_nil|]. rewrite foldl_snoc.
    apply NoDup_app in Hn as (Hn & Hd & _). apply leaf_inv_step.
    - intros x Hx. apply HL. set_solver.
    - apply HL. set_solver.
    - intros Hin. apply (Hd d Hin). by left.
    - apply IH; [done|]. intros x Hx. apply HL. set_solver. }
  apply H; [apply in_order_NoDup|]. intros x. apply in_order_elem.
Qed.

(** * The ports of the switches *)

(** The CPEs attached to a port, in the order of their ids, and the one that counts. *)
Definition port_cpes (a p : string) : list string := dev_id <$> filter (λ x, cpe_anchor s x = Some (a, p)) in_order.

Definition winner (a p : string) : option string := head (sorted_strs (port_cpes a p)).

(** The decisions once the ports [Q] are settled. *)
Definition verdict (x : Device) (a p : string) : MappingDecision :=
  let mk c why := mkDecision (dev_id x) (dev_type x) (Some c) (Some DOM_AON) (Some a) (Some p) why in
  if bool_decide (winner a p = Some (dev_id x)) then mk true "direct_l4_cpe_access_port_1_to_1"
  else mk false "aon_access_port_oversubscribed_1_to_1".

Definition decision_after (Q : list (string * string)) (x : Device) : MappingDecision :=
  match cpe_anchor s x with
  | Some (a, p) => if decide ((a, p) ∈ Q) then verdict x a p else leaf_decision x
  | None => leaf_decision x
  end.

Definition listed (Q : list (string * string)) (d : Device) (k : string) : Prop :=
  joined in_order d k ∨ ∃ p, (dev_id d, p) ∈ Q ∧ winner (dev_id d) p = Some k.

(** The state when the ports [Q] are settled; the count of the switch [skip]
    lags behind while its ports are visited. *)
Record port_inv (Q : list (string * string)) (skip : option string) (st : ModelState) : Prop := {
  pi_decisions : mapping_decisions st = decision_after Q <$> filter (λ d, is_leaf d = true) in_order;
  pi_nodes : ∀ d, d ∈ devices s → ∃ n, per_node st !! dev_id d = Some n ∧
    (skip ≠ Some (dev_id d) → counted_right n) ∧ node_ok d (listed Q d) n;
  pi_pon : ∀ o p, lookup2 0%Z (pon_occupancy st) o p =
    Z.of_nat (length (filter (λ x, olt_anchor s x = Some (o, p)) in_order));
  pi_candidates : ∀ a p, lookup2 [] (aon_port_candidates st) a p = port_cpes a p;
  pi_access : ∀ a p, lookup2 0%Z (aon_access_occupancy st) a p =
    (if decide ((a, p) ∈ Q ∧ winner a p ≠ None) then 1 else 0)%Z
}.

Lemma port_inv_start st : leaf_inv in_order st → port_inv [] None st.
Proof.
  intros [Hd Hn Hp Hc Ha]. split.
  - rewrite Hd. apply list_fmap_ext. intros _ x _. unfold decision_after. destruct (cpe_anchor s x) as [[a p]|]; [|done].
    rewrite decide_False; [done|]. by intros ?%elem_of_nil.
  - intros d Hdd. destruct (Hn d Hdd) as (n & Hn1 & Hn2 & Hn3). exists n. split; [done|]. split; [done|].
    eapply node_ok_iff; [|exact Hn3]. intros k. unfold listed. split; [by left|]. intros [?|(p & ?%elem_of_nil & _)]; done.
  - done.
  - done.
  - intros a p. rewrite Ha, decide_False; [by unfold lookup2; rewrite lookup_empty|]. by intros [?%elem_of_nil _].
Qed.

(** The decision about a CPE with a port. *)
Lemma leaf_decision_cpe x a p : cpe_anchor s x = Some (a, p) →
  ∃ why, leaf_decision x = mkDecision (dev_id x) (dev_type x) None (Some DOM_AON) (Some a) (Some p) why.
Proof.
  intros E. destruct (cpe_anchor_leaf _ _ E) as (Hl & Hp & Ht). rewrite (cpe_anchor_cpe x Ht Hp) in E.
  assert (dev_type x ∉ ONT_TYPES) as Hnt by (by destruct (leaf_kind x Hl) as [[_ ?]|[? _]]).
  unfold leaf_decision. rewrite Hp, (proj2 (mem_false _ _) Hnt). cbn [negb].
  destruct (trace_direct_aon_anchor s x) as [[[b q] why]|]; [|done]. injection E as -> ->. by exists why.
Qed.

(** Any other decision names no port of a switch. *)
Lemma leaf_decision_other x : is_leaf x = true → cpe_anchor s x = None →
  dec_domain (leaf_decision x) ≠ Some DOM_AON ∨ anchor_interface (leaf_decision x) = None.
Proof.
  intros Hl E. unfold leaf_decision. destruct (provisioned x) eqn:Hp; [|by right]. cbn [negb].
  destruct (leaf_kind x Hl) as [[Ht _]|[Hnt Ht]].
  - rewrite (proj2 (mem_true _ _) Ht). left. by destruct (trace_anchor s x DOM_OLT) as [[[a p] w]|].
  - rewrite (proj2 (mem_false _ _) Hnt). rewrite (cpe_anchor_cpe x Ht Hp) in E.
    destruct (trace_direct_aon_anchor s x) as [[[a p] w]|]; [done|by right].
Qed.

Lemma port_cpes_elem a p k : k ∈ port_cpes a p ↔ ∃ x, x ∈ devices s ∧ dev_id x = k ∧ cpe_anchor s x = Some (a, p).
Proof.
  unfold port_cpes. rewrite list_elem_of_fmap. setoid_rewrite list_elem_of_filter. setoid_rewrite in_order_elem. naive_solver.
Qed.

Lemma winner_elem a p k : winner a p = Some k → k ∈ port_cpes a p.
Proof. unfold winner. intros H%head_Some_elem_of. exact (proj1 (elem_of_sorted_strs _ _) H). Qed.

Lemma winner_None a p : winner a p = None → ∀ x, x ∈ devices s → cpe_anchor s x ≠ Some (a, p).
Proof.
  unfold winner. intros H x Hx E. assert (dev_id x ∈ sorted_strs (port_cpes a p)) as Hin
    by (apply elem_of_sorted_strs, port_cpes_elem; eauto).
  destruct (sorted_strs _); [by apply elem_of_nil in Hin|done].
Qed.

Lemma decision_after_snoc_no Q a p x : cpe_anchor s x ≠ Some (a, p) → decision_after (Q ++ [(a, p)]) x = decision_after Q x.
Proof.
  intros Hne. unfold decision_after. destruct (cpe_anchor s x) as [[a' p']|]; [|done].
  assert ((a', p') ∈ Q ++ [(a, p)] ↔ (a', p') ∈ Q) as Hin.
  { rewrite elem_of_app, list_elem_of_singleton. split; [intros [?|[= -> ->]]; done|by left]. }
  destruct (decide ((a', p') ∈ Q)) as [H|H]; [by rewrite decide_True by by apply Hin|by rewrite decide_False by by rewrite Hin].
Qed.

(** Settling a port turns the decisions about its CPEs into verdicts. *)
Lemma settle_decision Q a p w x :
  (a, p) ∉ Q → winner a p = Some w → is_leaf x = true → x ∈ devices s →
  settle p w (sorted_strs (port_cpes a p)) (decision_after Q x) = decision_after (Q ++ [(a, p)]) x.
Proof.
  intros HQ Hw Hl Hx. destruct (cpe_anchor s x) as [[a' p']|] eqn:E.
  2: { rewrite decision_after_snoc_no by congruence. unfold decision_after. rewrite E. unfold settle.
       destruct (leaf_decision_other x Hl E) as [H|H]; [by rewrite bool_decide_false|].
       rewrite (bool_decide_false (anchor_interface _ = _)) by congruence. by rewrite andb_false_r. }
  destruct (leaf_decision_cpe x a' p' E) as [why Hd].
  destruct (decide (p' = p)) as [->|Hne].
  - assert (a' = a) as ->.
    { apply winner_elem, port_cpes_elem in Hw as (y & _ & _ & (_ & i & d & Ho & _ & <- & _)%cpe_anchor_Some).
      apply cpe_anchor_Some in E as (_ & i' & d' & Ho' & _ & <- & _). congruence. }
    unfold decision_after. rewrite E, decide_False, decide_True by (set_solver || done). rewrite Hd. unfold settle, verdict.
    cbn [dec_domain anchor_interface dec_subscriber dec_type anchor_device]. rewrite !(bool_decide_true (Some _ = Some _)) by done.
    cbn [andb]. rewrite Hw. destruct (String.eqb_spec (dev_id x) w) as [->|Hxw]; [by rewrite bool_decide_true|].
    rewrite bool_decide_false by congruence. rewrite (proj2 (mem_true _ _)); [done|].
    apply elem_of_sorted_strs, port_cpes_elem. eauto.
  - rewrite decision_after_snoc_no by congruence. unfold decision_after. rewrite E.
    assert (∀ e, anchor_interface e = Some p' → settle p w (sorted_strs (port_cpes a p)) e = e) as H.
    { intros e He. unfold settle. rewrite (bool_decide_false (anchor_interface e = _)) by congruence. by rewrite andb_false_r. }
    apply H. case_decide; [unfold verdict; by case_bool_decide|by rewrite Hd].
Qed.

Lemma join_ids_elem k ids j : j ∈ join_ids_of k ids ↔ j ∈ ids ∨ j = k.
Proof.
  unfold join_ids_of. destruct (mem k ids) eqn:E.
  - apply mem_true in E. naive_solver.
  - rewrite elem_of_sorted_strs, elem_of_app, list_elem_of_singleton. done.
Qed.

Lemma join_ids_NoDup k ids : NoDup ids → NoDup (join_ids_of k ids).
Proof.
  unfold join_ids_of. destruct (mem k ids) eqn:E; [done|]. apply mem_false in E. intros Hn. unfold sorted_strs.
  rewrite sort_by_perm. apply NoDup_app. split; [done|]. split; [|apply NoDup_singleton]. by intros j Hj ->%list_elem_of_singleton.
Qed.

Lemma listed_snoc Q a p d k : listed (Q ++ [(a, p)]) d k ↔ listed Q d k ∨ (dev_id d = a ∧ winner a p = Some k).
Proof. unfold listed. setoid_rewrite elem_of_app. setoid_rewrite list_elem_of_singleton. naive_solver. Qed.

Lemma port_step_inv Q a st p :
  (a, p) ∉ Q → port_inv Q (Some a) st → port_inv (Q ++ [(a, p)]) (Some a) (port_step a st (p, port_cpes a p)).
Proof.
  intros HQ [Hdec Hn Hp Hc Ha]. unfold port_step. cbn [snd fst].
  assert (∀ x y, (x, y) ∈ Q ++ [(a, p)] ↔ (x, y) ∈ Q ∨ (x, y) = (a, p)) as Hin
    by (intros; by rewrite elem_of_app, list_elem_of_singleton).
  assert (∀ x, x ∈ filter (λ d, is_leaf d = true) in_order → is_leaf x = true ∧ x ∈ devices s) as Hleaf
    by (intros x [? ?%in_order_elem]%list_elem_of_filter; done).
  destruct (sorted_strs (port_cpes a p)) as [|w r] eqn:Es.
  - assert (winner a p = None) as Hw by (unfold winner; by rewrite Es). split; try done.
    + rewrite Hdec. apply list_fmap_ext. intros i x Hx%list_elem_of_lookup_2%Hleaf.
      symmetry. apply decision_after_snoc_no. exact (winner_None a p Hw x (proj2 Hx)).
    + intros d Hd. destruct (Hn d Hd) as (n & ? & ? & Hok). exists n. split; [done|]. split; [done|].
      eapply node_ok_iff; [|exact Hok]. intros k. rewrite listed_snoc, Hw. naive_solver.
    + intros x y. rewrite Ha. apply decide_ext. rewrite Hin. split; [naive_solver|]. intros [[?|E] Hne]; [done|].
      injection E as -> ->. by rewrite Hw in Hne.
  - assert (winner a p = Some w) as Hw by (unfold winner; by rewrite Es).
    assert (∃ o, o ∈ devices s ∧ dev_id o = a ∧ dev_type o = AON_SWITCH) as (o & Ho & <- & Hot).
    { apply winner_elem, port_cpes_elem in Hw as (x & _ & _ & (o & ? & ? & ? & _)%cpe_anchor_device). eauto. }
    split; cbn [mapping_decisions per_node pon_occupancy aon_port_candidates aon_access_occupancy with_decisions with_access with_nodes]; [|..|done|done|].
    + rewrite Hdec, <-list_fmap_compose, <-Es. apply list_fmap_ext. intros i x [Hl Hx]%list_elem_of_lookup_2%Hleaf.
      by apply settle_decision.
    + intros d Hd. destruct (Hn d Hd) as (n & Hl & Hcount & Hok). destruct (decide (dev_id d = dev_id o)) as [E|Hne].
      * apply device_unique in E as ->; [|done..]. eexists. rewrite lookup_alter_eq, Hl. split; [done|]. split; [done|].
        destruct Hok as [Ht Hnd Hi Hdom]. split; cbn [node_type subscriber_ids subscriber_domain]; [done|by apply join_ids_NoDup|..].
        -- intros k. rewrite join_ids_elem, Hi, listed_snoc, Hw. naive_solver.
        -- rewrite decide_False; [unfold node_domain; by rewrite Hot|]. intros E.
           pose proof (proj2 (join_ids_elem w (subscriber_ids n) w) (or_intror eq_refl)) as Hj. rewrite E in Hj. by apply elem_of_nil in Hj.
      * exists n. rewrite lookup_alter_ne by congruence. split; [done|]. split; [intros; by apply Hcount|].
        eapply node_ok_iff; [|exact Hok]. intros k. rewrite listed_snoc. naive_solver.
    + intros x y. rewrite lookup2_update, Ha. destruct (decide ((x, y) = (dev_id o, p))) as [E|Hne].
      * injection E as -> ->. rewrite decide_True; [done|]. rewrite Hin, Hw. naive_solver.
      * apply decide_ext. rewrite Hin. naive_solver.
Qed.

(** The ports of one switch, and the count at the end. *)
Lemma ports_inv a ports : ∀ Q st,
  (∀ p l, (p, l) ∈ ports → l = port_cpes a p ∧ (a, p) ∉ Q) → NoDup ports.*1 → port_inv Q (Some a) st →
  port_inv (Q ++ ((λ x, (a, x.1)) <$> ports)) (Some a) (foldl (port_step a) st ports).
Proof.
  induction ports as [|[p l] ports IH]; intros Q st Hp Hn Hi; [by rewrite app_nil_r|].
  apply NoDup_cons in Hn as [Hfresh Hn]. cbn [foldl fmap list_fmap]. destruct (Hp p l (list_elem_of_here _ _)) as [-> HQ].
  rewrite cons_middle, app_assoc. apply IH; [|done|by apply port_step_inv].
  intros p' l' Hin. destruct (Hp p' l' (list_elem_of_further _ _ _ Hin)) as [-> HQ']. split; [done|].
  intros [?|E%list_elem_of_singleton]%elem_of_app; [done|]. injection E as ->. apply Hfresh.
  by apply (list_elem_of_fmap_2 fst) in Hin.
Qed.

Lemma port_inv_skip Q a st : port_inv Q None st → port_inv Q (Some a) st.
Proof.
  intros [Hd Hn Hp Hc Ha]. split; try done. intros d Hdd. destruct (Hn d Hdd) as (n & ? & ? & ?). exists n. naive_solver.
Qed.

Lemma recount_inv Q a st : port_inv Q (Some a) st → port_inv Q None (with_nodes (alter recount a) st).
Proof.
  intros [Hd Hn Hp Hc Ha]. split; try done. intros d Hdd. destruct (Hn d Hdd) as (n & Hl & Hcount & Hok).
  cbn [per_node with_nodes]. destruct (decide (a = dev_id d)) as [->|Hne].
  - exists (recount n). rewrite lookup_alter_eq, Hl. split; [done|]. split; [done|]. destruct Hok as [Ht Hnd Hi Hdom]. by split.
  - exists n. rewrite lookup_alter_ne by done. split; [done|]. split; [intros _; apply Hcount; congruence|done].
Qed.

Lemma anchors_inv anchors : ∀ Q st,
  (∀ a row, (a, row) ∈ anchors → (∀ p l, row !! p = Some l → l = port_cpes a p) ∧ ∀ p, (a, p) ∉ Q) →
  NoDup anchors.*1 → port_inv Q None st →
  port_inv (Q ++ mjoin ((λ x, (λ y, (x.1, y.1)) <$> sorted_items x.2) <$> anchors)) None (foldl anchor_step st anchors).
Proof.
  induction anchors as [|[a row] anchors IH]; intros Q st Hp Hn Hi; [by rewrite app_nil_r|].
  apply NoDup_cons in Hn as [Hfresh Hn]. cbn [foldl fmap list_fmap]. destruct (Hp a row (list_elem_of_here _ _)) as [Hrow HQ].
  cbn [mjoin list_join]. rewrite app_assoc. apply IH; [|done|].
  - intros a' row' Hin. destruct (Hp a' row' (list_elem_of_further _ _ _ Hin)) as [Hr' HQ']. split; [done|].
    intros p [?|(y & E & _)%list_elem_of_fmap]%elem_of_app; [by apply (HQ' p)|]. injection E as -> _. apply Hfresh.
    by apply (list_elem_of_fmap_2 fst) in Hin.
  - unfold anchor_step. cbn [fst snd]. apply recount_inv, ports_inv; [|apply sorted_items_NoDup|by apply port_inv_skip].
    intros p l Hl%elem_of_sorted_items. split; [by apply Hrow|apply HQ].
Qed.

(** * The finished model *)

Definition final_decision (x : Device) : MappingDecision :=
  match cpe_anchor s x with Some (a, p) => verdict x a p | None => leaf_decision x end.

Definition attached (d : Device) (k : string) : Prop := joined in_order d k ∨ ∃ p, winner (dev_id d) p = Some k.

Record model_spec (st : ModelState) : Prop := {
  ms_decisions : mapping_decisions st = final_decision <$> filter (λ d, is_leaf d = true) in_order;
  ms_nodes : ∀ d, d ∈ devices s → ∃ n, per_node st !! dev_id d = Some n ∧ counted_right n ∧ node_ok d (attached d) n;
  ms_pon : ∀ o p, lookup2 0%Z (pon_occupancy st) o p =
    Z.of_nat (length (filter (λ x, olt_anchor s x = Some (o, p)) in_order));
  ms_access : ∀ a p, lookup2 0%Z (aon_access_occupancy st) a p = (if decide (winner a p = None) then 0 else 1)%Z
}.

Lemma resolved_spec : model_spec (resolved_state s).
Proof.
  unfold resolved_state. set (st1 := foldl (leaf_step s) _ _). pose proof leaf_loop as Hleaf. fold in_order in Hleaf.
  change (foldl (leaf_step s) (initial_model s) in_order) with st1 in Hleaf.
  pose proof (li_candidates _ _ Hleaf) as Hc. fold (port_cpes) in Hc.
  assert (∀ a p row l, aon_port_candidates st1 !! a = Some row → row !! p = Some l → l = port_cpes a p) as Hrow.
  { intros a p row l Ha Hl. specialize (Hc a p). unfold lookup2 in Hc. rewrite Ha in Hc. cbn in Hc. by rewrite Hl in Hc. }
  destruct (anchors_inv (sorted_items (aon_port_candidates st1)) [] st1) as [Hd Hn Hp _ Hacc].
  { intros a row Ha%elem_of_sorted_items. split; [by eauto|]. by intros p ?%elem_of_nil. }
  { apply sorted_items_NoDup. }
  { by apply port_inv_start. }
  cbn [app] in *. set (Q := mjoin _) in *.
  assert (∀ a p, port_cpes a p ≠ [] → (a, p) ∈ Q) as HQ.
  { intros a p Hne. specialize (Hc a p). unfold lookup2 in Hc. destruct (aon_port_candidates st1 !! a) as [row|] eqn:Ea; [|by symmetry in Hc].
    cbn in Hc. destruct (row !! p) as [l|] eqn:El; [|by symmetry in Hc]. apply list_elem_of_join.
    exists ((λ y, (a, y.1)) <$> sorted_items row). split.
    - apply list_elem_of_fmap. exists (p, l). split; [done|by apply elem_of_sorted_items].
    - apply list_elem_of_fmap. exists (a, row). split; [done|by apply elem_of_sorted_items]. }
  assert (∀ a p k, winner a p = Some k → (a, p) ∈ Q) as HwQ.
  { intros a p k Hw%winner_elem. apply HQ. intros E. rewrite E in Hw. by apply elem_of_nil in Hw. }
  split; [| |done|].
  - rewrite Hd. apply list_fmap_ext. intros i x [_ Hx%in_order_elem]%list_elem_of_lookup_2%list_elem_of_filter.
    unfold decision_after, final_decision. destruct (cpe_anchor s x) as [[a p]|] eqn:E; [|done]. rewrite decide_True; [done|].
    apply HQ. intros En. assert (dev_id x ∈ port_cpes a p) as Hin by (apply port_cpes_elem; eauto). rewrite En in Hin. by apply elem_of_nil in Hin.
  - intros d Hdd. destruct (Hn d Hdd) as (n & H1 & H2 & H3). exists n. split; [done|]. split; [by apply H2|].
    eapply node_ok_iff; [|exact H3]. intros k. unfold listed, attached. split; [naive_solver|]. intros [?|[p Hw]]; [by left|].
    right. exists p. split; [by eapply HwQ|done].
  - intros a p. rewrite Hacc. destruct (winner a p) as [k|] eqn:Ew.
    + rewrite decide_True by (split; [by eapply HwQ|done]). by rewrite decide_False.
    + rewrite decide_False by naive_solver. by rewrite decide_True.
Qed.
End model.

(** * Totals *)

(** Counting by key, over keys without repetition, counts each element once. *)
Lemma count_by_key {A B} `{EqDecision B} (f : A → option B) (keys : list B) (L : list A) :
  NoDup keys →
  sum_list ((λ k, length (filter (λ x, f x = Some k) L)) <$> keys) = length (filter (λ x, f x ∈ Some <$> keys) L).
Proof.
  intros Hn. induction L as [|x L IH].
  - induction keys as [|k keys IHk]; [done|]. csimpl. apply IHk. by apply NoDup_cons in Hn as [_ ?].
  - assert (sum_list ((λ k, length (filter (λ x, f x = Some k) (x :: L))) <$> keys) =
      (if decide (f x ∈ Some <$> keys) then 1 else 0) + sum_list ((λ k, length (filter (λ x, f x = Some k) L)) <$> keys)) as ->.
    { clear IH. induction keys as [|k keys IHk]; [done|]. apply NoDup_cons in Hn as [Hk Hn]. csimpl. rewrite IHk by done.
      destruct (decide (f x = Some k)) as [E|E].
      - rewrite filter_cons_True by done. rewrite (decide_False (P := f x ∈ Some <$> keys)).
        + rewrite decide_True by (rewrite E; by left). simpl. lia.
        + rewrite E. intros (k' & [= ->] & ?)%list_elem_of_fmap. done.
      - rewrite filter_cons_False by done.
        assert (f x ∈ Some k :: (Some <$> keys) ↔ f x ∈ Some <$> keys) as H by (rewrite elem_of_cons; naive_solver).
        rewrite (decide_ext _ _ _ _ H). lia. }
    rewrite IH. case_decide; [by rewrite filter_cons_True|by rewrite filter_cons_False].
Qed.

Section totals.
Context (s : DB) (Hk : keys_ok s) (Hids : ∀ i, i ∈ interfaces s → if_id i ≠ "").

(** A node lists as many subscribers as leaves lead to its device. *)
Lemma node_size d n (f : Device → option string) :
  node_ok d (attached s d) n → (∀ k, attached s d k ↔ ∃ x, x ∈ in_order s ∧ dev_id x = k ∧ f x = Some (dev_id d)) →
  length (subscriber_ids n) = length (filter (λ x, f x = Some (dev_id d)) (in_order s)).
Proof.
  intros [_ Hnd Hi _] Hatt. rewrite <-(length_fmap dev_id (filter _ (in_order s))). apply Permutation_length, NoDup_Permutation; [done|..].
  - apply (NoDup_fmap_2_strong dev_id).
    + intros x y [_ Hx%in_order_elem]%list_elem_of_filter [_ Hy%in_order_elem]%list_elem_of_filter. by apply (device_unique s).
    + by apply NoDup_filter, in_order_NoDup.
  - intros k. rewrite Hi, Hatt, list_elem_of_fmap. setoid_rewrite list_elem_of_filter. naive_solver.
Qed.

(** A domain's total counts the leaves that the devices of one type list. *)
Lemma domain_total_count st dom t (f : Device → option string) :
  model_spec s st →
  (∀ d, d ∈ devices s → dev_type d = t → node_domain d = dom) →
  (∀ d k, d ∈ devices s → dev_type d = t → attached s d k ↔ ∃ x, x ∈ in_order s ∧ dev_id x = k ∧ f x = Some (dev_id d)) →
  (∀ x a, x ∈ in_order s → f x = Some a → ∃ d, d ∈ devices s ∧ dev_type d = t ∧ dev_id d = a) →
  domain_total s st dom t = Z.of_nat (length (filter (λ x, f x ≠ None) (in_order s))).
Proof.
  intros Hst Hdom Hatt Hf. set (own := filter (λ d, dev_type d = t) (devices s)).
  assert (domain_total s st dom t =
    Z.of_nat (sum_list ((λ k, length (filter (λ x, f x = Some k) (in_order s))) <$> (dev_id <$> own)))) as ->.
  { unfold domain_total, own. assert (∀ d, d ∈ devices s → d ∈ devices s) as Hsub by done. revert Hsub.
    generalize (devices s) at 1 3 4 as ds. induction ds as [|d ds IH]; intros Hsub; [done|].
    cbn [foldr]. rewrite IH by (intros; apply Hsub; by right). clear IH. specialize (Hsub d (list_elem_of_here _ _)).
    destruct (ms_nodes s st Hst d Hsub) as (n & -> & Hc & Hok). destruct (id Hok) as [Ht _ _ Hd]. rewrite Ht.
    destruct (decide (dev_type d = t)) as [E|E].
    - rewrite (filter_cons_True _ d) by done. csimpl. rewrite (bool_decide_true (dev_type d = t)) by done. rewrite andb_true_r.
      pose proof (node_size d n f Hok (λ k, Hatt d k Hsub E)) as El.
      rewrite Hd. case_decide as En.
      + rewrite En in El. cbn in El. rewrite <-El. cbn. rewrite bool_decide_false by done. lia.
      + rewrite Hdom, bool_decide_true by done. rewrite Hc, El. lia.
    - rewrite (filter_cons_False _ d) by done. rewrite (bool_decide_false (dev_type d = t)) by done. by rewrite andb_false_r. }
  rewrite count_by_key.
  - do 2 f_equal. apply filter_ext_elem. intros x Hx. split; [intros (k & -> & _)%list_elem_of_fmap; done|].
    destruct (f x) as [a|] eqn:E; [|done]. intros _. destruct (Hf x a Hx E) as (d & Hd & Ht & <-).
    apply list_elem_of_fmap_2, list_elem_of_fmap_2. by apply list_elem_of_filter.
  - unfold own. apply (NoDup_fmap_2_strong dev_id).
    + intros x y [_ Hx]%list_elem_of_filter [_ Hy]%list_elem_of_filter. by apply (device_unique s).
    + apply NoDup_filter. apply (NoDup_fmap_1 dev_id), Hk.
Qed.

(** The OLT of an ONT, the switch of a CPE that counts. *)
Definition olt_of (x : Device) : option string := fst <$> olt_anchor s x.

Definition switch_of (x : Device) : option string :=
  '(a, p) ← cpe_anchor s x; if bool_decide (winner s a p = Some (dev_id x)) then Some a else None.

Lemma attached_olt d k : d ∈ devices s → dev_type d = OLT →
  attached s d k ↔ ∃ x, x ∈ in_order s ∧ dev_id x = k ∧ olt_of x = Some (dev_id d).
Proof.
  intros Hd Ht. unfold attached, joined, joins, olt_of. split.
  - intros [(x & Hx & <- & [(Hl & _ & E)|[p Ho]])|[p Hw]].
    + apply in_order_elem in Hx. apply (device_unique s Hk) in E; [|done..]. subst x. unfold is_leaf in Hl. by rewrite Ht in Hl.
    + exists x. rewrite Ho. done.
    + apply winner_elem, port_cpes_elem in Hw as (x & _ & _ & (o & Ho & E & Hot & _)%cpe_anchor_device); [|done..].
      apply (device_unique s Hk) in E; [|done..]. congruence.
  - intros (x & Hx & <- & E). destruct (olt_anchor s x) as [[o p]|] eqn:Eo; [|done]. injection E as <-. left. exists x. eauto.
Qed.

Lemma attached_aon d k : d ∈ devices s → dev_type d = AON_SWITCH →
  attached s d k ↔ ∃ x, x ∈ in_order s ∧ dev_id x = k ∧ switch_of x = Some (dev_id d).
Proof.
  intros Hd Ht. unfold attached, joined, joins, switch_of. split.
  - intros [(x & Hx & <- & [(Hl & _ & E)|[p Ho]])|[p Hw]].
    + apply in_order_elem in Hx. apply (device_unique s Hk) in E; [|done..]. subst x. unfold is_leaf in Hl. by rewrite Ht in Hl.
    + apply olt_anchor_device in Ho as (o & Ho & E & Hot & _); [|done]. apply (device_unique s Hk) in E; [|done..]. congruence.
    + pose proof Hw as Hw'. apply winner_elem, port_cpes_elem in Hw' as (x & Hx & Ex & Ea). exists x.
      split; [by apply in_order_elem|]. split; [done|]. rewrite Ea. cbn. rewrite bool_decide_true by congruence. done.
  - intros (x & Hx & <- & ([a p] & Ea & E)%bind_Some). case_bool_decide as Hw; [|done]. injection E as ->. right. by exists p.
Qed.

Lemma olt_total st : model_spec s st →
  domain_total s st DOM_OLT OLT = Z.of_nat (length (filter (λ x, olt_of x ≠ None) (in_order s))).
Proof.
  intros Hst. apply domain_total_count; [done|..].
  - intros d _ Ht. unfold node_domain. by rewrite Ht.
  - apply attached_olt.
  - intros x a Hx E. unfold olt_of in E. destruct (olt_anchor s x) as [[o p]|] eqn:Eo; [|done]. injection E as <-.
    apply olt_anchor_device in Eo as (d & ? & ? & ? & _); [|done]. eauto.
Qed.

Lemma aon_total st : model_spec s st →
  domain_total s st DOM_AON AON_SWITCH = Z.of_nat (length (filter (λ x, switch_of x ≠ None) (in_order s))).
Proof.
  intros Hst. apply domain_total_count; [done|..].
  - intros d _ Ht. unfold node_domain. by rewrite Ht.
  - apply attached_aon.
  - intros x a Hx ([b p] & Ea & E)%bind_Some. case_bool_decide; [|done]. injection E as ->.
    apply cpe_anchor_device in Ea as (d & ? & ? & ? & _); [|done]. eauto.
Qed.

(** Which leaves are counted. *)
Lemma counted_final x : is_leaf x = true →
  counted (final_decision s x) = Some true ↔ olt_of x ≠ None ∨ switch_of x ≠ None.
Proof.
  intros Hl. unfold final_decision, olt_of, switch_of. destruct (cpe_anchor s x) as [[a p]|] eqn:Ec; cbn [mbind option_bind].
  - destruct (cpe_anchor_leaf s _ _ Ec) as (_ & _ & Ht).
    assert (olt_anchor s x = None) as ->.
    { destruct (olt_anchor s x) eqn:Eo; [|done]. apply olt_anchor_leaf in Eo as (_ & _ & Eo). by destruct (leaf_kind x Hl) as [[_ ?]|[? _]]. }
    unfold verdict. case_bool_decide; split; try done; [by right|]. intros [?|?]; done.
  - unfold leaf_decision. destruct (provisioned x) eqn:Hp; cbn [negb].
    2: { split; [done|]. unfold olt_anchor. rewrite Hp, andb_false_r. intros [?|?]; done. }
    destruct (leaf_kind x Hl) as [[Ht _]|[Hnt Ht]].
    + rewrite (proj2 (mem_true _ _) Ht), (olt_anchor_ont s x Ht Hp). destruct (trace_anchor s x DOM_OLT) as [[[a p] w]|]; split; try done;
        [by left|intros [?|?]; done].
    + rewrite (proj2 (mem_false _ _) Hnt). rewrite (cpe_anchor_cpe s x Ht Hp) in Ec.
      destruct (trace_direct_aon_anchor s x); [done|]. split; [done|]. unfold olt_anchor. rewrite (proj2 (mem_false _ _) Hnt). intros [?|?]; done.
Qed.

Lemma length_filter_fmap {A B} (P : B → Prop) `{∀ y, Decision (P y)} (g : A → B) (l : list A) :
  length (filter P (g <$> l)) = length (filter (λ x, P (g x)) l).
Proof. induction l as [|x l IH]; [done|]. csimpl. rewrite !filter_cons. case_decide; simpl; by rewrite IH. Qed.

Lemma length_filter_or {A} (P Q : A → Prop) `{∀ x, Decision (P x)} `{∀ x, Decision (Q x)} (l : list A) :
  (∀ x, x ∈ l → P x → ¬ Q x) → length (filter (λ x, P x ∨ Q x) l) = length (filter P l) + length (filter Q l).
Proof.
  induction l as [|x l IH]; intros Hd; [done|]. rewrite !filter_cons.
  pose proof (IH (λ y Hy, Hd y (list_elem_of_further _ _ _ Hy))) as IH'. pose proof (Hd x (list_elem_of_here _ _)).
  repeat case_decide; cbn [length]; tauto || lia.
Qed.

Lemma counted_decisions st : model_spec s st →
  length (filter (λ e, counted e = Some true) (mapping_decisions st)) =
  length (filter (λ x, olt_of x ≠ None) (in_order s)) + length (filter (λ x, switch_of x ≠ None) (in_order s)).
Proof.
  intros Hst. rewrite (ms_decisions s st Hst), length_filter_fmap, list_filter_filter, <-length_filter_or.
  - f_equal. apply filter_ext_elem. intros x Hx. split; [intros [Hc Hl]; by apply counted_final|]. intros H.
    assert (is_leaf x = true) as Hl; [|split; [by apply counted_final|done]]. unfold olt_of, switch_of in H. destruct H as [H|H].
    + destruct (olt_anchor s x) eqn:E; [|done]. by apply olt_anchor_leaf in E as (? & _).
    + destruct (cpe_anchor s x) eqn:E; [|done]. by apply cpe_anchor_leaf in E as (? & _).
  - intros x Hx H1 H2. unfold olt_of, switch_of in *.
    destruct (olt_anchor s x) eqn:E1; [|done]. destruct (cpe_anchor s x) eqn:E2; [|done].
    apply olt_anchor_leaf in E1 as (Hl & _ & ?). apply cpe_anchor_leaf in E2 as (_ & _ & ?). by destruct (leaf_kind x Hl) as [[_ ?]|[? _]].
Qed.
End totals.

Lemma filter_length_mono {A} (P Q : A → Prop) `{∀ x, Decision (P x)} `{∀ x, Decision (Q x)} (l : list A) :
  (∀ x, x ∈ l → P x → Q x) → length (filter P l) ≤ length (filter Q l).
Proof.
  induction l as [|x l IH]; intros Hpq; [done|]. rewrite !filter_cons.
  pose proof (IH (λ y Hy, Hpq y (list_elem_of_further _ _ _ Hy))). pose proof (Hpq x (list_elem_of_here _ _)).
  repeat case_decide; cbn [length]; tauto || lia.
Qed.

Lemma provisioned_leaves s :
  provisioned_total (global (resolve_subscriber_model s)) =
    Z.of_nat (length (filter (λ d, is_leaf d = true ∧ provisioned d = true) (devices s))).
Proof.
  cbn [global provisioned_total resolve_subscriber_model]. unfold type_count. rewrite <-!Nat2Z.inj_add. f_equal.
  rewrite <-!length_filter_or.
  - f_equal. apply filter_ext_elem. intros d _. unfold is_leaf, mem. destruct (dev_type d); vm_compute; naive_solver.
  - intros d _. destruct (dev_type d); naive_solver.
  - intros d _. destruct (dev_type d); naive_solver.
Qed.

Lemma total_counted s : keys_ok s → (∀ i, i ∈ interfaces s → if_id i ≠ "") →
  total (global (resolve_subscriber_model s)) =
    Z.of_nat (length (filter (λ e, counted e = Some true) (mapping_decisions (resolved (resolve_subscriber_model s))))).
Proof.
  intros Hk Hids. pose proof (resolved_spec s Hk Hids) as Hst. set (st := resolved_state s) in Hst.
  change (total (global (resolve_subscriber_model s))) with (domain_total s st DOM_OLT OLT + domain_total s st DOM_AON AON_SWITCH)%Z.
  change (resolved (resolve_subscriber_model s)) with st.
  rewrite (olt_total s Hk Hids st Hst), (aon_total s Hk Hids st Hst), (counted_decisions s st Hst). lia.
Qed.

(** C00: the subscriber model against the topology.  A provisioned ONT is counted
    at the OLT and PON port its breadth-first search meets, and the search meets
    one exactly when one can be reached; a provisioned CPE is counted when it
    has the smallest id on its switch port.  Every node lists exactly the
    subscribers attached to it, without repetition; every port count is the
    number of its subscribers; each ONT and CPE has exactly one decision, and
    the global total is the number of decisions that count one. *)
Theorem subscriber_model_spec s :
  keys_ok s → (∀ i, i ∈ interfaces s → if_id i ≠ "") →
  let m := resolve_subscriber_model s in
  let st := resolved m in
  model_spec s st ∧
  (∀ x, dev_type x ∈ ONT_TYPES → provisioned x = true →
     let near := reaches (hop (λ _, true) (next_ids s)) (if_id <$> interfaces_by_device s (dev_id x)) in
     match olt_anchor s x with
     | Some (o, p) => near p ∧ ∃ i d, owner_of s p = Some (i, d) ∧ dev_id d = o ∧ dev_type d = OLT ∧ port_role i = Some PON
     | None => ∀ k i d, near k → owner_of s k = Some (i, d) → ¬ (dev_type d = OLT ∧ port_role i = Some PON)
     end) ∧
  total (global m) = Z.of_nat (length (filter (λ e, counted e = Some true) (mapping_decisions st))) ∧
  total (global m) = (olt_domain (global m) + aon_domain (global m))%Z ∧
  provisioned_total (global m) = Z.of_nat (length (filter (λ d, is_leaf d = true ∧ provisioned d = true) (devices s))) ∧
  (total (global m) ≤ provisioned_total (global m))%Z.
Proof.
  intros Hk Hids m st. pose proof (resolved_spec s Hk Hids) as Hst. fold st in Hst.
  pose proof (total_counted s Hk Hids) as Htot. fold m st in Htot.
  assert (provisioned_total (global m) = Z.of_nat (length (filter (λ d, is_leaf d = true ∧ provisioned d = true) (devices s)))) as Hprov.
  { apply provisioned_leaves. }
  split; [done|]. split; [|split; [done|]; split; [done|]; split; [done|]].
  - intros x Ht Hp near. rewrite (olt_anchor_ont s x Ht Hp). pose proof (trace_anchor_spec s x DOM_OLT) as Hspec.
    unfold anchor_here in Hspec. destruct (trace_anchor s x DOM_OLT) as [[[o p] w]|]; cbn [fmap option_fmap option_map fst].
    + destruct Hspec as (k & Hn & Ho). destruct (owner_of s k) as [[i d]|] eqn:Eo; [|done]. destruct (_ && _) eqn:Eb; [|done]. bools.
      injection Ho as <- <- _. destruct (owner_of_Some s _ _ _ Eo) as (_ & <- & _). split; [done|]. by exists i, d.
    + intros k i d Hn Eo [H1 H2]. specialize (Hspec k Hn). rewrite Eo, !bool_decide_true in Hspec by done. done.
  - rewrite Htot, Hprov, (ms_decisions s st Hst), length_filter_fmap, list_filter_filter.
    assert (length (filter (λ d, is_leaf d = true ∧ provisioned d = true) (devices s)) =
      length (filter (λ d, is_leaf d = true ∧ provisioned d = true) (in_order s))) as ->.
    { apply Permutation_length. unfold in_order. by rewrite sort_by_perm. }
    apply inj_le. apply filter_length_mono. intros x _ [Hc Hl]. split; [done|]. apply (counted_final s x Hl) in Hc.
    unfold olt_of, switch_of in Hc. destruct Hc as [Hc|Hc].
    + destruct (olt_anchor s x) eqn:E; [|done]. by apply olt_anchor_leaf in E as (_ & ? & _).
    + destruct (cpe_anchor s x) eqn:E; [|done]. by apply cpe_anchor_leaf in E as (_ & ? & _).
Qed.

(** Two CPEs share a port of the switch; only the first is counted. *)
Definition shared_port : DB :=
  mkDB (demo_devices ++ [set_provisioned true (device0 "cpe2" AON_CPE)]) (demo_interfaces ++ [interface0 "cpe2-if0" "cpe2" "if0"])
    (demo_links ++ [link0 "l8" "sw-p1" "cpe2-if0"]) [] [] [] [] [] [].

Lemma shared_port_keys : keys_ok shared_port.
Proof. constructor; vm_compute; repeat (constructor; [set_solver|]); constructor. Qed.

Lemma subscriber_model_spec_witness :
  let m := resolve_subscriber_model shared_port in
  model_spec shared_port (resolved m) ∧ (total (global m), provisioned_total (global m)) = (2%Z, 3%Z) ∧
  reason <$> mapping_decisions (resolved m) =
    ["direct_l4_cpe_access_port_1_to_1"; "aon_access_port_oversubscribed_1_to_1"; "first_reachable_olt_pon"] ∧
  subscriber_parameters m "olt" = (1%Z, Some DOM_OLT, ["ont"]).
Proof.
  split; [|split; [vm_compute; reflexivity|split; vm_compute; reflexivity]].
  apply (subscriber_model_spec shared_port shared_port_keys).
  intros i Hi. repeat (apply elem_of_cons in Hi as [->|Hi]; [done|]). by apply elem_of_nil in Hi.
Defined.
