(* ===== verification/SimulationEventsProofs.v ===== *)
(** Replaying a log of simulation events: what the projections hold after any
    log, and that the log of a topology rebuilds the topology and its
    subscribers. *)

From S2P Require Import Prelude PyFloat Models Scenario EventStore Worklist SubscriberModel SubscriberModelProofs SimulationEvents.

(** * What a log says *)

Definition pair_text (k : string) (data : Payload) : option (string * Payload) := x ← text data k; Some (x, data).

(** The payload of the events of one type, read by [f]. *)
Definition read {A} (t : string) (f : Payload → option A) (e : SimulationEvent) : option A :=
  if String.eqb (sim_type e) t then f (sim_payload e) else None.

Definition bound_at (dom k : string) (data : Payload) : option string :=
  if bool_decide (text data "domain" = Some dom) then text data k else None.

Definition refused (data : Payload) : option Payload :=
  match dict_get data "counted" with Some (JBool false) => Some data | _ => None end.

Definition type_name (data : Payload) : option string := Some (default "UNKNOWN" (truthy_text data "device_type")).

(** The keys an event is traced under. *)
Definition mentions (e : SimulationEvent) : list string :=
  let data := sim_payload e in
  default [] (dict_get [("DEVICE_CREATED", option_list (text data "device_id")); ("PORT_CONNECTED", option_list (text data "device_id"));
     ("DEVICE_LINKED", omap (truthy_text data) ["a_device_id"; "b_device_id"]);
     ("ONT_ASSIGNED", option_list (text data "subscriber_id")); ("CPE_PROVISIONED", option_list (text data "subscriber_id"));
     ("SERVICE_BOUND", option_list (text data "subscriber_id") ++ option_list (truthy_text data "anchor_device_id"))] (sim_type e)).

(** The keys whose absence is an exception. *)
Definition required (e : SimulationEvent) : list string :=
  let data := sim_payload e in
  default [] (dict_get [("DEVICE_CREATED", ["device_id"]); ("PORT_CONNECTED", ["port_id"; "device_id"]); ("DEVICE_LINKED", ["link_id"]);
     ("ONT_ASSIGNED", ["subscriber_id"]); ("CPE_PROVISIONED", ["subscriber_id"]);
     ("SERVICE_BOUND", (if bool_decide (text data "domain" = Some "OLT") then ["anchor_device_id"; "anchor_interface_id"]
                       else if bool_decide (text data "domain" = Some "AON") then ["anchor_device_id"] else []) ++ ["subscriber_id"])] (sim_type e)).

Definition readable (e : SimulationEvent) : Prop := Forall (λ k, is_Some (text (sim_payload e) k)) (required e).

Definition put_all (l : list (string * Payload)) (m : list (string * Payload)) : list (string * Payload) :=
  foldl (λ m x, dict_set x.1 x.2 m) m l.

Definition count_of (m : gmap string Z) (k : string) : Z := default 0%Z (m !! k).

Definition occurrences (k : string) (l : list string) : Z := Z.of_nat (length (filter (λ x, x = k) l)).

Definition traced (k : string) (e : SimulationEvent) : list Z := (λ _, sim_sequence e) <$> filter (λ x, x = k) (mentions e).

(** [q] is [p] after the events [evs]. *)
Record after (evs : list SimulationEvent) (p q : Projection) : Prop := {
  af_devices : pj_devices q = put_all (omap (read "DEVICE_CREATED" (pair_text "device_id")) evs) (pj_devices p);
  af_ports : pj_ports q = put_all (omap (read "PORT_CONNECTED" (pair_text "port_id")) evs) (pj_ports p);
  af_links : pj_links q = put_all (omap (read "DEVICE_LINKED" (pair_text "link_id")) evs) (pj_links p);
  af_onts : ont_assignments q = put_all (omap (read "ONT_ASSIGNED" (pair_text "subscriber_id")) evs) (ont_assignments p);
  af_cpes : cpe_provisioning q = put_all (omap (read "CPE_PROVISIONED" (pair_text "subscriber_id")) evs) (cpe_provisioning p);
  af_bindings : service_bindings q = service_bindings p ++ omap (read "SERVICE_BOUND" Some) evs;
  af_over : oversubscriptions q = oversubscriptions p ++ omap (read "CPE_PROVISIONED" refused) evs;
  af_types k : count_of (device_counts q) k = (count_of (device_counts p) k + occurrences k (omap (read "DEVICE_CREATED" type_name) evs))%Z;
  af_olts k : count_of (olt_subscribers q) k =
    (count_of (olt_subscribers p) k + occurrences k (omap (read "SERVICE_BOUND" (bound_at "OLT" "anchor_device_id")) evs))%Z;
  af_aons k : count_of (aon_subscribers q) k =
    (count_of (aon_subscribers p) k + occurrences k (omap (read "SERVICE_BOUND" (bound_at "AON" "anchor_device_id")) evs))%Z;
  af_pons k : count_of (pon_counts q) k =
    (count_of (pon_counts p) k + occurrences k (omap (read "SERVICE_BOUND" (bound_at "OLT" "anchor_interface_id")) evs))%Z;
  af_traces k : default [] (traces q !! k) = default [] (traces p !! k) ++ mjoin (traced k <$> evs)
}.

Lemma occurrences_app k l l' : occurrences k (l ++ l') = (occurrences k l + occurrences k l')%Z.
Proof. unfold occurrences. rewrite filter_app, length_app. lia. Qed.

Lemma put_all_app l l' m : put_all (l ++ l') m = put_all l' (put_all l m).
Proof. apply foldl_app. Qed.

Lemma after_nil p : after [] p p.
Proof. split; intros; cbn; unfold occurrences; cbn; rewrite ?app_nil_r; done || lia. Qed.

Lemma after_app evs evs' p q r : after evs p q → after evs' q r → after (evs ++ evs') p r.
Proof.
  intros [] []. split; intros; rewrite ?omap_app, ?put_all_app, ?occurrences_app, ?fmap_app, ?join_app, ?app_assoc; try congruence;
    rewrite Z.add_assoc; congruence.
Qed.

Lemma count_incr j m k : count_of (incr j m) k = (count_of m k + occurrences k [j])%Z.
Proof.
  unfold count_of, incr, occurrences. destruct (decide (j = k)) as [->|Hne].
  - by rewrite lookup_insert_eq, filter_cons_True.
  - rewrite lookup_insert_ne, filter_cons_False by done. cbn. lia.
Qed.

Lemma trace_foldl ks n k m :
  default [] (foldl (λ m j, trace j n m) m ks !! k) = default [] (m !! k) ++ ((λ _, n) <$> filter (λ x, x = k) ks).
Proof.
  revert m. induction ks as [|j ks IH]; intros m; [by rewrite app_nil_r|]. cbn [foldl]. rewrite IH. unfold trace at 1.
  destruct (decide (j = k)) as [->|Hne].
  - rewrite lookup_insert_eq, filter_cons_True by done. cbn. by rewrite <-app_assoc.
  - by rewrite lookup_insert_ne, filter_cons_False.
Qed.

(** ** One event *)

Ltac known_type := unfold read, mentions, required; cbn [sim_type sim_payload sim_sequence dict_get String.eqb Ascii.eqb Bool.eqb default].

Lemma trace_all_after ks n p q e :
  mentions e = ks → sim_sequence e = n → traces q = traces p →
  (∀ k, default [] (traces (trace_all ks n q) !! k) = default [] (traces p !! k) ++ mjoin (traced k <$> [e])).
Proof. intros <- <- Ht k. cbn [traces trace_all]. rewrite trace_foldl, Ht. cbn. by rewrite app_nil_r. Qed.

Lemma no_occurrence k : occurrences k [] = 0%Z.
Proof. done. Qed.

(** The fields after one event whose type and readings are known. *)
Ltac use_readings := repeat match goal with H : text _ _ = _ |- _ => rewrite H end.

Ltac event_fields :=
  split; [..|apply trace_all_after; [unfold mentions; cbn; by use_readings|done|done]];
  intros; unfold read, pair_text, bound_at, refused; cbn; use_readings; cbn;
  repeat match goal with H : dict_get _ "counted" = _ |- _ => rewrite H end; cbn;
  rewrite ?count_incr, ?no_occurrence, ?app_nil_r, ?Z.add_0_r; try done.

(** Reads one required key; a missing key is an exception. *)
Ltac read_key k :=
  match goal with |- context [text ?d k] =>
    destruct (text d k) eqn:?; cbn [mbind option_bind];
    [|intros Hall; rewrite Forall_forall in Hall; destruct (Hall k ltac:(set_solver)); congruence]
  end.

Ltac all_read := repeat constructor; eauto.

Lemma replay_step_spec p e :
  match replay_step p e with Some q => readable e ∧ after [e] p q | None => ¬ readable e end.
Proof.
  destruct e as [n t data src]. unfold replay_step, branch, readable. cbn [sim_type sim_payload sim_sequence dict_get].
  destruct (String.eqb_spec t "DEVICE_CREATED") as [->|H1].
  { unfold on_device. known_type. read_key "device_id". split; [all_read|event_fields]. }
  destruct (String.eqb_spec t "PORT_CONNECTED") as [->|H2].
  { unfold on_port. known_type. read_key "port_id". read_key "device_id". split; [all_read|event_fields]. }
  destruct (String.eqb_spec t "DEVICE_LINKED") as [->|H3].
  { unfold on_link. known_type. read_key "link_id". split; [all_read|event_fields]. }
  destruct (String.eqb_spec t "ONT_ASSIGNED") as [->|H4].
  { unfold on_ont. known_type. read_key "subscriber_id". split; [all_read|event_fields]. }
  destruct (String.eqb_spec t "CPE_PROVISIONED") as [->|H5].
  { unfold on_cpe. known_type. read_key "subscriber_id". split; [all_read|].
    destruct (dict_get data "counted") as [[| [] | | | |]|] eqn:?; event_fields. }
  destruct (String.eqb_spec t "SERVICE_BOUND") as [->|H6].
  - unfold on_binding. known_type. destruct (decide (text data "domain" = Some "OLT")) as [Ho|Ho].
    { rewrite bool_decide_true by done. read_key "anchor_device_id". read_key "anchor_interface_id". read_key "subscriber_id".
      split; [all_read|event_fields]. }
    rewrite (bool_decide_false (text data "domain" = Some "OLT")) by done.
    destruct (decide (text data "domain" = Some "AON")) as [Ha|Ha].
    + rewrite bool_decide_true by done. read_key "anchor_device_id". read_key "subscriber_id". split; [all_read|event_fields].
    + rewrite bool_decide_false by done. read_key "subscriber_id". split; [all_read|].
      event_fields; rewrite bool_decide_false by done; cbn; by rewrite no_occurrence, Z.add_0_r.
  - apply String.eqb_neq in H1, H2, H3, H4, H5, H6. unfold required. cbn [sim_type dict_get].
    rewrite H1, H2, H3, H4, H5, H6. split; [constructor|]. split; intros; unfold read, traced, mentions; cbn;
      rewrite ?H1, ?H2, ?H3, ?H4, ?H5, ?H6; cbn; rewrite ?no_occurrence, ?app_nil_r, ?Z.add_0_r; done.
Qed.


Lemma replay_from_None evs : foldl (λ acc e, acc ≫= λ p, replay_step p e) None evs = None.
Proof. by induction evs. Qed.

(** A log is replayed exactly when all its events are readable. *)
Lemma replay_from_spec evs : ∀ p,
  match replay_from p evs with Some q => Forall readable evs ∧ after evs p q | None => ¬ Forall readable evs end.
Proof.
  unfold replay_from. induction evs as [|e evs IH]; intros p; [split; [constructor|apply after_nil]|].
  cbn [foldl mbind option_bind]. pose proof (replay_step_spec p e) as Hs. destruct (replay_step p e) as [q|].
  - destruct Hs as [Hr Ha]. specialize (IH q). destruct (foldl _ _ evs) as [r|].
    + destruct IH as [Hrs Ha']. split; [by constructor|]. by apply (after_app [e] evs p q).
    + by intros [_ ?]%Forall_cons.
  - rewrite replay_from_None. by intros [? _]%Forall_cons.
Qed.

(** * The log of a topology *)

(** What the log is about, in order. *)
Inductive Item := DeviceItem (d : Device) | PortItem (i : Interface) | LinkItem (l : Link) | DecisionItem (e : MappingDecision).

Abbreviation Emission := (string * (Z → Payload))%type.

Definition number (n : nat) (ems : list Emission) : list SimulationEvent :=
  imap (λ i em, mkSim (Z.of_nat (n + i)) em.1 (em.2 (Z.of_nat (n + i))) "CANONICAL_DB_SNAPSHOT") ems.

Lemma number_cons n em ems :
  number n (em :: ems) = mkSim (Z.of_nat n) em.1 (em.2 (Z.of_nat n)) "CANONICAL_DB_SNAPSHOT" :: number (S n) ems.
Proof.
  unfold number. rewrite imap_cons. f_equal; [by rewrite Nat.add_0_r|]. apply imap_ext. intros i x _.
  change ((_ ∘ S) i x) with (mkSim (Z.of_nat (n + S i)) x.1 (x.2 (Z.of_nat (n + S i))) "CANONICAL_DB_SNAPSHOT").
  by rewrite Nat.add_succ_r.
Qed.

Lemma number_app n a b : number n (a ++ b) = number n a ++ number (n + length a) b.
Proof.
  revert n. induction a as [|em a IH]; intros n; cbn [app length]; [by rewrite Nat.add_0_r|].
  rewrite !number_cons, IH, Nat.add_succ_r. done.
Qed.

Lemma length_number n ems : length (number n ems) = length ems.
Proof. apply length_imap. Qed.

Lemma number_sequence n ems : sim_sequence <$> number n ems = Z.of_nat <$> seq n (length ems).
Proof.
  revert n. induction ems as [|em ems IH]; intros n; [done|]. rewrite number_cons. cbn [fmap list_fmap length seq].
  by rewrite IH.
Qed.

Definition emissions_of (s : DB) (it : Item) : list Emission :=
  match it with
  | DeviceItem d => [("DEVICE_CREATED", λ _, device_payload d)]
  | PortItem i => [("PORT_CONNECTED", λ _, port_payload i)]
  | LinkItem l => [("DEVICE_LINKED", λ _, link_payload s l)]
  | DecisionItem e =>
      (if mem (dec_type e) CPE_TYPES then [("CPE_PROVISIONED", λ _, subscriber_payload e)]
       else if mem (dec_type e) ONT_TYPES then [("ONT_ASSIGNED", λ _, subscriber_payload e)] else []) ++
      (if bool_decide (counted e = Some true) then [("SERVICE_BOUND", λ n, binding_payload e (n - 1))] else [])
  end.

Definition sorted_ports (s : DB) : list Interface := sort_by iface_leb (interfaces s).
Definition sorted_links (s : DB) : list Link := sort_by (λ l k, str_leb (link_id l) (link_id k)) (links s).
Definition sorted_decisions (s : DB) : list MappingDecision :=
  sort_by (λ e f, str_leb (dec_subscriber e) (dec_subscriber f)) (mapping_decisions (resolved (resolve_subscriber_model s))).

Definition items (s : DB) : list Item :=
  (DeviceItem <$> in_order s) ++ (PortItem <$> sorted_ports s) ++ (LinkItem <$> sorted_links s) ++ (DecisionItem <$> sorted_decisions s).

Definition topology_log (s : DB) : list SimulationEvent := number 0 (mjoin (emissions_of s <$> items s)).

(** Each loop of the builder appends the emissions of its rows. *)
Definition emits {A} (f : list SimulationEvent → A → option (list SimulationEvent)) (em : A → list Emission) : Prop :=
  ∀ evs x, f evs x = Some (evs ++ number (length evs) (em x)).

Lemma append_sim_emits t data evs :
  t ∈ SIMULATION_EVENT_TYPES → append_sim t data evs = Some (evs ++ number (length evs) [(t, data)]).
Proof.
  intros Ht%mem_true. unfold append_sim, sim_event. rewrite Ht. cbn. unfold number. cbn. by rewrite Nat.add_0_r.
Qed.

Lemma fold_log_emits {A} f (em : A → list Emission) l evs :
  emits f em → fold_log f l evs = Some (evs ++ number (length evs) (mjoin (em <$> l))).
Proof.
  intros Hf. unfold fold_log. revert evs. induction l as [|x l IH]; intros evs; [by rewrite app_nil_r|].
  cbn [foldl mbind option_bind]. rewrite Hf, IH. cbn [fmap list_fmap mjoin list_join].
  by rewrite number_app, app_assoc, length_app, length_number.
Qed.

Lemma append_decision_emits s : emits append_decision (λ e, emissions_of s (DecisionItem e)).
Proof.
  intros evs e. unfold append_decision. cbn [emissions_of].
  destruct (mem (dec_type e) CPE_TYPES); [|destruct (mem (dec_type e) ONT_TYPES)];
    rewrite ?append_sim_emits by (by apply mem_true); cbn [mbind option_bind app];
    (case_bool_decide; [rewrite append_sim_emits by (by apply mem_true)|]);
    rewrite ?number_app, ?length_app, ?length_number, ?app_assoc; cbn [app]; rewrite ?app_nil_r;
    rewrite <-?app_assoc, <-?number_app; done.
Qed.

Lemma build_log s : build_simulation_event_log s = Some (topology_log s).
Proof.
  unfold build_simulation_event_log, topology_log, items.
  rewrite (fold_log_emits _ (λ d, emissions_of s (DeviceItem d))) by (intros ? ?; apply append_sim_emits; by apply mem_true). cbn [mbind option_bind].
  rewrite (fold_log_emits _ (λ i, emissions_of s (PortItem i))) by (intros ? ?; apply append_sim_emits; by apply mem_true). cbn [mbind option_bind].
  rewrite (fold_log_emits _ (λ l, emissions_of s (LinkItem l))) by (intros ? ?; apply append_sim_emits; by apply mem_true). cbn [mbind option_bind].
  rewrite (fold_log_emits _ _ _ _ (append_decision_emits s)).
  rewrite !fmap_app, !join_app, !number_app, !length_app, !length_number, !app_assoc, <-!list_fmap_compose. cbn [app length].
  done.
Qed.

(** ** Reading the log of a topology *)

Lemma omap_items {B} (f : SimulationEvent → option B) (g : Item → list B) s l n :
  (∀ it n, omap f (number n (emissions_of s it)) = g it) → omap f (number n (mjoin (emissions_of s <$> l))) = mjoin (g <$> l).
Proof.
  intros Hf. revert n. induction l as [|it l IH]; intros n; [done|]. cbn [fmap list_fmap mjoin list_join].
  by rewrite number_app, omap_app, Hf, IH.
Qed.

Lemma Forall_items (P : SimulationEvent → Prop) s l n :
  (∀ it n, it ∈ l → Forall P (number n (emissions_of s it))) → Forall P (number n (mjoin (emissions_of s <$> l))).
Proof.
  revert n. induction l as [|it l IH]; intros n Hf; [constructor|]. cbn [fmap list_fmap mjoin list_join].
  rewrite number_app. apply Forall_app. split; [apply Hf; by left|]. apply IH. intros; apply Hf. by right.
Qed.

Lemma join_items {B} (g : Item → list B) s :
  mjoin (g <$> items s) =
    mjoin ((λ d, g (DeviceItem d)) <$> in_order s) ++ mjoin ((λ i, g (PortItem i)) <$> sorted_ports s) ++
    mjoin ((λ l, g (LinkItem l)) <$> sorted_links s) ++ mjoin ((λ e, g (DecisionItem e)) <$> sorted_decisions s).
Proof. unfold items. by rewrite !fmap_app, !join_app, <-!list_fmap_compose. Qed.

Lemma join_option {A B} (f : A → option B) (l : list A) : mjoin ((λ x, option_list (f x)) <$> l) = omap f l.
Proof. induction l as [|x l IH]; [done|]. csimpl. rewrite IH. by destruct (f x). Qed.

Lemma omap_nothing {A B} (l : list A) : omap (λ _, @None B) l = [].
Proof. by apply omap_none. Qed.

Lemma omap_total {A B} (f : A → B) (l : list A) : omap (λ x, Some (f x)) l = f <$> l.
Proof. induction l as [|x l IH]; [done|]. csimpl. by rewrite IH. Qed.

Lemma omap_when {A B} (P : A → Prop) `{∀ x, Decision (P x)} (f : A → B) (l : list A) :
  omap (λ x, if bool_decide (P x) then Some (f x) else None) l = f <$> filter P l.
Proof.
  induction l as [|x l IH]; [done|]. rewrite filter_cons. csimpl. case_bool_decide; case_decide; try done; csimpl; by rewrite IH.
Qed.

(** The readings of one row, for each of the fields. *)
Ltac read_items g :=
  unfold topology_log; rewrite (omap_items _ g);
  [rewrite join_items; cbn beta iota; rewrite ?join_option, ?omap_nothing, ?app_nil_l, ?app_nil_r
  |intros [| | |[k t c dm a i why]] ?; [..|destruct t, c as [[]|]]; try done].

Lemma read_devices s :
  omap (read "DEVICE_CREATED" (pair_text "device_id")) (topology_log s) = (λ d, (dev_id d, device_payload d)) <$> in_order s.
Proof.
  read_items (λ it, option_list match it with DeviceItem d => Some (dev_id d, device_payload d) | _ => None end).
  apply omap_total.
Qed.

Lemma read_types s :
  omap (read "DEVICE_CREATED" type_name) (topology_log s) = (λ d, DeviceType_value (dev_type d)) <$> in_order s.
Proof.
  read_items (λ it, option_list match it with DeviceItem d => Some (DeviceType_value (dev_type d)) | _ => None end).
  - apply omap_total.
  - cbn. by destruct (dev_type _).
Qed.

Lemma read_ports s :
  omap (read "PORT_CONNECTED" (pair_text "port_id")) (topology_log s) = (λ i, (if_id i, port_payload i)) <$> sorted_ports s.
Proof.
  read_items (λ it, option_list match it with PortItem i => Some (if_id i, port_payload i) | _ => None end). apply omap_total.
Qed.

Lemma read_links s :
  omap (read "DEVICE_LINKED" (pair_text "link_id")) (topology_log s) = (λ l, (link_id l, link_payload s l)) <$> sorted_links s.
Proof.
  read_items (λ it, option_list match it with LinkItem l => Some (link_id l, link_payload s l) | _ => None end). apply omap_total.
Qed.

Lemma read_onts s :
  omap (read "ONT_ASSIGNED" (pair_text "subscriber_id")) (topology_log s) =
    (λ e, (dec_subscriber e, subscriber_payload e)) <$> filter (λ e, dec_type e ∈ ONT_TYPES) (sorted_decisions s).
Proof.
  read_items (λ it, option_list match it with
    | DecisionItem e => if bool_decide (dec_type e ∈ ONT_TYPES) then Some (dec_subscriber e, subscriber_payload e) else None | _ => None end).
  apply omap_when.
Qed.

Lemma read_cpes s :
  omap (read "CPE_PROVISIONED" (pair_text "subscriber_id")) (topology_log s) =
    (λ e, (dec_subscriber e, subscriber_payload e)) <$> filter (λ e, dec_type e ∈ CPE_TYPES) (sorted_decisions s).
Proof.
  read_items (λ it, option_list match it with
    | DecisionItem e => if bool_decide (dec_type e ∈ CPE_TYPES) then Some (dec_subscriber e, subscriber_payload e) else None | _ => None end).
  apply omap_when.
Qed.

Lemma read_refused s :
  omap (read "CPE_PROVISIONED" refused) (topology_log s) =
    subscriber_payload <$> filter (λ e, dec_type e ∈ CPE_TYPES ∧ counted e = Some false) (sorted_decisions s).
Proof.
  read_items (λ it, option_list match it with
    | DecisionItem e => if bool_decide (dec_type e ∈ CPE_TYPES ∧ counted e = Some false) then Some (subscriber_payload e) else None
    | _ => None end).
  apply omap_when.
Qed.

Lemma read_bindings s :
  omap (read "SERVICE_BOUND" (λ data, text data "subscriber_id")) (topology_log s) =
    dec_subscriber <$> filter (λ e, counted e = Some true) (sorted_decisions s).
Proof.
  read_items (λ it, option_list match it with
    | DecisionItem e => if bool_decide (counted e = Some true) then Some (dec_subscriber e) else None | _ => None end).
  apply omap_when.
Qed.

(** Where a decision binds its subscriber. *)
Definition binds (dom : Domain) (at_ : MappingDecision → option string) (e : MappingDecision) : option string :=
  if bool_decide (counted e = Some true ∧ dec_domain e = Some dom) then at_ e else None.

Lemma read_olts s :
  omap (read "SERVICE_BOUND" (bound_at "OLT" "anchor_device_id")) (topology_log s) =
    omap (binds DOM_OLT anchor_device) (sorted_decisions s).
Proof.
  read_items (λ it, option_list match it with DecisionItem e => binds DOM_OLT anchor_device e | _ => None end); [done|..];
    destruct dm as [[]|], a; done.
Qed.

Lemma read_aons s :
  omap (read "SERVICE_BOUND" (bound_at "AON" "anchor_device_id")) (topology_log s) =
    omap (binds DOM_AON anchor_device) (sorted_decisions s).
Proof.
  read_items (λ it, option_list match it with DecisionItem e => binds DOM_AON anchor_device e | _ => None end); [done|..];
    destruct dm as [[]|], a; done.
Qed.

Lemma read_pons s :
  omap (read "SERVICE_BOUND" (bound_at "OLT" "anchor_interface_id")) (topology_log s) =
    omap (binds DOM_OLT anchor_interface) (sorted_decisions s).
Proof.
  read_items (λ it, option_list match it with DecisionItem e => binds DOM_OLT anchor_interface e | _ => None end); [done|..];
    destruct dm as [[]|], i; done.
Qed.

(** * The subscribers of the log *)

Section subscribers.
Context (s : DB).

Local Abbreviation leaves := (filter (λ d, is_leaf d = true) (in_order s)).

Lemma final_subscriber x : dec_subscriber (final_decision s x) = dev_id x ∧ dec_type (final_decision s x) = dev_type x.
Proof.
  unfold final_decision, verdict, leaf_decision. destruct (cpe_anchor s x) as [[a p]|]; [by case_bool_decide|].
  destruct (negb _); [done|]. destruct (mem _ _).
  - by destruct (trace_anchor s x DOM_OLT) as [[[? ?] ?]|].
  - by destruct (trace_direct_aon_anchor s x) as [[[? ?] ?]|].
Qed.

(** A leaf is bound where the subscriber model attaches it. *)
Lemma final_binds x : is_leaf x = true →
  binds DOM_OLT anchor_device (final_decision s x) = olt_of s x ∧
  binds DOM_OLT anchor_interface (final_decision s x) = snd <$> olt_anchor s x ∧
  binds DOM_AON anchor_device (final_decision s x) = switch_of s x.
Proof.
  intros Hl. unfold final_decision, olt_of, switch_of. destruct (cpe_anchor s x) as [[a p]|] eqn:Ec; cbn [mbind option_bind].
  - destruct (cpe_anchor_leaf s _ _ Ec) as (_ & _ & Ht). assert (olt_anchor s x = None) as ->.
    { destruct (olt_anchor s x) eqn:Eo; [|done]. apply olt_anchor_leaf in Eo as (_ & _ & Eo). by destruct (leaf_kind x Hl) as [[_ ?]|[? _]]. }
    unfold verdict. case_bool_decide; done.
  - unfold leaf_decision. destruct (provisioned x) eqn:Hp; cbn [negb].
    2: { unfold olt_anchor. by rewrite Hp, andb_false_r. }
    destruct (leaf_kind x Hl) as [[Ht _]|[Hnt Ht]].
    + rewrite (proj2 (mem_true _ _) Ht), (olt_anchor_ont s x Ht Hp). by destruct (trace_anchor s x DOM_OLT) as [[[a p] w]|].
    + rewrite (proj2 (mem_false _ _) Hnt). rewrite (cpe_anchor_cpe s x Ht Hp) in Ec.
      destruct (trace_direct_aon_anchor s x); [done|]. unfold olt_anchor. by rewrite (proj2 (mem_false _ _) Hnt).
Qed.

Lemma occurrences_omap {A} (h : A → option string) k l : occurrences k (omap h l) = Z.of_nat (length (filter (λ x, h x = Some k) l)).
Proof.
  unfold occurrences. f_equal. induction l as [|x l IH]; [done|]. rewrite filter_cons. csimpl. destruct (h x) as [y|] eqn:E.
  - rewrite filter_cons. destruct (decide (y = k)) as [->|Hne]; [rewrite decide_True by done; cbn; by f_equal|].
    by rewrite decide_False by congruence.
  - by rewrite decide_False.
Qed.

Context (Hk : keys_ok s) (Hids : ∀ i, i ∈ interfaces s → if_id i ≠ "").

Lemma decisions_perm : sorted_decisions s ≡ₚ final_decision s <$> leaves.
Proof.
  unfold sorted_decisions. rewrite sort_by_perm. by rewrite <-(ms_decisions s _ (resolved_spec s Hk Hids)).
Qed.

Lemma decisions_NoDup : NoDup (dec_subscriber <$> sorted_decisions s).
Proof.
  rewrite decisions_perm, <-list_fmap_compose. apply (NoDup_fmap_2_strong _).
  - intros x y [_ Hx%in_order_elem]%list_elem_of_filter [_ Hy%in_order_elem]%list_elem_of_filter E. unfold compose in E.
    rewrite !(proj1 (final_subscriber _)) in E. by apply (device_unique s).
  - by apply NoDup_filter, in_order_NoDup.
Qed.

(** Counting bindings is counting leaves. *)
Lemma bindings_at dom at_ (f : Device → option string) k :
  (∀ x, is_leaf x = true → binds dom at_ (final_decision s x) = f x) → (∀ x, f x = Some k → is_leaf x = true) →
  occurrences k (omap (binds dom at_) (sorted_decisions s)) = Z.of_nat (length (filter (λ x, f x = Some k) (in_order s))).
Proof.
  intros Hb Hf. rewrite occurrences_omap. f_equal.
  rewrite (Permutation_length (filter_Permutation _ _ _ decisions_perm)), length_filter_fmap, list_filter_filter.
  f_equal. apply filter_ext_elem. intros x _. split; [intros [E Hl]; by rewrite Hb in E|]. intros E. pose proof (Hf x E). by rewrite Hb.
Qed.

Lemma olt_leaf x k : olt_of s x = Some k → is_leaf x = true.
Proof. unfold olt_of. destruct (olt_anchor s x) eqn:E; [|done]. by apply olt_anchor_leaf in E as [? _]. Qed.

Lemma switch_leaf x k : switch_of s x = Some k → is_leaf x = true.
Proof. unfold switch_of. destruct (cpe_anchor s x) eqn:E; [|done]. by apply cpe_anchor_leaf in E as [? _]. Qed.

Lemma node_subscribers d f :
  d ∈ devices s → (∀ k, attached s d k ↔ ∃ x, x ∈ in_order s ∧ dev_id x = k ∧ f x = Some (dev_id d)) →
  (subscriber_parameters (resolve_subscriber_model s) (dev_id d)).1.1 =
    Z.of_nat (length (filter (λ x, f x = Some (dev_id d)) (in_order s))).
Proof.
  intros Hd Hatt. destruct (ms_nodes s _ (resolved_spec s Hk Hids) d Hd) as (n & Hn & Hc & Hok). unfold subscriber_parameters.
  change (resolved (resolve_subscriber_model s)) with (resolved_state s). rewrite Hn. cbn. rewrite Hc. f_equal.
  by apply (node_size s Hk d n f).
Qed.

Lemma olt_bindings d : d ∈ devices s → dev_type d = OLT →
  occurrences (dev_id d) (omap (binds DOM_OLT anchor_device) (sorted_decisions s)) =
    (subscriber_parameters (resolve_subscriber_model s) (dev_id d)).1.1.
Proof.
  intros Hd Ht. rewrite (node_subscribers d (olt_of s)) by (done || intros; by apply attached_olt).
  apply (bindings_at _ _ (olt_of s)); [|intros x; apply olt_leaf]. intros x Hl. apply final_binds, Hl.
Qed.

Lemma aon_bindings d : d ∈ devices s → dev_type d = AON_SWITCH →
  occurrences (dev_id d) (omap (binds DOM_AON anchor_device) (sorted_decisions s)) =
    (subscriber_parameters (resolve_subscriber_model s) (dev_id d)).1.1.
Proof.
  intros Hd Ht. rewrite (node_subscribers d (switch_of s)) by (done || intros; by apply attached_aon).
  apply (bindings_at _ _ (switch_of s)); [|intros x; apply switch_leaf]. intros x Hl. apply final_binds, Hl.
Qed.

Lemma pon_bindings i : i ∈ interfaces s →
  occurrences (if_id i) (omap (binds DOM_OLT anchor_interface) (sorted_decisions s)) =
    lookup2 0%Z (pon_occupancy (resolved (resolve_subscriber_model s))) (if_device_id i) (if_id i).
Proof.
  intros Hi. change (resolved (resolve_subscriber_model s)) with (resolved_state s). rewrite (ms_pon s _ (resolved_spec s Hk Hids)).
  rewrite (bindings_at _ _ (λ x, snd <$> olt_anchor s x)).
  - do 2 f_equal. apply filter_ext_elem. intros x _. destruct (olt_anchor s x) as [[o p]|] eqn:E; [|done]. cbn. split; [|congruence].
    intros [= ->]. do 2 f_equal. apply olt_anchor_Some in E as (_ & j & d & Ho & _ & <- & _ & Hj & Ej).
    unfold owner_of in Ho. rewrite (get_interface_key s i Hk Hi) in Ho. cbn in Ho.
    destruct (get_device s (if_device_id i)) as [d'|] eqn:Ed; [|done]. injection Ho as -> ->. by apply get_device_Some in Ed as [_ ->].
  - intros x Hl. apply final_binds, Hl.
  - intros x E. destruct (olt_anchor s x) eqn:Eo; [|done]. by apply olt_anchor_leaf in Eo as [? _].
Qed.
End subscribers.

(** * The round trip *)

Lemma put_all_nil {A} (f : A → string) (g : A → Payload) l :
  NoDup (f <$> l) → put_all ((λ x, (f x, g x)) <$> l) [] = (λ x, (f x, g x)) <$> l.
Proof.
  intros Hn. unfold put_all. rewrite (foldl_dict_set_fresh fst snd).
  - cbn [app]. rewrite <-list_fmap_compose. done.
  - cbn [fmap list_fmap app]. by rewrite <-list_fmap_compose.
Qed.

Lemma decision_bound s e : e ∈ sorted_decisions s → keys_ok s → (∀ i, i ∈ interfaces s → if_id i ≠ "") →
  counted e = Some true → is_Some (anchor_device e) ∧ is_Some (anchor_interface e).
Proof.
  intros He Hk Hids. rewrite (decisions_perm s Hk Hids) in He. apply list_elem_of_fmap in He as (x & -> & _).
  unfold final_decision, verdict, leaf_decision. destruct (cpe_anchor s x) as [[a p]|]; [case_bool_decide; cbn; eauto|].
  destruct (negb _); [done|]. destruct (mem _ _).
  - destruct (trace_anchor s x DOM_OLT) as [[[? ?] ?]|]; cbn; [eauto|done].
  - by destruct (trace_direct_aon_anchor s x) as [[[? ?] ?]|].
Qed.

Lemma topology_log_readable s : keys_ok s → (∀ i, i ∈ interfaces s → if_id i ≠ "") → Forall readable (topology_log s).
Proof.
  intros Hk Hids. apply Forall_items. intros it n Hit. unfold readable.
  destruct it as [d|i|l|e]; [repeat constructor; cbn; eauto..|].
  assert (counted e = Some true → is_Some (anchor_device e) ∧ is_Some (anchor_interface e)) as Hb.
  { apply (decision_bound s); [|done..]. unfold items in Hit. rewrite !elem_of_app in Hit.
    destruct Hit as [Hit|[Hit|[Hit|Hit]]]; apply list_elem_of_fmap in Hit as (? & E & ?); by simplify_eq. }
  destruct e as [k t c dm a i why]. cbn [counted anchor_device anchor_interface] in Hb.
  destruct c as [[]|]; [destruct Hb as [[? ->] [? ->]]; [done|]|..]; destruct t; try destruct dm as [[]|];
    repeat constructor; cbn; eauto.
Qed.

(** The bindings, and any reading of them. *)
Lemma read_via {A} t (f : Payload → option A) (evs : list SimulationEvent) : omap (read t f) evs = omap f (omap (read t Some) evs).
Proof. induction evs as [|e evs IH]; [done|]. csimpl. unfold read in *. destruct (String.eqb _ _); cbn; by rewrite IH. Qed.

Lemma read_bound s :
  omap (read "SERVICE_BOUND" (λ _, Some tt)) (topology_log s) = (λ _, tt) <$> filter (λ e, counted e = Some true) (sorted_decisions s).
Proof.
  read_items (λ it, option_list match it with
    | DecisionItem e => if bool_decide (counted e = Some true) then Some tt else None | _ => None end).
  apply omap_when.
Qed.

Lemma length_bound s :
  length (omap (read "SERVICE_BOUND" Some) (topology_log s)) = length (filter (λ e, counted e = Some true) (sorted_decisions s)).
Proof.
  rewrite <-(length_fmap (λ _, tt) (filter _ (sorted_decisions s))), <-read_bound, (read_via _ (λ _, Some tt)), omap_total. by rewrite length_fmap.
Qed.

Lemma NoDup_fmap_filter {A B} (f : A → B) (P : A → Prop) `{∀ x, Decision (P x)} (l : list A) : NoDup (f <$> l) → NoDup (f <$> filter P l).
Proof.
  induction l as [|x l IH]; [done|]. intros [Hx Hn]%NoDup_cons. rewrite filter_cons. case_decide; [|by apply IH]. csimpl.
  constructor; [|by apply IH]. intros (y & E & [_ Hy]%list_elem_of_filter)%list_elem_of_fmap. apply Hx. rewrite E. by apply list_elem_of_fmap_2.
Qed.

Lemma device_total s t :
  occurrences (DeviceType_value t) ((λ d, DeviceType_value (dev_type d)) <$> in_order s) = raw_by_type (resolve_subscriber_model s) t.
Proof.
  unfold occurrences. rewrite length_filter_fmap. cbn [raw_by_type resolve_subscriber_model]. unfold type_count. f_equal.
  assert (in_order s ≡ₚ devices s) as Hp by apply sort_by_perm. rewrite Hp. f_equal. apply filter_ext_elem. intros d _.
  split; [by intros ->%(inj DeviceType_value)|by intros [-> _]].
Qed.

Lemma count_empty k : count_of ∅ k = 0%Z.
Proof. done. Qed.

Lemma effective_total s : keys_ok s → (∀ i, i ∈ interfaces s → if_id i ≠ "") → ∀ p, after (topology_log s) empty_projection p →
  Z.of_nat (length (service_bindings p)) = total (global (resolve_subscriber_model s)).
Proof.
  intros Hk Hids p Ha. rewrite (total_counted s Hk Hids), (af_bindings _ _ _ Ha). cbn [service_bindings empty_projection app].
  rewrite length_bound. f_equal. apply Permutation_length, filter_Permutation, sort_by_perm.
Qed.

Lemma replay_topology s : keys_ok s → (∀ i, i ∈ interfaces s → if_id i ≠ "") →
  ∃ r, replay_simulation_events (topology_log s) = Some r ∧
    Z.of_nat (effective_subscriber_count r) = total (global (resolve_subscriber_model s)).
Proof.
  intros Hk Hids. pose proof (replay_from_spec (topology_log s) empty_projection) as Hr. unfold replay_simulation_events.
  destruct (replay_from _ _) as [p|]; [|by destruct Hr; apply topology_log_readable]. eexists. split; [reflexivity|].
  by apply effective_total, Hr.
Qed.

(** C00: the log of a topology and its replay.  Building the log never fails, its
    events are numbered from zero, and every event can be replayed.  The
    projections of the replay are the tables again: every device, port and link
    under its key, in the order of the log; every ONT and CPE decision under its
    subscriber; the refused CPEs; one binding per counted subscriber.  The counts
    agree with the subscriber model: the total, the subscribers of each OLT and
    AON switch, the occupancy of each port, the devices of each type; the trace of
    a key lists the numbers of the events that mention it. *)
Theorem replay_of_log s :
  keys_ok s → (∀ i, i ∈ interfaces s → if_id i ≠ "") →
  ∃ evs r, build_simulation_event_log s = Some evs ∧ replay_simulation_events evs = Some r ∧
    sim_sequence <$> evs = Z.of_nat <$> seq 0 (length evs) ∧ event_count r = length evs ∧
    let m := resolve_subscriber_model s in
    let p := projection r in
    pj_devices p = (λ d, (dev_id d, device_payload d)) <$> in_order s ∧
    pj_ports p = (λ i, (if_id i, port_payload i)) <$> sorted_ports s ∧
    pj_links p = (λ l, (link_id l, link_payload s l)) <$> sorted_links s ∧
    ont_assignments p = (λ e, (dec_subscriber e, subscriber_payload e)) <$> filter (λ e, dec_type e ∈ ONT_TYPES) (sorted_decisions s) ∧
    cpe_provisioning p = (λ e, (dec_subscriber e, subscriber_payload e)) <$> filter (λ e, dec_type e ∈ CPE_TYPES) (sorted_decisions s) ∧
    oversubscriptions p =
      subscriber_payload <$> filter (λ e, dec_type e ∈ CPE_TYPES ∧ counted e = Some false) (sorted_decisions s) ∧
    omap (λ b, text b "subscriber_id") (service_bindings p) =
      dec_subscriber <$> filter (λ e, counted e = Some true) (sorted_decisions s) ∧
    Z.of_nat (effective_subscriber_count r) = total (global m) ∧
    (∀ d, d ∈ devices s → dev_type d = OLT →
       count_of (olt_subscribers p) (dev_id d) = (subscriber_parameters m (dev_id d)).1.1) ∧
    (∀ d, d ∈ devices s → dev_type d = AON_SWITCH →
       count_of (aon_subscribers p) (dev_id d) = (subscriber_parameters m (dev_id d)).1.1) ∧
    (∀ i, i ∈ interfaces s →
       count_of (pon_counts p) (if_id i) = lookup2 0%Z (pon_occupancy (resolved m)) (if_device_id i) (if_id i)) ∧
    (∀ t, count_of (device_counts p) (DeviceType_value t) = raw_by_type m t) ∧
    ∀ k, default [] (traces p !! k) = mjoin (traced k <$> evs).
Proof.
  intros Hk Hids. exists (topology_log s). pose proof (replay_from_spec (topology_log s) empty_projection) as Hr.
  unfold replay_simulation_events. destruct (replay_from _ _) as [p|]; [|by destruct Hr; apply topology_log_readable].
  destruct Hr as [_ Ha]. destruct (id Ha). eexists. split; [apply build_log|]. split; [reflexivity|].
  split; [unfold topology_log; by rewrite number_sequence, length_number|]. split; [done|]. cbv zeta. cbn [projection].
  pose proof (decisions_NoDup s Hk Hids) as Hn.
  split. { rewrite af_devices0, read_devices. apply (put_all_nil dev_id). unfold in_order. rewrite sort_by_perm. apply Hk. }
  split. { rewrite af_ports0, read_ports. apply (put_all_nil if_id). unfold sorted_ports. rewrite sort_by_perm. apply Hk. }
  split. { rewrite af_links0, read_links. apply (put_all_nil link_id). unfold sorted_links. rewrite sort_by_perm. apply Hk. }
  split. { rewrite af_onts0, read_onts. apply (put_all_nil dec_subscriber). by apply NoDup_fmap_filter. }
  split. { rewrite af_cpes0, read_cpes. apply (put_all_nil dec_subscriber). by apply NoDup_fmap_filter. }
  split. { by rewrite af_over0, read_refused. }
  split. { rewrite af_bindings0. cbn [service_bindings empty_projection app]. by rewrite <-read_via, read_bindings. }
  split. { exact (effective_total s Hk Hids p Ha). }
  split. { intros d Hd Ht. rewrite af_olts0, read_olts. cbn [empty_projection olt_subscribers]. rewrite count_empty, Z.add_0_l. by apply olt_bindings. }
  split. { intros d Hd Ht. rewrite af_aons0, read_aons. cbn [empty_projection aon_subscribers]. rewrite count_empty, Z.add_0_l. by apply aon_bindings. }
  split. { intros i Hi. rewrite af_pons0, read_pons. cbn [empty_projection pon_counts]. rewrite count_empty, Z.add_0_l. by apply pon_bindings. }
  split. { intros t. rewrite af_types0, read_types. cbn [empty_projection device_counts]. rewrite count_empty, Z.add_0_l. apply device_total. }
  intros k. by rewrite af_traces0.
Qed.

Lemma replay_of_log_witness :
  ∃ evs r, build_simulation_event_log shared_port = Some evs ∧ replay_simulation_events evs = Some r ∧
    Z.of_nat (effective_subscriber_count r) = 2%Z ∧ count_of (olt_subscribers (projection r)) "olt" = 1%Z ∧
    count_of (aon_subscribers (projection r)) "sw" = 1%Z.
Proof.
  destruct (replay_of_log shared_port shared_port_keys) as (evs & r & Hb & Hr & _ & _ & H).
  { intros i Hi. repeat (apply elem_of_cons in Hi as [->|Hi]; [done|]). by apply elem_of_nil in Hi. }
  cbv zeta in H. destruct H as (_ & _ & _ & _ & _ & _ & _ & Ht & Ho & Ha & _). exists evs, r. split; [exact Hb|]. split; [exact Hr|].
  assert (total (global (resolve_subscriber_model shared_port)) = 2%Z) as E by (vm_compute; reflexivity). rewrite E in Ht.
  split; [exact Ht|]. split.
  - refine (eq_trans (Ho (set_provisioned true (device0 "olt" OLT)) _ _) _); [|reflexivity|vm_compute; reflexivity].
    apply (list_elem_of_lookup_2 _ 2). reflexivity.
  - refine (eq_trans (Ha (set_provisioned true (device0 "sw" AON_SWITCH)) _ _) _); [|reflexivity|vm_compute; reflexivity].
    apply (list_elem_of_lookup_2 _ 6). reflexivity.
Defined.
