(* ===== verification/EventStoreHealthProofs.v ===== *)
(** The health report: the backfilled log replays like the log of the topology
    it was taken from, and no later report looks at the topology again. *)

From S2P Require Import Prelude PyFloat Models Scenario EventStore Worklist SubscriberModel SubscriberModelProofs SimulationEvents SimulationEventsProofs EventStoreHealth.

(** * Records as simulation events *)

Definition recorded (r : EventStoreRecord) : Prop := source r = BACKFILL_SOURCE ∧ event_type r ∈ SIMULATION_EVENT_TYPES.

#[export] Instance recorded_dec r : Decision (recorded r).
Proof. unfold recorded. apply _. Defined.

Definition as_event (i : nat) (r : EventStoreRecord) : SimulationEvent := mkSim (Z.of_nat i) (event_type r) (payload r) (source r).

Lemma records_from acc rows :
  foldl (λ evs r,
    if negb (String.eqb (source r) BACKFILL_SOURCE) then evs
    else if negb (mem (event_type r) SIMULATION_EVENT_TYPES) then evs
    else evs ++ [mkSim (Z.of_nat (length evs)) (event_type r) (payload r) (source r)]) acc rows =
  acc ++ imap (λ i r, as_event (length acc + i) r) (filter recorded rows).
Proof.
  revert acc. induction rows as [|r rows IH]; intros acc; [by rewrite app_nil_r|]. cbn [foldl]. rewrite IH.
  destruct (String.eqb_spec (source r) BACKFILL_SOURCE) as [E|E]; cbn [negb]; [|by rewrite filter_cons_False by (by intros [? _])].
  destruct (mem (event_type r) SIMULATION_EVENT_TYPES) eqn:Et; cbn [negb].
  - apply mem_true in Et. rewrite filter_cons_True by done. rewrite imap_cons, <-app_assoc, Nat.add_0_r. cbn [app]. do 2 f_equal.
    apply imap_ext. intros i q _. rewrite length_app. cbn [length]. change ((_ ∘ S) i q) with (as_event (length acc + S i) q).
    f_equal. lia.
  - apply mem_false in Et. by rewrite filter_cons_False by (by intros [_ ?]).
Qed.

Lemma records_spec rows : records_to_simulation_events rows = imap as_event (filter recorded rows).
Proof. apply (records_from []). Qed.

(** The source of an event does not matter to its replay. *)
Definition resourced (e : SimulationEvent) : SimulationEvent := mkSim (sim_sequence e) (sim_type e) (sim_payload e) BACKFILL_SOURCE.

Lemma replay_resourced evs : replay_simulation_events (resourced <$> evs) = replay_simulation_events evs.
Proof.
  unfold replay_simulation_events. assert (∀ p, replay_from p (resourced <$> evs) = replay_from p evs) as ->.
  { unfold replay_from. induction evs as [|e evs IH]; intros p; [done|]. cbn [fmap list_fmap foldl mbind option_bind].
    change (replay_step p (resourced e)) with (replay_step p e). destruct (replay_step p e) as [q|]; [apply IH|].
    by rewrite !replay_from_None. }
  rewrite length_fmap, fmap_last. by destruct (last evs).
Qed.

(** * What the backfill appends *)

Definition copies (r : EventStoreRecord) (e : SimulationEvent) : Prop :=
  source r = BACKFILL_SOURCE ∧ event_type r = sim_type e ∧ payload r = sim_payload e.

Lemma simulation_type_domain t : t ∈ SIMULATION_EVENT_TYPES → t ∈ DOMAIN_EVENT_TYPES.
Proof. intros H. repeat (apply elem_of_cons in H as [->|H]; [by apply mem_true|]). by apply elem_of_nil in H. Qed.

Lemma backfill_spec (clock : nat → string) evs : ∀ n rows,
  gapless rows → Forall (λ e, sim_type e ∈ SIMULATION_EVENT_TYPES) evs →
  ∃ new, foldl (λ st e, (S st.1, append_event (clock st.1) (sim_type e) (sim_payload e) BACKFILL_SOURCE None st.2)) (n, rows) evs =
    (n + length evs, rows ++ new) ∧ gapless (rows ++ new) ∧ Forall2 copies new evs.
Proof.
  induction evs as [|e evs IH]; intros n rows Hg Ht; [exists []; rewrite app_nil_r, Nat.add_0_r; done|].
  apply Forall_cons in Ht as [He Ht]. cbn [foldl fst snd length].
  destruct (IH (S n) (append_event (clock n) (sim_type e) (sim_payload e) BACKFILL_SOURCE None rows)) as (new & E & Hg' & Hc);
    [by apply append_event_gapless|done|]. unfold append_event in E, Hg'.
  rewrite (proj2 (mem_true _ _) (simulation_type_domain _ He)) in E, Hg'.
  rewrite <-app_assoc in E, Hg'. eexists. split; [|split; [exact Hg'|constructor; [|exact Hc]; done]].
  unfold append_event. rewrite (proj2 (mem_true _ _) (simulation_type_domain _ He)), E. f_equal. lia.
Qed.

Lemma topology_log_types s : Forall (λ e, sim_type e ∈ SIMULATION_EVENT_TYPES) (topology_log s).
Proof.
  apply Forall_items. intros [| | |[k t c dm a i why]] n _; [..|destruct t, c as [[]|]]; repeat constructor; by apply mem_true.
Qed.

Lemma topology_log_sequence s i e : topology_log s !! i = Some e → sim_sequence e = Z.of_nat i.
Proof.
  intros He. assert ((sim_sequence <$> topology_log s) !! i = Some (sim_sequence e)) as H by (by rewrite list_lookup_fmap, He).
  unfold topology_log in H. rewrite number_sequence, list_lookup_fmap in H. apply fmap_Some in H as (j & Hj & ->).
  by apply lookup_seq in Hj as [-> _].
Qed.

Lemma copies_recorded new evs : Forall (λ e, sim_type e ∈ SIMULATION_EVENT_TYPES) evs → Forall2 copies new evs → filter recorded new = new.
Proof.
  intros Ht Hc. induction Hc as [|r e new evs (Hs & He & _) Hc IH]; [done|]. apply Forall_cons in Ht as [Ht Hts].
  rewrite filter_cons_True by (split; [done|by rewrite He]). by rewrite IH.
Qed.

(** The records of the log of a topology are that log. *)
Lemma records_of_copies s new : Forall2 copies new (topology_log s) → imap as_event new = resourced <$> topology_log s.
Proof.
  intros Hc. apply list_eq. intros i. rewrite list_lookup_imap, list_lookup_fmap.
  destruct (topology_log s !! i) as [e|] eqn:Ee.
  - destruct (Forall2_lookup_r _ _ _ _ _ Hc Ee) as (r & -> & Hs & Ht & Hp). cbn. unfold as_event, resourced.
    by rewrite Hs, Ht, Hp, (topology_log_sequence _ _ _ Ee).
  - apply lookup_ge_None in Ee. rewrite <-(Forall2_length _ _ _ Hc) in Ee. by rewrite (proj2 (lookup_ge_None _ _) Ee).
Qed.

Lemma backfilled_app rows rows' : backfilled (rows ++ rows') = backfilled rows || backfilled rows'.
Proof. apply existsb_app. Qed.

Lemma not_backfilled rows : backfilled rows = false → filter recorded rows = [].
Proof.
  unfold backfilled. induction rows as [|r rows IH]; [done|]. cbn [existsb]. intros [Hr Hrs]%orb_false_iff. apply String.eqb_neq in Hr.
  rewrite filter_cons_False by (by intros [? _]). by apply IH.
Qed.

(** * Later writes *)

(** Writes that are not a backfill. *)
Definition ordinary (o : StoreOp) : Prop := match o with OpAppend _ _ _ src _ => src ≠ BACKFILL_SOURCE | _ => True end.

Lemma ordinary_step rows o : ordinary o →
  filter recorded (store_op rows o) = filter recorded rows ∧ (backfilled rows = true → backfilled (store_op rows o) = true).
Proof.
  intros Ho. assert (∀ r, source r ≠ BACKFILL_SOURCE →
    filter recorded (rows ++ [r]) = filter recorded rows ∧ (backfilled rows = true → backfilled (rows ++ [r]) = true)) as Hr.
  { intros r Hs. rewrite filter_app, (filter_cons_False _ r) by (by intros [? _]). rewrite app_nil_r, backfilled_app.
    split; [done|]. by intros ->. }
  destruct o as [now t data src cor|ok now t data cor|now t k data cor]; cbn [store_op].
  - unfold append_event. by apply Hr.
  - unfold append_runtime_event, append_event. destruct ok; [by apply Hr|done].
  - unfold append_domain_event. destruct (negb _); [done|]. by apply Hr.
Qed.

Lemma ordinary_run ops rows : Forall ordinary ops → gapless rows →
  filter recorded (foldl store_op rows ops) = filter recorded rows ∧
  (backfilled rows = true → backfilled (foldl store_op rows ops) = true) ∧ gapless (foldl store_op rows ops).
Proof.
  revert rows. induction ops as [|o ops IH]; intros rows Ho Hg; [done|]. apply Forall_cons in Ho as [Ho Hos]. cbn [foldl].
  destruct (ordinary_step rows o Ho) as [E Hb]. destruct (IH _ Hos (store_op_gapless rows o Hg)) as (E' & Hb' & Hg').
  rewrite E', E. auto.
Qed.

(** * The report *)

Lemma replay_event_count evs r : replay_simulation_events evs = Some r → event_count r = length evs.
Proof. unfold replay_simulation_events. intros (p & _ & [= <-])%bind_Some. done. Qed.

(** A report on a store that has been backfilled, whatever the topology is. *)
Lemma health_backfilled env clock s rows r :
  gapless rows → backfilled rows = true → replay_simulation_events (records_to_simulation_events rows) = Some r →
  ∃ h, build_event_store_health env clock s rows = Some (h, rows) ∧ events_added_this_call h = 0 ∧ projection_summary h = r ∧
    projection_lag h = 0%Z ∧ h_total_events h = length rows ∧
    enforcement_ready h = event_store_enforcement_enabled env ∧
    consistency_status h = (if event_store_enforcement_enabled env then PYTHON_AUTHORITATIVE else MIGRATION_INCOMPLETE).
Proof.
  intros Hg Hb Hr. unfold build_event_store_health, ensure_backfilled_event_store. rewrite Hb. cbn [mbind option_bind].
  rewrite (gapless_sorted rows Hg), Hr. cbn [mbind option_bind]. eexists. split; [reflexivity|].
  cbn -[event_store_enforcement_enabled]. rewrite (replay_event_count _ _ Hr), Z.sub_diag, andb_true_r.
  split; [done|]. split; [done|]. split; [done|]. split; [|split; [done|]].
  - unfold event_store_snapshot. by rewrite (gapless_sorted rows Hg).
  - unfold consistency_of. cbn -[event_store_enforcement_enabled]. by destruct (event_store_enforcement_enabled env).
Qed.


