(* ===== verification/CountSemanticsProofs.v ===== *)
(** What the counts are: of a leaf, of an OLT, of an AON switch, and in total. *)

From S2P Require Import Prelude PyFloat Models Scenario EventStore Worklist SubscriberModel SubscriberModelProofs SimulationEventsProofs CountSemantics.

(** * Sums and sizes *)

Lemma sum_values_list {V} (f : V → Z) (l : list (string * V)) :
  foldr (λ x acc, f x.2 + acc)%Z 0%Z l = foldr Z.add 0%Z ((λ x, f x.2) <$> l).
Proof. induction l as [|x l IH]; [done|]. cbn. by rewrite IH. Qed.

Lemma foldr_add_nat {A} (g : A → nat) (l : list A) : foldr Z.add 0%Z ((λ x, Z.of_nat (g x)) <$> l) = Z.of_nat (sum_list (g <$> l)).
Proof. induction l as [|x l IH]; [done|]. cbn. rewrite IH. lia. Qed.

(** A dictionary that counts by key sums up to the number of elements. *)
Lemma sum_values_count {A V} (f : V → Z) (f0 : V) (m : gmap string V) (g : A → option string) (L : list A) :
  f f0 = 0%Z → (∀ k, f (default f0 (m !! k)) = Z.of_nat (length (filter (λ x, g x = Some k) L))) →
  sum_values f m = Z.of_nat (length (filter (λ x, g x ≠ None) L)).
Proof.
  intros H0 Hm. unfold sum_values. rewrite sum_values_list.
  assert ((λ x, f x.2) <$> map_to_list m = (λ k, Z.of_nat (length (filter (λ x, g x = Some k) L))) <$> (map_to_list m).*1) as ->.
  { rewrite <-list_fmap_compose. apply list_fmap_ext. intros i [k v] Hi%list_elem_of_lookup_2%elem_of_map_to_list. unfold compose. cbn.
    by rewrite <-Hm, Hi. }
  rewrite (foldr_add_nat (λ k, length (filter (λ x, g x = Some k) L))). f_equal. rewrite count_by_key by apply NoDup_fst_map_to_list.
  f_equal. apply filter_ext_elem. intros x Hx. split; [intros (k & -> & _)%list_elem_of_fmap; done|].
  destruct (g x) as [k|] eqn:E; [|done]. intros _. apply list_elem_of_fmap_2. destruct (m !! k) as [v|] eqn:Ev.
  - apply (list_elem_of_fmap_2 fst _ (k, v)), elem_of_map_to_list, Ev.
  - specialize (Hm k). rewrite Ev in Hm. cbn in Hm. rewrite H0 in Hm. destruct (filter (λ x, g x = Some k) L) as [|y l] eqn:El; [|done].
    assert (x ∈ filter (λ x, g x = Some k) L) as Hin by (by apply list_elem_of_filter). rewrite El in Hin. by apply elem_of_nil in Hin.
Qed.

Lemma size_ids (X : gset string) (P : Device → Prop) `{∀ x, Decision (P x)} (L : list Device) :
  NoDup (dev_id <$> L) → (∀ k, k ∈ X ↔ ∃ x, x ∈ L ∧ dev_id x = k ∧ P x) → set_size X = Z.of_nat (length (filter P L)).
Proof.
  intros Hn HX. unfold set_size. f_equal. assert (X = list_to_set (dev_id <$> filter P L)) as ->.
  { apply set_eq. intros k. rewrite HX, elem_of_list_to_set, list_elem_of_fmap. setoid_rewrite list_elem_of_filter. naive_solver. }
  rewrite size_list_to_set by (by apply NoDup_fmap_filter). apply length_fmap.
Qed.

(** * What is attached where *)

Section attached.
Context (s : DB).

Definition ont_anchor (d : Device) : option (string * string) := if mem (dev_type d) ONT_TYPES then trace_olt_anchor s d else None.
Definition cpe_port (d : Device) : option (string * string) := if mem (dev_type d) CPE_TYPES then direct_cpe_anchor s d else None.

Record attached_by (L : list Device) (st : Attachments) : Prop := {
  ab_olt : ∀ o k, k ∈ default ∅ (physical_olt st !! o) ↔ ∃ x, x ∈ L ∧ dev_id x = k ∧ fst <$> ont_anchor x = Some o;
  ab_aon : ∀ a p k, k ∈ lookup2 ∅ (physical_aon st) a p ↔ ∃ x, x ∈ L ∧ dev_id x = k ∧ cpe_port x = Some (a, p);
  ab_prov : ∀ a p k, k ∈ lookup2 ∅ (provisioned_aon st) a p ↔ ∃ x, x ∈ L ∧ dev_id x = k ∧ cpe_port x = Some (a, p) ∧ provisioned x = true
}.

Lemma add_to_elem o k m o' k' : k' ∈ default ∅ (add_member o k m !! o') ↔ k' ∈ default ∅ (m !! o') ∨ (k' = k ∧ o' = o).
Proof.
  unfold add_member. destruct (decide (o' = o)) as [->|Hne].
  - rewrite lookup_insert_eq. cbn. rewrite elem_of_union, elem_of_singleton. naive_solver.
  - rewrite lookup_insert_ne by done. naive_solver.
Qed.

Lemma add2_elem (a p k : string) (m : gmap string (gmap string (gset string))) a' p' k' :
  k' ∈ lookup2 ∅ (update2 a p ∅ (union {[k]}) m) a' p' ↔ k' ∈ lookup2 ∅ m a' p' ∨ (k' = k ∧ (a', p') = (a, p)).
Proof.
  rewrite lookup2_update. case_decide as E; [injection E as -> ->; rewrite elem_of_union, elem_of_singleton|]; naive_solver.
Qed.

Lemma attachment_step_ok L st d : attached_by L st → attached_by (L ++ [d]) (attachment_step s st d).
Proof.
  intros [Ho Ha Hp]. unfold attachment_step. fold (ont_anchor d) (cpe_port d). set (st1 := match ont_anchor d with Some _ => _ | None => _ end).
  assert ((∀ o k, k ∈ default ∅ (physical_olt st1 !! o) ↔ ∃ x, x ∈ L ++ [d] ∧ dev_id x = k ∧ fst <$> ont_anchor x = Some o) ∧
    physical_aon st1 = physical_aon st ∧ provisioned_aon st1 = provisioned_aon st) as (H1 & H2 & H3).
  { subst st1. destruct (ont_anchor d) as [[o p]|] eqn:E; cbn [physical_olt physical_aon provisioned_aon]; (split; [|done]); intros o' k.
    - rewrite add_to_elem, Ho. setoid_rewrite elem_of_app. setoid_rewrite list_elem_of_singleton. split.
      + intros [(x & ? & ? & ?)|[-> ->]]; [eauto|]. exists d. rewrite E. auto.
      + intros (x & [Hx | ->] & <- & Hx'); [left; eauto|]. rewrite E in Hx'. injection Hx' as ->. by right.
    - rewrite Ho. setoid_rewrite elem_of_app. setoid_rewrite list_elem_of_singleton. split; [naive_solver|].
      intros (x & [Hx | ->] & <- & Hx'); [eauto|]. by rewrite E in Hx'. }
  clearbody st1. destruct (cpe_port d) as [[a p]|] eqn:E.
  - split; cbn [physical_olt physical_aon provisioned_aon]; [done|..]; intros a' p' k; rewrite ?H2, ?H3;
      setoid_rewrite elem_of_app; setoid_rewrite list_elem_of_singleton.
    + rewrite add2_elem, Ha. split.
      * intros [(x & ? & ? & ?)|[-> [= -> ->]]]; [eauto|]. exists d. auto.
      * intros (x & [Hx | ->] & <- & Hx'); [left; eauto|]. right. split; [done|congruence].
    + destruct (provisioned d) eqn:Ed; [rewrite add2_elem|]; rewrite Hp; split.
      * intros [(x & ? & ? & ? & ?)|[-> [= -> ->]]]; [eauto 10|]. exists d. auto 10.
      * intros (x & [Hx | ->] & <- & Hx' & ?); [left; eauto|]. right. split; [done|congruence].
      * intros (x & ? & ? & ? & ?). eauto 10.
      * intros (x & [Hx | ->] & <- & Hx' & ?); [eauto|]. congruence.
  - split; [done|..]; intros a' p' k; rewrite ?H2, ?H3, ?Ha, ?Hp; setoid_rewrite elem_of_app; setoid_rewrite list_elem_of_singleton; split.
    + intros (x & ? & ? & ?). eauto.
    + intros (x & [Hx | ->] & <- & Hx'); [eauto|congruence].
    + intros (x & ? & ? & ? & ?). eauto 10.
    + intros (x & [Hx | ->] & <- & Hx' & ?); [eauto|congruence].
Qed.

Lemma attachments_ok : attached_by (devices s) (attachments s).
Proof.
  unfold attachments. assert (∀ L st, attached_by L st → ∀ ds, attached_by (L ++ ds) (foldl (attachment_step s) st ds)) as H.
  { intros L st Hst ds. revert L st Hst. induction ds as [|d ds IH]; intros L st Hst; [by rewrite app_nil_r|].
    cbn [foldl]. rewrite cons_middle, app_assoc. by apply IH, attachment_step_ok. }
  apply (H []). split; cbn [physical_olt physical_aon provisioned_aon]; intros; unfold lookup2; rewrite lookup_empty; cbn; rewrite elem_of_empty; split; try done;
    intros (x & ?%elem_of_nil & _); done.
Qed.

Context (Hk : keys_ok s).

Lemma physical_olt_count o :
  set_size (default ∅ (physical_olt (attachments s) !! o)) = Z.of_nat (length (filter (λ x, fst <$> ont_anchor x = Some o) (devices s))).
Proof. apply size_ids; [apply Hk|]. apply attachments_ok. Qed.

(** The ports of one anchor, added up. *)
Definition at_anchor (f : Device → option (string * string)) (a : string) (x : Device) : option string :=
  '(a', p) ← f x; if decide (a' = a) then Some p else None.

Lemma at_anchor_Some f a x p : at_anchor f a x = Some p ↔ f x = Some (a, p).
Proof. unfold at_anchor. destruct (f x) as [[a' p']|]; cbn; [|done]. case_decide; naive_solver. Qed.

Lemma at_anchor_None f a x : at_anchor f a x ≠ None ↔ fst <$> f x = Some a.
Proof. unfold at_anchor. destruct (f x) as [[a' p']|]; cbn; [|naive_solver]. case_decide; naive_solver. Qed.

Lemma ports_sum (m : gmap string (gmap string (gset string))) f a (P : Device → Prop) `{∀ x, Decision (P x)} :
  (∀ p k, k ∈ lookup2 ∅ m a p ↔ ∃ x, x ∈ devices s ∧ dev_id x = k ∧ f x = Some (a, p) ∧ P x) →
  sum_values set_size (default ∅ (m !! a)) = Z.of_nat (length (filter (λ x, fst <$> f x = Some a ∧ P x) (devices s))).
Proof.
  intros Hm. rewrite (sum_values_count set_size ∅ _ (λ x, if decide (P x) then at_anchor f a x else None) (devices s)); [|done|].
  - do 2 f_equal. apply filter_ext_elem. intros x _. rewrite <-at_anchor_None. case_decide; naive_solver.
  - intros p. assert (default ∅ (default ∅ (m !! a) !! p) = lookup2 ∅ m a p) as -> by (unfold lookup2; by destruct (m !! a)).
    rewrite (size_ids _ (λ x, f x = Some (a, p) ∧ P x) (devices s)); [|apply Hk|apply Hm]. do 2 f_equal. apply filter_ext_elem.
    intros x _. rewrite <-at_anchor_Some. case_decide; naive_solver.
Qed.
End attached.

(** * Entries *)

Section counts.
Context (s : DB) (Hk : keys_ok s) (Hids : ∀ i, i ∈ interfaces s → if_id i ≠ "") (Hdev : ∀ d, d ∈ devices s → dev_id d ≠ "")
  (Hdisj : ∀ d i, d ∈ devices s → i ∈ interfaces s → dev_id d ≠ if_id i).

Local Abbreviation m := (resolve_subscriber_model s).

(** The ports of the occupancy table are ports. *)
Definition port_keys (st : ModelState) : Prop :=
  ∀ o p, is_Some (pon_occupancy st !! o ≫= lookup p) → ∃ i, i ∈ interfaces s ∧ if_id i = p.

Lemma leaf_step_ports st d : port_keys st → port_keys (leaf_step s st d).
Proof.
  intros Hp. unfold leaf_step. destruct (negb (is_leaf d)); [done|]. destruct (negb (provisioned d)); [done|].
  destruct (leaf_domain d).
  - pose proof (trace_anchor_spec s d DOM_OLT) as Ht. destruct (trace_anchor s d DOM_OLT) as [[[o p] w]|]; [|done].
    destruct Ht as (k & _ & Ht). unfold anchor_here in Ht. destruct (owner_of s k) as [[i x]|] eqn:Eo; [|done].
    destruct (_ && _) in Ht; [|done]. injection Ht as <- <- _. destruct (owner_of_Some s _ _ _ Eo) as (Hi & _).
    destruct (nonempty (if_id i)); [|exact Hp]. intros o' p'. cbn [pon_occupancy with_decisions with_pon with_nodes]. unfold update2.
    destruct (decide (o' = dev_id x)) as [->|Hne]; [|rewrite lookup_insert_ne by congruence; apply Hp]. rewrite lookup_insert_eq. cbn.
    destruct (decide (p' = if_id i)) as [->|Hne]; [eauto|]. rewrite lookup_insert_ne by congruence. intros H. apply (Hp (dev_id x)).
    destruct (pon_occupancy st !! dev_id x); [done|by destruct H].
  - destruct (trace_direct_aon_anchor s d) as [[[a p] w]|]; [|exact Hp]. by destruct (nonempty p).
Qed.

Lemma anchor_steps_pon l : ∀ st, pon_occupancy (foldl anchor_step st l) = pon_occupancy st.
Proof.
  induction l as [|[a row] l IH]; intros st; [done|]. cbn [foldl]. rewrite IH. unfold anchor_step. cbn [fst snd pon_occupancy with_nodes].
  generalize (sorted_items row) as ports. intros ports. revert st. induction ports as [|[p ks] ports IHp]; intros st; [done|].
  cbn [foldl]. rewrite IHp. unfold port_step. by destruct (sorted_strs _).
Qed.

Lemma resolved_ports : port_keys (resolved m).
Proof.
  change (port_keys (resolved_state s)). intros o p. unfold resolved_state. rewrite anchor_steps_pon.
  assert (∀ ds st, port_keys st → port_keys (foldl (leaf_step s) st ds)) as H.
  { induction ds as [|d ds IH]; intros st Hst; [done|]. by apply IH, leaf_step_ports. }
  apply H. intros o' p'. cbn. rewrite lookup_empty. by intros [].
Qed.

Lemma pon_rows_port o p n : (o, p, n) ∈ pon_rows m → ∃ i, i ∈ interfaces s ∧ if_id i = p.
Proof.
  unfold pon_rows. intros (r & Hr & ([o' row] & -> & Ho%elem_of_sorted_items)%list_elem_of_fmap)%list_elem_of_join.
  apply list_elem_of_fmap in Hr as ([p' n'] & [= -> -> ->] & Hp%elem_of_sorted_items). cbn [snd] in Hp.
  apply (resolved_ports o'). rewrite Ho. by exists n'.
Qed.

(** The decision kept about a leaf. *)
Lemma counted_lookup d : d ∈ devices s → is_leaf d = true → dict_get (counted_decisions m) (dev_id d) = Some (final_decision s d).
Proof.
  intros Hd Hl. unfold counted_decisions. change (resolved m) with (resolved_state s). rewrite (ms_decisions s _ (resolved_spec s Hk Hids)).
  set (L := filter (λ d, is_leaf d = true) (in_order s)).
  assert (∀ x, x ∈ L → x ∈ devices s) as HL by (intros x [_ ?%in_order_elem]%list_elem_of_filter; done).
  assert (foldl (λ ds e, if nonempty (dec_subscriber e) then dict_set (dec_subscriber e) e ds else ds) [] (final_decision s <$> L) =
    foldl (λ ds x, dict_set (dev_id x) (final_decision s x) ds) [] L) as ->.
  { clear Hd Hl. generalize (@nil (string * MappingDecision)) as ds. revert HL. induction L as [|x L IH]; intros HL ds; [done|].
    cbn [fmap list_fmap foldl]. rewrite (proj1 (final_subscriber s x)).
    assert (nonempty (dev_id x) = true) as -> by (apply bool_decide_true, Hdev, HL; by left). apply IH. intros; apply HL. by right. }
  rewrite foldl_dict_set_fresh.
  - apply dict_get_nodup; [|by apply (list_elem_of_fmap_2 (λ x, (dev_id x, final_decision s x))), list_elem_of_filter; split; [|apply in_order_elem]].
    cbn [app]. rewrite <-list_fmap_compose. apply (NoDup_fmap_filter dev_id). unfold in_order. rewrite sort_by_perm. apply Hk.
  - apply (NoDup_fmap_filter dev_id). unfold in_order. rewrite sort_by_perm. apply Hk.
Qed.

Lemma is_counted_spec d : d ∈ devices s → is_leaf d = true → is_counted m (dev_id d) = bool_decide (counted (final_decision s d) = Some true).
Proof. intros Hd Hl. unfold is_counted. by rewrite counted_lookup. Qed.

Local Abbreviation entry d := (device_entry s m (attachments s) d).

Definition device_rows : list (string * CountEntry) := (λ d, (dev_id d, entry d)) <$> in_order s.

Lemma device_rows_NoDup : NoDup (dev_id <$> in_order s).
Proof. unfold in_order. rewrite sort_by_perm. apply Hk. Qed.

Lemma device_rows_built : foldl (λ es d, dict_set (dev_id d) (entry d) es) [] (in_order s) = device_rows.
Proof. rewrite foldl_dict_set_fresh; [done|]. apply device_rows_NoDup. Qed.

(** Writing the entries of the ports leaves those of the devices. *)
Lemma leaf_sum_set f k e es :
  mem (count_type e) leaf_types = false → (∀ e', dict_get es k = Some e' → mem (count_type e') leaf_types = false) →
  leaf_sum f (dict_set k e es) = leaf_sum f es.
Proof.
  intros He. unfold leaf_sum. induction es as [|[j e'] es IH]; intros Hes; cbn [dict_set foldr snd]; [by rewrite He|].
  cbn [dict_get] in Hes. destruct (String.eqb k j); cbn [foldr snd].
  - by rewrite He, (Hes e').
  - by rewrite IH.
Qed.

Lemma port_entries rows : ∀ es,
  (∀ o p n, (o, p, n) ∈ rows → ∃ i, i ∈ interfaces s ∧ if_id i = p) →
  (∀ i e, i ∈ interfaces s → dict_get es (if_id i) = Some e → mem (count_type e) leaf_types = false) →
  let es' := foldl (λ es '(olt, port, n), dict_set port (pon_entry (attachments s) olt port n) es) es rows in
  (∀ d, d ∈ devices s → dict_get es' (dev_id d) = dict_get es (dev_id d)) ∧ ∀ f, leaf_sum f es' = leaf_sum f es.
Proof.
  induction rows as [|[[o p] n] rows IH]; intros es Hr Hes; [done|]. cbn [foldl].
  destruct (Hr o p n (list_elem_of_here _ _)) as (i & Hi & <-).
  destruct (IH (dict_set (if_id i) (pon_entry (attachments s) o (if_id i) n) es)) as [H1 H2].
  - intros o' p' n' Hin. apply (Hr o' p' n'). by right.
  - intros j e Hj. rewrite dict_get_set. case_match; [by intros [= <-]|by apply Hes].
  - split.
    + intros d Hd. rewrite H1, dict_get_set by done. destruct (String.eqb_spec (dev_id d) (if_id i)) as [E|]; [|done].
      by destruct (Hdisj d i).
    + intros f. rewrite H2. apply leaf_sum_set; [done|]. intros e'. by apply Hes.
Qed.

Lemma count_entries_spec :
  (∀ d, d ∈ devices s → count_semantics_for (build_count_semantics s) (dev_id d) = Some (entry d)) ∧
  ∀ f, leaf_sum f (count_entries (build_count_semantics s)) = leaf_sum f device_rows.
Proof.
  unfold count_semantics_for, build_count_semantics. cbn [count_entries]. fold (in_order s). rewrite device_rows_built.
  destruct (port_entries (pon_rows m) device_rows pon_rows_port) as [H1 H2].
  - intros i e Hi He%dict_get_elem. unfold device_rows in He. apply list_elem_of_fmap in He as (d & [= E _] & Hd%in_order_elem).
    by destruct (Hdisj d i).
  - split; [|exact H2]. intros d Hd. rewrite H1 by done. apply dict_get_nodup.
    + unfold device_rows. rewrite <-list_fmap_compose. apply device_rows_NoDup.
    + by apply (list_elem_of_fmap_2 (λ d, (dev_id d, entry d))), in_order_elem.
Qed.
End counts.

(** * Totals *)

Section totals.
Context (s : DB) (Hk : keys_ok s) (Hids : ∀ i, i ∈ interfaces s → if_id i ≠ "") (Hdev : ∀ d, d ∈ devices s → dev_id d ≠ "")
  (Hdisj : ∀ d i, d ∈ devices s → i ∈ interfaces s → dev_id d ≠ if_id i).

Local Abbreviation m := (resolve_subscriber_model s).
Local Abbreviation entry d := (device_entry s m (attachments s) d).

Lemma leaf_type_value d : mem (DeviceType_value (dev_type d)) leaf_types = is_leaf d.
Proof. unfold is_leaf. by destruct (dev_type d). Qed.

Lemma entry_type d : count_type (entry d) = DeviceType_value (dev_type d).
Proof. unfold device_entry. by repeat case_match. Qed.

Lemma warned_spec d : mismatch_warned (entry d) = false ↔ mismatch_delta (entry d) = 0%Z.
Proof.
  unfold device_entry, mismatch_delta. match goal with |- context [let '(_, _) := ?t in _] => destruct t as [[a b] c] end.
  cbn. rewrite negb_false_iff, Z.eqb_eq. lia.
Qed.

Lemma leaf_entry d : d ∈ devices s → is_leaf d = true →
  entry d = mkEntry (DeviceType_value (dev_type d)) 1 (if provisioned d then 1 else 0)
    (if decide (counted (final_decision s d) = Some true) then 1 else 0) (negb (provisioned d)).
Proof.
  intros Hd Hl. unfold device_entry. rewrite Hl, (is_counted_spec s Hk Hids Hdev d Hd Hl). cbn iota.
  case_bool_decide; [rewrite decide_True by done|rewrite decide_False by done]; by destruct (provisioned d).
Qed.

(** Adding up a field over the leaves. *)
Lemma leaf_sum_rows f (P : Device → Prop) `{∀ d, Decision (P d)} :
  (∀ d, d ∈ devices s → is_leaf d = true → f (entry d) = if decide (P d) then 1%Z else 0%Z) →
  leaf_sum f (device_rows s) = Z.of_nat (length (filter (λ d, is_leaf d = true ∧ P d) (devices s))).
Proof.
  intros Hf. assert (in_order s ≡ₚ devices s) as Hp by apply sort_by_perm. rewrite <-Hp. unfold device_rows.
  assert (∀ x, x ∈ in_order s → x ∈ devices s) as Hin by (intros x; by rewrite in_order_elem). revert Hin. clear Hp.
  induction (in_order s) as [|d L IH]; intros Hin; [done|]. specialize (IH ltac:(intros; apply Hin; by right)).
  unfold leaf_sum in *. cbn [fmap list_fmap foldr snd]. rewrite IH, entry_type, leaf_type_value, filter_cons.
  destruct (is_leaf d) eqn:El.
  - rewrite (Hf d (Hin d (list_elem_of_here _ _)) El). destruct (decide (P d)); [rewrite decide_True by done|rewrite decide_False by naive_solver]; cbn [length]; lia.
  - by rewrite decide_False by naive_solver.
Qed.

Lemma counted_provisioned x : is_leaf x = true → counted (final_decision s x) = Some true → provisioned x = true.
Proof.
  intros Hl [H|H]%(counted_final s x Hl); unfold olt_of, switch_of in H.
  - destruct (olt_anchor s x) eqn:E; [|done]. by apply olt_anchor_leaf in E as (_ & ? & _).
  - destruct (cpe_anchor s x) eqn:E; [|done]. by apply cpe_anchor_leaf in E as (_ & ? & _).
Qed.

Lemma total_leaves : total (global m) = Z.of_nat (length (filter (λ x, is_leaf x = true ∧ counted (final_decision s x) = Some true) (devices s))).
Proof.
  rewrite (total_counted s Hk Hids). change (resolved m) with (resolved_state s).
  rewrite (ms_decisions s _ (resolved_spec s Hk Hids)), length_filter_fmap, list_filter_filter.
  assert (in_order s ≡ₚ devices s) as <- by apply sort_by_perm. do 2 f_equal. apply filter_ext_elem. intros x _. naive_solver.
Qed.

Lemma orphans_spec :
  orphan_id <$> orphaned_devices (build_count_semantics s) =
    dev_id <$> filter (λ x, is_leaf x = true ∧ provisioned x = true ∧ counted (final_decision s x) ≠ Some true) (in_order s).
Proof.
  cbn [orphaned_devices build_count_semantics]. fold (in_order s).
  assert (∀ x, x ∈ in_order s → x ∈ devices s) as Hin by (intros x; by rewrite in_order_elem). revert Hin.
  induction (in_order s) as [|d L IH]; intros Hin; [done|]. specialize (IH ltac:(intros; apply Hin; by right)).
  cbn [omap list_omap]. unfold orphan_of at 1. rewrite filter_cons. destruct (is_leaf d) eqn:El; cbn [andb].
  - rewrite (is_counted_spec s Hk Hids Hdev d (Hin d (list_elem_of_here _ _)) El).
    destruct (provisioned d) eqn:Ep; cbn [andb]; [|by rewrite decide_False by naive_solver].
    case_bool_decide; cbn [negb]; [by rewrite decide_False by naive_solver|]. rewrite decide_True by done. csimpl. by rewrite IH.
  - by rewrite decide_False by naive_solver.
Qed.

Lemma orphans_balance :
  (total (global m) + Z.of_nat (length (orphaned_devices (build_count_semantics s))))%Z = provisioned_total (global m).
Proof.
  rewrite total_leaves, provisioned_leaves, <-(length_fmap orphan_id), orphans_spec, length_fmap.
  assert (in_order s ≡ₚ devices s) as -> by apply sort_by_perm. rewrite <-Nat2Z.inj_add. f_equal. rewrite <-length_filter_or by naive_solver.
  f_equal. apply filter_ext_elem. intros x _. split; [intros [[Hl Hc]|(? & ? & _)]; [split; [done|by apply counted_provisioned]|done]|].
  intros [Hl Hp]. destruct (decide (counted (final_decision s x) = Some true)); [left|right]; done.
Qed.

(** The occupancy of an OLT's ports is its number of subscribers. *)
Lemma occupancy_sum o : sum_values id (default ∅ (pon_occupancy (resolved m) !! o)) =
  Z.of_nat (length (filter (λ x, olt_of s x = Some o) (in_order s))).
Proof.
  change (resolved m) with (resolved_state s).
  rewrite (sum_values_count id 0%Z _ (at_anchor (olt_anchor s) o) (in_order s)); [|done|].
  - do 2 f_equal. apply filter_ext_elem. intros x _. apply at_anchor_None.
  - intros p. transitivity (lookup2 0%Z (pon_occupancy (resolved_state s)) o p); [unfold lookup2; by destruct (pon_occupancy _ !! o)|].
    rewrite (ms_pon s _ (resolved_spec s Hk Hids)). do 2 f_equal. apply filter_ext_elem. intros x _. by rewrite at_anchor_Some.
Qed.

(** What the count model reaches, the subscriber model reaches. *)
Lemma links_by_if_elem k l : l ∈ links_by_if s k ↔ l ∈ links s ∧ (a_interface_id l = k ∨ b_interface_id l = k).
Proof.
  unfold links_by_if. rewrite list_elem_of_join. split.
  - intros (r & Hl & (l' & -> & Hl')%list_elem_of_fmap). apply elem_of_app in Hl as [Hl|Hl];
      [destruct (String.eqb_spec (a_interface_id l') k)|destruct (String.eqb_spec (b_interface_id l') k)];
      try (by apply elem_of_nil in Hl); apply list_elem_of_singleton in Hl as ->; auto.
  - intros (Hl & Ho). eexists. split; [|by apply list_elem_of_fmap_2]. apply elem_of_app.
    destruct Ho as [<- | <-]; [left|right]; rewrite String.eqb_refl; by apply list_elem_of_singleton.
Qed.

Lemma onward_next k y : y ∈ onward_ids s k → y = k ∨ y ∈ next_ids s k.
Proof.
  unfold onward_ids, next_ids. destruct (owner_of s k) as [[i d]|] eqn:Eo; [|by intros ?%elem_of_nil].
  destruct (owner_of_Some s _ _ _ Eo) as (Hi & Ei & Hd & Ed). intros [Hy|Hy]%elem_of_app.
  - right. apply elem_of_app. left. apply elem_of_sorted_strs, elem_of_elements. unfold link_neighbors. rewrite elem_of_list_to_set.
    apply list_elem_of_filter in Hy as [Hne (l & -> & (Hl & Ho)%links_by_if_elem)%list_elem_of_fmap]. apply list_elem_of_join.
    assert (nonempty k = true) as Hkne by (apply bool_decide_true; rewrite <-Ei; by apply Hids).
    eexists. split; [|by apply (list_elem_of_fmap_2 _ _ l)]. cbn beta. unfold peer_of in *. destruct (String.eqb_spec (a_interface_id l) k) as [Ea|Ea].
    + rewrite Ea, Hkne, Hne. apply elem_of_app. left. by left.
    + destruct Ho as [|Eb]; [done|]. rewrite Eb, Hkne, Hne, String.eqb_refl. apply elem_of_app. right. by left.
  - destruct (mem (dev_type d) crossed_types) eqn:Ec; [|by apply elem_of_nil in Hy].
    destruct (decide (y = k)) as [->|Hne]; [by left|]. right. apply elem_of_app. right. unfold sibling_ids.
    rewrite <-Ed, (get_device_key s d Hk Hd). assert (mem (dev_type d) (PASSIVE_TYPES ++ ONT_TYPES ++ CPE_TYPES) = true) as ->
      by (revert Ec; by destruct (dev_type d)).
    apply list_elem_of_filter. split; [by rewrite Ei|]. apply list_elem_of_fmap in Hy as (j & -> & [Hj Hjs]%list_elem_of_filter).
    apply list_elem_of_fmap_2, list_elem_of_filter. by rewrite elem_of_sort_by.
Qed.

Lemma trace_olt_found x : trace_olt_anchor s x ≠ None → trace_anchor s x DOM_OLT ≠ None.
Proof.
  unfold trace_olt_anchor. set (queue := if_id <$> _). destruct (search _ _ _ _ _ _ _) as [[a|V]|] eqn:E; [|done..].
  intros _ Hn. apply search_reaches in E as (k & Hreach & Hk'); [|exact append_one_perm].
  pose proof (trace_anchor_spec s x DOM_OLT) as Ht. rewrite Hn in Ht. cbn beta iota in Ht.
  assert (anchor_here s DOM_OLT k = None) as Hnone.
  { apply Ht. revert Hreach. apply reaches_closed.
    - intros y Hy. apply reaches_seed. unfold queue, ifaces_by_device in Hy. apply list_elem_of_fmap in Hy as (i & -> & [Hi Hs]%list_elem_of_filter).
      apply list_elem_of_fmap_2, list_elem_of_filter. by rewrite elem_of_sort_by.
    - intros y z Hy [Hz _]. apply onward_next in Hz as [->|Hz]; [done|]. eapply reaches_step; [exact Hy|]. by split. }
  unfold olt_port in Hk'. unfold anchor_here in Hnone. destruct (owner_of s k) as [[i d]|]; [|done]. cbn in Hk'. by destruct (_ && _).
Qed.

Lemma onts_counted x : dev_type x ∈ ONT_TYPES → provisioned x = true → trace_olt_anchor s x ≠ None → counted (final_decision s x) = Some true.
Proof.
  intros Ht Hp Ha%trace_olt_found. apply (counted_final s); [unfold is_leaf; apply mem_true, elem_of_app; by left|]. left.
  unfold olt_of. rewrite (olt_anchor_ont s x Ht Hp). by destruct (trace_anchor s x DOM_OLT).
Qed.
End totals.

(** C00: what the count model reports.  A leaf counts one physically, one
    provisioned if it is provisioned and one effectively if the subscriber model
    counts it.  An OLT counts the ONTs whose own search ends at it physically, and
    its subscribers, which are the occupancy of its ports, provisioned and
    effectively; an AON switch counts the CPEs, and the provisioned CPEs, cabled to
    its ports, and its subscribers.  The global counts add up the leaves; the
    orphans are the provisioned leaves that are not counted, so effective count and
    orphans make up the provisioned total.  A provisioned ONT whose search finds
    some OLT is counted. *)
Theorem count_semantics_spec s :
  keys_ok s → (∀ i, i ∈ interfaces s → if_id i ≠ "") → (∀ d, d ∈ devices s → dev_id d ≠ "") →
  (∀ d i, d ∈ devices s → i ∈ interfaces s → dev_id d ≠ if_id i) →
  let m := resolve_subscriber_model s in
  let cm := build_count_semantics s in
  let subs d := (subscriber_parameters m (dev_id d)).1.1 in
  let number (P : Device → bool) := Z.of_nat (length (filter (λ x, P x = true) (devices s))) in
  (∀ d, d ∈ devices s → ∃ e, count_semantics_for cm (dev_id d) = Some e ∧ count_type e = DeviceType_value (dev_type d) ∧
    (mismatch_warned e = false ↔ mismatch_delta e = 0%Z) ∧
    (is_leaf d = true → physical_count e = 1%Z ∧ provisioned_count e = (if provisioned d then 1 else 0)%Z ∧
       effective_count e = (if decide (counted (final_decision s d) = Some true) then 1 else 0)%Z) ∧
    (dev_type d = OLT → physical_count e = number (λ x, bool_decide (fst <$> ont_anchor s x = Some (dev_id d))) ∧
       provisioned_count e = subs d ∧ effective_count e = subs d) ∧
    (dev_type d = AON_SWITCH → physical_count e = number (λ x, bool_decide (fst <$> cpe_port s x = Some (dev_id d))) ∧
       provisioned_count e = number (λ x, bool_decide (fst <$> cpe_port s x = Some (dev_id d)) && provisioned x) ∧
       effective_count e = subs d)) ∧
  global_physical cm = number is_leaf ∧ global_provisioned cm = provisioned_total (global m) ∧ global_effective cm = total (global m) ∧
  orphan_id <$> orphaned_devices cm =
    dev_id <$> filter (λ x, is_leaf x = true ∧ provisioned x = true ∧ counted (final_decision s x) ≠ Some true) (in_order s) ∧
  (global_effective cm + Z.of_nat (length (orphaned_devices cm)))%Z = global_provisioned cm ∧
  (∀ x, dev_type x ∈ ONT_TYPES → provisioned x = true → trace_olt_anchor s x ≠ None → counted (final_decision s x) = Some true).
Proof.
  intros Hk Hids Hdev Hdisj m cm subs number. destruct (count_entries_spec s Hk Hdisj) as [He Hsum].
  assert (global_provisioned cm = provisioned_total (global m)) as Hprov.
  { change (global_provisioned cm) with (leaf_sum provisioned_count (count_entries cm)). unfold m, cm. rewrite Hsum, provisioned_leaves.
    rewrite (leaf_sum_rows s _ (λ x, provisioned x = true)); [done|]. intros d Hd Hl. rewrite (leaf_entry s Hk Hids Hdev d Hd Hl). by destruct (provisioned d). }
  split; [|split; [|split; [done|split; [done|split; [by apply orphans_spec|split; [|by apply onts_counted]]]]]].
  - intros d Hd. exists (device_entry s m (attachments s) d). split; [by apply He|]. split; [apply entry_type|].
    split; [apply warned_spec|].
    split; [intros Hl; pose proof (leaf_entry s Hk Hids Hdev d Hd Hl) as E; unfold m; by rewrite E|].
    split; intros Ht; (assert (is_leaf d = false) as Hl by (unfold is_leaf; by rewrite Ht));
      unfold device_entry; rewrite Hl, Ht; cbn iota beta.
    + rewrite (bool_decide_true (OLT = OLT)) by done. cbn [physical_count provisioned_count effective_count].
      rewrite (physical_olt_count s Hk), (occupancy_sum s Hk Hids). unfold subs, number, m.
      rewrite (node_subscribers s Hk Hids d (olt_of s) Hd) by (intros; by apply attached_olt).
      split; [|done]. do 2 f_equal. apply filter_ext_elem. intros x _. symmetry. apply bool_decide_eq_true.
    + rewrite (bool_decide_false (AON_SWITCH = OLT)), (bool_decide_true (AON_SWITCH = AON_SWITCH)) by done.
      cbn [physical_count provisioned_count effective_count]. unfold number. split; [|split; [|done]].
      * rewrite (ports_sum s Hk _ (cpe_port s) (dev_id d) (λ _, True)).
        -- do 2 f_equal. apply filter_ext_elem. intros x _. rewrite bool_decide_eq_true. split; [by intros [? _]|done].
        -- intros p k. rewrite (ab_aon s _ _ (attachments_ok s)). split; [intros (x & ? & ? & ?)|intros (x & ? & ? & ? & _)]; eauto 10.
      * rewrite (ports_sum s Hk _ (cpe_port s) (dev_id d) (λ x, provisioned x = true)).
        -- do 2 f_equal. apply filter_ext_elem. intros x _. by rewrite andb_true_iff, bool_decide_eq_true.
        -- intros p k. apply (ab_prov s _ _ (attachments_ok s)).
  - change (global_physical cm) with (leaf_sum physical_count (count_entries cm)). unfold cm. rewrite Hsum.
    unfold number. rewrite (leaf_sum_rows s _ (λ _, True)); [do 2 f_equal; apply filter_ext_elem; intros x _; split; [by intros [? _]|done]|].
    intros d Hd Hl. rewrite (leaf_entry s Hk Hids Hdev d Hd Hl). cbn [physical_count]. by rewrite decide_True.
  - rewrite Hprov. by apply orphans_balance.
Qed.

Lemma count_semantics_spec_witness :
  let cm := build_count_semantics shared_port in
  (∃ e, count_semantics_for cm "sw" = Some e ∧ (physical_count e, provisioned_count e, effective_count e) = (2, 2, 1)%Z) ∧
  (global_effective cm + Z.of_nat (length (orphaned_devices cm)))%Z = global_provisioned cm ∧
  orphan_id <$> orphaned_devices cm = ["cpe2"].
Proof.
  assert (bool_decide (Forall (λ d, dev_id d ≠ "" ∧ Forall (λ i, if_id i ≠ "" ∧ dev_id d ≠ if_id i) (interfaces shared_port)) (devices shared_port)) = true)
    as H%bool_decide_eq_true_1 by (vm_compute; reflexivity). rewrite Forall_forall in H.
  assert (device0 "odf" ODF ∈ devices shared_port) as Hodf by (by apply (list_elem_of_lookup_2 _ 3)).
  destruct (count_semantics_spec shared_port shared_port_keys) as (_ & _ & _ & _ & Ho & Hb & _).
  - intros i Hi. destruct (H _ Hodf) as [_ Hd]. rewrite Forall_forall in Hd. by apply Hd.
  - intros d Hd. by apply H.
  - intros d i Hd Hi. destruct (H d Hd) as [_ Hd']. rewrite Forall_forall in Hd'. by apply Hd'.
  - split; [eexists; split; vm_compute; reflexivity|]. split; [exact Hb|]. refine (eq_trans Ho _). vm_compute. reflexivity.
Defined.

(** The two models break ties differently: with two OLTs on one splitter an ONT
    is a physical subscriber of the first port in the table and an effective one
    of the port with the smaller name. *)
Definition two_olts : DB :=
  mkDB (demo_devices ++ [device0 "olt-a" OLT; device0 "olt-b" OLT])
    (demo_interfaces ++ [interface0 "spl-a" "spl" "port9"; interface0 "spl-b" "spl" "port1";
       mkInterface "pon-a" "olt-a" "pon1" None ADMIN_UP None (Some PON) None None None;
       mkInterface "pon-b" "olt-b" "pon1" None ADMIN_UP None (Some PON) None None None])
    (demo_links ++ [link0 "l8" "pon-a" "spl-a"; link0 "l9" "pon-b" "spl-b"]) [] [] [] [] [] [].

Example anchors_disagree :
  let cm := build_count_semantics two_olts in
  let counts k := (λ e, (physical_count e, effective_count e)) <$> count_semantics_for cm k in
  counts "olt-a" = Some (1, 0)%Z ∧ counts "olt-b" = Some (0, 1)%Z ∧
  conflict_id <$> conflicts cm = ["olt-a"; "olt-b"; "pon-b"].
Proof. vm_compute. done. Qed.
