(* ===== verification/PortSummaryProofs.v ===== *)
(** What a port summary says, and that bulk requests and the cache do not change it. *)

From S2P Require Import Prelude PyFloat Models Catalog Scenario EventStore LinkStatus NxGraph Pathfinding OpticalCollapse Dependency Status StatusRecompute Worklist SubscriberModel SubscriberModelProofs PortSummary.

(** * Capacities *)

Lemma truthy_key_Some o n : truthy_key o = Some n ↔ o = Some n ∧ n ≠ 0%Z.
Proof. destruct o as [m|]; cbn; [|naive_solver]. destruct (Z.eqb_spec m 0); naive_solver. Qed.

Lemma bulk_cap_lookup c models hw base :
  hw ≠ 0%Z → hw ∈ models →
  bulk_cap_map c models !! (hw, base) =
    dict_get (foldl (λ caps p, match pon_capacity p with Some (base, n) => dict_set base n caps | None => caps end) []
      (filter (λ p, pp_hardware_model_id p = hw) (port_profiles c))) base.
Proof.
  intros H0 Hm. unfold bulk_cap_map. assert ((∅ : gmap (Z * string) Z) !! (hw, base) = dict_get [] base) as E by done. revert E.
  generalize (∅ : gmap (Z * string) Z) (@nil (string * Z)). induction (port_profiles c) as [|p ps IH]; intros g l E; [done|].
  rewrite !filter_cons. destruct (decide (pp_hardware_model_id p = hw)) as [Ep|Ep].
  - rewrite (decide_True (P := pp_hardware_model_id p ∈ models)) by congruence. cbn [foldl]. apply IH.
    assert (truthy_key (Some (pp_hardware_model_id p)) = Some hw) as -> by (apply truthy_key_Some; split; [by f_equal|done]).
    destruct (pon_capacity p) as [[b n]|]; [|done]. rewrite dict_get_set. destruct (String.eqb_spec base b) as [->|Hne].
    + by rewrite lookup_insert_eq.
    + rewrite lookup_insert_ne by congruence. done.
  - case_decide; [|by apply IH]. cbn [foldl]. apply IH. destruct (truthy_key _) as [hw'|] eqn:Et; [|done].
    apply truthy_key_Some in Et as [[= Et] _]. destruct (pon_capacity p) as [[b n]|]; [|done]. rewrite lookup_insert_ne by congruence. done.
Qed.

(** A device whose hardware model, if it has one, has a key that is true. *)
Definition model_key_ok (d : Device) : Prop := hardware_model_id d ≠ Some 0%Z.

Lemma omap_ext_elem {A B} (f g : A → option B) (l : list A) : (∀ x, x ∈ l → f x = g x) → omap f l = omap g l.
Proof.
  induction l as [|x l IH]; intros Hf; [done|]. csimpl. rewrite (Hf x (list_elem_of_here _ _)), IH; [done|]. intros; apply Hf. by right.
Qed.

Section summaries.
Context {G : Type} `{NxGraph G}.

Lemma device_cap_agrees c s ids d base :
  dev_id d ∈ ids → get_device s (dev_id d) = Some d → model_key_ok d →
  device_profile_cap (bulk_cap_map c (omap (λ k, get_device s k ≫= λ d, truthy_key (hardware_model_id d)) ids)) d base =
    dict_get (profile_cap_map c d) base.
Proof.
  intros Hin Hd Hok. unfold device_profile_cap, profile_cap_map, model_key_ok in *. destruct (hardware_model_id d) as [hw|] eqn:Eh; [|done].
  assert (truthy_key (Some hw) = Some hw) as Ht by (apply truthy_key_Some; split; [done|congruence]). rewrite Ht. apply bulk_cap_lookup; [congruence|].
  apply list_elem_of_omap. exists (dev_id d). split; [done|]. rewrite Hd. cbn. by rewrite Eh.
Qed.

Lemma summary_rows_ext s d cap cap' : (∀ base, cap base = cap' base) → summary_rows (G := G) s cap d = summary_rows (G := G) s cap' d.
Proof.
  intros E. unfold summary_rows. do 2 f_equal. apply list_fmap_ext. intros _ i _. unfold interface_summary. by rewrite E.
Qed.

(** * Bulk requests *)

Lemma first_seen_elem ids : ∀ seen k, k ∈ first_seen seen ids ↔ k ∈ ids ∧ k ∉ seen.
Proof.
  induction ids as [|x ids IH]; intros seen k; [split; [by intros ?%elem_of_nil|by intros [?%elem_of_nil _]]|]. cbn [first_seen]. destruct (mem x seen) eqn:E.
  - apply mem_true in E. rewrite IH, elem_of_cons. split; [tauto|]. by intros [[->|?] ?].
  - apply mem_false in E. rewrite !elem_of_cons, IH, not_elem_of_cons. destruct (decide (k = x)) as [->|]; [split; [by split; [left|]|by left]|tauto].
Qed.

Lemma first_seen_NoDup ids : ∀ seen, NoDup (first_seen seen ids).
Proof.
  induction ids as [|x ids IH]; intros seen; [constructor|]. cbn [first_seen]. destruct (mem x seen); [done|]. constructor; [|done].
  rewrite first_seen_elem. set_solver.
Qed.

(** The answer for one device. *)
Definition row_answer (c : Catalog) (tv now : Z) (s : DB) (d : Device) (cache : Cache) : list InterfaceSummary :=
  default (port_rows (G := G) c s d) (cached_rows cache tv (dev_id d) now).

Lemma bulk_loop c tv now later s caps ks : ∀ st,
  NoDup ks → (∀ k d, k ∈ ks → get_device s k = Some d → ∀ base, device_profile_cap caps d base = dict_get (profile_cap_map c d) base) →
  let st' := foldl (bulk_step (G := G) c tv now later s caps) st ks in
  st'.1 = st.1 ++ omap (λ k, d ← get_device s k; Some (k, row_answer c tv (now k) s d st.2)) ks ∧
  (∀ v k, k ∉ ks → st'.2 !! (v, k) = st.2 !! (v, k)) ∧
  (∀ v k, k ∈ ks → st'.2 !! (v, k) = st.2 !! (v, k) ∨
     v = tv ∧ ∃ d, get_device s k = Some d ∧ st'.2 !! (v, k) = Some (later k + PORTS_CACHE_TTL, port_rows (G := G) c s d)%Z).
Proof.
  induction ks as [|k ks IH]; intros st Hn Hcap; [rewrite app_nil_r; split; [done|]; split; [done|]; by intros v k ?%elem_of_nil|].
  apply NoDup_cons in Hn as [Hk Hn]. cbn [foldl omap list_omap].
  assert (∃ st1, bulk_step c tv now later s caps st k = st1 ∧ st1.1 = st.1 ++ omap (λ k, d ← get_device s k; Some (k, row_answer c tv (now k) s d st.2)) [k] ∧
    (∀ v j, j ≠ k → st1.2 !! (v, j) = st.2 !! (v, j)) ∧
    (∀ v, st1.2 !! (v, k) = st.2 !! (v, k) ∨
       v = tv ∧ ∃ d, get_device s k = Some d ∧ st1.2 !! (v, k) = Some (later k + PORTS_CACHE_TTL, port_rows (G := G) c s d)%Z))
    as (st1 & -> & E1 & Eo & Ek).
  { eexists. split; [reflexivity|]. unfold bulk_step. cbn [omap list_omap]. destruct (get_device s k) as [d|] eqn:Ed; cbn [mbind option_bind].
    2: { rewrite app_nil_r. split; [done|]. split; [done|]. by left. }
    pose proof (get_device_Some s k d Ed) as [_ Eid]. unfold row_answer. rewrite Eid.
    destruct (cached_rows st.2 tv k (now k)) as [rows|]; cbn [fst snd default]; [split; [done|]; split; [done|]; by left|].
    rewrite (summary_rows_ext s d _ _ (Hcap k d (list_elem_of_here _ _) Ed)). split; [done|]. split.
    - intros v j Hj. by rewrite lookup_insert_ne by congruence.
    - intros v. destruct (decide (v = tv)) as [->|Hv]; [right|left; by rewrite lookup_insert_ne by congruence].
      split; [done|]. exists d. split; [done|]. by rewrite lookup_insert_eq. }
  destruct (IH st1 Hn) as (H1 & H2 & H3); [intros j d Hj; apply Hcap; by right|]. split; [|split].
  - rewrite H1, E1, <-app_assoc. f_equal. cbn [omap list_omap]. destruct (get_device s k) as [d|]; cbn [mbind option_bind app]; [f_equal|];
      apply omap_ext_elem; intros j Hj; (destruct (get_device s j) as [dj|] eqn:Ej; [|done]); cbn; do 2 f_equal; unfold row_answer, cached_rows;
      rewrite Eo; try done; apply get_device_Some in Ej as [_ ->]; by intros ->.
  - intros v j [Hj Hjs]%not_elem_of_cons. by rewrite H2, Eo.
  - intros v j [->|Hj]%elem_of_cons.
    + rewrite H2 by done. apply Ek.
    + rewrite <-(Eo v j) by (by intros ->). by apply H3.
Qed.
End summaries.

(** * The rows *)

Section rows.
Context {G : Type} `{NxGraph G} (s : DB) (Hk : keys_ok s) (Hids : ∀ i, i ∈ interfaces s → if_id i ≠ "").

Local Abbreviation m := (resolve_subscriber_model s).

(** All values of a dictionary of dictionaries. *)
Definition all2 {V} (P : V → Prop) (x : gmap string (gmap string V)) : Prop := ∀ j k v, x !! j ≫= lookup k = Some v → P v.

Lemma update2_all {V} (P : V → Prop) j k (x0 : V) f x : all2 P x → P (f x0) → (∀ v, P v → P (f v)) → all2 P (update2 j k x0 f x).
Proof.
  intros Hx H0 Hf j' k' v. unfold update2. destruct (decide (j' = j)) as [->|]; [|rewrite lookup_insert_ne by done; apply Hx].
  rewrite lookup_insert_eq. cbn [mbind option_bind]. destruct (decide (k' = k)) as [->|].
  - rewrite lookup_insert_eq. intros [= <-]. destruct (x !! j) as [row|] eqn:Ej; cbn; [|done].
    destruct (row !! k) as [w|] eqn:Ek; cbn; [|done]. apply Hf, (Hx j k). by rewrite Ej.
  - rewrite lookup_insert_ne by done. destruct (x !! j) as [row|] eqn:Ej; cbn; [|done]. intros Hv. apply (Hx j k'). by rewrite Ej.
Qed.

(** Only occupied ports are in the tables. *)
Definition occupied (st : ModelState) : Prop := all2 (λ n, 1 <= n)%Z (pon_occupancy st) ∧ all2 (eq 1%Z) (aon_access_occupancy st).

Lemma leaf_step_occupied st d : occupied st → occupied (leaf_step s st d).
Proof.
  intros [Hp Ha]. unfold leaf_step. destruct (negb (is_leaf d)); [done|]. destruct (negb (provisioned d)); [done|].
  destruct (leaf_domain d).
  - destruct (trace_anchor s d DOM_OLT) as [[[o p] w]|]; [|done]. destruct (nonempty p); [|done].
    split; [|done]. cbn. apply update2_all; [done|lia|lia].
  - destruct (trace_direct_aon_anchor s d) as [[[a p] w]|]; [|done]. by destruct (nonempty p).
Qed.

Lemma anchor_step_occupied st a : occupied st → occupied (anchor_step st a).
Proof.
  destruct a as [a row]. unfold anchor_step. cbn [fst snd]. intros Hst.
  enough (occupied (foldl (port_step a) st (sorted_items row))) as [? ?] by done. revert st Hst.
  induction (sorted_items row) as [|[p ks] ports IH]; intros st Hst; [done|]. cbn [foldl]. apply IH. unfold port_step.
  destruct (sorted_strs _); [done|]. destruct Hst as [Hp Ha]. split; [done|]. cbn. by apply update2_all.
Qed.

Lemma resolved_occupied : occupied (resolved m).
Proof.
  change (occupied (resolved_state s)). unfold resolved_state. cbv zeta.
  assert (∀ ds st, occupied st → occupied (foldl (leaf_step s) st ds)) as H1.
  { induction ds as [|d ds IH]; intros st Hst; [done|]. by apply IH, leaf_step_occupied. }
  assert (∀ l st, occupied st → occupied (foldl anchor_step st l)) as H2.
  { induction l as [|a l IH]; intros st Hst; [done|]. by apply IH, anchor_step_occupied. }
  apply H2, H1. split; intros j k v Hv; cbn in Hv; by rewrite lookup_empty in Hv.
Qed.

(** The ONTs at a port, and the occupancy of a port of a switch. *)
Definition onts_at (o p : string) : Z := Z.of_nat (length (filter (λ x, olt_anchor s x = Some (o, p)) (in_order s))).

Lemma pon_lookup o p : pon_occupancy_for m o !! p = if decide (onts_at o p = 0%Z) then None else Some (onts_at o p).
Proof.
  assert (default 0%Z (pon_occupancy_for m o !! p) = onts_at o p) as Hd.
  { unfold onts_at. rewrite <-(ms_pon s _ (resolved_spec s Hk Hids)). unfold lookup2, pon_occupancy_for.
    change (resolved m) with (resolved_state s). by destruct (pon_occupancy (resolved_state s) !! o). }
  destruct (pon_occupancy_for m o !! p) as [n|] eqn:En; cbn in Hd; subst; [|by rewrite decide_True].
  assert (1 <= onts_at o p)%Z; [|by rewrite decide_False by lia]. apply (proj1 resolved_occupied o p). unfold pon_occupancy_for in En.
  by destruct (pon_occupancy (resolved m) !! o).
Qed.

Lemma aon_lookup a p : aon_access_occupancy_for m a !! p = if decide (winner s a p = None) then None else Some 1%Z.
Proof.
  assert (default 0%Z (aon_access_occupancy_for m a !! p) = if decide (winner s a p = None) then 0%Z else 1%Z) as Hd.
  { rewrite <-(ms_access s _ (resolved_spec s Hk Hids)). unfold lookup2, aon_access_occupancy_for.
    change (resolved m) with (resolved_state s). by destruct (aon_access_occupancy (resolved_state s) !! a). }
  destruct (aon_access_occupancy_for m a !! p) as [n|] eqn:En; cbn in Hd; [|by case_decide].
  assert (1%Z = n); [|by case_decide; subst]. apply (proj2 resolved_occupied a p). unfold aon_access_occupancy_for in En.
  by destruct (aon_access_occupancy (resolved m) !! a).
Qed.

(** The patch by what is attached to the port. *)
Lemma patch_with_spec {R} d p (pon aon : Z → PortState → R → R) (row : R) :
  patch_with m d p pon aon row =
    (if decide (winner s d p = None) then id else aon 1%Z (access_state 1))
    ((if decide (onts_at d p = 0%Z) then id else pon (onts_at d p) (pon_state (onts_at d p))) row).
Proof.
  unfold patch_with, pon_port_state_for, aon_access_port_state_for. rewrite !lookup_fmap, pon_lookup, aon_lookup. by repeat case_decide.
Qed.

Lemma patch_row_kept device row : sum_id (patch_row m device row) = sum_id row ∧ sum_name (patch_row m device row) = sum_name row ∧
  effective_status (patch_row m device row) = effective_status row.
Proof. unfold patch_row, patch_with. by repeat case_match. Qed.

Lemma olt_has_no_winner d p : d ∈ devices s → dev_type d = OLT → winner s (dev_id d) p = None.
Proof.
  intros Hd Ht. destruct (winner s (dev_id d) p) as [k|] eqn:Ew; [|done]. apply winner_elem, port_cpes_elem in Ew as (x & _ & _ & (o & Ho & E & Hot & _)%cpe_anchor_device); [|done..].
  apply (device_unique s Hk) in E; [|done..]. congruence.
Qed.

Lemma onts_at_port i d : i ∈ interfaces s → if_device_id i = dev_id d → d ∈ devices s → onts_at (dev_id d) (if_id i) ≠ 0%Z →
  dev_type d = OLT ∧ port_role i = Some PON.
Proof.
  intros Hi Hdi Hd Hn. unfold onts_at in Hn. destruct (filter _ (in_order s)) as [|x L] eqn:El; [done|].
  assert (x ∈ filter (λ x, olt_anchor s x = Some (dev_id d, if_id i)) (in_order s)) as Hx by (rewrite El; by left).
  apply list_elem_of_filter in Hx as [Hx _]. unfold olt_anchor in Hx. destruct (_ && _); [|done].
  pose proof (trace_anchor_spec s x DOM_OLT) as Ht. destruct (trace_anchor s x DOM_OLT) as [[[o p] w]|]; [|done]. injection Hx as -> ->.
  destruct Ht as (k & _ & Ht). unfold anchor_here in Ht. destruct (owner_of s k) as [[j e]|] eqn:Eo; [|done].
  destruct (_ && _) eqn:Eb in Ht; [|done]. bools. injection Ht as E1 E2 _. destruct (owner_of_Some s _ _ _ Eo) as (Hj & _ & He & Ej).
  apply (device_unique s Hk) in E1 as ->; [|done..]. split; [done|]. pose proof (get_interface_key s i Hk Hi) as G1.
  pose proof (get_interface_key s j Hk Hj) as G2. rewrite E2 in G2. congruence.
Qed.
End rows.


(** * Runs of requests *)

(** A request with what it meets: the database, the topology version and the
    clock.  A single request reads the clock at its device. *)
Record Request := mkRequest {
  rq_bulk : bool; rq_ids : list string; rq_db : DB; rq_version : Z; rq_now : string → Z; rq_later : string → Z; rq_cutoff : Z
}.

Section runs.
Context {G : Type} `{NxGraph G} (c : Catalog).

(** The rows answered per device, without a Go service. *)
Definition serve (cache : Cache) (r : Request) : list (string * list InterfaceSummary) * Cache :=
  if rq_bulk r then
    let '(a, cache) := get_bulk_port_summary (G := G) None c (rq_version r) (rq_now r) (rq_later r) (rq_cutoff r) (rq_db r) (rq_ids r) cache in
    (match a with BulkRows rows => rows | _ => [] end, cache)
  else
    match rq_ids r with
    | [k] =>
        let '(a, cache) := get_port_summary (G := G) None c (rq_version r) (rq_now r k) (rq_later r k) (rq_db r) k cache in
        (match a with Rows rows => [(k, rows)] | _ => [] end, cache)
    | _ => ([], cache)
    end.

(** The rows of a device, as request [q] finds them. *)
Definition rows_at (q : Request) (k : string) (rows : list InterfaceSummary) : Prop :=
  ∃ d, get_device (rq_db q) k = Some d ∧ rows = port_rows (G := G) c (rq_db q) d.

(** Every entry was written by an earlier request. *)
Definition cache_of (past : list Request) (cache : Cache) : Prop :=
  ∀ v k e rows, cache !! (v, k) = Some (e, rows) →
    ∃ q, q ∈ past ∧ rq_version q = v ∧ e = (rq_later q k + PORTS_CACHE_TTL)%Z ∧ rows_at q k rows.

Definition request_ok (r : Request) : Prop := ∀ d, d ∈ devices (rq_db r) → model_key_ok d.

Lemma cache_of_cleanup past v t cache : cache_of past cache → cache_of past (cleanup v t cache).
Proof.
  intros Hc. unfold cleanup. destruct (_ <? _)%nat; [|done]. intros w k e rows [Hl _]%map_lookup_filter_Some. by apply Hc.
Qed.

Lemma cache_of_mono past q cache : cache_of past cache → cache_of (past ++ [q]) cache.
Proof. intros Hc v k e rows Hl. destruct (Hc v k e rows Hl) as (p & Hp & Hr). exists p. split; [|done]. apply elem_of_app. by left. Qed.

(** What an answer is: computed now, or by an earlier request not longer ago than the cache lives. *)
Definition answer_ok (past : list Request) (r : Request) (k : string) (rows : list InterfaceSummary) : Prop :=
  rows_at r k rows ∨
  ∃ q, q ∈ past ∧ rq_version q = rq_version r ∧ (rq_now r k < rq_later q k + PORTS_CACHE_TTL)%Z ∧ rows_at q k rows.

Lemma cached_answer past r cache k rows :
  cache_of past cache → cached_rows cache (rq_version r) k (rq_now r k) = Some rows → answer_ok past r k rows.
Proof.
  intros Hc ([e rows'] & Hl & He)%bind_Some. destruct (Z.ltb_spec (rq_now r k) e) as [Hlt|]; [|done]. injection He as ->.
  destruct (Hc _ _ _ _ Hl) as (q & Hq & Hv & -> & Hr). right. by exists q.
Qed.

Lemma bulk_rows past r cache :
  request_ok r → cache_of past cache → length (rq_ids r) ≤ MAX_BULK_IDS →
  ∃ rows cache', get_bulk_port_summary (G := G) None c (rq_version r) (rq_now r) (rq_later r) (rq_cutoff r) (rq_db r) (rq_ids r) cache =
      (BulkRows rows, cache') ∧
    rows = omap (λ k, d ← get_device (rq_db r) k; Some (k, row_answer (G := G) c (rq_version r) (rq_now r k) (rq_db r) d cache)) (first_seen [] (rq_ids r)) ∧
    cache_of (past ++ [r]) cache'.
Proof.
  intros Hok Hc Hlen. unfold get_bulk_port_summary. assert (MAX_BULK_IDS <? length (rq_ids r) = false)%nat as -> by (apply Nat.ltb_ge; lia).
  destruct (rq_ids r) as [|x ids]; [exists [], cache; split; [done|]; split; [done|by apply cache_of_mono]|].
  set (ks := first_seen [] (x :: ids)). set (caps := bulk_cap_map c _).
  destruct (bulk_loop (G := G) c (rq_version r) (rq_now r) (rq_later r) (rq_db r) caps ks ([], cache)) as (H1 & H2 & H3);
    [apply first_seen_NoDup| |].
  { intros k d Hk Hd base. destruct (get_device_Some _ _ _ Hd) as [Hin <-]. by apply device_cap_agrees; [| |apply Hok]. }
  destruct (foldl _ ([], cache) ks) as [rows cache'] eqn:E. cbn [fst snd] in *. exists rows, (cleanup (rq_version r) (rq_cutoff r) cache').
  split; [done|]. split; [done|]. apply cache_of_cleanup. intros v k e rows' Hl.
  assert (cache !! (v, k) = Some (e, rows') ∨ v = rq_version r ∧ e = (rq_later r k + PORTS_CACHE_TTL)%Z ∧ rows_at r k rows') as [Hold|(-> & -> & Hr)].
  { destruct (decide (k ∈ ks)) as [Hk|Hk]; [|left; by rewrite <-H2]. destruct (H3 v k Hk) as [E'|(-> & d & Hd & E')]; [left; congruence|].
    right. rewrite Hl in E'. injection E' as -> ->. split; [done|]. split; [done|]. by exists d. }
  - destruct (Hc _ _ _ _ Hold) as (q & Hq & Hr). exists q. split; [|done]. apply elem_of_app. by left.
  - exists r. split; [|done]. apply elem_of_app. right. by left.
Qed.

Lemma serve_ok past r cache : request_ok r → cache_of past cache →
  (∀ k rows, (k, rows) ∈ (serve cache r).1 → answer_ok past r k rows) ∧ cache_of (past ++ [r]) (serve cache r).2.
Proof.
  intros Hok Hc. unfold serve. destruct (rq_bulk r) eqn:Eb.
  - destruct (decide (length (rq_ids r) ≤ MAX_BULK_IDS)) as [Hlen|Hlen].
    2: { unfold get_bulk_port_summary. assert (MAX_BULK_IDS <? length (rq_ids r) = true)%nat as -> by (apply Nat.ltb_lt; lia).
         split; [by intros k rows ?%elem_of_nil|by apply cache_of_mono]. }
    destruct (bulk_rows past r cache Hok Hc Hlen) as (rows & cache' & -> & -> & Hc'). cbn [fst snd]. split; [|done].
    intros k out (k' & _ & (d & Hd & [= -> <-])%bind_Some)%list_elem_of_omap. destruct (get_device_Some _ _ _ Hd) as [_ Eid]. unfold row_answer.
    rewrite Eid. destruct (cached_rows _ _ _ _) as [rows|] eqn:Ec; cbn [default]; [by eapply cached_answer|]. left. by exists d.
  - destruct (rq_ids r) as [|k [|]] eqn:Ei; [split; [by intros ? ? ?%elem_of_nil|by apply cache_of_mono]| |split; [by intros ? ? ?%elem_of_nil|by apply cache_of_mono]].
    unfold get_port_summary. destruct (cached_rows _ _ _ _) as [rows|] eqn:Ec; cbn [fst snd].
    { split; [|by apply cache_of_mono]. intros k' rows' [= -> ->]%list_elem_of_singleton. by eapply cached_answer. }
    destruct (get_device (rq_db r) k) as [d|] eqn:Ed; cbn [fst snd]; [|split; [by intros ? ? ?%elem_of_nil|by apply cache_of_mono]].
    split; [intros k' rows' [= -> ->]%list_elem_of_singleton; left; by exists d|]. apply cache_of_cleanup. intros v j e rows Hl.
    destruct (decide ((v, j) = (rq_version r, k))) as [[= -> ->]|Hne].
    + rewrite lookup_insert_eq in Hl. injection Hl as <- <-. exists r. split; [apply elem_of_app; right; by left|]. split; [done|]. split; [done|]. by exists d.
    + rewrite lookup_insert_ne in Hl by congruence. destruct (Hc _ _ _ _ Hl) as (q & Hq & Hr). exists q. split; [|done]. apply elem_of_app. by left.
Qed.

Definition cache_after (rs : list Request) : Cache := foldl (λ cache r, (serve cache r).2) ∅ rs.

Lemma cache_after_ok rs : Forall request_ok rs → cache_of rs (cache_after rs).
Proof.
  unfold cache_after. induction rs as [|r rs IH] using rev_ind; intros Hok; [intros v k e rows; cbn [foldl]; by rewrite lookup_empty|].
  apply Forall_app in Hok as [Hrs Hr]. rewrite Forall_singleton in Hr. rewrite foldl_snoc. exact (proj2 (serve_ok rs r _ Hr (IH Hrs))).
Qed.
End runs.



(** * Concrete requests *)

Lemma shared_port_ids i : i ∈ interfaces shared_port → if_id i ≠ "".
Proof. intros Hi. repeat (apply elem_of_cons in Hi as [->|Hi]; [done|]). by apply elem_of_nil in Hi. Qed.

(** No device of the demo networks has a hardware model. *)
Lemma demo_models_ok s : forallb (λ d, bool_decide (hardware_model_id d = None)) (devices s) = true → ∀ d, d ∈ devices s → model_key_ok d.
Proof.
  intros Hf d Hd. rewrite forallb_forall in Hf. unfold model_key_ok.
  rewrite (bool_decide_eq_true_1 _ (Hf d (proj1 (list_elem_of_In _ _) Hd))). done.
Qed.



