(* ===== verification/DevicesProofs.v ===== *)
(** What the device handlers preserve and write: the inventory invariant along
    every sequence of device and link requests, the ports of a created device,
    and the exact effect of a deletion. *)

From stdpp Require Import pretty.
From S2P Require Import Prelude PyFloat Models LinkRules Worklist Adjacency Scenario Catalog LinkStatus L3Trace.
From S2P Require Import EventStore Errors IpAddr Ipam MacAllocator Splitter L3Auto LinkPolicy Links.
From S2P Require Import NxGraph Pathfinding Dependency DependencyProofs Status StatusRecompute CausalChain StatusClient.
From S2P Require Import OpticalPath OpticalPathProofs OpticalService LinksProofs Devices LinkChanges LinkChangesProofs.

(** * The invariant *)

(** Every reference between the tables resolves. *)
Record refs_ok (s : DB) : Prop := {
  rf_interfaces : if_device_id <$> interfaces s ⊆ dev_id <$> devices s;
  rf_domains : bd_device_id <$> bridge_domains s ⊆ dev_id <$> devices s;
  rf_addresses : addr_interface_id <$> addresses s ⊆ if_id <$> interfaces s;
  rf_routes : omap route_interface_id (routes s) ⊆ if_id <$> interfaces s;
  rf_neighbors : neigh_interface_id <$> neighbors s ⊆ if_id <$> interfaces s;
  rf_macs : mac_interface_id <$> mac_entries s ⊆ if_id <$> interfaces s
}.

Record net_ok (n : Net) : Prop := {
  nk_topology : topology_ok (net_db n);
  nk_addresses : addr_constraints (addresses (net_db n));
  nk_refs : refs_ok (net_db n);
  nk_log : gapless (w_rows (n_world n))
}.

(** The columns the invariant looks at. *)
Definition dev_key (d : Device) : string * DeviceType := (dev_id d, dev_type d).
Definition if_key (i : Interface) : string * string * string := (if_id i, if_device_id i, if_name i).

(** Devices and interfaces are only added, up to other columns. *)
Record grown (s s' : DB) : Prop := {
  gr_devices : dev_key <$> devices s `prefix_of` dev_key <$> devices s';
  gr_interfaces : if_key <$> interfaces s `prefix_of` if_key <$> interfaces s';
  gr_links : links s' = links s;
  gr_media : media s' = media s
}.

Lemma find_by_prefix {A B} (key : A → string) (val : A → B) (l l' : list A) k v :
  ((λ x, (key x, val x)) <$> l) `prefix_of` ((λ x, (key x, val x)) <$> l') →
  val <$> find_row (λ x, String.eqb (key x) k) l = Some v →
  val <$> find_row (λ x, String.eqb (key x) k) l' = Some v.
Proof.
  revert l'. induction l as [|x l IH]; intros l' [r E]; [done|]. destruct l' as [|x' l']; [done|].
  injection E as E1 E2 E3. simpl. rewrite E1. destruct (String.eqb (key x) k); simpl; [by rewrite E2|].
  apply IH. by exists r.
Qed.

Lemma grown_type s s' k t : grown s s' → device_type_of s k = Some t → device_type_of s' k = Some t.
Proof. intros [Hd _ _ _]. by apply (find_by_prefix dev_id dev_type). Qed.

Lemma grown_interface s s' k i :
  grown s s' → get_interface s k = Some i → ∃ i', get_interface s' k = Some i' ∧ if_key i' = if_key i.
Proof.
  intros [_ [r E] _ _] Hi. apply (f_equal (fmap (M := list) (λ q : string * string * string, (q.1.1, q)))) in E.
  rewrite fmap_app, <-!list_fmap_compose in E.
  assert (if_key <$> get_interface s' k = Some (if_key i)) as (i' & -> & Hk)%fmap_Some_1; [|by exists i'].
  apply (find_by_prefix if_id if_key (interfaces s)); [by eexists|].
  unfold get_interface in Hi. by rewrite Hi.
Qed.

Lemma grown_owner s s' k d :
  grown s s' → if_device_id <$> get_interface s k = Some d → if_device_id <$> get_interface s' k = Some d.
Proof.
  intros Hg (i & Hi & ->)%fmap_Some_1. destruct (grown_interface s s' k i Hg Hi) as (i' & -> & [= _ E _]). simpl. by rewrite E.
Qed.

Lemma end_ids_owners s l x y :
  end_ids s l = Some (x, y) ↔
    if_device_id <$> get_interface s (a_interface_id l) = Some x ∧
    if_device_id <$> get_interface s (b_interface_id l) = Some y.
Proof.
  unfold end_ids. destruct (get_interface s (a_interface_id l)), (get_interface s (b_interface_id l)); simpl; naive_solver.
Qed.

Lemma grown_end_ids s s' l x y : grown s s' → end_ids s l = Some (x, y) → end_ids s' l = Some (x, y).
Proof. intros Hg. rewrite !end_ids_owners. intros []; split; by eapply grown_owner. Qed.

Lemma grown_typed_ends s s' l r : grown s s' → typed_ends s l = Some r → typed_ends s' l = Some r.
Proof.
  intros Hg. destruct r as [[x tx] [y ty]]. rewrite !typed_ends_Some. intros (E & Hx & Hy).
  split; [by eapply grown_end_ids|]. split; by eapply grown_type.
Qed.

(** Under the ends of an old link nothing changes. *)
Lemma grown_joins s s' l x y :
  grown s s' → is_Some (end_ids s l) → link_joins s' l x y ↔ link_joins s l x y.
Proof.
  intros Hg [[a b] E]. unfold link_joins. rewrite E, (grown_end_ids s s' l a b Hg E). done.
Qed.

Lemma topology_type s l x y :
  topology_ok s → l ∈ links s → link_joins s l x y → is_Some (device_type_of s x) ∧ is_Some (device_type_of s y).
Proof.
  intros Ht Hl Hj. destruct (t_ends s Ht l Hl) as (x' & tx & y' & ty & (E & Hx & Hy)%typed_ends_Some & _).
  unfold link_joins in Hj. rewrite E in Hj. destruct Hj; simplify_eq; eauto.
Qed.

Lemma grown_type_iff s s' k t :
  grown s s' → is_Some (device_type_of s k) → device_type_of s' k = Some t ↔ device_type_of s k = Some t.
Proof.
  intros Hg [u Hu]. split; [|by apply grown_type]. intros E. rewrite (grown_type s s' k u Hg Hu) in E. congruence.
Qed.

(** An end of an old link is an old interface, with the same key. *)
Lemma grown_mentioned s s' o l :
  topology_ok s → grown s s' → keys_ok s' → l ∈ links s → o ∈ interfaces s' →
  if_id o ∈ [a_interface_id l; b_interface_id l] →
  ∃ o', o' ∈ interfaces s ∧ if_key o' = if_key o ∧ is_Some (device_type_of s (if_device_id o')).
Proof.
  intros Ht Hg Hk Hl Ho Hin. destruct (t_ends s Ht l Hl) as (x & tx & y & ty & (E & Hx & Hy)%typed_ends_Some & _).
  destruct (end_ids_interfaces _ _ _ _ E) as (i & j & Ei & Ej & -> & ->).
  assert (∀ k i, get_interface s k = Some i → if_id o = k → i ∈ interfaces s ∧ if_key i = if_key o) as Hold.
  { intros k i' Hi' Hko. destruct (grown_interface s s' k i' Hg Hi') as (i2 & Hi2 & E2).
    rewrite <-Hko, get_interface_key in Hi2 by done. injection Hi2 as ->. split; [|done].
    by destruct (get_interface_Some _ _ _ Hi'). }
  apply elem_of_cons in Hin as [Hin|[Hin|Hin%elem_of_nil]%elem_of_cons]; [| |done].
  - destruct (Hold _ _ Ei Hin). exists i. eauto.
  - destruct (Hold _ _ Ej Hin). exists j. eauto.
Qed.

Lemma grown_ont_link s s' o o' l :
  topology_ok s → grown s s' → l ∈ links s → if_id o' = if_id o → ont_link s' o l → ont_link s o' l.
Proof.
  intros Ht Hg Hl Hid [Hin (i & t & Hi & Hty & Hont)].
  assert (∃ j, get_interface s (peer_interface l (if_id o)) = Some j ∧ is_Some (device_type_of s (if_device_id j))) as (j & Hj & Hjt).
  { destruct (t_ends s Ht l Hl) as (x & tx & y & ty & (E & Hx & Hy)%typed_ends_Some & _).
    destruct (end_ids_interfaces _ _ _ _ E) as (i1 & i2 & E1 & E2 & -> & ->).
    unfold peer_interface. case_bool_decide; eauto. }
  destruct (grown_interface s s' _ _ Hg Hj) as (j' & Hj' & E). rewrite Hi in Hj'. injection Hj' as <-.
  injection E as _ E _. rewrite E, (grown_type_iff s s') in Hty by done.
  split; [by rewrite Hid|]. exists j, t. by rewrite Hid.
Qed.

Lemma topology_grown s s' : topology_ok s → grown s s' → constraints s' → topology_ok s'.
Proof.
  intros Ht Hg Hc. pose proof (gr_links s s' Hg) as Hl. split; [done|..]; rewrite Hl.
  - apply (t_sorted s Ht).
  - intros l Hin. destruct (t_ends s Ht l Hin) as (x & tx & y & ty & E & ?). exists x, tx, y, ty.
    split; [by eapply grown_typed_ends|done].
  - assert (∀ k l, l ∈ links s → olt_link s' k l → olt_link s k l) as Hol.
    { intros k l Hin [Hk (x & Hj & Hx)]. rewrite (grown_joins s s') in Hj by eauto using t_end_ids.
      destruct (topology_type s l k x Ht Hin Hj). rewrite (grown_type_iff s s') in Hk, Hx by done.
      split; [done|]. by exists x. }
    intros k l l' H1 H2 Ho Ho'. apply (t_odf s Ht k); auto.
  - intros o l l' Ho [Hp Hn] H1 H2 Ho1 Ho2.
    destruct (grown_mentioned s s' o l Ht Hg (c_keys s' Hc) H1 Ho (proj1 Ho1)) as (o' & Hin & [= Eid Ed En] & Hty).
    apply (t_out s Ht o'); try done; [|by apply (grown_ont_link s s' o)..].
    split; [|by rewrite En]. rewrite Ed in Hty |- *. by rewrite (grown_type_iff s s') in Hp.
Qed.

Lemma grown_refl s : grown s s.
Proof. by split. Qed.

Lemma derived_grown s s' : derived_only s s' → grown s s'.
Proof.
  intros [Hd Hi Hl Hm]. split; [|by rewrite Hi|done..]. unfold dev_key. by rewrite Hd.
Qed.

(** * Removing a device *)

Lemma omap_sublist {A B} (f : A → option B) (l k : list A) : l `sublist_of` k → omap f l `sublist_of` omap f k.
Proof.
  induction 1 as [|x l k _ IH|x l k _ IH]; simpl; [done|..]; (destruct (f x); [|done]); by constructor.
Qed.

(** The rows that stay resolve as before. *)
Record shrunk (s s' : DB) : Prop := {
  sh_types : ∀ k t, device_type_of s' k = Some t → device_type_of s k = Some t;
  sh_interfaces : ∀ k i, get_interface s' k = Some i → get_interface s k = Some i;
  sh_rows : interfaces s' ⊆ interfaces s;
  sh_links : ∀ l, l ∈ links s' → l ∈ links s ∧ typed_ends s' l = typed_ends s l
}.

Lemma topology_shrunk s s' : topology_ok s → shrunk s s' → constraints s' → topology_ok s'.
Proof.
  intros Ht [Hty Hif Hrows Hl] Hc. split; [done|..].
  - intros l [Hin _]%Hl. by apply (t_sorted s Ht).
  - intros l [Hin E]%Hl. rewrite E. by apply (t_ends s Ht).
  - assert (∀ k l, l ∈ links s' → olt_link s' k l → l ∈ links s ∧ olt_link s k l) as Hol.
    { intros k l Hin [Hk (x & Hj & Hx)]. destruct (Hl l Hin) as [Hin' E]. split; [done|]. split; [by apply Hty|].
      exists x. split; [|by apply Hty]. destruct (t_ends s Ht l Hin') as (u & tu & v & tv & E' & _).
      rewrite E' in E. apply typed_ends_Some in E as [E _], E' as [E' _]. unfold link_joins in *. by rewrite E, <-E' in *. }
    intros k l l' H1 H2 Ho Ho'. destruct (Hol k l H1 Ho), (Hol k l' H2 Ho'). by apply (t_odf s Ht k).
  - assert (∀ o l, ont_link s' o l → ont_link s o l) as Hon.
    { intros o l [Hin (i & t & Hi & Hit & Ho)]. split; [done|]. exists i, t. auto. }
    intros o l l' Ho [Hp Hn] [H1 _]%Hl [H2 _]%Hl Ho1 Ho2.
    apply (t_out s Ht o); auto. split; [by apply Hty|done].
Qed.

Lemma find_row_filter {A} (P : A → Prop) `{∀ x, Decision (P x)} (p : A → bool) l :
  (∀ x, x ∈ l → p x = true → P x) → find_row p (filter P l) = find_row p l.
Proof.
  induction l as [|x l IH]; intros Hp; [done|]. rewrite filter_cons. simpl.
  destruct (p x) eqn:E.
  - rewrite decide_True by (apply Hp; [by left|done]). simpl. by rewrite E.
  - case_decide; simpl; rewrite ?E; apply IH; intros y Hy; apply Hp; by right.
Qed.

Section purge.
Context (k : string) (n : Net).
Local Abbreviation s := (net_db n).
Local Abbreviation s' := (net_db (purge_device k n)).
Local Abbreviation ids := (if_id <$> interfaces_of s k).

Lemma gone_interface i : keys_ok s → i ∈ interfaces s → mem (if_id i) ids = true ↔ if_device_id i = k.
Proof.
  intros Hk Hi. rewrite mem_true, list_elem_of_fmap. unfold interfaces_of. setoid_rewrite list_elem_of_filter. split.
  - intros (j & E & Hd & Hj). rewrite <-Hd. f_equal.
    apply (get_interface_key s i Hk) in Hi. apply (get_interface_key s j Hk) in Hj. rewrite E in Hi. congruence.
  - intros <-. eauto.
Qed.

Lemma purge_interfaces : keys_ok s → interfaces s' = filter (λ i, if_device_id i ≠ k) (interfaces s).
Proof.
  intros Hk. cbn [net_db purge_device set_records set_db on_world n_world w_db interfaces]. apply filter_ext_elem.
  intros i Hi. rewrite <-gone_interface by done. by destruct (mem _ _).
Qed.

Lemma purge_get_interface j : mem j ids = false → get_interface s' j = get_interface s j.
Proof. intros Hj. apply find_row_filter. intros i _ ->%String.eqb_eq. done. Qed.

Lemma purge_get_device j : j ≠ k → get_device s' j = get_device s j.
Proof. intros Hj. apply find_row_filter. intros d _ ->%String.eqb_eq. done. Qed.

Lemma purge_device_gone : get_device s' k = None.
Proof. apply find_row_None. intros d [Hd _]%list_elem_of_filter. by apply String.eqb_neq. Qed.

Lemma purge_shrunk : topology_ok s → shrunk s s'.
Proof.
  intros Ht. pose proof (topology_keys s Ht) as Hk.
  assert (∀ j t, device_type_of s' j = Some t → device_type_of s j = Some t) as Hty.
  { intros j t. unfold device_type_of. destruct (decide (j = k)) as [->|Hne]; [by rewrite purge_device_gone|].
    by rewrite purge_get_device. }
  split; [done| | |].
  - intros j i Hi. rewrite <-purge_get_interface; [done|]. apply get_interface_Some in Hi as [[Hi _]%list_elem_of_filter <-]. done.
  - intros i [_ Hi]%list_elem_of_filter. done.
  - intros l [Hg Hl]%list_elem_of_filter. split; [done|]. apply orb_false_iff in Hg as [Ha Hb].
    destruct (t_ends s Ht l Hl) as (x & tx & y & ty & E & _). rewrite E. apply typed_ends_Some in E as (E & Hx & Hy).
    apply typed_ends_Some. rewrite end_ids_owners in *. rewrite !purge_get_interface by done. split; [done|].
    assert (∀ j z, mem j ids = false → if_device_id <$> get_interface s j = Some z → z ≠ k) as Hown.
    { intros j z Hj (i & [Hi Eid]%get_interface_Some & ->)%fmap_Some_1 Ez. apply (gone_interface i Hk Hi) in Ez. congruence. }
    destruct E as [E1 E2]. unfold device_type_of in *. rewrite !purge_get_device by eauto. done.
Qed.

Lemma purge_constraints : constraints s → constraints s'.
Proof.
  intros [[K1 K2 K3 K4] C1 C2 C3 C4].
  assert (∀ A B (f : A → B) (P : A → Prop) `{∀ x, Decision (P x)} l, NoDup (f <$> l) → NoDup (f <$> filter P l)) as Hn.
  { intros A B f P ? l Hl. eapply sublist_NoDup; [exact Hl|]. apply fmap_sublist, sublist_filter. }
  split; [split|..]; try (by apply Hn); try done.
  eapply sublist_NoDup; [exact C2|]. apply omap_sublist, sublist_filter.
Qed.

Lemma purge_topology : topology_ok s → topology_ok s'.
Proof. intros Ht. eapply topology_shrunk; [done|by apply purge_shrunk|apply purge_constraints, Ht]. Qed.

Lemma purge_refs : keys_ok s → refs_ok s → refs_ok s'.
Proof.
  intros Hk [Ri Rd Ra Rr Rn Rm].
  assert (∀ j, j ∈ if_id <$> interfaces s → mem j ids = false → j ∈ if_id <$> interfaces s') as Hids.
  { intros j (i & -> & Hi)%list_elem_of_fmap Hj. apply list_elem_of_fmap. exists i. split; [done|].
    by apply list_elem_of_filter. }
  assert (∀ j, j ∈ dev_id <$> devices s → j ≠ k → j ∈ dev_id <$> devices s') as Hdevs.
  { intros j (d & -> & Hd)%list_elem_of_fmap Hj. apply list_elem_of_fmap. exists d. split; [done|].
    by apply list_elem_of_filter. }
  split.
  - rewrite purge_interfaces by done. intros j (i & -> & [Hne Hi]%list_elem_of_filter)%list_elem_of_fmap.
    apply Hdevs; [|done]. apply Ri, list_elem_of_fmap. eauto.
  - intros j (b & -> & [Hne Hb]%list_elem_of_filter)%list_elem_of_fmap. apply Hdevs; [|done]. apply Rd, list_elem_of_fmap. eauto.
  - intros j (a & -> & [Hg Ha]%list_elem_of_filter)%list_elem_of_fmap. apply Hids; [|done]. apply Ra, list_elem_of_fmap. eauto.
  - intros j (r & [Hg Hr]%list_elem_of_filter & Hj)%list_elem_of_omap. rewrite Hj in Hg. apply Hids; [|done].
    apply Rr, list_elem_of_omap. eauto.
  - intros j (b & -> & [Hg Hb]%list_elem_of_filter)%list_elem_of_fmap. apply Hids; [|done]. apply Rn, list_elem_of_fmap. eauto.
  - intros j (e & -> & [Hg He]%list_elem_of_filter)%list_elem_of_fmap. apply Hids; [|done]. apply Rm, list_elem_of_fmap. eauto.
Qed.
End purge.

(** * Triples of handler programs *)

(** From [P] the program ends in [Q], or raises and leaves the invariant. *)
Definition triple {A} (P : Net → Prop) (h : Handler A) (Q : A → Net → Prop) : Prop :=
  ∀ n, P n → match h n with (Ret a, n') => Q a n' | (_, n') => net_ok n' end.

Section triples.
Context {A B : Type}.
Implicit Types (P : Net → Prop) (h : Handler A).

Lemma triple_ret P (a : A) (Q : A → Net → Prop) : (∀ n, P n → Q a n) → triple P (mret a) Q.
Proof. intros Hq n Hn. by apply Hq. Qed.

Lemma triple_bind P h (f : A → Handler B) (Q : A → Net → Prop) (R : B → Net → Prop) :
  triple P h Q → (∀ a, triple (Q a) (f a) R) → triple P (h ≫= f) R.
Proof.
  intros Hh Hf n Hn. specialize (Hh n Hn). unfold mbind, Handler_bind.
  destruct (h n) as [[a|e|] n']; try done. by apply Hf.
Qed.

Lemma triple_conseq P P' h (Q Q' : A → Net → Prop) :
  triple P' h Q' → (∀ n, P n → P' n) → (∀ a n, Q' a n → Q a n) → triple P h Q.
Proof. intros Hh Hp Hq n Hn. specialize (Hh n (Hp n Hn)). destruct (h n) as [[]?]; auto. Qed.

(** The rows read are those of the state. *)
Lemma triple_reads P (g : Net → A) (f : A → Handler B) (R : B → Net → Prop) :
  (∀ n, P n → triple (λ n', n' = n) (f (g n)) R) → triple P (reads g ≫= f) R.
Proof. intros Hf n Hn. by apply (Hf n Hn n). Qed.

Lemma triple_lift P (o : Outcome A) (f : A → Handler B) (R : B → Net → Prop) :
  (∀ n, P n → net_ok n) → (∀ a, o = Ret a → triple P (f a) R) → triple P (lift o ≫= f) R.
Proof. intros Hp Hf n Hn. unfold mbind, Handler_bind, lift. destruct o; [by apply Hf|by apply Hp..]. Qed.

Lemma triple_if P (b : bool) h h' (Q : A → Net → Prop) : triple P h Q → triple P h' Q → triple P (if b then h else h') Q.
Proof. by destruct b. Qed.
End triples.

Lemma net_ok_mac m n : net_ok n → net_ok (set_mac m n).
Proof. intros [? ? ? ?]. by split. Qed.

Lemma triple_transaction {A B} (P : Net → Prop) (o : Outcome A) m (f : A → Handler B) R :
  (∀ n, P n → net_ok n) → (∀ a, o = Ret a → triple P (f a) R) → triple P (in_transaction o m ≫= f) R.
Proof.
  intros Hp Hf n Hn. unfold mbind, Handler_bind, in_transaction.
  destruct o; [by apply Hf|by apply net_ok_mac, Hp..].
Qed.

Lemma triple_commit (P : Net → Prop) n' (Q : Net → Prop) :
  (∀ n, P n → net_ok n) → (∀ n, P n → db_constraints n' → Q n') → triple P (commit n') (λ _, Q).
Proof.
  intros Hp Hq n Hn. unfold commit. case_bool_decide; [by eapply Hq|]. by apply net_ok_mac, Hp.
Qed.

Lemma triple_writes (P : Net → Prop) f (Q : Net → Prop) : (∀ n, P n → Q (f n)) → triple P (writes f) (λ _, Q).
Proof. intros Hq n Hn. by apply Hq. Qed.

(** ** The invariant of the device handlers *)

Definition net_has (k : string) (t : DeviceType) (n : Net) : Prop :=
  net_ok n ∧ device_type_of (net_db n) k = Some t.

Lemma net_has_mac k t m n : net_has k t n → net_has k t (set_mac m n).
Proof. intros [[? ? ? ?] ?]. split; [by split|done]. Qed.

Lemma net_has_same k t n n' :
  net_has k t n → net_db n' = net_db n → gapless (w_rows (n_world n')) → net_has k t n'.
Proof. intros [[? ? ? ?] ?] E ?. unfold net_has. rewrite E. split; [by split; rewrite ?E|done]. Qed.

Lemma grown_ids s s' : grown s s' → dev_id <$> devices s ⊆ dev_id <$> devices s' ∧ if_id <$> interfaces s ⊆ if_id <$> interfaces s'.
Proof.
  intros [Hd Hi _ _]. split; intros x (y & -> & Hy)%list_elem_of_fmap.
  - apply (list_elem_of_fmap_2 dev_key) in Hy. destruct Hd as [r E].
    assert (dev_key y ∈ dev_key <$> devices s') as (z & Ez & Hz)%list_elem_of_fmap by (rewrite E; apply elem_of_app; by left).
    injection Ez as -> _. by apply list_elem_of_fmap_2.
  - apply (list_elem_of_fmap_2 if_key) in Hy. destruct Hi as [r E].
    assert (if_key y ∈ if_key <$> interfaces s') as (z & Ez & Hz)%list_elem_of_fmap by (rewrite E; apply elem_of_app; by left).
    injection Ez as -> _ _. by apply list_elem_of_fmap_2.
Qed.

(** A commit of rows that only grew. *)
Lemma net_has_grown k t n n' :
  net_has k t n → grown (net_db n) (net_db n') → refs_ok (net_db n') → gapless (w_rows (n_world n')) → db_constraints n' →
  net_has k t n'.
Proof.
  intros [[Ht _ _ _] Hk] Hg Hr Hl [Hc Ha]. split; [split; [by eapply topology_grown|done..]|].
  by eapply grown_type.
Qed.

(** The tables a reference check reads besides devices and interfaces. *)
Definition same_rest (s s' : DB) : Prop :=
  addresses s' = addresses s ∧ routes s' = routes s ∧ neighbors s' = neighbors s ∧ mac_entries s' = mac_entries s.

Lemma refs_grown s s' :
  refs_ok s → grown s s' → same_rest s s' →
  if_device_id <$> interfaces s' ⊆ dev_id <$> devices s' → bd_device_id <$> bridge_domains s' ⊆ dev_id <$> devices s' →
  refs_ok s'.
Proof.
  intros [Ri Rd Ra Rr Rn Rm] Hg (Ea & Er & En & Em) Hi Hd. destruct (grown_ids s s' Hg) as [_ Hids].
  split; rewrite ?Ea, ?Er, ?En, ?Em; try done; (etrans; [eassumption|done]).
Qed.


Lemma net_has_device k t n : net_has k t n → k ∈ dev_id <$> devices (net_db n).
Proof.
  intros [_ Hk]. unfold device_type_of in Hk. apply fmap_Some_1 in Hk as (d & [Hd <-]%get_device_Some & _).
  by apply list_elem_of_fmap_2.
Qed.

Lemma fmap_update_row_on {A B} (g : A → B) (p : A → bool) f rows :
  (∀ r, r ∈ rows → p r = true → g (f r) = g r) → g <$> update_row p f rows = g <$> rows.
Proof.
  induction rows as [|r rows IH]; intros Hg; simpl; [done|]. destruct (p r) eqn:E; csimpl.
  - by rewrite Hg by (done || by left).
  - rewrite IH; [done|]. intros x Hx. apply Hg. by right.
Qed.

(** Updating the row of a device keeps its key. *)
Lemma save_device_grown s d :
  keys_ok s → device_type_of s (dev_id d) = Some (dev_type d) → grown s (write_device d s).
Proof.
  intros Hk Ht. split; try done. unfold write_device. cbn [devices L3Auto.set_devices].
  rewrite fmap_update_row_on; [done|]. intros r Hr E%String.eqb_eq. unfold dev_key. f_equal; [done|].
  unfold device_type_of in Ht. rewrite <-E, get_device_key in Ht by done. by injection Ht.
Qed.

(** ** The steps *)

Section steps.
Context {row_ids : RowIds} {G : Type} `{NxGraph G}.
Implicit Types (n : Net) (d : Device).

Abbreviation has d := (net_has (dev_id d) (dev_type d)).

(** A commit over the state just read. *)
Lemma commit_grown k t n n' :
  net_has k t n → grown (net_db n) (net_db n') → (db_constraints n' → refs_ok (net_db n')) →
  gapless (w_rows (n_world n')) → triple (λ m, m = n) (commit n') (λ _, net_has k t).
Proof.
  intros Hn Hg Hr Hl. apply triple_commit; [intros ? ->; apply Hn|]. intros ? -> Hc.
  eapply net_has_grown; eauto.
Qed.

Lemma refs_same s s' :
  refs_ok s → grown s s' → same_rest s s' → (λ i, (if_id i, if_device_id i)) <$> interfaces s' = (λ i, (if_id i, if_device_id i)) <$> interfaces s →
  bridge_domains s' = bridge_domains s → refs_ok s'.
Proof.
  intros Hr Hg Hrest Ei Eb. apply (refs_grown s); try done; rewrite ?Eb.
  - apply (f_equal (fmap (M := list) snd)) in Ei. rewrite <-!list_fmap_compose in Ei.
    change (if_device_id <$> interfaces s' = if_device_id <$> interfaces s) in Ei. rewrite Ei.
    etrans; [apply Hr|apply (grown_ids s s' Hg)].
  - etrans; [apply Hr|apply (grown_ids s s' Hg)].
Qed.

Lemma save_device_ok d k t n rows :
  net_has k t n → device_type_of (net_db n) (dev_id d) = Some (dev_type d) → gapless rows →
  triple (λ m, m = n) (commit (set_rows rows (set_db (write_device d (net_db n)) n))) (λ _, net_has k t).
Proof.
  intros Hn Ht Hg.
  assert (grown (net_db n) (write_device d (net_db n))) as Hgr.
  { apply save_device_grown; [|done]. apply topology_keys, Hn. }
  apply commit_grown; try done. intros _. apply (refs_same (net_db n)); try done. apply Hn.
Qed.

Lemma assign_tariff_ok d : triple (has d) (assign_default_tariff d)
  (λ d' n, has d n ∧ dev_id d' = dev_id d ∧ dev_type d' = dev_type d ∧ hardware_model_id d' = hardware_model_id d).
Proof.
  unfold assign_default_tariff. destruct (required_technology (dev_type d)) as [tech|]; [|by apply triple_ret].
  apply triple_reads. intros n Hn. destruct (sort_by _ _) as [|t ts]; [by apply triple_ret; intros ? ->|].
  apply triple_reads. intros ? ->. eapply triple_bind.
  - apply (save_device_ok (with_tariff (Some (t_id t)) d) (dev_id d) (dev_type d) n (w_rows (n_world n)));
      [done|apply Hn|apply Hn].
  - intros []. by apply triple_ret.
Qed.

Lemma in_domain_key b i : if_key (in_domain b i) = if_key i.
Proof. done. Qed.

Lemma ensure_domain_ok d : triple (has d) (ensure_default_domain d) (λ _, has d).
Proof.
  unfold ensure_default_domain. apply triple_if; [|by apply triple_ret].
  apply triple_reads. intros n Hn. destruct (default_domain _ _); [by apply triple_ret; intros ? ->|].
  apply commit_grown; [done|by split| |apply Hn]. intros _. apply (refs_grown (net_db n)); try done; [apply Hn|apply Hn|].
  cbn. rewrite fmap_app. intros x [Hx|Hx%list_elem_of_singleton]%elem_of_app; [by apply (rf_domains _ (nk_refs n (proj1 Hn)))|].
  subst x. by eapply net_has_device.
Qed.

Lemma join_domain_ok d : triple (has d) (join_default_domain d) (λ _, has d).
Proof.
  unfold join_default_domain. apply triple_if; [|by apply triple_ret].
  apply triple_reads. intros n Hn. destruct (default_domain _ _) as [b|]; [|by apply triple_ret; intros ? ->].
  cbv zeta. apply triple_if; [|by apply triple_ret; intros ? ->].
  assert (∀ i, if_key (join_row d (bd_id b) i) = if_key i) as Hf by (intros i; unfold join_row; by destruct (joins_domain d i)).
  assert (grown (net_db n) (set_interfaces (join_row d (bd_id b) <$> interfaces (net_db n)) (net_db n))) as Hg.
  { split; try done. cbn. rewrite <-list_fmap_compose. rewrite (list_fmap_ext (if_key ∘ _) if_key) by (intros; apply Hf). done. }
  apply commit_grown; [done..| |apply Hn]. intros _. apply (refs_same (net_db n)); try done; [apply Hn|].
  cbn. rewrite <-list_fmap_compose. apply list_fmap_ext. intros _ i _. simpl. pose proof (Hf i) as E. unfold if_key in E. congruence.
Qed.

(** The session holds the rows of [s] and new interfaces of the device. *)
Definition ports_from (s : DB) (k : string) (ps : PortSession) : Prop :=
  ∃ new, set_interfaces (interfaces (ps_db ps) ++ ps_pending ps) (ps_db ps) = set_interfaces (interfaces s ++ new) s ∧
    ∀ i, i ∈ new → if_device_id i = k.

Lemma flush_ports_ok s k ps ps' : flush_ports ps = Ret ps' → ports_from s k ps → ports_from s k ps'.
Proof.
  unfold flush_ports. case_bool_decide; [|done]. intros [= <-] (new & E & Hnew). exists new. split; [|done].
  rewrite <-E. cbn. by rewrite app_nil_r.
Qed.

Lemma add_port_ok env d e ps m ps' m' s :
  add_port env d e ps m = (Ret ps', m') → ports_from s (dev_id d) ps → ports_from s (dev_id d) ps'.
Proof.
  destruct e as [p nm]. unfold add_port.
  destruct (if denv_get_flushes env then _ else _) as [ps1|x|] eqn:Ef; [|done..]. intros E Hps.
  assert (ports_from s (dev_id d) ps1) as (new & E1 & Hnew).
  { destruct (denv_get_flushes env); [by eapply flush_ports_ok|by injection Ef as <-]. }
  destruct (get_interface _ _); [injection E as <- _; by exists new|].
  destruct (match speed_gbps p with Some _ => _ | None => _ end) as [cap|]; [|done].
  destruct (next_mac _ _) as [[mac m1]|]; [|done]. injection E as <- _.
  exists (new ++ [port_row d p nm mac cap]). split.
  - cbn. rewrite !app_assoc. injection E1. intros. unfold set_interfaces. congruence.
  - intros i [Hi|Hi%list_elem_of_singleton]%elem_of_app; [by apply Hnew|by subst i].
Qed.

Lemma add_ports_ok env d plan ps m ps' m' s :
  add_ports env d plan ps m = (Ret ps', m') → ports_from s (dev_id d) ps → ports_from s (dev_id d) ps'.
Proof.
  revert ps m. induction plan as [|e plan IH]; intros ps m; simpl; [by intros [= <- _]|].
  destruct (add_port env d e ps m) as [[ps1|x|] m1] eqn:E; [|done..]. intros E' Hps.
  eapply IH; [exact E'|]. by eapply add_port_ok.
Qed.

(** New interfaces of an existing device. *)
Lemma commit_ports_ok env d n pending new m :
  has d n → (∀ i, i ∈ new → if_device_id i = dev_id d) →
  triple (λ n', n' = n) (commit_ports env pending (set_interfaces (interfaces (net_db n) ++ new) (net_db n)) m) (λ _, has d).
Proof.
  intros Hn Hnew. unfold commit_ports. apply triple_reads. intros ? ->.
  apply triple_transaction; [intros ? ->; apply Hn|]. intros rows Hr%or_raise_Ret.
  assert (grown (net_db n) (set_interfaces (interfaces (net_db n) ++ new) (net_db n))) as Hg.
  { split; try done. cbn. rewrite fmap_app. by apply prefix_app_r. }
  apply commit_grown; [done|done| |eapply port_events_gapless; [exact Hr|apply Hn]].
  intros _. apply (refs_grown (net_db n)); try done; [apply Hn| |apply Hn].
  cbn. rewrite fmap_app. intros x [Hx|(i & -> & Hi)%list_elem_of_fmap]%elem_of_app.
  - by apply (rf_interfaces _ (nk_refs n (proj1 Hn))).
  - rewrite (Hnew i Hi). by eapply net_has_device.
Qed.

Lemma create_ports_ok env d hw : triple (has d) (create_ports env d hw) (λ _, has d).
Proof.
  unfold create_ports. apply triple_reads. intros n Hn.
  destruct (add_ports env d _ _ _) as [r m] eqn:E. apply triple_transaction; [intros ? ->; apply Hn|]. intros ps ->.
  apply (add_ports_ok _ _ _ _ _ _ _ (net_db n)) in E as (new & Enew & Hnew).
  2:{ exists []. split; [cbn; by rewrite !app_nil_r|set_solver]. }
  eapply (triple_bind _ _ _ (λ _, has d)); [|intros []; apply join_domain_ok]. apply triple_if.
  - rewrite Enew. by apply commit_ports_ok.
  - apply triple_writes. intros ? ->. by apply net_has_mac.
Qed.

Lemma drop_appended {A} (l k : list A) : drop (length l) (l ++ k) = k.
Proof. by rewrite drop_app_length. Qed.

Lemma default_ports_ok env d : triple (has d) (default_ports env d) (λ _, has d).
Proof.
  unfold default_ports. apply triple_reads. intros n Hn. apply triple_if.
  - unfold ensure_default_ports_for_splitter. destruct (negb _).
    + assert (net_db n = set_interfaces (interfaces (net_db n) ++ []) (net_db n)) as E.
      { rewrite app_nil_r. by destruct (net_db n). }
      rewrite E at 3. apply commit_ports_ok; [done|set_solver].
    + apply commit_ports_ok; [done|]. intros i (nm & -> & _)%list_elem_of_fmap. done.
  - destruct (get_interface _ _); [by apply triple_ret; intros ? ->|].
    destruct (next_mac _ _) as [[mac m]|]; [|intros ? ->; apply Hn].
    unfold add_interface. apply (commit_ports_ok env d n); [done|]. by intros i ->%list_elem_of_singleton.
Qed.

Lemma defaults_base w : base (ensure_ipam_defaults w) = base w.
Proof. unfold ensure_ipam_defaults. by destruct (vrf_by_name "mgmt" _). Qed.

(** The management interface of the backbone, and perhaps its address. *)
Lemma allocate_backbone_rows d w w' :
  keys_ok (base w) → refs_ok (base w) → dev_id d ∈ dev_id <$> devices (base w) →
  allocate_backbone_mgmt d w = Some w' → grown (base w) (base w') ∧ refs_ok (base w').
Proof.
  intros Hk Hr Hd. unfold allocate_backbone_mgmt. rewrite defaults_base.
  assert (grown (base w) (base w) ∧ refs_ok (base w)) as Hsame by (split; [apply grown_refl|done]).
  destruct (vrf_by_name "mgmt" _) as [mgmt|]; [|intros [= <-]; by rewrite defaults_base].
  destruct (find_row (labelled _ _) _) as [p|]; [|intros [= <-]; by rewrite defaults_base].
  set (k := port_id d "mgmt0"). set (s := base w) in *.
  destruct (existsb _ (addresses s)); [intros [= <-]; by rewrite defaults_base|].
  assert (∃ s1, (match get_interface s k with
                 | None => add_interface (mkInterface k (dev_id d) "mgmt0" (Some MANAGEMENT) ADMIN_UP None None None None None) s
                 | Some _ => set_interfaces (update_row (λ i, String.eqb (if_id i) k) as_management (interfaces s)) s
                 end) = s1 ∧ grown s s1 ∧ refs_ok s1 ∧ k ∈ if_id <$> interfaces s1) as (s1 & -> & Hg & Hr1 & Hin).
  { destruct (get_interface s k) as [i|] eqn:Ei; eexists; (split; [reflexivity|]).
    - assert (grown s (set_interfaces (update_row (λ i, String.eqb (if_id i) k) as_management (interfaces s)) s)) as Hg.
      { split; try done. cbn. by rewrite (fmap_update_row if_key). }
      split; [done|]. split; [apply (refs_same s); try done; cbn; by rewrite fmap_update_row|].
      apply (grown_ids _ _ Hg). apply get_interface_Some in Ei as [Hi <-]. by apply list_elem_of_fmap_2.
    - assert (grown s (add_interface (mkInterface k (dev_id d) "mgmt0" (Some MANAGEMENT) ADMIN_UP None None None None None) s)) as Hg.
      { split; try done. cbn. rewrite fmap_app. by apply prefix_app_r. }
      split; [done|]. split.
      + apply (refs_grown s); try done; [|apply Hr]. cbn. rewrite fmap_app.
        intros x [Hx|Hx%list_elem_of_singleton]%elem_of_app; [by apply (rf_interfaces _ Hr)|by subst x].
      + cbn. rewrite fmap_app. apply elem_of_app. right. by left. }
  destruct (next_free_ip_in_prefix s1 p) as [free|]; [|done]. simpl. intros [= <-]. simpl.
  destruct free as [[ip len]|]; [|done]. split; [by destruct Hg; split|].
  destruct Hr1 as [Ri Rd Ra Rr Rn Rm]. split; try done. cbn. rewrite fmap_app.
  intros x [Hx|Hx%list_elem_of_singleton]%elem_of_app; [by apply Ra|by subst x].
Qed.

Lemma backbone_ok d : triple (has d) (backbone_mgmt d) (λ _, has d).
Proof.
  unfold backbone_mgmt. apply triple_reads. intros n Hn. apply triple_lift; [intros ? ->; apply Hn|].
  intros w Hw%or_raise_Ret. apply allocate_backbone_rows in Hw as [Hg Hr];
    [|apply topology_keys, Hn|apply Hn|by eapply net_has_device].
  apply commit_grown; try done. apply Hn.
Qed.

Lemma from_model_ok k t d : triple (net_has k t) (from_model (G := G) d) (λ o n, net_has k t n ∧ do_row o = d).
Proof.
  unfold from_model. apply triple_reads. intros n Hn. apply triple_lift; [intros ? ->; apply Hn|]. intros cap _.
  apply triple_lift; [intros ? ->; apply Hn|]. intros _ _. apply triple_ret. by intros ? ->.
Qed.

(** Derived columns may be rewritten at any time. *)
Lemma net_has_derived k t n s' :
  net_has k t n → derived_only (net_db n) s' → same_rest (net_db n) s' → bridge_domains s' = bridge_domains (net_db n) →
  net_has k t (set_db s' n).
Proof.
  intros [[Ht Ha Hr Hl] Hk] Hd Hrest Hb. pose proof (derived_grown _ _ Hd) as Hg.
  split; [split|by eapply grown_type].
  - by eapply topology_derived.
  - cbn. by rewrite (proj1 Hrest).
  - apply (refs_same (net_db n)); try done. cbn. by rewrite (do_interfaces _ _ Hd).
  - done.
Qed.

Lemma propagate_ok k t env j : triple (net_has k t) (propagate (G := G) env j) (λ _, net_has k t).
Proof.
  apply triple_writes. intros n Hn.
  destruct (propagate_or_warn_rows (G := G) (denv_client env) (denv_reply env) [j] (net_db n)) as (ids & [-> | ->]).
  - by eapply net_has_same; [exact Hn|done|apply Hn].
  - apply net_has_derived; [done|apply bulk_update_derived|done..].
Qed.

Lemma bump_ok k t : triple (net_has k t) bump (λ _, net_has k t).
Proof. intros n Hn. by eapply net_has_same; [exact Hn|done|apply Hn]. Qed.

Lemma request_ok k t x y : triple (net_has k t) (Devices.request x y) (λ _, net_has k t).
Proof. apply triple_writes. intros n Hn. by eapply net_has_same; [exact Hn|done|apply Hn]. Qed.

Lemma publish_event_ok k t env ev : triple (net_has k t) (publish_event env ev) (λ _, net_has k t).
Proof.
  apply triple_writes. intros n Hn. unfold on_world. destruct (publish _ _ _ _) as [h rows] eqn:E.
  eapply net_has_same; [exact Hn|done|]. cbn. change rows with (h, rows).2. rewrite <-E. apply publish_gapless, Hn.
Qed.

Lemma domain_event_gapless env ty k data rows rows' : domain_event env ty k data rows = Ret rows' → gapless rows → gapless rows'.
Proof. intros Hr%or_raise_Ret. by eapply append_domain_gapless. Qed.

(** ** The handlers *)

Lemma find_row_snoc {A} (p : A → bool) l x : find_row p l = None → p x = true → find_row p (l ++ [x]) = Some x.
Proof. intros Hl Hx. rewrite find_row_app, Hl. simpl. by rewrite Hx. Qed.

Lemma insert_device_ok env p :
  triple net_ok (insert_device env p) (λ d n, has d n ∧ dev_id d = dcr_id p ∧ dev_type d = dcr_type p).
Proof.
  unfold insert_device. apply triple_reads. intros n Hn. unfold id. apply triple_lift; [by intros ? ->|]. intros [] Hc.
  apply triple_lift; [by intros ? ->|]. intros hw _. apply triple_lift; [by intros ? ->|]. intros rows Hrows.
  set (d := new_device _ _ hw).
  assert (get_device (net_db n) (dcr_id p) = None) as Hnew.
  { unfold check_create in Hc. outcome Hc. by apply eq_None_not_Some; apply bool_decide_eq_false in Hm. }
  assert (grown (net_db n) (set_devices (devices (net_db n) ++ [d]) (net_db n))) as Hg.
  { split; try done. cbn. rewrite fmap_app. by apply prefix_app_r. }
  eapply (triple_bind _ _ _ (λ _, has d)); [|intros []; apply triple_ret; intros n' Hn'; by split].
  apply triple_commit; [by intros ? ->|]. intros ? -> [Hcon Ha]. split.
  - split; [by eapply topology_grown; [apply Hn|done|done]|done| |by eapply domain_event_gapless; [exact Hrows|apply Hn]].
    apply (refs_grown (net_db n)); try done; [apply Hn|..]; (etrans; [apply Hn|apply (grown_ids _ _ Hg)]).
  - unfold device_type_of, get_device. cbn. by rewrite find_row_snoc by (done || apply String.eqb_refl).
Qed.

Lemma create_device_ok env p : triple net_ok (create_device_impl (G := G) env p) (λ _, net_ok).
Proof.
  unfold create_device_impl. eapply triple_bind; [apply insert_device_ok|]. intros d.
  eapply (triple_bind _ _ _ (λ _, has d)); [eapply triple_conseq; [apply (bump_ok (dev_id d) (dev_type d))|by intros ? []|done]|].
  intros _. eapply triple_bind; [apply assign_tariff_ok|]. intros d'.
  eapply (triple_bind _ _ _ (λ _, has d')).
  { eapply triple_conseq; [apply ensure_domain_ok| |done]. intros n (Hn & Hi & Ht & _). by rewrite Hi, Ht. }
  intros _. eapply (triple_bind _ _ _ (λ _, has d')).
  { destruct (hardware_model_id d'); [apply create_ports_ok|apply default_ports_ok]. }
  intros _. eapply (triple_bind _ _ _ (λ _, has d')).
  { apply triple_if; [apply backbone_ok|by apply triple_ret]. }
  intros _. eapply (triple_bind _ _ _ (λ _, has d')); [apply propagate_ok|]. intros [].
  eapply triple_conseq; [apply from_model_ok|done|]. by intros ?? [[? _] _].
Qed.

Lemma updated_row_key d u slot d' : updated_row d u slot = Some d' → dev_id d' = dev_id d ∧ dev_type d' = dev_type d.
Proof.
  unfold updated_row. destruct (match du_name u with Some o => o | None => _ end); [|done].
  destruct (match du_status u with Some o => o | None => _ end); [|done]. cbn. by intros [= <-].
Qed.

Lemma get_device_has n k d : net_ok n → get_device (net_db n) k = Some d → has d n ∧ dev_id d = k.
Proof.
  intros Hn Hd. destruct (get_device_Some _ _ _ Hd) as [_ Hk]. split; [|done]. split; [done|].
  unfold device_type_of. by rewrite Hk, Hd.
Qed.

Lemma write_update_ok env d u :
  triple (has d) (write_update env d u) (λ d' n, has d' n ∧ dev_id d' = dev_id d ∧ dev_type d' = dev_type d).
Proof.
  unfold write_update. apply triple_reads. intros n Hn. unfold id. apply triple_lift; [intros ? ->; apply Hn|].
  intros [] _. apply triple_lift; [intros ? ->; apply Hn|]. intros rows Hrows.
  apply triple_lift; [intros ? ->; apply Hn|]. intros [] _. apply triple_lift; [intros ? ->; apply Hn|].
  intros d' [Hi Ht]%or_raise_Ret%updated_row_key.
  eapply triple_bind; [apply (save_device_ok d' (dev_id d) (dev_type d) n rows); [done| |]|].
  - rewrite Hi, Ht. apply Hn.
  - eapply domain_event_gapless; [exact Hrows|apply Hn].
  - intros []. apply triple_ret. intros n' Hn'. by rewrite Hi, Ht.
Qed.

Lemma update_device_ok env k u : triple net_ok (update_device_impl (G := G) env k u) (λ _, net_ok).
Proof.
  unfold update_device_impl. apply triple_reads. intros n Hn. unfold id. apply triple_lift; [by intros ? ->|].
  intros d Hd%or_raise_Ret. destruct (get_device_has n k d Hn Hd) as [Hh <-].
  eapply triple_bind; [eapply triple_conseq; [apply write_update_ok|by intros ? ->|done]|]. intros d'.
  eapply (triple_bind _ _ _ (λ _, has d')).
  { eapply triple_conseq; [apply (bump_ok (dev_id d') (dev_type d'))|by intros ? []|done]. }
  intros tv. eapply (triple_bind _ _ _ (λ _, has d')).
  { destruct (du_hardware u), (hardware_model_id d'); try by apply triple_ret.
    eapply (triple_bind _ _ _ (λ _, has d')); [apply ensure_domain_ok|intros []; apply create_ports_ok]. }
  intros []. eapply triple_bind; [apply from_model_ok|]. intros after.
  eapply (triple_bind _ _ _ (λ _, has d')).
  { apply triple_if; [|by apply triple_ret; intros ? []].
    eapply (triple_bind _ _ _ (λ _, has d')); [|intros []; apply propagate_ok].
    eapply triple_conseq; [apply publish_event_ok|by intros ? []|done]. }
  intros []. eapply (triple_bind _ _ _ (λ _, has d')); [|intros []; apply triple_ret; by intros ? []].
  apply triple_if; [by apply triple_ret|apply request_ok].
Qed.

Lemma override_ok env k b : triple net_ok (set_device_override_impl (G := G) env k b) (λ _, net_ok).
Proof.
  unfold set_device_override_impl. apply triple_reads. intros n Hn. unfold id. apply triple_lift; [by intros ? ->|].
  intros d Hd%or_raise_Ret. destruct (get_device_has n k d Hn Hd) as [Hh <-]. cbv zeta.
  apply triple_lift; [by intros ? ->|]. intros o _. apply triple_lift; [by intros ? ->|]. intros rows Hrows.
  eapply (triple_bind _ _ _ (λ _, has d)).
  { apply (save_device_ok (with_override o d) (dev_id d) (dev_type d)); [done|apply Hh|].
    eapply domain_event_gapless; [exact Hrows|apply Hn]. }
  intros []. eapply (triple_bind _ _ _ (λ _, has d)); [apply bump_ok|]. intros tv.
  apply triple_reads. intros n' Hn'.
  eapply (triple_bind _ _ _ (λ _, has d)).
  { apply triple_if; [eapply triple_conseq; [apply publish_event_ok|by intros ? ->|done]|by apply triple_ret; intros ? ->]. }
  intros []. eapply (triple_bind _ _ _ (λ _, has d)); [apply request_ok|]. intros [].
  eapply triple_conseq; [apply from_model_ok|done|]. by intros ?? [[? _] _].
Qed.

Lemma deletion_events_gapless env d ids ls rows rows' :
  deletion_events env d ids ls rows = Ret rows' → gapless rows → gapless rows'.
Proof.
  unfold deletion_events. intros (r & Hr & H2)%bind_Ret Hg. apply domain_event_gapless in Hr; [|done]. clear Hg.
  revert r Hr H2. induction ls as [|l ls IH]; intros r Hr; cbn [foldl]; [by intros [= <-]|].
  cbn [mbind Outcome_bind]. destruct (domain_event env "LINK_DELETED" _ _ r) as [r'|e|] eqn:E.
  - apply IH. by eapply domain_event_gapless.
  - clear. intros H. exfalso. revert H. induction ls; [done|done].
  - clear. intros H. exfalso. revert H. induction ls; [done|done].
Qed.

Lemma purge_addresses k n : addr_constraints (addresses (net_db n)) → addr_constraints (addresses (net_db (purge_device k n))).
Proof.
  intros [Hp Hv]. split; [eapply sublist_NoDup; [exact Hp|]|eapply sublist_NoDup; [exact Hv|]]; apply omap_sublist, sublist_filter.
Qed.

Lemma delete_device_ok env k : triple net_ok (delete_device_impl env k) (λ _, net_ok).
Proof.
  unfold delete_device_impl. apply triple_reads. intros n Hn. unfold id. apply triple_lift; [by intros ? ->|].
  intros d _. apply triple_lift; [by intros ? ->|]. intros rows Hrows. apply triple_lift; [by intros ? ->|]. intros [] _.
  eapply (triple_bind _ _ _ (λ _, net_ok)).
  - apply triple_commit; [by intros ? ->|]. intros ? -> [Hc Ha].
    split; [by apply purge_topology, Hn|done| |eapply deletion_events_gapless; [exact Hrows|apply Hn]].
    apply purge_refs; [apply topology_keys, Hn|apply Hn].
  - intros []. intros n' [? ? ? ?]. by split.
Qed.
End steps.

(** * Link requests among them *)

(** The tables a link request does not touch. *)
Definition others (s : DB) := (addresses s, routes s, neighbors s, bridge_domains s, mac_entries s).

Lemma ensure_others dbo k s pend m o s' pend' m' :
  ensure_default_interface dbo k (s, pend, m) = Ret (o, (s', pend', m')) → others s' = others s.
Proof.
  unfold ensure_default_interface. destruct (get_interface s k); [by intros [= _ <- _ _]|].
  destruct (ends_with _ _); [|by intros [= _ <- _ _]]. destruct (get_device s _); [|by intros [= _ <- _ _]].
  destruct (next_mac dbo m) as [[]|]; [|done]. by intros [= _ <- _ _].
Qed.

Lemma pick_default_others md5 s k a b r s' : pick_default_physical_medium_id md5 s k a b = (r, s') → others s' = others s.
Proof. unfold pick_default_physical_medium_id. intros E. repeat case_match; by simplify_eq. Qed.

Lemma choose_others env p s a b cls pm s' : choose_medium env p s a b cls = Ret (pm, s') → others s' = others s.
Proof.
  unfold choose_medium.
  destruct (match lc_physical_medium_id p with Some _ => _ | None => _ end) as [sel s1] eqn:E.
  assert (others s1 = others s) as <-.
  { destruct (lc_physical_medium_id p); [by simplify_eq|by eapply pick_default_others]. }
  destruct (match lc_physical_medium_id p with Some i => Some i | None => sel end) as [i|]; intros Hr.
  - outcome Hr. by injection Hr as _ <-.
  - by injection Hr as _ <-.
Qed.

Lemma prepare_others env p s a b cls a_if b_if l s' :
  prepare_link env p s a b cls a_if b_if = Ret (l, s') → others s' = others s.
Proof.
  unfold prepare_link, canonical_link_id.
  destruct (if str_ltb (lc_b_interface_id p) (lc_a_interface_id p) then _ else _) as [x y].
  intros H. outcome H. repeat match goal with u : unit |- _ => destruct u end.
  match goal with H : choose_medium _ _ _ _ _ _ = Ret ?r |- _ => destruct r as [pm s1]; rename H into Hc end.
  injection H as _ <-. by eapply choose_others.
Qed.

Lemma create_others env p w out w' :
  create_link_impl env p w = (Ret out, w') → (∀ s, others (env_go env s).1 = others s) → others (w_db w') = others (w_db w).
Proof.
  intros E Hgo. revert E. unfold create_link_impl. destruct (check_request (w_db w) p) as [[[a b] cls]| |]; [|done..].
  destruct (ensure_default_interface (env_mac_a env) (lc_a_interface_id p) (w_db w, [], w_mac w))
    as [[oa [[sa pa] ma]]|?|] eqn:Ea; [|done..].
  cbn [mbind Outcome_bind snd fst].
  destruct (ensure_default_interface (env_mac_b env) (lc_b_interface_id p) (sa, pa, ma))
    as [[ob [[sb pb] mb]]|?|] eqn:Eb; [|done..].
  cbn [mbind Outcome_bind snd fst]. destruct oa as [a_if|]; [|done]. destruct ob as [b_if|]; [|done].
  destruct (prepare_link env p sb a b cls a_if b_if) as [[l s2]|?|] eqn:Ep; [|done..].
  intros (_ & rows & _ & Haft)%commit_Ret. apply after_create_world in Haft as (-> & _). rewrite Hgo. cbn.
  apply ensure_others in Ea, Eb. apply prepare_others in Ep. unfold others in *. simpl. congruence.
Qed.

(** A new interface belongs to the device of its end. *)
Lemma create_refs env p w out w' :
  create_link_impl env p w = (Ret out, w') → topology_ok (w_db w) → refs_ok (w_db w) →
  (∀ s, others (env_go env s).1 = others s) → (∀ s, derived_only s (env_go env s).1) → refs_ok (w_db w').
Proof.
  intros E Ht Hr Hgo Hder. pose proof (create_others _ _ _ _ _ E Hgo) as Ho.
  destruct (create_Ret _ _ _ _ _ E) as (a & b & a_if & b_if & l & s1 & s2 & new & Hcr).
  destruct (created_devices Hcr) as [[Ha _] [Hb _]], (created_extends Hcr) as (_ & [Hd (new' & Hn)] & _ & Hi).
  destruct (cr_after Hcr) as (rows & m & _ & Haft). apply after_create_world in Haft as (Edb & _). cbn [w_db] in Edb.
  set (s' := set_links (links s2 ++ [l]) s2) in *.
  destruct (Hder s') as [Dd Di _ _]. apply (f_equal (fmap (M := list) fst)) in Dd.
  rewrite <-!list_fmap_compose in Dd. change (dev_id <$> devices (env_go env s').1 = dev_id <$> devices s') in Dd.
  rewrite Edb in *. unfold others in Ho. injection Ho as Oa Or On Ob Om.
  assert (if_device_id <$> interfaces s' ⊆ dev_id <$> devices (w_db w)) as Hif.
  { intros x (i & -> & Hin)%list_elem_of_fmap. rewrite Hn in Hin. apply elem_of_app in Hin as [Hin|Hin].
    { by apply (rf_interfaces _ Hr), list_elem_of_fmap_2. }
    destruct (cr_session Hcr) as (_ & _ & _ & Es). rewrite Hi, Es in Hn. apply app_inv_head in Hn. subst new'.
    destruct (cr_new Hcr i Hin) as (_ & _ & Hid).
    assert (get_interface s' (if_id i) = Some i) as Gi.
    { apply get_interface_key; [apply (cr_constraints Hcr)|]. rewrite Hi, Es. apply elem_of_app. by right. }
    destruct (created_interfaces Hcr) as [Ga Gb], (cr_a Hcr) as [_ Da], (cr_b Hcr) as [_ Db]. fold s' in Ga, Gb.
    apply elem_of_cons in Hid as [Hid|[Hid|[]%elem_of_nil]%elem_of_cons]; rewrite Hid in Gi;
      [rewrite Gi in Ga; injection Ga as ->; rewrite Da|rewrite Gi in Gb; injection Gb as ->; rewrite Db];
      by apply list_elem_of_fmap_2. }
  assert (if_id <$> interfaces (w_db w) ⊆ if_id <$> interfaces s') as Hids.
  { rewrite Hn, fmap_app. intros x Hx. apply elem_of_app. by left. }
  destruct Hr as [Ri Rd Ra Rr Rn Rm].
  split; rewrite ?Dd, ?Di, ?Hd, ?Oa, ?Or, ?On, ?Ob, ?Om; try done; by etrans.
Qed.

(** ** Requests *)

(** An update or override of a link runs on whatever the services' caches hold. *)
Inductive NetOp {G : Type} `{NxGraph G} :=
  | LinkRequest (o : LinkOp)
  | UpdateLink (env : LinkEnv) (sv : Services (G := G)) (lid : string) (u : LinkUpdate)
  | OverrideLink (env : LinkEnv) (sv : Services (G := G)) (lid : string) (b : OverrideBody)
  | CreateDevice (env : DEnv) (p : DeviceCreate)
  | UpdateDevice (env : DEnv) (k : string) (u : DeviceUpdate)
  | DeleteDevice (env : DEnv) (k : string)
  | OverrideDevice (env : DEnv) (k : string) (b : OverrideBody).

Arguments NetOp G {_}.

Definition net_op {row_ids : RowIds} {G} `{NxGraph G} `{Dijkstra G} (n : Net) (o : NetOp G) : Net :=
  match o with
  | LinkRequest o => on_world (λ w, link_op w o) n
  | UpdateLink env sv lid u => on_world (λ w, (update_link_impl env lid u (w, sv)).2.1) n
  | OverrideLink env sv lid b => on_world (λ w, (set_link_override_impl env lid b (w, sv)).2.1) n
  | CreateDevice env p => (create_device_impl (G := G) env p n).2
  | UpdateDevice env k u => (update_device_impl (G := G) env k u n).2
  | DeleteDevice env k => (delete_device_impl env k n).2
  | OverrideDevice env k b => (set_device_override_impl (G := G) env k b n).2
  end.

(** What the services called after a link request may write. *)
Definition writes_derived (env : Env) : Prop :=
  ∀ s, derived_only s (env_go env s).1 ∧ others (env_go env s).1 = others s.

Lemma triple_snd {A} (h : Handler A) n : triple net_ok h (λ _, net_ok) → net_ok n → net_ok (h n).2.
Proof. intros Hh Hn. specialize (Hh n Hn). by destruct (h n) as [[]?]. Qed.

Lemma link_request_ok o n : writes_derived (op_env o) → net_ok n → net_ok (on_world (λ w, link_op w o) n).
Proof.
  intros Hgo [Ht Ha Hr Hl]. destruct (link_op_inv (n_world n) o (λ s, proj1 (Hgo s)) Ht Hl) as [Ht' Hl'].
  assert (others (w_db (link_op (n_world n) o)) = others (net_db n) ∧ refs_ok (w_db (link_op (n_world n) o))) as [Ho Hr'].
  { destruct o as [env p|env lid]; simpl in *.
    - destruct (create_link_impl env p (n_world n)) as [r w'] eqn:E. simpl. destruct r as [out|e|].
      2,3: apply create_refused in E as ->; [done|by intros].
      split; [by eapply create_others; [exact E|apply Hgo]|].
      eapply create_refs; [exact E|done|done|apply Hgo..].
    - destruct (delete_link_impl env lid (n_world n)) as [r w'] eqn:E. simpl.
      apply delete_run in E as [(_ & _ & ->)|(_ & _ & -> & _)]; [done|].
      set (s1 := set_links _ _). destruct (Hgo s1) as [[Dd Di _ _] Ho]. split; [by rewrite Ho|].
      apply (f_equal (fmap (M := list) fst)) in Dd. rewrite <-!list_fmap_compose in Dd.
      change (dev_id <$> devices (env_go env s1).1 = dev_id <$> devices (net_db n)) in Dd.
      unfold others in Ho. injection Ho as Oa Or On Ob Om. destruct Hr as [Ri Rd Ra Rr Rn Rm].
      split; rewrite ?Dd, ?Di, ?Oa, ?Or, ?On, ?Ob, ?Om; done. }
  split; try done. unfold net_db, on_world. simpl. unfold others in Ho. injection Ho as Oa _ _ _ _. by rewrite Oa.
Qed.

Lemma link_change_ok {G} `{NxGraph G} (sv : Services (G := G)) n f st' :
  net_ok n → keeps_topology (n_world n, sv) st' → f (n_world n) = st'.1 → net_ok (on_world f n).
Proof.
  intros Hn Hk Hf. assert (on_world f n = on_world (λ _, st'.1) n) as -> by (unfold on_world; by rewrite Hf). clear Hf. revert Hn Hk.
  intros [Ht Ha Hr Hl] (Ht' & Hg & ls & [Hd Hi Hls _] & Ea & Er & En & Eb & Em). cbn in Hi, Ea, Er, En, Eb, Em.
  apply (f_equal (fmap (M := list) fst)) in Hd. rewrite <-!list_fmap_compose in Hd.
  change (dev_id <$> devices (w_db st'.1) = dev_id <$> devices (net_db n)) in Hd.
  unfold net_db in *. split; [done| | |by apply Hg].
  { change (addr_constraints (addresses (w_db st'.1))). by rewrite Ea. }
  change (refs_ok (w_db st'.1)).
  destruct Hr as [Ri Rd Ra Rr Rn Rm]. split; rewrite ?Hd, ?Hi, ?Ea, ?Er, ?En, ?Eb, ?Em; done.
Qed.

Lemma net_op_ok {row_ids : RowIds} {G} `{NxGraph G} `{Dijkstra G} n (o : NetOp G) :
  (∀ l, o = LinkRequest l → writes_derived (op_env l)) → net_ok n → net_ok (net_op n o).
Proof.
  intros Hgo Hn. destruct o as [o|env sv lid u|env sv lid b|env p|env k u|env k|env k b]; simpl.
  - apply link_request_ok; [by apply Hgo|done].
  - exact (link_change_ok sv n _ _ Hn (update_keeps env lid u (n_world n, sv) (nk_topology n Hn)) eq_refl).
  - exact (link_change_ok sv n _ _ Hn (override_keeps env lid b (n_world n, sv) (nk_topology n Hn)) eq_refl).
  - by apply triple_snd; [apply create_device_ok|].
  - by apply triple_snd; [apply update_device_ok|].
  - by apply triple_snd; [apply delete_device_ok|].
  - by apply triple_snd; [apply override_ok|].
Qed.

(** ** Deletion *)

Definition event_entity (e : EventStoreRecord) : option string :=
  match dict_get (payload e) "entity_id" with Some (JStr k) => Some k | _ => None end.

Lemma domain_event_Ret env ty k data rows rows' :
  domain_event env ty k data rows = Ret rows' → dict_get data "entity_id" = None →
  ∃ e, rows' = rows ++ [e] ∧ event_type e = ty ∧ event_entity e = Some k.
Proof.
  unfold domain_event, append_domain_event. destruct (negb _); [done|]. intros [= <-] Hd. eexists. split; [done|]. split; [done|].
  unfold event_entity, setdefault. simpl. rewrite Hd. repeat case_match; simplify_eq;
    repeat match goal with H : context [dict_get (dict_set _ _ _) _] |- _ => rewrite dict_get_set in H; simpl in H end; try congruence.
Qed.

Lemma link_events_Ret env (f : Link → Payload) ls rows :
  (∀ l, dict_get (f l) "entity_id" = None) →
  ∃ new, foldl (λ acc l, acc ≫= domain_event env "LINK_DELETED" (link_id l) (f l)) (Ret rows) ls = Ret (rows ++ new) ∧
    (λ e, (event_type e, event_entity e)) <$> new = (λ l, ("LINK_DELETED", Some (link_id l))) <$> ls.
Proof.
  intros Hf. revert rows. induction ls as [|l ls IH]; intros rows; simpl; [exists []; by rewrite app_nil_r|].
  destruct (domain_event env "LINK_DELETED" (link_id l) (f l) rows) as [r|e|] eqn:E; [|done..].
  apply domain_event_Ret in E as (e & -> & Et & Ee); [|done].
  destruct (IH (rows ++ [e])) as (new & -> & En). exists (e :: new). rewrite <-app_assoc. split; [done|].
  csimpl. by rewrite Et, Ee, En.
Qed.

Lemma distinct_links_spec seen ls :
  NoDup (link_id <$> distinct_links seen ls) ∧
  (∀ l, l ∈ distinct_links seen ls → l ∈ ls ∧ link_id l ∉ seen) ∧
  (∀ l, l ∈ ls → link_id l ∉ seen → link_id l ∈ link_id <$> distinct_links seen ls).
Proof.
  revert seen. induction ls as [|l ls IH]; intros seen; simpl; [split; [constructor|set_solver]|].
  destruct (mem (link_id l) seen) eqn:E.
  - apply mem_true in E. destruct (IH seen) as (H1 & H2 & H3). split; [done|]. split.
    + intros l' Hl'. destruct (H2 l' Hl'). split; [by right|done].
    + intros l' [->|Hl']%elem_of_cons Hn; [done|]. by apply H3.
  - apply mem_false in E. destruct (IH (link_id l :: seen)) as (H1 & H2 & H3). csimpl. split; [|split].
    + apply NoDup_cons. split; [|done]. intros (l' & Eid & Hl')%list_elem_of_fmap. destruct (H2 l' Hl') as [_ Hn].
      apply Hn. rewrite Eid. by left.
    + intros l' [->|Hl']%elem_of_cons; [split; [by left|done]|]. destruct (H2 l' Hl') as [? Hn]. split; [by right|].
      intros ?. apply Hn. by right.
    + intros l' [->|Hl']%elem_of_cons Hn; [by left|]. destruct (decide (link_id l' = link_id l)) as [->|Hne]; [by left|].
      right. apply H3; [done|]. set_solver.
Qed.

Lemma links_of_device_spec s k :
  keys_ok s →
  let ls := links_of_device s (if_id <$> interfaces_of s k) in
  NoDup (link_id <$> ls) ∧ ∀ l, l ∈ ls ↔ l ∈ links s ∧
    (mem (a_interface_id l) (if_id <$> interfaces_of s k) || mem (b_interface_id l) (if_id <$> interfaces_of s k)) = true.
Proof.
  intros Hk. unfold links_of_device. set (ids := if_id <$> interfaces_of s k).
  set (all := j ← ids; filter (λ l, a_interface_id l = j) (links s) ++ filter (λ l, b_interface_id l = j) (links s)).
  assert (∀ l, l ∈ all ↔ l ∈ links s ∧ mem (a_interface_id l) ids || mem (b_interface_id l) ids = true) as Hall.
  { intros l. subst all. rewrite list_elem_of_bind, orb_true_iff, !mem_true. setoid_rewrite elem_of_app.
    setoid_rewrite list_elem_of_filter. naive_solver. }
  destruct (distinct_links_spec [] all) as (H1 & H2 & H3). split; [done|]. intros l. rewrite <-Hall. split; [by intros [? _]%H2|].
  intros Hl. destruct (list_elem_of_fmap_1 _ _ _ (H3 l Hl ltac:(set_solver))) as (l' & Eid & Hl').
  assert (l = l') as ->; [|done]. apply Hall in Hl as [Hl _]. apply H2 in Hl' as [[Hl' _]%Hall _].
  apply (get_link_key s) in Hl, Hl'; [|done..]. rewrite Eid in Hl. congruence.
Qed.

(** ** The property *)


Definition denv0 : DEnv := mkDEnv "t" (λ _, DbOk) true true false false true true false offline None.

Definition empty_net : Net :=
  mkNet (mkWorld (mkDB [] [] [] [] [] [] [] [] []) fresh_state [] [] 0 []) [] [] [] (mkCatalog [] [] []).

Lemma empty_net_ok : net_ok empty_net.
Proof.
  split; [split; try (intros; by set_solver); apply (bool_decide_unpack _); vm_compute; exact I|
          split; constructor|split; set_solver|apply gapless_nil].
Qed.

Definition new_request (k : string) (t : DeviceType) (parent : option string) : NetOp AssocGraph :=
  CreateDevice denv0 (mkDeviceCreate k k t UP parent None).

Definition small_network : list (NetOp AssocGraph) := [
  new_request "pop" POP None; new_request "cr" CORE_ROUTER None; new_request "olt" OLT (Some "pop");
  LinkRequest (OpCreate env0 (LinksProofs.request "cr-if0" "olt-if0" "cr__olt" None));
  OverrideDevice denv0 "olt" (OverrideText "DOWN");
  OverrideLink link_env0 no_services "cr__olt" (OverrideText "UP"); new_request "olt" OLT None; DeleteDevice denv0 "cr"].

Lemma env0_writes_derived : writes_derived env0.
Proof. intros s. split; [apply env0_derived|done]. Qed.

Lemma small_network_derived l : LinkRequest l ∈ small_network → writes_derived (op_env l).
Proof.
  intros Hl. assert (op_env l = env0) as ->; [|apply env0_writes_derived].
  repeat (apply elem_of_cons in Hl as [E|Hl]; [by simplify_eq|]). by apply elem_of_nil in Hl.
Qed.

