(* ===== verification/DevicesRuns.v ===== *)
(** The exact effect of the device handlers: what a deletion removes, which
    ports a new device has. *)

From stdpp Require Import pretty.
From S2P Require Import Prelude PyFloat Models LinkRules Worklist Adjacency Scenario Catalog LinkStatus L3Trace.
From S2P Require Import EventStore Errors IpAddr Ipam MacAllocator Splitter L3Auto LinkPolicy Links.
From S2P Require Import NxGraph Pathfinding Dependency DependencyProofs Status StatusRecompute CausalChain StatusClient.
From S2P Require Import OpticalPath OpticalPathProofs OpticalService LinksProofs Devices LinkChanges LinkChangesProofs DevicesProofs.

(** The interface [j] belongs to the device [k]. *)
Definition attached (s : DB) (k j : string) : Prop := if_device_id <$> get_interface s j = Some k.

#[export] Instance attached_dec s k j : Decision (attached s k j).
Proof. unfold attached. apply _. Defined.

Lemma gone_attached s k j : keys_ok s → mem j (if_id <$> interfaces_of s k) = true ↔ attached s k j.
Proof.
  intros Hk. unfold attached. rewrite mem_true, list_elem_of_fmap. unfold interfaces_of. setoid_rewrite list_elem_of_filter. split.
  - intros (i & -> & Hd & Hi). rewrite (get_interface_key s i) by done. simpl. congruence.
  - intros (i & [Hi <-]%get_interface_Some & ->)%fmap_Some_1. eauto.
Qed.

Lemma not_gone_attached s k j : keys_ok s → mem j (if_id <$> interfaces_of s k) = false ↔ ¬ attached s k j.
Proof. intros Hk. rewrite <-(gone_attached s k j Hk). by destruct (mem _ _). Qed.

Lemma bind_reads {A B} (g : Net → A) (f : A → Handler B) n : (reads g ≫= f) n = f (g n) n.
Proof. done. Qed.

Lemma bind_lift_Ret {A B} (o : Outcome A) (f : A → Handler B) n a : o = Ret a → (lift o ≫= f) n = f a n.
Proof. by intros ->. Qed.

Lemma bind_commit {B} (f : unit → Handler B) n' n : db_constraints n' → (commit n' ≫= f) n = f tt n'.
Proof. intros Hc. unfold mbind, Handler_bind, commit. by rewrite bool_decide_true. Qed.

(** A deletion that is not refused. *)
Lemma delete_run' env k d n :
  net_ok n → get_device (net_db n) k = Some d →
  if denv_foreign_keys env && dangling k n (purge_device k n)
  then delete_device_impl env k n = (Raise ConstraintViolation, n)
  else ∃ n' new, delete_device_impl env k n = (Ret tt, n') ∧ net_db n' = net_db (purge_device k n) ∧
    w_topo (n_world n') = (w_topo (n_world n) + 1)%Z ∧ w_rows (n_world n') = w_rows (n_world n) ++ new ∧
    (λ e, (event_type e, event_entity e)) <$> new = ("DEVICE_DELETED", Some k) ::
      ((λ l, ("LINK_DELETED", Some (link_id l))) <$> links_of_device (net_db n) (if_id <$> interfaces_of (net_db n) k)).
Proof.
  intros Hn Hd. destruct (get_device_Some _ _ _ Hd) as [_ <-]. unfold delete_device_impl. rewrite bind_reads. unfold id.
  rewrite (bind_lift_Ret _ _ _ d) by (by apply or_raise_Ret). cbv zeta.
  set (s := net_db n). set (ids := if_id <$> interfaces_of s (dev_id d)). set (ls := links_of_device s ids).
  assert (∃ new, deletion_events env d ids ls (w_rows (n_world n)) = Ret (w_rows (n_world n) ++ new) ∧
    (λ e, (event_type e, event_entity e)) <$> new = ("DEVICE_DELETED", Some (dev_id d)) ::
      ((λ l, ("LINK_DELETED", Some (link_id l))) <$> ls)) as (new & Enew & Hnew).
  { unfold deletion_events. destruct (domain_event env "DEVICE_DELETED" _ _ _) as [r|e|] eqn:E; [|done..].
    apply domain_event_Ret in E as (e & -> & Et & Ee); [|done].
    destruct (link_events_Ret env (λ _, [("deleted_by_device_id", JStr (dev_id d))]) ls (w_rows (n_world n) ++ [e]))
      as (new & E & Ekeys); [done|]. cbn [mbind Outcome_bind]. exists (e :: new). rewrite E, <-app_assoc. split; [done|].
    csimpl. by rewrite Et, Ee, Ekeys. }
  rewrite (bind_lift_Ret _ _ _ _ Enew).
  destruct (denv_foreign_keys env && dangling (dev_id d) n (purge_device (dev_id d) n)); [done|].
  rewrite (bind_lift_Ret _ _ _ tt) by done. rewrite bind_commit.
  2:{ split; [apply (purge_constraints (dev_id d) n), Hn|apply (purge_addresses (dev_id d) n), Hn]. }
  eexists _, new. split; [reflexivity|]. done.
Qed.

(** The interfaces of [k] as [purge_device] collects them. *)
Lemma purged_filter {A} (f : A → string) s k (l : list A) :
  keys_ok s → filter (λ x, mem (f x) (if_id <$> interfaces_of s k) = false) l = filter (λ x, ¬ attached s k (f x)) l.
Proof. intros Hk. apply filter_ext_elem. intros x _. by apply not_gone_attached. Qed.

Definition detached_link (s : DB) (k : string) (l : Link) : Prop :=
  ¬ attached s k (a_interface_id l) ∧ ¬ attached s k (b_interface_id l).

Definition detached_route (s : DB) (k : string) (r : Route) : Prop :=
  match route_interface_id r with Some i => ¬ attached s k i | None => True end.

#[export] Instance detached_route_dec s k r : Decision (detached_route s k r).
Proof. unfold detached_route. destruct (route_interface_id r); apply _. Defined.

#[export] Instance detached_link_dec s k l : Decision (detached_link s k l).
Proof. unfold detached_link. apply _. Defined.

(** The database without a device and all that hangs on its interfaces. *)
Definition without_device (s : DB) (k : string) : DB :=
  mkDB (filter (λ d, dev_id d ≠ k) (devices s)) (filter (λ i, if_device_id i ≠ k) (interfaces s))
    (filter (detached_link s k) (links s)) (media s)
    (filter (λ a, ¬ attached s k (addr_interface_id a)) (addresses s)) (filter (detached_route s k) (routes s))
    (filter (λ b, ¬ attached s k (neigh_interface_id b)) (neighbors s))
    (filter (λ b, bd_device_id b ≠ k) (bridge_domains s))
    (filter (λ e, ¬ attached s k (mac_interface_id e)) (mac_entries s)).

Lemma purge_without k n : keys_ok (net_db n) → net_db (purge_device k n) = without_device (net_db n) k.
Proof.
  intros Hk. pose proof (purge_interfaces k n Hk) as Hi. unfold without_device. rewrite <-Hi, <-!(purged_filter _ _ k) by done.
  rewrite (filter_ext_elem (detached_link _ k) (λ l, mem (a_interface_id l) (if_id <$> interfaces_of (net_db n) k) ||
    mem (b_interface_id l) (if_id <$> interfaces_of (net_db n) k) = false)).
  2:{ intros l _. unfold detached_link. by rewrite orb_false_iff, !not_gone_attached. }
  rewrite (filter_ext_elem (detached_route _ k) (λ r, match route_interface_id r with
    Some i => mem i (if_id <$> interfaces_of (net_db n) k) | None => false end = false)); [done|].
  intros r _. unfold detached_route. destruct (route_interface_id r); [by rewrite not_gone_attached|done].
Qed.


(** ** The ports of a new device *)

Lemma bind_Ret_run {A B} (h : Handler A) (f : A → Handler B) n b n' :
  (h ≫= f) n = (Ret b, n') → ∃ a n1, h n = (Ret a, n1) ∧ f a n1 = (Ret b, n').
Proof. unfold mbind, Handler_bind. destruct (h n) as [[a|e|] n1]; [eauto|done..]. Qed.

Lemma reads_Ret_run {A} (g : Net → A) n b n' : reads g n = (Ret b, n') → g n = b ∧ n' = n.
Proof. unfold reads. by intros [= -> ->]. Qed.

Lemma lift_Ret_run {A} (o : Outcome A) n b n' : lift o n = (Ret b, n') → o = Ret b ∧ n' = n.
Proof. unfold lift. by intros [= -> ->]. Qed.

Lemma transaction_Ret_run {A} (o : Outcome A) m n b n' : in_transaction o m n = (Ret b, n') → o = Ret b ∧ n' = n.
Proof. unfold in_transaction. destruct o; [|done..]. by intros [= -> ->]. Qed.

Lemma commit_Ret_run n1 n n' u : commit n1 n = (Ret u, n') → db_constraints n1 ∧ n' = n1.
Proof. unfold commit. case_bool_decide; [|done]. by intros [= _ ->]. Qed.

(** Decomposes a run of a handler that returned. *)
Ltac run H :=
  repeat match type of H with
  | (_ ≫= _) _ = (Ret _, _) =>
      let a := fresh "a" in let m := fresh "n" in let E := fresh "E" in
      apply bind_Ret_run in H as (a & m & E & H);
      first [ apply reads_Ret_run in E as [<- ->]; unfold id in H
            | apply lift_Ret_run in E as [E ->]
            | apply transaction_Ret_run in E as [E ->]
            | apply commit_Ret_run in E as [? ->]
            | idtac ]
  end.

(** The port names that get a row, given the ids already in use. *)
Fixpoint fresh_names (d : string) (used : list string) (names : list string) : list string :=
  match names with
  | [] => []
  | nm :: rest =>
      let k := d +:+ "-" +:+ nm in
      if mem k used then fresh_names d used rest else nm :: fresh_names d (k :: used) rest
  end.

Definition new_keys (d : string) (names : list string) : list (string * string * string) :=
  (λ nm, (d +:+ "-" +:+ nm, d, nm)) <$> names.

Definition keys_of (n : Net) : list (string * string * string) := if_key <$> interfaces (net_db n).

Lemma get_interface_ids s k : is_Some (get_interface s k) ↔ k ∈ if_id <$> interfaces s.
Proof.
  split.
  - intros [i [Hi <-]%get_interface_Some]. by apply list_elem_of_fmap_2.
  - intros (i & -> & Hi)%list_elem_of_fmap. eapply find_row_is_Some; [exact Hi|]. apply String.eqb_refl.
Qed.

Lemma fresh_names_ext d used used' names :
  (∀ k, k ∈ used ↔ k ∈ used') → fresh_names d used names = fresh_names d used' names.
Proof.
  revert used used'. induction names as [|nm names IH]; intros used used' Hu; simpl; [done|].
  assert (mem (d +:+ "-" +:+ nm) used = mem (d +:+ "-" +:+ nm) used') as ->.
  { destruct (mem _ used') eqn:E; [apply mem_true, Hu, mem_true, E|]. apply mem_false. rewrite Hu. by apply mem_false. }
  destruct (mem _ used'); [by apply IH|]. f_equal. apply IH. set_solver.
Qed.

Definition session_rows (ps : PortSession) : list Interface := interfaces (ps_db ps) ++ ps_pending ps.

(** One port: its name is taken, or a row is added. *)
Lemma add_port_run env d p nm ps m ps' m' :
  add_port env d (p, nm) ps m = (Ret ps', m') →
  (session_rows ps' = session_rows ps ∧ ps_created ps' = ps_created ps ∧ port_id d nm ∈ if_id <$> session_rows ps) ∨
  (∃ i, session_rows ps' = session_rows ps ++ [i] ∧ ps_created ps' = true ∧ if_key i = (port_id d nm, dev_id d, nm)).
Proof.
  unfold add_port. destruct (if denv_get_flushes env then _ else _) as [ps1|x|] eqn:Ef; [|done..].
  assert (session_rows ps1 = session_rows ps ∧ ps_created ps1 = ps_created ps) as [<- <-].
  { destruct (denv_get_flushes env); [|by injection Ef as <-]. unfold flush_ports in Ef. revert Ef.
    case_bool_decide; [|done]. intros [= <-]. split; [|done]. unfold session_rows. simpl. by rewrite app_nil_r. }
  destruct (get_interface (ps_db ps1) (port_id d nm)) as [i|] eqn:Ei.
  - intros [= <- _]. left. split; [done|]. split; [done|]. unfold session_rows. rewrite fmap_app. apply elem_of_app. left.
    apply get_interface_ids. by rewrite Ei.
  - destruct (match speed_gbps p with Some _ => _ | None => _ end) as [cap|]; [|done].
    destruct (next_mac _ _) as [[mac m1]|]; [|done]. intros [= <- _]. right. exists (port_row d p nm mac cap).
    unfold session_rows. simpl. by rewrite app_assoc.
Qed.

Lemma add_ports_created env d plan ps m ps' m' :
  add_ports env d plan ps m = (Ret ps', m') → ps_created ps = true → ps_created ps' = true.
Proof.
  revert ps m. induction plan as [|[p nm] plan IH]; intros ps m; cbn [add_ports]; [by intros [= <- _]|].
  destruct (add_port env d (p, nm) ps m) as [[ps1|x|] m1] eqn:E; [|done..]. intros E' Hc. eapply IH; [exact E'|].
  apply add_port_run in E as [(_ & Ec & _)|(? & _ & Ec & _)]; congruence.
Qed.

(** With distinct ids in the end, exactly the fresh names were added. *)
Lemma add_ports_keys env d plan ps m ps' m' :
  add_ports env d plan ps m = (Ret ps', m') → NoDup (if_id <$> session_rows ps') →
  if_key <$> session_rows ps' =
    (if_key <$> session_rows ps) ++ new_keys (dev_id d) (fresh_names (dev_id d) (if_id <$> session_rows ps) plan.*2).
Proof.
  revert ps m. induction plan as [|[p nm] plan IH]; intros ps m; cbn [add_ports]; [intros [= <- _] _; by rewrite app_nil_r|].
  destruct (add_port env d (p, nm) ps m) as [[ps1|x|] m1] eqn:E; [|done..]. intros E' Hnd.
  pose proof (IH ps1 m1 E' Hnd) as IH1. rewrite IH1. csimpl. cbn [fresh_names].
  change (dev_id d +:+ "-" +:+ nm) with (port_id d nm).
  apply add_port_run in E as [(Er & Ec & Hin)|(i & Er & Ec & Ekey)].
  - rewrite Er. apply mem_true in Hin. by rewrite Hin.
  - assert (if_id i = port_id d nm) as Hid by (by injection Ekey).
    assert (port_id d nm ∉ if_id <$> session_rows ps) as Hout.
    { assert ((if_id <$> session_rows ps1) `prefix_of` (if_id <$> session_rows ps')) as [r Hr].
      { apply (f_equal (fmap (M := list) (λ q : string * string * string, q.1.1))) in IH1.
        rewrite fmap_app, <-!list_fmap_compose in IH1. by eexists. }
      rewrite Hr, Er, fmap_app in Hnd. apply NoDup_app in Hnd as [Hnd _]. apply NoDup_app in Hnd as (_ & Hx & _).
      intros Hin. apply (Hx _ Hin). rewrite <-Hid. by left. }
    apply mem_false in Hout. rewrite Hout. rewrite Er, !fmap_app. csimpl. rewrite <-app_assoc, Ekey. csimpl.
    do 3 f_equal. apply fresh_names_ext. rewrite Hid. intros k. set_solver.
Qed.

Lemma add_ports_idle env d plan ps m ps' m' :
  add_ports env d plan ps m = (Ret ps', m') → ps_created ps' = false → session_rows ps' = session_rows ps.
Proof.
  revert ps m. induction plan as [|[p nm] plan IH]; intros ps m; cbn [add_ports]; [by intros [= <- _]|].
  destruct (add_port env d (p, nm) ps m) as [[ps1|x|] m1] eqn:E; [|done..]. intros E' Hc. rewrite (IH ps1 m1 E' Hc).
  apply add_port_run in E as [(Er & _ & _)|(? & _ & Ec & _)]; [done|].
  by rewrite (add_ports_created _ _ _ _ _ _ _ E' Ec) in Hc.
Qed.

(** ** The handlers, when they return *)

Section runs.
Context {row_ids : RowIds} {G : Type} `{NxGraph G}.

Definition default_tariff (c : Catalog) (t : DeviceType) : option Z :=
  tech ← required_technology t;
  t_id <$> head (sort_by (λ x y, str_leb (t_name x) (t_name y)) (filter (λ t, technology t = Some tech) (tariffs c))).

Lemma insert_run env p n d n1 :
  insert_device env p n = (Ret d, n1) →
  let c := ensure_default_tariffs (n_catalog n) in
  ∃ hw, choose_hardware env c p = Ret hw ∧ d = new_device c p hw ∧ check_create env (net_db n) p = Ret tt ∧
    n_catalog n1 = c ∧ net_db n1 = set_devices (devices (net_db n) ++ [d]) (net_db n).
Proof.
  unfold insert_device. intros E. run E. cbv zeta. injection E as <- <-.
  match goal with H : choose_hardware _ _ _ = Ret ?hw |- _ => exists hw end.
  split_and!; try done. by repeat match goal with u : unit |- _ => destruct u end.
Qed.

Lemma assign_run d n d' n1 :
  assign_default_tariff d n = (Ret d', n1) → tariff_id d = None →
  d' = with_tariff (default_tariff (n_catalog n) (dev_type d)) d ∧ n_catalog n1 = n_catalog n ∧
  ((n1 = n ∧ d' = d) ∨ net_db n1 = write_device d' (net_db n)).
Proof.
  unfold assign_default_tariff, default_tariff. intros E Hd.
  assert (with_tariff None d = d) as Hsame by (by destruct d; simpl in *; subst).
  destruct (required_technology (dev_type d)) as [tech|]; cbn [mbind option_bind]; [|injection E as <- <-; rewrite Hsame; eauto].
  run E. destruct (sort_by _ _) as [|t ts]; simpl; [injection E as <- <-; rewrite Hsame; eauto|].
  run E. injection E as <- <-. split; [done|]. split; [done|]. by right.
Qed.

(** The steps after the row is written add interfaces, and keep the rest. *)
Definition adds (new : list (string * string * string)) (n n' : Net) : Prop :=
  keys_of n' = keys_of n ++ new ∧ devices (net_db n') = devices (net_db n) ∧ n_catalog n' = n_catalog n.

Lemma adds_nothing n : adds [] n n.
Proof. unfold adds. by rewrite app_nil_r. Qed.

Lemma adds_trans new1 new2 n1 n2 n3 : adds new1 n1 n2 → adds new2 n2 n3 → adds (new1 ++ new2) n1 n3.
Proof. unfold adds. intros (-> & -> & ->) (-> & -> & ->). by rewrite app_assoc. Qed.

Lemma ensure_domain_run d n u n' : ensure_default_domain d n = (Ret u, n') → adds [] n n'.
Proof.
  unfold ensure_default_domain. destruct (mem _ _); [|intros [= _ <-]; apply adds_nothing].
  intros E. apply bind_Ret_run in E as (m & ? & [<- ->]%reads_Ret_run & E). unfold id in E.
  destruct (default_domain _ _); [injection E as _ <-; apply adds_nothing|].
  apply commit_Ret_run in E as [_ ->]. unfold adds, keys_of. by rewrite app_nil_r.
Qed.

Lemma join_row_key d b i : if_key (join_row d b i) = if_key i.
Proof. unfold join_row. by destruct (joins_domain d i). Qed.

Lemma join_domain_run d n u n' : join_default_domain d n = (Ret u, n') → adds [] n n'.
Proof.
  unfold join_default_domain. destruct (mem _ _); [|intros [= _ <-]; apply adds_nothing].
  intros E. apply bind_Ret_run in E as (m & ? & [<- ->]%reads_Ret_run & E). unfold id in E.
  destruct (default_domain _ _) as [b|]; [|injection E as _ <-; apply adds_nothing].
  cbv zeta in E. destruct (existsb _ _); [|injection E as _ <-; apply adds_nothing].
  apply commit_Ret_run in E as [_ ->]. unfold adds, keys_of. rewrite app_nil_r. split_and!; try done.
  cbn. rewrite <-list_fmap_compose. apply list_fmap_ext. intros _ i _. apply join_row_key.
Qed.

Lemma commit_ports_run env pend s m n u n' :
  commit_ports env pend s m n = (Ret u, n') →
  net_db n' = s ∧ constraints s ∧ n_catalog n' = n_catalog n.
Proof. unfold commit_ports. intros E. run E. apply commit_Ret_run in E as [[Hc _] ->]. done. Qed.

Lemma create_ports_run env d hw n u n' :
  NoDup (if_id <$> interfaces (net_db n)) → create_ports env d hw n = (Ret u, n') →
  adds (new_keys (dev_id d)
          (fresh_names (dev_id d) (if_id <$> interfaces (net_db n)) (port_plan (n_catalog n) hw).*2)) n n'.
Proof.
  intros Hk E. unfold create_ports in E. apply bind_Ret_run in E as (m & ? & [<- ->]%reads_Ret_run & E). unfold id in E.
  destruct (add_ports env d (port_plan (n_catalog n) hw) _ _) as [r m] eqn:Ea. run E.
  match goal with H : r = Ret ?x |- _ => subst r; rename x into ps end.
  apply join_domain_run in E. eapply (adds_trans _ [] n) in E; [rewrite app_nil_r in E; exact E|]. clear E.
  assert (ports_from (net_db n) (dev_id d) ps) as (new & Edb & _).
  { eapply add_ports_ok; [exact Ea|]. exists []. split; [done|]. by intros ? ?%elem_of_nil. }
  assert (devices (ps_db ps) = devices (net_db n)) as Hd by (by injection Edb).
  pose proof (add_ports_keys _ _ _ _ _ _ _ Ea) as Hkeys. unfold session_rows in Hkeys. cbn in Hkeys. rewrite !app_nil_r in Hkeys.
  destruct (ps_created ps) eqn:Hc; match goal with H : _ = (Ret _, _) |- _ => rename H into E1 end.
  - apply commit_ports_run in E1 as (Edb' & Hcs & Ec). unfold adds, keys_of. rewrite Edb', Ec.
    split; [|done]. apply Hkeys, (interfaces_key _ (c_keys _ Hcs)).
  - injection E1 as _ <-. pose proof (add_ports_idle _ _ _ _ _ _ _ Ea Hc) as Hs. unfold session_rows in Hs. cbn in Hs.
    rewrite app_nil_r in Hs. unfold adds, keys_of. split; [|done]. rewrite <-Hkeys; cbn; rewrite Hs; done.
Qed.

Lemma fresh_names_all d used names :
  NoDup (used ++ ((λ nm, d +:+ "-" +:+ nm) <$> names)) → fresh_names d used names = names.
Proof.
  revert used. induction names as [|nm names IH]; intros used; csimpl; [done|]. cbn [fresh_names].
  rewrite NoDup_app, NoDup_cons. intros (Hu & Hd & Hnm & Hn).
  assert (mem (d +:+ "-" +:+ nm) used = false) as -> by (apply mem_false; intros Hin; apply (Hd _ Hin); by left).
  f_equal. apply IH. apply NoDup_app. split; [apply NoDup_cons; split; [|done]|split; [|done]].
  - intros Hin. apply (Hd _ Hin). by left.
  - intros x [->|Hx]%elem_of_cons; [done|]. intros Hin. apply (Hd x Hx). by right.
Qed.

(** The names of the ports of a device without a hardware model. *)
Definition default_names (t : DeviceType) : list string :=
  if bool_decide (t = SPLITTER) then port_names DEFAULT_SPLIT_RATIO else ["if0"].

Lemma splitter_ports s d :
  interfaces_of s (dev_id d) = [] → dev_type d = SPLITTER →
  interfaces (ensure_default_ports_for_splitter s d (Some DEFAULT_SPLIT_RATIO)) =
    interfaces s ++ ((λ nm, interface0 (port_id d nm) (dev_id d) nm) <$> port_names DEFAULT_SPLIT_RATIO).
Proof.
  intros Hno Ht. unfold ensure_default_ports_for_splitter. rewrite bool_decide_true, Hno by done. cbn [negb interfaces set_interfaces].
  rewrite filter_all; [done|]. intros nm _. by intros ?%elem_of_nil.
Qed.

Lemma default_ports_run env d n u n' :
  interfaces_of (net_db n) (dev_id d) = [] → default_ports env d n = (Ret u, n') →
  adds (new_keys (dev_id d) (fresh_names (dev_id d) (if_id <$> interfaces (net_db n)) (default_names (dev_type d)))) n n'.
Proof.
  intros Hno E. unfold default_ports in E. apply bind_Ret_run in E as (m & ? & [<- ->]%reads_Ret_run & E). unfold id in E.
  cbv zeta in E. unfold default_names. case_bool_decide as Ht.
  - apply commit_ports_run in E as (Edb & Hc & Ec). unfold adds, keys_of. rewrite Edb, Ec.
    pose proof (interfaces_key _ (c_keys _ Hc)) as Hnd. rewrite splitter_ports in Hnd |- * by done.
    split; [|by unfold ensure_default_ports_for_splitter; destruct (negb _)].
    rewrite fmap_app, <-list_fmap_compose in Hnd. rewrite fmap_app, <-list_fmap_compose. by rewrite fresh_names_all by exact Hnd.
  - destruct (get_interface (net_db n) (port_id d "if0")) as [i|] eqn:Ei.
    + injection E as _ <-. cbn [fresh_names]. rewrite (proj2 (mem_true _ _)); [apply adds_nothing|].
      apply get_interface_ids. unfold port_id in Ei. by rewrite Ei.
    + destruct (next_mac _ _) as [[mac m]|]; [|done].
      apply commit_ports_run in E as (Edb & Hc & Ec). unfold adds, keys_of. rewrite Edb, Ec. split; [|done].
      cbn [fresh_names]. assert (mem (dev_id d +:+ "-" +:+ "if0") (if_id <$> interfaces (net_db n)) = false) as ->.
      { apply mem_false. rewrite <-get_interface_ids. unfold port_id in Ei. rewrite Ei. by intros []. }
      cbn. by rewrite fmap_app.
Qed.

(** A propagation changes statuses only. *)
Lemma propagate_or_warn_only c reply ids s :
  let s' := propagate_or_warn (G := G) c reply ids s in
  if_key <$> interfaces s' = if_key <$> interfaces s ∧
  Forall2 (λ d d', ∃ st, d' = set_status st d) (devices s) (devices s').
Proof.
  destruct (propagate_or_warn_rows (G := G) c reply ids s) as (affected & [E|E]); cbv zeta; rewrite E; (split; [done|]).
  - apply Forall_Forall2_diag, Forall_true. intros d. exists (dev_status d). by destruct d.
  - unfold bulk_update_device_statuses. cbn [devices set_devices]. apply Forall2_fmap_r, Forall_Forall2_diag, Forall_true.
    intros d. cbn -[mem]. destruct (mem _ _ && _); [by eexists|]. exists (dev_status d). by destruct d.
Qed.

Lemma from_model_run d n o n' : from_model (G := G) d n = (Ret o, n') → do_row o = d ∧ n' = n ∧
  do_status o = status_of (G := G) (net_db n) d.
Proof. unfold from_model. intros E. run E. by injection E as <- <-. Qed.

(** The names of the ports a new device gets. *)
Definition initial_names (c : Catalog) (d : Device) : list string :=
  match hardware_model_id d with Some hw => (port_plan c hw).*2 | None => default_names (dev_type d) end.

(** The tariff step writes the row it returns. *)
Lemma assigned_rows d n d' n1 ds :
  assign_default_tariff d n = (Ret d', n1) → tariff_id d = None →
  devices (net_db n) = ds ++ [d] → dev_id d ∉ dev_id <$> ds →
  keys_of n1 = keys_of n ∧ devices (net_db n1) = ds ++ [d'] ∧ n_catalog n1 = n_catalog n.
Proof.
  intros E Ht Hds Hnew. destruct (assign_run d n d' n1 E Ht) as (Ed & Ec & Hw).
  assert (∀ x, update_row (λ r, String.eqb (dev_id r) (dev_id d)) (λ _, x) (ds ++ [d]) = ds ++ [x]) as Hup.
  { intros x. clear -Hnew. induction ds as [|y ds IH]; simpl; [by rewrite String.eqb_refl|].
    destruct (String.eqb_spec (dev_id y) (dev_id d)) as [Ey|_]; [rewrite <-Ey in Hnew; set_solver|]. f_equal. apply IH. set_solver. }
  destruct Hw as [[-> ->]|Edb]; [done|].
  unfold keys_of. rewrite Edb. split_and!; try done. unfold write_device. cbn [devices L3Auto.set_devices].
  assert (dev_id d' = dev_id d) as -> by (by rewrite Ed). by rewrite Hds, Hup.
Qed.

Lemma check_create_Ret env s p :
  check_create env s p = Ret tt → get_device s (dcr_id p) = None ∧ validate_parent_child s (dcr_type p) (dcr_parent p) = None.
Proof.
  unfold check_create, raise_if, check_parent_child.
  destruct (bool_decide (is_Some (get_device s (dcr_id p)))) eqn:Hd; [done|]. cbn [mbind Outcome_bind].
  destruct (_ && existsb _ _); [done|]. cbn [mbind Outcome_bind]. destruct (validate_parent_child _ _ _); [done|].
  intros _. split; [|done]. apply bool_decide_eq_false in Hd. destruct (get_device s (dcr_id p)); [|done]. destruct Hd. eauto.
Qed.

Lemma initial_ports_run env d n u n' :
  NoDup (if_id <$> interfaces (net_db n)) → interfaces_of (net_db n) (dev_id d) = [] →
  match hardware_model_id d with Some hw => create_ports env d hw | None => default_ports env d end n = (Ret u, n') →
  adds (new_keys (dev_id d) (fresh_names (dev_id d) (if_id <$> interfaces (net_db n)) (initial_names (n_catalog n) d))) n n'.
Proof.
  intros Hk Hno. unfold initial_names. destruct (hardware_model_id d) as [hw|]; [by apply create_ports_run|by apply default_ports_run].
Qed.

Lemma keys_of_ids n n' : keys_of n' = keys_of n →
  if_id <$> interfaces (net_db n') = if_id <$> interfaces (net_db n) ∧
  if_device_id <$> interfaces (net_db n') = if_device_id <$> interfaces (net_db n).
Proof.
  intros E. split; [apply (f_equal (fmap (M := list) (λ q : string * string * string, q.1.1))) in E|
                    apply (f_equal (fmap (M := list) (λ q : string * string * string, q.1.2))) in E];
    unfold keys_of in E; by rewrite <-!list_fmap_compose in E.
Qed.

Lemma interfaces_of_nil s k : k ∉ if_device_id <$> interfaces s → interfaces_of s k = [].
Proof.
  intros Hk. destruct (interfaces_of s k) as [|i l] eqn:E; [done|]. destruct Hk.
  assert (i ∈ interfaces_of s k) as [<- Hi]%list_elem_of_filter by (rewrite E; left). by apply list_elem_of_fmap_2.
Qed.

End runs.

(** ** Witnesses *)

Definition small_run (k : nat) : Net := foldl (net_op (row_ids := max_row_ids)) empty_net (take k small_network).

Lemma small_run_ok k : net_ok (small_run k).
Proof.
  unfold small_run. apply foldl_invariant; [|apply empty_net_ok]. intros n o Ho Hn. apply net_op_ok; [|done]. intros l ->.
  apply elem_of_take in Ho as (i & Ho & _). apply small_network_derived. by eapply list_elem_of_lookup_2.
Qed.


Definition ont_request : DeviceCreate := mkDeviceCreate "ont" "ONT 1" ONT UP (Some "olt") None.

