(* ===== verification/PathSearch.v ===== *)
(** Breadth-first search for a path.

    The loop of [_find_path] in [services/optical_physics_model.py]: a queue
    holds whole paths, a step is marked by its key when its path is queued, and
    the first popped path whose last step satisfies [goal] is the answer.  A
    path is kept as its steps before the last and its last step.

    What the loop computes does not depend on the network: it always ends with
    the stated fuel, and its answer is a shortest path, or none when no path
    ends at a goal. *)

From S2P Require Import Prelude.

Section path_search.
Context {S A : Type} `{Countable A}.
Context (key : S → A) (onward : S → list S) (goal : S → bool).

(** One candidate step after the path [p]. *)
Definition path_visit (p : list S) (st : gset A * list (list S * S)) (y : S) : gset A * list (list S * S) :=
  let '(visited, queue) := st in
  if decide (key y ∈ visited) then st else ({[key y]} ∪ visited, queue ++ [(p, y)]).

Fixpoint path_search (fuel : nat) (visited : gset A) (queue : list (list S * S)) : option (option (list S)) :=
  match queue with
  | [] => Some None
  | (p, x) :: rest =>
      match fuel with
      | O => None
      | Datatypes.S fuel' =>
          if goal x then Some (Some (p ++ [x]))
          else
            let '(visited', queue') := foldl (path_visit (p ++ [x])) (visited, rest) (onward x) in
            path_search fuel' visited' queue'
      end
  end.

Definition path_fuel (U : gset A) (seeds : list S) : nat := length seeds + size U.

Definition run_path_search (U : gset A) (seeds : list S) : option (option (list S)) :=
  path_search (path_fuel U seeds) (list_to_set (key <$> seeds)) (pair [] <$> seeds).

(** A path from a seed: the steps before the last, and the last. *)
Inductive trail (seeds : list S) : list S → S → Prop :=
  | trail_seed x : x ∈ seeds → trail seeds [] x
  | trail_step p x y : trail seeds p x → y ∈ onward x → trail seeds (p ++ [x]) y.

(** * One pass over the candidate steps *)

Lemma path_visit_all p ys V q V' q' :
  foldl (path_visit p) (V, q) ys = (V', q') →
  (∀ k, k ∈ V' ↔ k ∈ V ∨ k ∈ key <$> ys) ∧
  (∃ new, q' = q ++ (pair p <$> new) ∧ (∀ y, y ∈ new → y ∈ ys ∧ key y ∉ V) ∧
     (∀ k, k ∈ V' → k ∈ V ∨ k ∈ key <$> new)) ∧
  length q' + size V = length q + size V'.
Proof.
  revert V q. induction ys as [|y ys IH]; intros V q; cbn [foldl].
  - intros [= <- <-]. split; [set_solver|]. split; [|lia]. exists []. rewrite app_nil_r. set_solver.
  - unfold path_visit at 2. case_decide as Hy; intros E; destruct (IH _ _ E) as (H1 & (new & Hq & H2 & H3) & H4).
    + split; [intros k; rewrite H1; set_solver|]. split; [|done]. exists new. set_solver.
    + split; [intros k; rewrite H1; set_solver|]. split.
      * exists (y :: new). rewrite Hq, <-app_assoc. split; [done|]. set_solver.
      * rewrite length_app, size_union, size_singleton in H4 by set_solver. simpl in H4. lia.
Qed.

(** * Termination: a key is queued at most once *)

Lemma path_search_total (U : gset A) fuel V q :
  (∀ x y, y ∈ onward x → key y ∈ U) →
  length q + size (U ∖ V) ≤ fuel → is_Some (path_search fuel V q).
Proof.
  intros HU. revert V q. induction fuel as [|fuel IH]; intros V [|[p x] rest]; simpl; try done; try lia.
  intros Hf. destruct (goal x); [done|].
  destruct (foldl (path_visit (p ++ [x])) (V, rest) (onward x)) as [V' q'] eqn:E.
  apply IH. destruct (path_visit_all _ _ _ _ _ _ E) as (H1 & _ & H3).
  assert (V ⊆ V') as Hsub by set_solver.
  assert (V' ∖ V ⊆ U ∖ V) as Hnew.
  { intros k [[?|(y & -> & Hy)%list_elem_of_fmap]%H1 Hn]%elem_of_difference; [done|]. apply elem_of_difference. eauto. }
  apply subseteq_size in Hnew as Hsz.
  assert (size (U ∖ V') + size (V' ∖ V) ≤ size (U ∖ V)) as Hle.
  { rewrite <-size_union by set_solver. apply subseteq_size. set_solver. }
  pose proof (size_difference V' V Hsub). pose proof (subseteq_size V V' Hsub). lia.
Qed.

Lemma run_path_search_total U seeds :
  (∀ x y, y ∈ onward x → key y ∈ U) → is_Some (run_path_search U seeds).
Proof.
  intros HU. apply (path_search_total U); [done|]. unfold path_fuel. rewrite length_fmap.
  assert (size (U ∖ list_to_set (key <$> seeds)) ≤ size U) by (apply subseteq_size; set_solver). lia.
Qed.

(** * Shortest paths

    A step is determined by its key as far as its candidates and the goal go. *)

Section shortest.
Context (proper : S → Prop) (seeds : list S).
Context (seeds_proper : ∀ x, x ∈ seeds → proper x).
Context (onward_proper : ∀ x y, proper x → y ∈ onward x → proper y).
Context (key_onward : ∀ x y, proper x → proper y → key x = key y → onward x = onward y).
Context (key_goal : ∀ x y, proper x → proper y → key x = key y → goal x = goal y).

Lemma trail_proper p x : trail seeds p x → proper x.
Proof. induction 1; eauto. Qed.

Definition least_trail (e : list S * S) : Prop :=
  trail seeds e.1 e.2 ∧ ∀ p y, trail seeds p y → key y = key e.2 → length e.1 ≤ length p.

(** Marked keys that left the queue are not goals and have marked successors;
    queued paths are shortest, in order of length and within one of each other;
    every path as short as the head of the queue ends at a marked key. *)
Definition left_behind (V : gset A) (q : list (list S * S)) : Prop :=
  ∀ p x, trail seeds p x → key x ∈ V → key x ∉ (λ e, key e.2) <$> q →
    goal x = false ∧ ∀ y, y ∈ onward x → key y ∈ V.

Definition ordered (q : list (list S * S)) : Prop :=
  StronglySorted (λ a b, length a.1 ≤ length b.1) q ∧
  ∀ e rest, q = e :: rest → ∀ e', e' ∈ rest → length e'.1 ≤ length e.1 + 1.

Record path_inv (V : gset A) (q : list (list S * S)) : Prop := {
  inv_queued : ∀ e, e ∈ q → key e.2 ∈ V ∧ least_trail e;
  inv_left : left_behind V q;
  inv_seeds : ∀ x, x ∈ seeds → key x ∈ V;
  inv_order : ordered q;
  inv_level : ∀ e p x, head q = Some e → trail seeds p x → length p ≤ length e.1 → key x ∈ V
}.

(** A path ends at a marked key that is not queued when it is shorter than every
    queued one. *)
Lemma shorter_left V q p x :
  (∀ e, e ∈ q → least_trail e) → left_behind V q →
  trail seeds p x → key x ∈ V → (∀ e, e ∈ q → length p < length e.1) →
  goal x = false ∧ ∀ y, y ∈ onward x → key y ∈ V.
Proof.
  intros Hq Hleft Hp Hx Hlt. apply (Hleft p); [done..|]. intros (e & Ee & He)%list_elem_of_fmap.
  destruct (Hq e He) as [_ Hl]. specialize (Hl p x Hp Ee). specialize (Hlt e He). lia.
Qed.

Lemma ordered_head q e e' : ordered q → head q = Some e → e' ∈ q → length e.1 ≤ length e'.1.
Proof.
  intros [Hs _] He. destruct q as [|a q]; [done|]. injection He as ->. apply StronglySorted_inv in Hs as [_ Hf].
  intros [->|Hin]%elem_of_cons; [done|]. by eapply Forall_forall in Hf.
Qed.

Lemma ordered_bound p x rest new e :
  ordered ((p, x) :: rest) → head (rest ++ (pair (p ++ [x]) <$> new)) = Some e → length e.1 ≤ length p + 1.
Proof.
  intros [_ Ho]. destruct rest as [|a rest]; simpl.
  - destruct new as [|y new]; [done|]. intros [= <-]. simpl. by rewrite length_app.
  - intros [= <-]. apply (Ho (p, x) _ eq_refl). by left.
Qed.

Lemma ordered_push p x rest new :
  ordered ((p, x) :: rest) → ordered (rest ++ (pair (p ++ [x]) <$> new)).
Proof.
  intros [[Hs Hf]%StronglySorted_inv Ho]. rewrite Forall_forall in Hf.
  assert (∀ e, e ∈ pair (p ++ [x]) <$> new → length e.1 = length p + 1) as Hn.
  { intros e (y & -> & _)%list_elem_of_fmap. simpl. rewrite length_app. simpl. lia. }
  specialize (Ho _ _ eq_refl). simpl in *. split.
  - clear Hf. induction rest as [|a rest IH]; simpl.
    + clear - Hn. induction new as [|y new IHn]; simpl in *; [constructor|]. constructor; [apply IHn; set_solver|].
      apply Forall_forall. intros e He. rewrite (Hn (p ++ [x], y)), (Hn e) by set_solver. lia.
    + apply StronglySorted_inv in Hs as [Hs Ha]. constructor; [apply IH; set_solver|]. apply Forall_app. split; [done|].
      apply Forall_forall. intros e He. rewrite (Hn e He). apply Ho. set_solver.
  - intros e rest' E e' He'. assert (e' ∈ rest ++ (pair (p ++ [x]) <$> new)) as [Hr|Hr]%elem_of_app by (rewrite E; by right).
    + specialize (Ho _ Hr). destruct rest as [|a rest]; [by apply elem_of_nil in Hr|]. injection E as <- _.
      specialize (Hf a ltac:(by left)). lia.
    + rewrite (Hn _ Hr). destruct rest as [|a rest]; simpl in E.
      * rewrite (Hn e); [lia|]. rewrite E. by left.
      * injection E as <- _. specialize (Hf a ltac:(by left)). lia.
Qed.

Lemma path_inv_step V p x rest V' q' :
  path_inv V ((p, x) :: rest) → goal x = false →
  foldl (path_visit (p ++ [x])) (V, rest) (onward x) = (V', q') → path_inv V' q'.
Proof.
  intros Hinv Hg E. destruct (path_visit_all _ _ _ _ _ _ E) as (H1 & (new & -> & H2 & H3) & _). clear E.
  destruct (inv_queued _ _ Hinv (p, x)) as [Hx [Hp Hl]]; [by left|]. simpl in *.
  assert (∀ e, e ∈ rest ++ (pair (p ++ [x]) <$> new) → length p ≤ length e.1) as Hlow.
  { intros e [He|(y & -> & _)%list_elem_of_fmap]%elem_of_app; [|simpl; rewrite length_app; lia].
    apply (ordered_head ((p, x) :: rest) (p, x)); [apply Hinv|done|by right]. }
  assert (left_behind V' (rest ++ (pair (p ++ [x]) <$> new))) as Hleft.
  { intros r z Hr Hz Hn. rewrite fmap_app, elem_of_app in Hn. destruct (decide (key z = key x)) as [Ez|Hne].
    - rewrite (key_onward z x), (key_goal z x) by eauto using trail_proper. split; [done|]. intros y Hy. apply H1. right.
      by apply list_elem_of_fmap_2.
    - apply H3 in Hz as [Hz|(y & Ey & Hy)%list_elem_of_fmap].
      + destruct (inv_left _ _ Hinv r z Hr Hz) as [? Ho]; [|split; [done|intros y Hy; apply H1; left; eauto]].
        rewrite fmap_cons, elem_of_cons. tauto.
      + destruct Hn. right. rewrite <-list_fmap_compose. apply list_elem_of_fmap. by exists y. }
  assert (∀ r z, trail seeds r z → length r ≤ length p → key z ∈ V) as Hlev by (intros r z; by apply (inv_level _ _ Hinv (p, x))).
  assert (∀ e, e ∈ rest ++ (pair (p ++ [x]) <$> new) → key e.2 ∈ V' ∧ least_trail e) as Hq.
  { intros e [He|(y & -> & Hy)%list_elem_of_fmap]%elem_of_app.
    - destruct (inv_queued _ _ Hinv e); [by right|]. split; [apply H1; by left|done].
    - destruct (H2 y Hy) as [Hy1 Hy2]. split; [apply H1; right; by apply list_elem_of_fmap_2|]. split; [by eapply trail_step|].
      intros r z Hr Ez. simpl in *. rewrite length_app. simpl. destruct (decide (length r ≤ length p)); [|lia].
      destruct Hy2. rewrite <-Ez. eauto. }
  split; [done..| | |].
  - intros z Hz. apply H1. left. by apply (inv_seeds _ _ Hinv).
  - apply ordered_push, Hinv.
  - intros e r z He Hr Hle. destruct (decide (length r ≤ length p)) as [Hs|Hs]; [apply H1; left; eauto|].
    pose proof (ordered_bound _ _ _ _ _ (inv_order _ _ Hinv) He) as Hb.
    destruct Hr as [z Hz|r y z Hr Hy]; simpl in *; [lia|]. rewrite length_app in *. simpl in *.
    destruct (shorter_left V' (rest ++ (pair (p ++ [x]) <$> new)) r y) as [_ Hn]; [intros e' He'; by apply Hq|exact Hleft|exact Hr| | |by apply Hn].
    + apply H1. left. apply (Hlev r); [done|lia].
    + intros e' He'. pose proof (ordered_head _ _ e' (ordered_push p x rest new (inv_order _ _ Hinv)) He He') as Ho.
      clear - Ho Hle Hs. lia.
Qed.

(** What the loop answers: a shortest path to a goal, or that there is none. *)
Lemma path_search_sound fuel V q r :
  path_inv V q → path_search fuel V q = Some r →
  match r with
  | Some path => ∃ p x, path = p ++ [x] ∧ trail seeds p x ∧ goal x = true ∧
      ∀ p' x', trail seeds p' x' → goal x' = true → length p ≤ length p'
  | None => ∀ p x, trail seeds p x → goal x = false
  end.
Proof.
  revert V q. induction fuel as [|fuel IH]; intros V [|[p x] rest] Hinv; simpl; try done.
  1-2: intros [= <-] p x Hp; assert (key x ∈ V) as Hx;
    [|destruct (inv_left _ _ Hinv p x Hp Hx) as [? _]; [apply not_elem_of_nil|done]];
    induction Hp as [x Hx|p x y Hp IHp Hy]; [by apply (inv_seeds _ _ Hinv)|];
    destruct (inv_left _ _ Hinv p x Hp IHp) as [_ Hn]; [apply not_elem_of_nil|by apply Hn].
  destruct (goal x) eqn:Hg.
  - intros [= <-]. exists p, x. destruct (inv_queued _ _ Hinv (p, x)) as [_ [Hp _]]; [by left|]. split_and!; [done..|].
    intros p' x' Hp' Hg'. destruct (decide (length p ≤ length p')) as [|Hlt]; [done|].
    destruct (shorter_left V ((p, x) :: rest) p' x') as [Hf _]; [| |done| | |congruence].
    + intros e He. by apply (inv_queued _ _ Hinv).
    + apply Hinv.
    + apply (inv_level _ _ Hinv (p, x) p'); [done..|]. simpl. lia.
    + intros e He. pose proof (ordered_head _ (p, x) e (inv_order _ _ Hinv) eq_refl He) as Ho. simpl in Ho. lia.
  - destruct (foldl (path_visit (p ++ [x])) (V, rest) (onward x)) as [V' q'] eqn:E. apply IH.
    by eapply path_inv_step.
Qed.

Lemma path_inv_start : path_inv (list_to_set (key <$> seeds)) (pair [] <$> seeds).
Proof.
  assert (∀ e, e ∈ pair (@nil S) <$> seeds → e.1 = [] ∧ e.2 ∈ seeds) as Hs by (by intros e (y & -> & ?)%list_elem_of_fmap).
  split.
  - intros e [E Hin]%Hs. split; [apply elem_of_list_to_set; by apply list_elem_of_fmap_2|].
    destruct e as [p y]. simpl in *. subst p. split; [by apply trail_seed|]. intros. simpl. lia.
  - intros p x Hp Hx Hn. destruct Hn. rewrite <-list_fmap_compose. by apply elem_of_list_to_set in Hx.
  - intros x Hx. apply elem_of_list_to_set. by apply list_elem_of_fmap_2.
  - split.
    + assert (∀ l : list S, StronglySorted (λ a b : list S * S, length a.1 ≤ length b.1) (pair (@nil S) <$> l)) as Hl; [|apply Hl].
      intros l. induction l as [|y l IH]; simpl; constructor; [done|]. apply Forall_forall. simpl. lia.
    + intros e rest E e' He'. destruct (Hs e') as [-> _]; [rewrite E; by right|]. simpl. lia.
  - intros e p x He Hp Hle. assert (e ∈ pair (@nil S) <$> seeds) as [E _]%Hs by (by apply head_Some_elem_of).
    rewrite E in Hle. destruct Hp as [x Hx|p x y Hp Hy]; [|rewrite length_app in Hle; simpl in Hle; lia].
    apply elem_of_list_to_set. by apply list_elem_of_fmap_2.
Qed.

Lemma run_path_search_spec U :
  (∀ x y, y ∈ onward x → key y ∈ U) →
  ∃ r, run_path_search U seeds = Some r ∧
  match r with
  | Some path => ∃ p x, path = p ++ [x] ∧ trail seeds p x ∧ goal x = true ∧
      ∀ p' x', trail seeds p' x' → goal x' = true → length p ≤ length p'
  | None => ∀ p x, trail seeds p x → goal x = false
  end.
Proof.
  intros HU. destruct (run_path_search_total U seeds HU) as [r Hr]. exists r. split; [done|].
  eapply path_search_sound; [apply path_inv_start|exact Hr].
Qed.
End shortest.
End path_search.
