(* ===== verification/OpticalPhysics.v ===== *)
(** Optical physics: [services/optical_physics_model.py].

    For every provisioned ONT the model picks the OLT with the shortest light
    path, follows the path and sums the losses of cables, connectors, splitters
    and NVTs, and reports the received power; every device carries the largest
    loss of a hop onto it.  Nothing is written.  [math.log10] is an argument.
    A subscript of a dictionary that has no such key is [None]; the constant
    [rules] and [defaults] of the answer are left out. *)

From S2P Require Import Prelude PyFloat Models PathSearch SubscriberModel OpticalPath Catalog.

Definition DEFAULT_CONNECTOR_LOSS_DB : float := dec 2 10.
Definition DEFAULT_FIBER_ATTENUATION_DB_PER_KM : float := dec 35 100.
Definition OPTICAL_SOURCE_TYPES : list DeviceType := [OLT].
Definition OPTICAL_TERMINAL_TYPES : list DeviceType := [ONT; BUSINESS_ONT].
Definition OPTICAL_PASSIVE_TYPES : list DeviceType := [SPLITTER; ODF; NVT; HOP].
Definition OPTICAL_EXCLUDED_TYPES : list DeviceType := [AON_SWITCH].

(** * Light paths *)

(** A step of a path: the interface it enters, its device, the cable it took. *)
Record PathStep := mkStep { st_device : string; st_iface : string; st_link : option string }.

#[export] Instance PathStep_eq_dec : EqDecision PathStep.
Proof. solve_decision. Defined.

Section light.
Context (s : DB).

Definition by_link_id (l1 l2 : Link) : bool := str_leb (link_id l1) (link_id l2).

(** [links_by_if[k]]: a cable is appended under each of its ends. *)
Definition fiber_links_by_if (k : string) : list Link :=
  mjoin ((λ l, if bool_decide (kind l = FIBER) then
                 (if String.eqb (a_interface_id l) k then [l] else []) ++
                 (if String.eqb (b_interface_id l) k then [l] else [])
               else []) <$> links s).

Definition cable_step (k : string) (l : Link) : option PathStep :=
  let peer_if_id := peer_interface l k in
  if nonempty peer_if_id then
    peer_device_id ← truthy (if_to_dev s peer_if_id);
    Some (mkStep peer_device_id peer_if_id (Some (link_id l)))
  else None.

Definition port_step_of (i : Interface) : PathStep := mkStep (if_device_id i) (if_id i) None.

Definition can_cross_device (source_id d : string) : bool :=
  String.eqb d source_id ||
  match get_device s d with Some x => mem (dev_type x) OPTICAL_PASSIVE_TYPES | None => false end.

(** The candidates of a popped interface: over its cables, then the other
    interfaces of the device. *)
Definition onward (source_id : string) (cur : PathStep) : list PathStep :=
  omap (cable_step (st_iface cur)) (sort_by by_link_id (fiber_links_by_if (st_iface cur))) ++
  (if can_cross_device source_id (st_device cur)
   then port_step_of <$> interfaces_by_device s (st_device cur) else []).

Definition source_steps (source_id : string) : list PathStep := port_step_of <$> interfaces_by_device s source_id.

(** The loop always ends ([OpticalPhysicsProofs.find_path_spec]). *)
Definition find_path (source_id target_id : string) : option (list PathStep) :=
  default None (run_path_search st_iface (onward source_id) (λ x, String.eqb (st_device x) target_id)
    (list_to_set (if_id <$> interfaces s)) (source_steps source_id)).

Definition source_devices : list Device := filter (λ d, dev_type d ∈ OPTICAL_SOURCE_TYPES) (devices s).

Definition terminal_devices : list Device :=
  sort_by by_id (filter (λ d, dev_type d ∈ OPTICAL_TERMINAL_TYPES ∧ provisioned d = true) (devices s)).

Definition candidates (terminal : Device) : list (string * list PathStep) :=
  omap (λ source, path ← find_path (dev_id source) (dev_id terminal); Some (dev_id source, path)) source_devices.

Definition by_length_id (x y : string * list PathStep) : bool :=
  (length x.2 <? length y.2)%nat || (length x.2 =? length y.2)%nat && str_leb x.1 y.1.

Definition best_source_path (terminal : Device) : option (string * list PathStep) :=
  head (sort_by by_length_id (candidates terminal)).
End light.

(** * Losses *)

Record LossParts := mkLoss {
  medium_code : option string; attenuation_per_km : option float; loss_length_km : option float;
  link_loss_db : float; connector_loss_db : float; insertion_part_db : float; splitter_part_db : float
}.

Definition hop_loss_db (p : LossParts) : float :=
  fadd (fadd (fadd (link_loss_db p) (connector_loss_db p)) (insertion_part_db p)) (splitter_part_db p).

Definition medium_loss (s : DB) (l : Link) : option string * float :=
  match physical_medium_id l with
  | None => (None, DEFAULT_FIBER_ATTENUATION_DB_PER_KM)
  | Some k =>
      match get_medium s k with
      | Some medium =>
          match FIBER_TYPES (pm_code medium) with
          | Some f => (Some (pm_code medium), attenuation_db_per_km f)
          | None => (Some (pm_code medium), DEFAULT_FIBER_ATTENUATION_DB_PER_KM)
          end
      | None => (None, DEFAULT_FIBER_ATTENUATION_DB_PER_KM)
      end
  end.

(** [float(link.length_km or 0.0)] *)
Definition length_or_zero (l : Link) : float :=
  match length_km l with Some x => if feqb x fzero then fzero else x | None => fzero end.

Section losses.
Context (log10 : float → float) (s : DB).

Definition splitter_loss_db (splitter : Device) (output_count : nat) : float :=
  match insertion_loss_db splitter with
  | Some x => x
  | None => if (output_count <=? 1)%nat then fzero else fmul (of_Z 10) (log10 (of_Z (Z.of_nat output_count)))
  end.

Definition output_count (device_id : string) : nat :=
  length (filter (λ i, starts_with "out" (lower (if_name i)) = true) (interfaces_by_device s device_id)).

(** The insertion and splitter losses of a hop onto [device]. *)
Definition device_part (inner : bool) (device : Device) (link : option string) : float * float :=
  if inner && mem (dev_type device) OPTICAL_PASSIVE_TYPES then
    if bool_decide (dev_type device = SPLITTER) && bool_decide (link = None)
    then (fzero, splitter_loss_db device (output_count (dev_id device)))
    else if bool_decide (dev_type device = NVT) then (default fzero (insertion_loss_db device), fzero)
    else (fzero, fzero)
  else (fzero, fzero).

Definition hop_parts (inner : bool) (device : Device) (st : PathStep) : option LossParts :=
  let '(ins, spl) := device_part inner device (st_link st) in
  match truthy (st_link st) with
  | None => Some (mkLoss None None None fzero fzero ins spl)
  | Some k =>
      link ← get_link s k;
      let '(code, att) := medium_loss s link in
      let km := length_or_zero link in
      Some (mkLoss code (Some att) (Some km) (fmul km att) DEFAULT_CONNECTOR_LOSS_DB ins spl)
  end.
End losses.

(** * Following a path *)

Record PortPower := mkPort {
  input_power_dbm : option float; output_power_dbm : option float; port_total_loss_db : float;
  sensitivity_threshold_dbm : option float; port_budget_ok : bool
}.

Definition port_state (input output : option float) (total : float) (threshold : option float) : PortPower :=
  mkPort input output (round_digits total 4) threshold
    match threshold, output with
    | None, _ => true
    | Some thr, Some out => fleb thr out
    | Some _, None => false
    end.

Definition status_text (ok : bool) : string := if ok then "UP" else "DOWN (OPTICAL LOSS)".

Record DeviceLoss := mkDeviceLoss {
  dl_type : DeviceType; excluded_from_optical_physics : bool;
  measured_loss_db : float; port_states : gmap string PortPower
}.

Record Hop := mkHop {
  from_device_id : string; to_device_id : string; hop_interface_id : string; hop_link_id : option string;
  physical_medium_code : option string; hop_length_km : option float; hop_attenuation_db_per_km : option float;
  hop_insertion_db : float; hop_connector_db : float; hop_splitter_db : float; fiber_attenuation_loss_db : float;
  total_optical_loss_db : float; cumulative_loss_db : float; hop_input_dbm : float; hop_output_dbm : float
}.

(** The variables of the loop over one path. *)
Record Follow := mkFollow {
  fo_total : float; fo_power : float; fo_previous : string;
  fo_devices : gmap string DeviceLoss; fo_hops : list Hop
}.

Definition is_lossy (t : DeviceType) : bool := mem t OPTICAL_PASSIVE_TYPES || mem t OPTICAL_TERMINAL_TYPES.

Definition bump_loss (measured hop : float) : float := round_digits (fmax measured hop) 4.

Definition record_hop (device : Device) (iface : string) (loss : float) (p : PortPower) (dl : DeviceLoss) : DeviceLoss :=
  mkDeviceLoss (dl_type dl) (excluded_from_optical_physics dl)
    (if is_lossy (dev_type device) then bump_loss (measured_loss_db dl) loss else measured_loss_db dl)
    (<[iface := p]> (port_states dl)).

Definition make_hop (previous : string) (st : PathStep) (p : LossParts) (total input output : float) : Hop :=
  mkHop (if truthy (st_link st) then previous else st_device st) (st_device st) (st_iface st) (st_link st)
    (medium_code p) (loss_length_km p) (attenuation_per_km p)
    (round_digits (insertion_part_db p) 4) (round_digits (connector_loss_db p) 4) (round_digits (splitter_part_db p) 4)
    (round_digits (link_loss_db p) 4) (round_digits (hop_loss_db p) 4) (round_digits total 4)
    (round_digits input 4) (round_digits output 4).

(** [enumerate(path)] with the test [index not in {0, len(path) - 1}]. *)
Definition flagged (path : list PathStep) : list (bool * PathStep) :=
  imap (λ index st, (negb (index =? 0)%nat && negb (index =? length path - 1)%nat, st)) path.

Section follow.
Context (log10 : float → float) (s : DB).
Context (tx_power sensitivity : float) (terminal_id : string).

Definition hop_step (inner : bool) (f : Follow) (st : PathStep) : option Follow :=
  device ← get_device s (st_device st);
  p ← hop_parts log10 s inner device st;
  let loss := hop_loss_db p in
  let total := fadd (fo_total f) loss in
  let power := fsub tx_power total in
  let threshold := if String.eqb (st_device st) terminal_id then Some sensitivity else None in
  let port := port_state (Some (fo_power f)) (Some power) total threshold in
  Some (mkFollow total power (st_device st)
    (alter (record_hop device (st_iface st) loss port) (st_device st) (fo_devices f))
    (fo_hops f ++ [make_hop (fo_previous f) st p total (fo_power f) power])).

Fixpoint follow (f : Follow) (steps : list (bool * PathStep)) : option Follow :=
  match steps with
  | [] => Some f
  | (inner, st) :: rest => f' ← hop_step inner f st; follow f' rest
  end.
End follow.

(** * The whole state *)

Record Resolution := mkResolution {
  source_device_id : string; target_device_type : DeviceType; res_tx_power_dbm : float; rx_power_dbm : float;
  res_sensitivity_dbm : float; res_total_loss_db : float; link_budget_ok : bool; res_hops : list Hop
}.

(** [Unresolved]: [reason] is [no_optical_source_path]. *)
Inductive PathResult := Unresolved (target_type : DeviceType) | Resolved (r : Resolution).

Record PhysicsState := mkPhysics { ph_devices : gmap string DeviceLoss; ph_paths : gmap string PathResult }.

Definition initial_loss (d : Device) : DeviceLoss :=
  mkDeviceLoss (dev_type d) (mem (dev_type d) OPTICAL_EXCLUDED_TYPES) fzero ∅.

Section resolve.
Context (log10 : float → float) (c : Catalog) (s : DB).

Definition resolve_terminal (st : PhysicsState) (terminal : Device) : option PhysicsState :=
  match best_source_path s terminal with
  | None => Some (mkPhysics (ph_devices st) (<[dev_id terminal := Unresolved (dev_type terminal)]> (ph_paths st)))
  | Some (source_id, path) =>
      source ← get_device s source_id;
      let tx := get_effective_tx_power_dbm c source in
      let sensitivity := get_effective_sensitivity_dbm c terminal in
      f ← follow log10 s tx sensitivity (dev_id terminal) (mkFollow fzero tx source_id (ph_devices st) []) (flagged path);
      let rx := fo_power f in
      Some (mkPhysics (fo_devices f)
        (<[dev_id terminal := Resolved (mkResolution source_id (dev_type terminal) tx (round_digits rx 4) sensitivity
             (round_digits (fo_total f) 4) (fleb sensitivity rx) (fo_hops f))]> (ph_paths st)))
  end.

Fixpoint resolve_terminals (st : PhysicsState) (ts : list Device) : option PhysicsState :=
  match ts with
  | [] => Some st
  | t :: rest => st' ← resolve_terminal st t; resolve_terminals st' rest
  end.

Definition resolve_optical_physics_state : option PhysicsState :=
  resolve_terminals (mkPhysics (foldl (λ m d, <[dev_id d := initial_loss d]> m) ∅ (devices s)) ∅) (terminal_devices s).
End resolve.

(** One row of [signal_degradation_map]; [path.get] of an unresolved path is [None]. *)
Record Degradation := mkDegradation {
  dg_source : option string; dg_rx : option float; dg_loss : option float; dg_ok : option bool; dg_status : option string
}.

Definition degradation (r : PathResult) : Degradation :=
  match r with
  | Unresolved _ => mkDegradation None None None None None
  | Resolved r => mkDegradation (Some (source_device_id r)) (Some (rx_power_dbm r)) (Some (res_total_loss_db r))
                    (Some (link_budget_ok r)) (Some (status_text (link_budget_ok r)))
  end.

Definition signal_degradation_map (st : PhysicsState) : gmap string Degradation := degradation <$> ph_paths st.
