(* ===== verification/OpticalPhysicsProofs.v ===== *)
(** What the optical physics model computes: the OLT nearest in steps serves a
    terminal, the reported powers are the running sums of the losses along its
    light path, and each device carries the losses of the hops onto it. *)

From S2P Require Import Prelude PyFloat Models PathSearch SubscriberModel OpticalPath Catalog Scenario OpticalPhysics.

(** * Light paths *)

Section light.
Context (s : DB) (Hk : keys_ok s).

(** The steps before the last and the last step of a path of light from a device. *)
Definition light_trail (source_id : string) : list PathStep → PathStep → Prop :=
  trail (onward s source_id) (source_steps s source_id).

Definition proper (x : PathStep) : Prop := if_to_dev s (st_iface x) = Some (st_device x).

Lemma port_step_proper d x : x ∈ port_step_of <$> interfaces_by_device s d →
  proper x ∧ st_device x = d ∧ st_link x = None ∧ st_iface x ∈ if_id <$> interfaces s.
Proof using Hk.
  intros (i & -> & [Hd Hi]%list_elem_of_filter)%list_elem_of_fmap. rewrite elem_of_sort_by in Hi.
  unfold proper. cbn [st_iface st_device st_link port_step_of]. rewrite if_to_dev_get, get_interface_key by done.
  split_and!; [done..|]. by apply list_elem_of_fmap_2.
Qed.

Lemma cable_step_proper k x : x ∈ omap (cable_step s k) (sort_by by_link_id (fiber_links_by_if s k)) →
  proper x ∧ st_iface x ∈ if_id <$> interfaces s ∧
  ∃ l, l ∈ links s ∧ kind l = FIBER ∧ (a_interface_id l = k ∨ b_interface_id l = k) ∧
    st_iface x = peer_interface l k ∧ st_link x = Some (link_id l).
Proof using Hk.
  intros (l & Hl & Hx)%list_elem_of_omap. rewrite elem_of_sort_by in Hl.
  unfold cable_step in Hx. destruct (nonempty _); [|done]. apply bind_Some in Hx as (d & [Hd _]%truthy_Some & [= <-]).
  unfold proper. cbn [st_iface st_device st_link]. split; [done|]. split.
  - rewrite if_to_dev_get in Hd by done. apply fmap_Some_1 in Hd as (i & [Hi <-]%get_interface_Some & _). by apply list_elem_of_fmap_2.
  - apply list_elem_of_join in Hl as (r & Hr & (l' & -> & Hl')%list_elem_of_fmap).
    case_bool_decide as Hf; [|by apply elem_of_nil in Hr].
    apply elem_of_app in Hr as [Hr|Hr]; destruct (String.eqb_spec (a_interface_id l') k), (String.eqb_spec (b_interface_id l') k);
      try (by apply elem_of_nil in Hr); apply list_elem_of_singleton in Hr as ->; eauto 10.
Qed.

Lemma onward_step src x y : y ∈ onward s src x →
  proper y ∧ st_iface y ∈ if_id <$> interfaces s ∧ (∀ k, st_link y = Some k → k ∈ link_id <$> links s).
Proof using Hk.
  intros [Hy|Hy]%elem_of_app.
  - apply cable_step_proper in Hy as (? & ? & l & Hl & _ & _ & _ & E). split_and!; [done..|].
    rewrite E. intros k [= <-]. by apply list_elem_of_fmap_2.
  - destruct (can_cross_device _ _ _); [|by apply elem_of_nil in Hy]. apply port_step_proper in Hy as (? & _ & E & ?).
    split_and!; [done..|]. by rewrite E.
Qed.

Lemma onward_key src x y : proper x → proper y → st_iface x = st_iface y → onward s src x = onward s src y.
Proof using Type. unfold proper, onward. intros Hx Hy E. rewrite E in *. assert (st_device x = st_device y) as -> by congruence. done. Qed.

(** The search of the source: a shortest path of light, or none when the target
    cannot be lit from the source. *)
Lemma find_path_spec src target :
  match find_path s src target with
  | Some path => ∃ p x, path = p ++ [x] ∧ light_trail src p x ∧ st_device x = target ∧
      ∀ p' x', light_trail src p' x' → st_device x' = target → length p ≤ length p'
  | None => ∀ p x, light_trail src p x → st_device x ≠ target
  end.
Proof using Hk.
  unfold find_path.
  destruct (run_path_search_spec st_iface (onward s src) (λ x, String.eqb (st_device x) target) proper (source_steps s src))
    with (U := list_to_set (C := gset string) (if_id <$> interfaces s)) as (r & -> & Hr).
  - intros x Hx. by apply port_step_proper in Hx as [? _].
  - intros x y _ Hy. by apply onward_step in Hy as [? _].
  - apply onward_key.
  - unfold proper. intros x y Hx Hy E. rewrite E in Hx. congruence.
  - intros x y Hy. apply elem_of_list_to_set. by apply onward_step in Hy as (_ & ? & _).
  - cbn [default from_option id]. destruct r as [path|].
    + destruct Hr as (p & x & -> & Hp & E%String.eqb_eq & Hmin). exists p, x. split_and!; [done..|].
      intros p' x' Hp' E'. apply (Hmin p' x'); [done|]. by apply String.eqb_eq.
    + intros p x Hp. apply String.eqb_neq. by apply (Hr p x).
Qed.

Lemma trail_steps src p x : light_trail src p x → ∀ y, y ∈ p ++ [x] →
  proper y ∧ (∀ k, st_link y = Some k → k ∈ link_id <$> links s).
Proof using Hk.
  induction 1 as [x Hx|p x y Hp IH Hy]; intros z [Hz | ->%list_elem_of_singleton]%elem_of_app; auto.
  - by apply elem_of_nil in Hz.
  - apply port_step_proper in Hx as (? & _ & E & _). split; [done|]. by rewrite E.
  - apply onward_step in Hy as (? & _ & ?). done.
Qed.
End light.

(** * The chosen source *)

Lemma by_length_id_total x y : by_length_id x y = true ∨ by_length_id y x = true.
Proof.
  unfold by_length_id. destruct (Nat.lt_total (length x.2) (length y.2)) as [Hl|[Hl|Hl]].
  - left. apply orb_true_iff. left. by apply Nat.ltb_lt.
  - rewrite Hl, Nat.eqb_refl, !andb_true_l. destruct (str_leb_total x.1 y.1) as [-> | ->]; rewrite orb_true_r; auto.
  - right. apply orb_true_iff. left. by apply Nat.ltb_lt.
Qed.

Lemma by_length_id_iff x y : by_length_id x y = true ↔
  length x.2 < length y.2 ∨ (length x.2 = length y.2 ∧ str_leb x.1 y.1 = true).
Proof. unfold by_length_id. by rewrite orb_true_iff, andb_true_iff, Nat.ltb_lt, Nat.eqb_eq. Qed.

Lemma by_length_id_trans x y z : by_length_id x y = true → by_length_id y z = true → by_length_id x z = true.
Proof.
  rewrite !by_length_id_iff. intros [?|[? Hx]] [?|[? Hy]]; [left; lia..|]. right. split; [lia|].
  exact (str_leb_trans _ _ _ Hx Hy).
Qed.

Section best.
Context (s : DB) (Hk : keys_ok s).

Definition lights (o t : Device) (p : list PathStep) (x : PathStep) : Prop :=
  light_trail s (dev_id o) p x ∧ st_device x = dev_id t.

(** The nearest OLT, the least id among equally near ones. *)
Lemma best_source_path_spec t :
  match best_source_path s t with
  | Some (o_id, path) => ∃ o p x, o ∈ source_devices s ∧ dev_id o = o_id ∧ path = p ++ [x] ∧ lights o t p x ∧
      ∀ o' p' x', o' ∈ source_devices s → lights o' t p' x' →
        length p < length p' ∨ (length p = length p' ∧ str_leb (dev_id o) (dev_id o') = true)
  | None => ∀ o p x, o ∈ source_devices s → ¬ lights o t p x
  end.
Proof using Hk.
  unfold best_source_path. destruct (sort_by by_length_id (candidates s t)) as [|[o_id path] rest] eqn:E; cbn [head].
  - apply sort_by_nil in E. intros o p x Ho [Hp Hx]. pose proof (find_path_spec s Hk (dev_id o) (dev_id t)) as Hf.
    destruct (find_path s (dev_id o) (dev_id t)) as [path|] eqn:Ef; [|by destruct (Hf p x)].
    assert ((dev_id o, path) ∈ candidates s t) as Hc; [|rewrite E in Hc; by apply elem_of_nil in Hc].
    apply list_elem_of_omap. exists o. split; [done|]. by rewrite Ef.
  - pose proof (λ y, sort_by_head_min _ by_length_id_total by_length_id_trans _ _ _ y E) as Hmin.
    assert ((o_id, path) ∈ candidates s t) as (o & Ho & Hc)%list_elem_of_omap by (rewrite <-(elem_of_sort_by by_length_id), E; left).
    apply bind_Some in Hc as (path' & Ef & [= <- ->]).
    pose proof (find_path_spec s Hk (dev_id o) (dev_id t)) as Hf. rewrite Ef in Hf. destruct Hf as (p & x & -> & Hp & Hx & _).
    exists o, p, x. split_and!; [done..|]. intros o' p' x' Ho' [Hp' Hx'].
    pose proof (find_path_spec s Hk (dev_id o') (dev_id t)) as Hf'.
    destruct (find_path s (dev_id o') (dev_id t)) as [path'|] eqn:Ef'; [|by destruct (Hf' p' x')].
    destruct Hf' as (q & z & -> & _ & _ & Hq). specialize (Hq p' x' Hp' Hx').
    specialize (Hmin (dev_id o', q ++ [z])). rewrite by_length_id_iff in Hmin. cbn [fst snd] in Hmin.
    rewrite !length_app in Hmin. cbn [length] in Hmin.
    destruct Hmin as [?|[? Hl]]; [|left; lia|].
    + apply list_elem_of_omap. exists o'. split; [done|]. by rewrite Ef'.
    + destruct (decide (length p < length p')); [by left|]. right. split; [lia|done].
Qed.
End best.

(** * Following a path *)

Section follow.
Context (log10 : float → float) (s : DB).

Definition parts_of (e : bool * PathStep) : option LossParts :=
  d ← get_device s (st_device e.2); hop_parts log10 s e.1 d e.2.

Definition loss_of (e : bool * PathStep) : float := from_option hop_loss_db fzero (parts_of e).

Definition sum_losses (es : list (bool * PathStep)) : float := foldl fadd fzero (loss_of <$> es).

(** The losses of the hops onto [d]. *)
Definition losses_on (d : string) (es : list (bool * PathStep)) : list float :=
  loss_of <$> filter (λ e, st_device e.2 = d) es.

Definition ifaces_on (d : string) (es : list (bool * PathStep)) : list string :=
  (λ e, st_iface e.2) <$> filter (λ e, st_device e.2 = d) es.

(** The entry of a device after hops with these losses and interfaces. *)
Definition loss_after (lossy : bool) (losses : list float) (ifaces : list string) (dl dl' : DeviceLoss) : Prop :=
  dl_type dl' = dl_type dl ∧ excluded_from_optical_physics dl' = excluded_from_optical_physics dl ∧
  measured_loss_db dl' = (if lossy then foldl bump_loss (measured_loss_db dl) losses else measured_loss_db dl) ∧
  ∀ k, k ∈ dom (port_states dl') ↔ k ∈ dom (port_states dl) ∨ k ∈ ifaces.

Lemma loss_after_trans b l1 i1 l2 i2 dl dl1 dl2 :
  loss_after b l1 i1 dl dl1 → loss_after b l2 i2 dl1 dl2 → loss_after b (l1 ++ l2) (i1 ++ i2) dl dl2.
Proof using Type.
  intros (H1 & H2 & H3 & H4) (H1' & H2' & H3' & H4'). split_and!; [congruence..| |].
  - rewrite H3', H3. destruct b; [by rewrite foldl_app|done].
  - intros k. rewrite H4', H4, elem_of_app. tauto.
Qed.

Lemma loss_after_refl b dl : loss_after b [] [] dl dl.
Proof using Type. split_and!; [done..|by destruct b|]. intros k. rewrite elem_of_nil. tauto. Qed.

Definition devices_after (es : list (bool * PathStep)) (m m' : gmap string DeviceLoss) : Prop :=
  ∀ d dl, m !! dev_id d = Some dl → get_device s (dev_id d) = Some d →
    ∃ dl', m' !! dev_id d = Some dl' ∧
      loss_after (is_lossy (dev_type d)) (losses_on (dev_id d) es) (ifaces_on (dev_id d) es) dl dl'.

Lemma devices_after_app es1 es2 m m1 m2 :
  devices_after es1 m m1 → devices_after es2 m1 m2 → devices_after (es1 ++ es2) m m2.
Proof using Type.
  intros H1 H2 d dl Hd Hg. destruct (H1 d dl Hd Hg) as (dl1 & Hd1 & Hl1). destruct (H2 d dl1 Hd1 Hg) as (dl2 & Hd2 & Hl2).
  exists dl2. split; [done|]. unfold losses_on, ifaces_on. rewrite filter_app, !fmap_app. by eapply loss_after_trans.
Qed.

Lemma devices_after_nil m : devices_after [] m m.
Proof using Type. intros d dl Hd _. exists dl. split; [done|]. apply loss_after_refl. Qed.

Context (tx sensitivity : float) (terminal_id : string).

(** What the loop did when it stood before step [k] of the path [es] from [src]. *)
Definition power_at (es : list (bool * PathStep)) (k : nat) : float :=
  if (k =? 0)%nat then tx else fsub tx (sum_losses (take k es)).

Definition previous_at (src : string) (es : list (bool * PathStep)) (k : nat) : string :=
  match k with 0 => src | S j => from_option (λ e, st_device e.2) src (es !! j) end.

Definition hop_ok (src : string) (es : list (bool * PathStep)) (k : nat) (h : Hop) : Prop :=
  ∃ e p, es !! k = Some e ∧ parts_of e = Some p ∧
    h = make_hop (previous_at src es k) e.2 p (sum_losses (take (S k) es)) (power_at es k) (power_at es (S k)).

Definition followed (src : string) (m : gmap string DeviceLoss) (es : list (bool * PathStep)) (n : nat) (f : Follow) : Prop :=
  fo_total f = sum_losses (take n es) ∧ fo_power f = power_at es n ∧ fo_previous f = previous_at src es n ∧
  length (fo_hops f) = n ∧ (∀ k h, fo_hops f !! k = Some h → hop_ok src es k h) ∧
  devices_after (take n es) m (fo_devices f).

Definition complete (es : list (bool * PathStep)) : Prop := ∀ e, e ∈ es → is_Some (parts_of e).

Lemma hop_step_ok src m es n f e :
  followed src m es n f → es !! n = Some e → is_Some (parts_of e) →
  ∃ f', hop_step log10 s tx sensitivity terminal_id e.1 f e.2 = Some f' ∧ followed src m es (S n) f'.
Proof using Type.
  intros (H1 & H2 & H3 & H4 & H5 & H6) He [p Hp]. pose proof Hp as Hp'. unfold parts_of in Hp'.
  apply bind_Some in Hp' as (d & Hd & Hp'). unfold hop_step. rewrite Hd. cbn [mbind option_bind]. rewrite Hp'.
  cbn [mbind option_bind]. assert (loss_of e = hop_loss_db p) as Hl by (unfold loss_of; by rewrite Hp).
  assert (sum_losses (take (S n) es) = fadd (fo_total f) (hop_loss_db p)) as Hsum.
  { unfold sum_losses. rewrite (take_S_r _ _ e), fmap_app, foldl_app by done. cbn. by rewrite H1, <-Hl. }
  eexists. split; [done|]. split_and!; cbn [fo_total fo_power fo_previous fo_hops fo_devices]; [done|..].
  - unfold power_at. cbn [Nat.eqb]. by rewrite Hsum.
  - unfold previous_at. by rewrite He.
  - rewrite length_app, H4. cbn. lia.
  - intros k h Hh. apply lookup_app_Some in Hh as [Hh|[Hk Hh]]; [by apply H5|]. rewrite H4 in Hk, Hh.
    destruct (k - n) as [|j] eqn:E; [|done]. injection Hh as <-. replace k with n by lia. exists e, p. split_and!; [done..|].
    unfold power_at at 2. cbn [Nat.eqb]. by rewrite Hsum, H2, H3.
  - rewrite (take_S_r _ _ e) by done. eapply devices_after_app; [exact H6|]. intros x dl Hx Hg. unfold losses_on, ifaces_on.
    rewrite filter_cons, filter_nil. destruct (decide (st_device e.2 = dev_id x)) as [E|E].
    + rewrite E in *. rewrite lookup_alter_eq, Hx. eexists. split; [done|]. assert (d = x) as -> by congruence. cbn [fmap list_fmap].
      split_and!; [done..| |]; cbn [measured_loss_db port_states record_hop].
      * rewrite Hl. by destruct (is_lossy _).
      * intros k. rewrite dom_insert, elem_of_union, elem_of_singleton, list_elem_of_singleton. tauto.
    + rewrite lookup_alter_ne by done. exists dl. split; [done|]. apply loss_after_refl.
Qed.

Lemma follow_ok src m es n f :
  complete es → followed src m es n f → n ≤ length es →
  ∃ f', follow log10 s tx sensitivity terminal_id f (drop n es) = Some f' ∧ followed src m es (length es) f'.
Proof using Type.
  intros Hc. remember (length es - n) as j eqn:E. revert n f E. induction j as [|j IH]; intros n f E Hf Hn.
  - assert (n = length es) as -> by lia. rewrite drop_all. by exists f.
  - destruct (lookup_lt_is_Some_2 es n) as [e He]; [lia|]. rewrite (drop_S _ e) by done. destruct e as [b st]. cbn [follow].
    destruct (hop_step_ok src m es n f (b, st) Hf He) as (f1 & Ef & Hf1).
    { apply Hc. by eapply list_elem_of_lookup_2. }
    cbn [fst snd] in Ef. rewrite Ef. cbn [mbind option_bind]. apply IH; [lia|done|lia].
Qed.

Lemma follow_path_ok src m es :
  complete es →
  ∃ f, follow log10 s tx sensitivity terminal_id (mkFollow fzero tx src m []) es = Some f ∧ followed src m es (length es) f.
Proof using Type.
  intros Hc. apply (follow_ok src m es 0); [done| |lia]. split_and!; [done..| |].
  - intros k h Hh. cbn [fo_hops] in Hh. by rewrite lookup_nil in Hh.
  - apply devices_after_nil.
Qed.
End follow.

(** * All terminals *)

Section resolve.
Context (log10 : float → float) (c : Catalog) (s : DB) (Hk : keys_ok s).
Context (Hrefs : if_device_id <$> interfaces s ⊆ dev_id <$> devices s).

Definition chosen (t : Device) : list (bool * PathStep) :=
  match best_source_path s t with Some (_, path) => flagged path | None => [] end.

Lemma flagged_elem path b st : (b, st) ∈ flagged path → st ∈ path.
Proof using Type.
  intros (k & Hb)%list_elem_of_lookup_1. unfold flagged in Hb. rewrite list_lookup_imap in Hb.
  apply fmap_Some_1 in Hb as (st' & Hst & [= -> ->]). by eapply list_elem_of_lookup_2.
Qed.

Lemma length_flagged path : length (flagged path) = length path.
Proof using Type. apply length_imap. Qed.

Lemma trail_complete src p x : light_trail s src p x → complete log10 s (flagged (p ++ [x])).
Proof using Hk Hrefs.
  intros Hp [b st] Hst%flagged_elem. destruct (trail_steps s Hk src p x Hp st Hst) as [Hpr Hl]. unfold parts_of. cbn [fst snd].
  apply if_to_dev_elem, Hrefs, list_elem_of_fmap in Hpr as (d & -> & Hd). rewrite (get_device_key s d) by done. cbn [mbind option_bind].
  unfold hop_parts. destruct (device_part _ _ _ _ _) as [ins spl]. destruct (truthy (st_link st)) as [k|] eqn:E; [|done].
  apply truthy_Some in E as [E _]. specialize (Hl k E). apply list_elem_of_fmap in Hl as (l & -> & Hl).
  rewrite (get_link_key s l) by done. cbn. by destruct (medium_loss s l).
Qed.

(** What the state says of a terminal. *)
Definition resolution_ok (o t : Device) (es : list (bool * PathStep)) (r : Resolution) : Prop :=
  let tx := get_effective_tx_power_dbm c o in
  let sensitivity := get_effective_sensitivity_dbm c t in
  let total := sum_losses log10 s es in
  let rx := fsub tx total in
  source_device_id r = dev_id o ∧ target_device_type r = dev_type t ∧ res_tx_power_dbm r = tx ∧
  rx_power_dbm r = round_digits rx 4 ∧ res_sensitivity_dbm r = sensitivity ∧ res_total_loss_db r = round_digits total 4 ∧
  link_budget_ok r = fleb sensitivity rx ∧ length (res_hops r) = length es ∧
  ∀ k h, res_hops r !! k = Some h → hop_ok log10 s tx (dev_id o) es k h.

Definition terminal_ok (t : Device) (r : PathResult) : Prop :=
  match r with
  | Unresolved ty => ty = dev_type t ∧ ∀ o p x, o ∈ source_devices s → ¬ lights s o t p x
  | Resolved r => ∃ o p x, o ∈ source_devices s ∧ lights s o t p x ∧ chosen t = flagged (p ++ [x]) ∧
      (∀ o' p' x', o' ∈ source_devices s → lights s o' t p' x' →
         length p < length p' ∨ (length p = length p' ∧ str_leb (dev_id o) (dev_id o') = true)) ∧
      resolution_ok o t (flagged (p ++ [x])) r
  end.

Lemma resolve_terminal_ok st t :
  ∃ st' r, resolve_terminal log10 c s st t = Some st' ∧ ph_paths st' = <[dev_id t := r]> (ph_paths st) ∧ terminal_ok t r ∧
    devices_after log10 s (chosen t) (ph_devices st) (ph_devices st').
Proof using Hk Hrefs.
  unfold resolve_terminal. pose proof (best_source_path_spec s Hk t) as Hb.
  assert (chosen t = match best_source_path s t with Some (_, path) => flagged path | None => [] end) as Ech by done.
  destruct (best_source_path s t) as [[o_id path]|].
  - destruct Hb as (o & p & x & Ho & <- & -> & Hp & Hmin). assert (o ∈ devices s) as Hod by (by apply list_elem_of_filter in Ho as [_ ?]).
    rewrite (get_device_key s o) by done. cbn [mbind option_bind].
    destruct (follow_path_ok log10 s (get_effective_tx_power_dbm c o) (get_effective_sensitivity_dbm c t) (dev_id t)
      (dev_id o) (ph_devices st) (flagged (p ++ [x]))) as (f & -> & H1 & H2 & _ & H4 & H5 & H6); [by apply (trail_complete (dev_id o)), Hp|].
    cbn [mbind option_bind]. rewrite firstn_all in H1, H6. unfold power_at in H2. rewrite firstn_all in H2.
    assert ((length (flagged (p ++ [x])) =? 0)%nat = false) as Hn by (apply Nat.eqb_neq; rewrite length_flagged, length_app; simpl; lia).
    rewrite Hn in H2. eexists _, _. split; [done|]. split; [done|]. split; [|by rewrite Ech].
    exists o, p, x. split_and!; [done..|]. rewrite H1, H2. by split_and!.
  - eexists _, _. split; [done|]. split; [done|]. split; [by split|]. rewrite Ech. apply devices_after_nil.
Qed.

Lemma resolve_terminals_ok ts : NoDup (dev_id <$> ts) → ∀ st,
  ∃ st', resolve_terminals log10 c s st ts = Some st' ∧
    (∀ t, t ∈ ts → ∃ r, ph_paths st' !! dev_id t = Some r ∧ terminal_ok t r) ∧
    (∀ k, k ∉ dev_id <$> ts → ph_paths st' !! k = ph_paths st !! k) ∧
    devices_after log10 s (mjoin (chosen <$> ts)) (ph_devices st) (ph_devices st').
Proof using Hk Hrefs.
  induction ts as [|t ts IH]; cbn [fmap list_fmap]; intros Hnd st.
  - exists st. split_and!; [done| |done|apply devices_after_nil]. by intros t ?%elem_of_nil.
  - apply NoDup_cons in Hnd as [Ht Hnd]. destruct (resolve_terminal_ok st t) as (st1 & r & E1 & Hp1 & Hr & Hd1).
    destruct (IH Hnd st1) as (st' & E2 & Hts & Hother & Hd2). exists st'. cbn [resolve_terminals]. rewrite E1. cbn [mbind option_bind].
    split_and!; [done| | |].
    + intros t' [->|Ht']%elem_of_cons; [|by apply Hts]. exists r. rewrite Hother, Hp1, lookup_insert_eq by done. done.
    + intros k [Hne Hk']%not_elem_of_cons. rewrite Hother, Hp1, lookup_insert_ne by done. done.
    + cbn [mjoin list_join]. by eapply devices_after_app.
Qed.
End resolve.

(** C00 With the primary keys distinct and the devices of the ports present, the
    model always has an answer.  It has a verdict for exactly the provisioned
    ONTs.  An unresolved ONT is lit by no OLT.  A resolved one is served along a
    path of light by the OLT that is nearest in steps, the least id among equals;
    its total is the running sum of the losses of the steps, its power the launch
    power less that total, its budget is met when the power reaches the
    sensitivity, and every hop carries the sums up to it.  A passive device or ONT
    has the largest loss of the hops onto it, rounded at each, other devices zero,
    and every device the ports light enters it by. *)
Theorem optical_physics_spec log10 c s :
  keys_ok s → if_device_id <$> interfaces s ⊆ dev_id <$> devices s →
  ∃ st, resolve_optical_physics_state log10 c s = Some st ∧
    (∀ k, is_Some (ph_paths st !! k) ↔ k ∈ dev_id <$> terminal_devices s) ∧
    (∀ t, t ∈ terminal_devices s → ∃ r, ph_paths st !! dev_id t = Some r ∧ terminal_ok log10 c s t r) ∧
    (∀ d, d ∈ devices s → ∃ dl, ph_devices st !! dev_id d = Some dl ∧
       let es := mjoin (chosen s <$> terminal_devices s) in
       loss_after (is_lossy (dev_type d)) (losses_on log10 s (dev_id d) es) (ifaces_on (dev_id d) es) (initial_loss d) dl).
Proof.
  intros Hk Hrefs. assert (NoDup (dev_id <$> terminal_devices s)) as Hnd.
  { unfold terminal_devices. rewrite sort_by_perm. eapply sublist_NoDup; [apply Hk|].
    apply fmap_sublist, sublist_filter. }
  destruct (resolve_terminals_ok log10 c s Hk Hrefs _ Hnd
    (mkPhysics (foldl (λ m d, <[dev_id d := initial_loss d]> m) ∅ (devices s)) ∅)) as (st & E & Ht & Hother & Hd).
  exists st. split; [done|]. split_and!; [|done|].
  - intros k. split.
    + intros [r Hr]. destruct (decide (k ∈ dev_id <$> terminal_devices s)) as [|Hn]; [done|].
      rewrite Hother in Hr by done. cbn [ph_paths] in Hr. by rewrite lookup_empty in Hr.
    + intros (t & -> & Hin)%list_elem_of_fmap. destruct (Ht t Hin) as (r & Hr & _). by exists r.
  - intros d Hin. apply (Hd d (initial_loss d)); [|by apply get_device_key].
    cbn [ph_devices]. apply foldl_insert_lookup; [apply Hk|done].
Qed.

(** [math.log10] where the examples use it: at two. *)
Definition log10_two (x : float) : float := dec 30103 100000.

Lemma demo_refs : if_device_id <$> interfaces demo ⊆ dev_id <$> devices demo.
Proof. intros k Hk. apply mem_true. revert k Hk. apply Forall_forall. vm_compute. repeat constructor. Qed.

Lemma optical_physics_spec_witness :
  (∃ st r, resolve_optical_physics_state log10_two empty_catalog demo = Some st ∧ ph_paths st !! "ont" = Some (Resolved r) ∧
    rx_power_dbm r = fsub fzero (dec 36103 10000) ∧ link_budget_ok r = true) ∧
  ∃ st, resolve_optical_physics_state log10_two empty_catalog demo = Some st ∧
    (∀ k, is_Some (ph_paths st !! k) ↔ k ∈ dev_id <$> terminal_devices demo) ∧
    (∀ t, t ∈ terminal_devices demo → ∃ r, ph_paths st !! dev_id t = Some r ∧ terminal_ok log10_two empty_catalog demo t r) ∧
    (∀ d, d ∈ devices demo → ∃ dl, ph_devices st !! dev_id d = Some dl ∧
       let es := mjoin (chosen demo <$> terminal_devices demo) in
       loss_after (is_lossy (dev_type d)) (losses_on log10_two demo (dev_id d) es) (ifaces_on (dev_id d) es) (initial_loss d) dl).
Proof.
  split; [|exact (optical_physics_spec log10_two empty_catalog demo demo_keys demo_refs)].
  eexists _, _. split; [vm_compute; reflexivity|]. split; [vm_compute; reflexivity|]. split; vm_compute; reflexivity.
Defined.

(** An OLT and an ONT around a passive device that loses 1 dB. *)
Definition around (t : DeviceType) : DB :=
  mkDB [set_provisioned true (device0 "olt" OLT);
        mkDevice "mid" "mid" t UP false None None None (Some (of_Z 1)) None None None None None None None None None None;
        set_provisioned true (device0 "ont" ONT)]
    [interface0 "olt-pon" "olt" "pon1"; interface0 "mid-a" "mid" "a"; interface0 "mid-b" "mid" "b"; interface0 "ont-if0" "ont" "if0"]
    [link0 "l1" "olt-pon" "mid-a"; link0 "l2" "mid-b" "ont-if0"] [] [] [] [] [] [].

Definition loss_through (t : DeviceType) : option float :=
  st ← resolve_optical_physics_state log10_two empty_catalog (around t);
  dg_loss (default (mkDegradation None None None None None) (signal_degradation_map st !! "ont")).

(** The loss of an NVT counts on the hop into it and on the hop through it; a
    splitter's counts once; an ODF's and a HOP's do not count, though
    [optical_path_resolver.py] adds the loss of every inner device once. *)
Example passive_losses_differ :
  loss_through NVT = Some (dec 24 10) ∧ loss_through SPLITTER = Some (dec 14 10) ∧
  loss_through ODF = Some (dec 4 10) ∧ loss_through HOP = Some (dec 4 10).
Proof. vm_compute. repeat split; reflexivity. Qed.
