(* ===== verification/Outbox.v ===== *)
(** Real-time delivery: [api/endpoints/ws.py] and the broadcaster of [events.py].

    Emitters on any thread put envelopes into a bounded outbox that replaces
    outdated messages; one dispatcher task takes them and sends each to every
    connected client; a heartbeat task drops clients that stopped answering.
    [put] and [get] hold the queue's lock, so they are functions on the list of
    messages.  The tasks run on one event loop and can be interrupted only
    where they await, so the step relation has one step per stretch between two
    awaits. *)

From S2P Require Import Prelude PyFloat EventStore.

(** * The bounded queue *)

Record Envelope := mkEnvelope {
  msg_type : string; msg_kind : string; msg_payload : Payload; msg_topo_version : option Z;
  msg_correlation_id : option string; msg_ts : string
}.

(** [payload.get("id")] where it is true in a condition; the ids are strings. *)
Definition payload_id (p : Payload) : option string :=
  match dict_get p "id" with Some (JStr t) => truthy (Some t) | _ => None end.

Definition coalesce_key (m : Envelope) : option string :=
  let t := msg_type m in
  if String.eqb t "device.status.changed" then (λ d, "dev:" +:+ d +:+ ":status") <$> payload_id (msg_payload m)
  else if String.eqb t "device.optical.updated" then (λ d, "dev:" +:+ d +:+ ":optical") <$> payload_id (msg_payload m)
  else if String.eqb t "deviceMetricsUpdated" then Some "metrics:device"
  else if String.eqb t "linkMetricsUpdated" then Some "metrics:link"
  else None.

(** [for idx in range(n - 1, -1, -1)] *)
Fixpoint find_from (key : string) (dq : list Envelope) (n : nat) : option nat :=
  match n with
  | O => None
  | S idx => if bool_decide ((dq !! idx) ≫= coalesce_key = Some key) then Some idx else find_from key dq idx
  end.

Definition find_index_for_key (key : string) (dq : list Envelope) : option nat := find_from key dq (length dq).

Definition queue_size (maxsize : Z) : nat := Z.to_nat (Z.max 1 maxsize).

Definition is_metrics_key (key : option string) : bool :=
  match key with Some k => starts_with "metrics:" k | None => false end.

(** What a [put] does to the queue; [inr] names the message dropped to make room. *)
Definition put (size : nat) (msg : Envelope) (dq : list Envelope) : list Envelope * option Envelope :=
  let key := coalesce_key msg in
  let found := key ≫= λ k, find_index_for_key k dq in
  match is_metrics_key key, found with
  | true, Some idx => (<[idx := msg]> dq, None)
  | _, _ =>
      if (length dq <? size)%nat then (dq ++ [msg], None)
      else
        match found with
        | Some idx => (<[idx := msg]> dq, None)
        | None => (tail dq ++ [msg], head dq)
        end
  end.

Definition get (dq : list Envelope) : option (Envelope * list Envelope) :=
  match dq with [] => None | m :: rest => Some (m, rest) end.

(** * Publishing: [events.py] *)

Definition map_event_kind (event_type : string) : string :=
  default event_type (dict_get [
    ("device.provisioned", "deviceCreated"); ("device.status.changed", "deviceStatusUpdated");
    ("device.optical.updated", "deviceSignalUpdated"); ("device.provision.warning", "deviceProvisionWarning");
    ("link.created", "linkAdded"); ("link.deleted", "linkDeleted"); ("link.override.changed", "linkOverrideUpdated")] event_type).

Definition envelope (now : string) (ev : Event) : Envelope :=
  mkEnvelope (bus_event_type ev) (map_event_kind (bus_event_type ev)) (bus_payload ev) (bus_topo_version ev) None now.

(** The installed broadcaster: none, the one of the websocket module, or another. *)
Inductive Broadcaster := NoOpBroadcaster | WsBroadcaster | OtherBroadcaster.

(** [DelegatingBroadcaster.publish]: the envelopes it puts, and whether another
    broadcaster was called.  [direct]: the module could be imported and its
    [put] returned; [hook]: the registered publisher returned. *)
Definition delegating_publish (direct hook : bool) (current : Broadcaster) (env : Envelope) : list Envelope * bool :=
  let ws_enqueued := direct || hook in
  let first := if ws_enqueued then [env] else [] in
  match current with
  | NoOpBroadcaster => (first, false)
  | WsBroadcaster => (if ws_enqueued then first else first ++ [env], false)
  | OtherBroadcaster => (first, true)
  end.

(** [publish]: the outbox, the history and the event store. *)
Definition publish_with_fanout (size : nat) (direct hook : bool) (current : Broadcaster) (db_ok : bool) (now : string) (ev : Event)
    (st : list Envelope * (list Event * list EventStoreRecord)) : list Envelope * (list Event * list EventStoreRecord) :=
  (foldl (λ dq m, (put size m dq).1) st.1 (delegating_publish direct hook current (envelope now ev)).1,
   publish db_ok now ev st.2).

(** * The tasks *)

(** Where the dispatcher is: at the top of its loop, asleep because no client was
    connected, in a burst after [n]
    messages, sending a message of a burst to the clients left of the snapshot
    (and those that failed), or in the pause after a burst. *)
Inductive Dispatcher :=
  | AtTop
  | Napping
  | InBurst (n : nat)
  | Sending (n : nat) (msg : Envelope) (todo dead : list nat)
  | Paused.

Inductive Heartbeat := HbStart | HbSleep | HbPing (todo : list nat).

Definition BURST : nat := 256.

(** Clients are numbered in the order they connect.  The outbox is kept with what
    happened to its messages: all that were put, taken and dropped; [received] is
    what each client's socket accepted, [joined] how many messages had been taken
    when it connected; [sockets] the clients whose endpoint still runs. *)
Record Hub := mkHub {
  outbox : list Envelope;
  published : list Envelope; taken : list Envelope; dropped : list Envelope;
  sockets : gset nat; connections : gset nat; last_pong : gmap nat float;
  dispatcher : option Dispatcher; heartbeat : option Heartbeat;
  received : gmap nat (list Envelope); joined : gmap nat nat
}.

Definition initial_hub : Hub := mkHub [] [] [] [] ∅ ∅ ∅ None None ∅ ∅.

Definition with_outbox (dq pub tk dr : list Envelope) (h : Hub) : Hub :=
  mkHub dq pub tk dr (sockets h) (connections h) (last_pong h) (dispatcher h) (heartbeat h) (received h) (joined h).
Definition with_clients (cs : gset nat) (lp : gmap nat float) (h : Hub) : Hub :=
  mkHub (outbox h) (published h) (taken h) (dropped h) (sockets h) cs lp (dispatcher h) (heartbeat h) (received h) (joined h).
Definition with_tasks (d : option Dispatcher) (b : option Heartbeat) (h : Hub) : Hub :=
  mkHub (outbox h) (published h) (taken h) (dropped h) (sockets h) (connections h) (last_pong h) d b (received h) (joined h).
Definition with_received (r : gmap nat (list Envelope)) (h : Hub) : Hub :=
  mkHub (outbox h) (published h) (taken h) (dropped h) (sockets h) (connections h) (last_pong h) (dispatcher h) (heartbeat h) r (joined h).

Definition put_hub (size : nat) (m : Envelope) (h : Hub) : Hub :=
  let '(dq, lost) := put size m (outbox h) in
  with_outbox dq (published h ++ [m]) (taken h) (dropped h ++ option_list lost) h.

(** [websocket_endpoint] up to its loop: register, and start the tasks that do not run. *)
Definition connect (c : nat) (now : float) (h : Hub) : Hub :=
  mkHub (outbox h) (published h) (taken h) (dropped h) ({[c]} ∪ sockets h) ({[c]} ∪ connections h) (<[c := now]> (last_pong h))
    (Some (default AtTop (dispatcher h))) (Some (default HbStart (heartbeat h)))
    (<[c := []]> (received h)) (<[c := length (taken h)]> (joined h)).

(** Its end: unregister; the last client cancels both tasks. *)
Definition leave (c : nat) (h : Hub) : Hub :=
  let h := mkHub (outbox h) (published h) (taken h) (dropped h) (sockets h ∖ {[c]}) (connections h ∖ {[c]})
             (delete c (last_pong h)) (dispatcher h) (heartbeat h) (received h) (joined h) in
  if bool_decide (connections h = ∅) then with_tasks None None h else h.

Definition pong (c : nat) (now : float) (h : Hub) : Hub := with_clients (connections h) (<[c := now]> (last_pong h)) h.

(** The stale clients of a heartbeat. *)
Definition stale (timeout now : float) (h : Hub) : gset nat :=
  filter (λ c, fltb timeout (fsub now (default fzero (last_pong h !! c))) = true) (connections h).

Definition drop_clients (cs : gset nat) (h : Hub) : Hub :=
  with_clients (connections h ∖ cs) (filter (λ p, p.1 ∉ cs) (last_pong h)) h.

Definition after_round (h : Hub) : Hub :=
  with_tasks (dispatcher h) (if bool_decide (connections h = ∅) then None else Some HbSleep) h.

Section steps.
Context (size : nat) (timeout : float).

Inductive step : Hub → Hub → Prop :=
  | emit h m : step h (put_hub size m h)
  | client_connects h c now : c ∉ dom (joined h) → step h (connect c now h)
  | client_leaves h c : c ∈ sockets h → step h (leave c h)
  | client_pongs h c now : c ∈ sockets h → step h (pong c now h)
  (* the dispatcher *)
  | nap_begins h :
      dispatcher h = Some AtTop → connections h = ∅ → step h (with_tasks (Some Napping) (heartbeat h) h)
  | nap_ends h : dispatcher h = Some Napping → step h (with_tasks (Some AtTop) (heartbeat h) h)
  | idle_ends h :                     (* nothing queued, idle for long enough *)
      dispatcher h = Some Napping → outbox h = [] → step h (with_tasks None (heartbeat h) h)
  | burst_begins h :
      dispatcher h = Some AtTop → connections h ≠ ∅ → step h (with_tasks (Some (InBurst 0)) (heartbeat h) h)
  | message_taken h n m rest todo :
      dispatcher h = Some (InBurst n) → n < BURST → get (outbox h) = Some (m, rest) → todo ≡ₚ elements (connections h) →
      step h (with_tasks (Some (Sending n m todo [])) (heartbeat h)
        (with_outbox rest (published h) (taken h ++ [m]) (dropped h) h))
  | burst_ends h n :
      dispatcher h = Some (InBurst n) → n = BURST ∨ outbox h = [] → step h (with_tasks (Some Paused) (heartbeat h) h)
  | send_returns h n m c todo dead :
      dispatcher h = Some (Sending n m (c :: todo) dead) →
      step h (with_tasks (Some (Sending n m todo dead)) (heartbeat h) (with_received (alter (λ l, l ++ [m]) c (received h)) h))
  | send_raises h n m c todo dead :
      dispatcher h = Some (Sending n m (c :: todo) dead) →
      step h (with_tasks (Some (Sending n m todo (dead ++ [c]))) (heartbeat h) h)
  | broadcast_ends h n m dead :
      dispatcher h = Some (Sending n m [] dead) →
      step h (with_tasks (Some (InBurst (S n))) (heartbeat h) (with_clients (connections h ∖ list_to_set dead) (last_pong h) h))
  | pause_ends h : dispatcher h = Some Paused → step h (with_tasks (Some AtTop) (heartbeat h) h)
  (* the heartbeat *)
  | beat_starts h : heartbeat h = Some HbStart → step h (after_round h)
  | beat_wakes h todo :
      heartbeat h = Some HbSleep → todo ≡ₚ elements (connections h) → step h (with_tasks (dispatcher h) (Some (HbPing todo)) h)
  | ping_returns h c todo : heartbeat h = Some (HbPing (c :: todo)) → step h (with_tasks (dispatcher h) (Some (HbPing todo)) h)
  | ping_raises h c todo :
      heartbeat h = Some (HbPing (c :: todo)) → step h (with_tasks (dispatcher h) (Some (HbPing todo)) (drop_clients {[c]} h))
  | round_ends h now : heartbeat h = Some (HbPing []) → step h (after_round (drop_clients (stale timeout now h) h)).

Definition reachable (h : Hub) : Prop := rtc step initial_hub h.
End steps.
