(* ===== verification/OutboxProofs.v ===== *)
(** What reaches the clients: the outbox keeps the newest message of every key
    unless it overflows, a connected client receives everything taken since it
    connected, in order, and how a client can be left without a dispatcher. *)

From S2P Require Import Prelude PyFloat EventStore Outbox.

(** * The queue *)

Section queue.

Definition has_key (k : string) (m : Envelope) : Prop := coalesce_key m = Some k.
Definition unkeyed (m : Envelope) : Prop := coalesce_key m = None.

#[local] Instance has_key_dec k m : Decision (has_key k m) := decide (coalesce_key m = Some k).
#[local] Instance unkeyed_dec m : Decision (unkeyed m) := decide (coalesce_key m = None).

(** The last message with a key. *)
Definition latest (k : string) (l : list Envelope) : option Envelope := last (filter (has_key k) l).

Lemma latest_app k l1 l2 : latest k (l1 ++ l2) = match latest k l2 with Some m => Some m | None => latest k l1 end.
Proof. unfold latest. rewrite filter_app, last_app. done. Qed.

Lemma filter_no_key k l : (∀ m, m ∈ l → ¬ has_key k m) → filter (has_key k) l = [].
Proof.
  induction l as [|x l IH]; intros Hl; [done|]. rewrite filter_cons, decide_False by (apply Hl; by left).
  apply IH. intros m Hm. apply Hl. by right.
Qed.

Lemma latest_none k l : (∀ m, m ∈ l → ¬ has_key k m) → latest k l = None.
Proof. intros Hl. unfold latest. by rewrite filter_no_key. Qed.

Lemma latest_cons k m l : latest k (m :: l) = match latest k l with Some x => Some x | None => if decide (has_key k m) then Some m else None end.
Proof.
  change (m :: l) with ([m] ++ l). rewrite latest_app. destruct (latest k l); [done|]. unfold latest. rewrite filter_cons, filter_nil.
  by case_decide.
Qed.

Lemma find_from_spec k dq n : n ≤ length dq →
  match find_from k dq n with
  | Some i => i < n ∧ (∃ m, dq !! i = Some m ∧ has_key k m) ∧ ∀ j m, i < j < n → dq !! j = Some m → ¬ has_key k m
  | None => ∀ j m, j < n → dq !! j = Some m → ¬ has_key k m
  end.
Proof.
  induction n as [|n IH]; cbn [find_from]; intros Hn; [lia|].
  destruct (lookup_lt_is_Some_2 dq n) as [x Hx]; [lia|]. rewrite Hx. cbn [mbind option_bind]. case_bool_decide as Hk.
  - split; [lia|]. split; [by exists x|]. intros j m Hj. lia.
  - specialize (IH ltac:(lia)). destruct (find_from k dq n) as [i|].
    + destruct IH as (Hi & Hm & Hl). split; [lia|]. split; [done|]. intros j m Hj Ej.
      destruct (decide (j = n)) as [->|]; [|apply (Hl j); [lia|done]]. unfold has_key. congruence.
    + intros j m Hj Ej. destruct (decide (j = n)) as [->|]; [|apply (IH j); [lia|done]]. unfold has_key. congruence.
Qed.

(** The position found is the newest message with the key. *)
Lemma find_index_spec k dq :
  match find_index_for_key k dq with
  | Some i => ∃ l1 old l2, dq = l1 ++ old :: l2 ∧ length l1 = i ∧ has_key k old ∧ ∀ m, m ∈ l2 → ¬ has_key k m
  | None => ∀ m, m ∈ dq → ¬ has_key k m
  end.
Proof.
  pose proof (find_from_spec k dq (length dq) ltac:(done)) as Hf. unfold find_index_for_key.
  destruct (find_from k dq (length dq)) as [i|].
  - destruct Hf as (Hi & (old & Ho & Hk) & Hl). exists (take i dq), old, (drop (S i) dq).
    rewrite take_drop_middle, length_take by done. split_and!; [done|lia|done|].
    intros m (j & Hj)%list_elem_of_lookup_1. rewrite lookup_drop in Hj. apply (Hl (S i + j)); [|done].
    split; [lia|]. by apply lookup_lt_Some in Hj.
  - intros m (j & Hj)%list_elem_of_lookup_1. apply (Hf j); [|done]. by apply lookup_lt_Some in Hj.
Qed.

(** The three things a [put] can do. *)
Inductive put_case (size : nat) (m : Envelope) (dq : list Envelope) : list Envelope → option Envelope → Prop :=
  | put_appended : length dq < size → (∀ k, is_metrics_key (Some k) = true → has_key k m → ∀ x, x ∈ dq → ¬ has_key k x) →
      put_case size m dq (dq ++ [m]) None
  | put_replaced k l1 old l2 : dq = l1 ++ old :: l2 → has_key k old → has_key k m → (∀ x, x ∈ l2 → ¬ has_key k x) →
      put_case size m dq (l1 ++ m :: l2) None
  | put_evicted old rest : size ≤ length dq → dq = old :: rest → (∀ k, has_key k m → ∀ x, x ∈ dq → ¬ has_key k x) →
      put_case size m dq (rest ++ [m]) (Some old).

Lemma put_cases size m dq : 0 < size → put_case size m dq (put size m dq).1 (put size m dq).2.
Proof.
  intros Hs. unfold put. destruct (coalesce_key m) as [k|] eqn:Ek; cbn [mbind option_bind].
  - pose proof (find_index_spec k dq) as Hf. destruct (find_index_for_key k dq) as [i|].
    + destruct Hf as (l1 & old & l2 & -> & <- & Ho & Hl). rewrite insert_app_r_alt, Nat.sub_diag by done. cbn [list_insert insert].
      assert (put_case size m (l1 ++ old :: l2) (l1 ++ m :: l2) None) as Hr by by eapply put_replaced.
      destruct (is_metrics_key (Some k)) eqn:Em; [exact Hr|]. destruct (Nat.ltb_spec (length (l1 ++ old :: l2)) size); [|exact Hr].
      apply put_appended; [done|]. intros k' Hm Hk'. unfold has_key in Hk'. congruence.
    + assert (∀ k', has_key k' m → ∀ x, x ∈ dq → ¬ has_key k' x) as Hno by (unfold has_key; intros k' E; replace k' with k by congruence; done).
      destruct (is_metrics_key _), (Nat.ltb_spec (length dq) size); try (by apply put_appended; eauto);
        destruct dq as [|old rest]; cbn [length] in *; try lia; by apply put_evicted.
  - destruct (Nat.ltb_spec (length dq) size); [apply put_appended; [done|]; unfold has_key; intros; congruence|].
    destruct dq as [|old rest]; cbn [length] in *; [lia|]. apply put_evicted; [done..|]. unfold has_key. intros; congruence.
Qed.

(** What was published, taken and dropped, and what is queued. *)
Record kept (size : nat) (pub tk dr dq : list Envelope) : Prop := {
  kp_size : length dq ≤ size;
  kp_latest : ∀ k m, latest k pub = Some m → latest k (tk ++ dq) = Some m ∨ m ∈ dr;
  kp_order : filter unkeyed (tk ++ dq) `sublist_of` filter unkeyed pub;
  kp_account : filter unkeyed pub ≡ₚ filter unkeyed dr ++ filter unkeyed (tk ++ dq);
  kp_metrics : ∀ k, is_metrics_key (Some k) = true → length (filter (has_key k) dq) ≤ 1
}.

Lemma kept_nil size : kept size [] [] [] [].
Proof. split; try done; cbn; try lia. Qed.

Lemma latest_snoc k l m : latest k (l ++ [m]) = if decide (has_key k m) then Some m else latest k l.
Proof. rewrite latest_app, latest_cons. cbn. by case_decide. Qed.

Lemma unkeyed_has_key k m : has_key k m → ¬ unkeyed m.
Proof. unfold has_key, unkeyed. congruence. Qed.

Lemma has_key_det k k' m : has_key k m → has_key k' m → k = k'.
Proof. unfold has_key. congruence. Qed.

Lemma kept_append size pub tk dr dq m :
  kept size pub tk dr dq → length dq < size →
  (∀ k, is_metrics_key (Some k) = true → has_key k m → ∀ x, x ∈ dq → ¬ has_key k x) →
  kept size (pub ++ [m]) tk dr (dq ++ [m]).
Proof.
  intros [H1 H2 H3 H4 H5] Hl Hm. split.
  - rewrite length_app. cbn. lia.
  - intros k x. rewrite app_assoc, !latest_snoc. case_decide; [by left|]. apply H2.
  - rewrite app_assoc, !(filter_app _ _ [m]). by apply sublist_app.
  - rewrite app_assoc, !(filter_app _ _ [m]), H4. by rewrite app_assoc.
  - intros k Hk. rewrite filter_app, length_app, filter_cons, filter_nil. destruct (decide (has_key k m)) as [E|E]; [|rewrite Nat.add_0_r; by apply H5].
    rewrite filter_no_key; [done|]. by apply Hm.
Qed.

Lemma latest_replace k k0 l1 l2 old m :
  has_key k0 old → has_key k0 m → k ≠ k0 → latest k (l1 ++ m :: l2) = latest k (l1 ++ old :: l2).
Proof.
  intros Ho Hm Hne. rewrite !latest_app, !latest_cons. rewrite !decide_False; [done|..]; intros E; by eapply Hne, has_key_det.
Qed.

Lemma kept_replace size pub tk dr l1 l2 k old m :
  kept size pub tk dr (l1 ++ old :: l2) → has_key k old → has_key k m → (∀ x, x ∈ l2 → ¬ has_key k x) →
  kept size (pub ++ [m]) tk dr (l1 ++ m :: l2).
Proof.
  intros [H1 H2 H3 H4 H5] Ho Hm Hl. pose proof (unkeyed_has_key k m Hm) as Hum. pose proof (unkeyed_has_key k old Ho) as Huo.
  assert (∀ l, filter unkeyed (l ++ m :: l2) = filter unkeyed (l ++ old :: l2)) as Hf.
  { intros l. by rewrite !filter_app, !filter_cons, !decide_False by done. }
  assert (filter unkeyed (pub ++ [m]) = filter unkeyed pub) as Hp.
  { rewrite filter_app, filter_cons, decide_False by done. by rewrite filter_nil, app_nil_r. }
  split.
  - rewrite length_app in *. done.
  - intros k' x. rewrite latest_snoc. destruct (decide (has_key k' m)) as [E|E].
    + intros [= <-]. left. rewrite (has_key_det k' k m) by done. rewrite !latest_app, latest_cons, latest_none by done. by rewrite decide_True.
    + intros Hx. rewrite app_assoc, (latest_replace k' k _ _ old m), <-app_assoc; [by apply H2|done..|]. by intros ->.
  - rewrite app_assoc, Hf, <-app_assoc, Hp. exact H3.
  - rewrite app_assoc, Hf, <-app_assoc, Hp. exact H4.
  - intros k' Hk'. specialize (H5 k' Hk'). rewrite !filter_app, !filter_cons, !length_app in *.
    destruct (decide (has_key k' m)) as [E|E], (decide (has_key k' old)) as [E'|E']; cbn [length] in *; try done; [|lia].
    destruct E'. by rewrite (has_key_det k' k m).
Qed.

Lemma kept_evict size pub tk dr old rest m :
  0 < size → kept size pub tk dr (old :: rest) → (∀ k, has_key k m → ∀ x, x ∈ old :: rest → ¬ has_key k x) →
  kept size (pub ++ [m]) tk (dr ++ [old]) (rest ++ [m]).
Proof.
  intros Hs [H1 H2 H3 H4 H5] Hm. split.
  - rewrite length_app. cbn in *. lia.
  - intros k x. rewrite app_assoc, !latest_snoc. case_decide; [by left|]. intros [Hx|Hx]%H2; [|right; set_solver].
    rewrite latest_app, latest_cons in Hx. rewrite latest_app. destruct (latest k rest); [by left|].
    case_decide; [|by left]. injection Hx as ->. right. set_solver.
  - rewrite app_assoc, !(filter_app _ _ [m]). apply sublist_app; [|done]. etrans; [|exact H3].
    rewrite !filter_app, filter_cons. apply sublist_app; [done|]. case_decide; [by apply sublist_cons|done].
  - rewrite app_assoc, !(filter_app _ _ [m]), H4, !filter_app, !(filter_cons _ old), filter_nil.
    case_decide; [|by rewrite !app_nil_r, !app_assoc]. solve_Permutation.
  - intros k Hk. rewrite filter_app, length_app, filter_cons, filter_nil. specialize (H5 k Hk). rewrite filter_cons in H5.
    destruct (decide (has_key k m)) as [E|E].
    + rewrite filter_no_key; [done|]. intros x Hx. apply (Hm k E). by right.
    + cbn [length]. destruct (decide (has_key k old)); cbn [length] in *; lia.
Qed.

Lemma kept_put size pub tk dr dq m :
  0 < size → kept size pub tk dr dq →
  kept size (pub ++ [m]) tk (dr ++ option_list (put size m dq).2) (put size m dq).1.
Proof.
  intros Hs Hkept. destruct (put_cases size m dq Hs) as [Hl Hm|k l1 old l2 -> Ho Hm Hl|old rest Hl -> Hm]; cbn [option_list];
    rewrite ?app_nil_r; [by apply kept_append|by eapply kept_replace|by apply kept_evict].
Qed.

Lemma kept_take size pub tk dr m rest : kept size pub tk dr (m :: rest) → kept size pub (tk ++ [m]) dr rest.
Proof.
  intros [H1 H2 H3 H4 H5]. split; rewrite <-?app_assoc; try done; [cbn in *; lia|].
  intros k Hk. specialize (H5 k Hk). rewrite filter_cons in H5. destruct (decide (has_key k m)); cbn [length] in *; lia.
Qed.
End queue.

(** * The clients *)

(** The message on its way to a client, and the clients a send just failed for. *)
Definition in_flight (h : Hub) (c : nat) : list Envelope :=
  match dispatcher h with Some (Sending _ m todo _) => if mem c todo then [m] else [] | _ => [] end.

Definition failing (h : Hub) : list nat :=
  match dispatcher h with Some (Sending _ _ _ dead) => dead | _ => [] end.

(** A client that connected after [j] messages received a part of what was taken
    since, all of it while it is connected. *)
Definition follows (h : Hub) (c : nat) : Prop := ∃ j l,
  joined h !! c = Some j ∧ received h !! c = Some l ∧ j ≤ length (taken h) ∧ l `prefix_of` drop j (taken h) ∧
  (in_flight h c ≠ [] ∨ (c ∈ connections h ∧ c ∉ failing h) → l ++ in_flight h c = drop j (taken h)).

Definition sending_ok (h : Hub) : Prop :=
  match dispatcher h with
  | Some (Sending _ _ todo dead) => NoDup todo ∧ ∀ c, c ∈ todo → c ∈ dom (joined h) ∧ c ∉ dead
  | _ => True
  end.

Record stream (size : nat) (h : Hub) : Prop := {
  sm_kept : kept size (published h) (taken h) (dropped h) (outbox h);
  sm_sockets : sockets h ⊆ dom (joined h);
  sm_connections : connections h ⊆ dom (joined h);
  sm_sending : sending_ok h;
  sm_follows : ∀ c, c ∈ dom (joined h) → follows h c
}.

(** A change of the tasks and of the set of clients that lets no client in. *)
Lemma stream_shrink size h h' :
  stream size h → outbox h' = outbox h → published h' = published h → taken h' = taken h → dropped h' = dropped h →
  sockets h' ⊆ sockets h → connections h' ⊆ connections h → received h' = received h → joined h' = joined h → sending_ok h' →
  (∀ c, in_flight h' c = in_flight h c ∨ (in_flight h' c = [] ∧ connections h' = ∅)) →
  (∀ c, c ∈ connections h' → c ∈ failing h → c ∈ failing h') →
  stream size h'.
Proof.
  intros [H1 H2 H3 H4 H5] Eo Ep Et Ed Hs Hc Er Ej Hsend Hfl Hfail. split.
  - congruence.
  - rewrite Ej. set_solver.
  - rewrite Ej. set_solver.
  - done.
  - intros c Hin. rewrite Ej in Hin. destruct (H5 c Hin) as (j & l & E1 & E2 & E3 & E4 & E5). exists j, l. rewrite Ej, Er, Et.
    split_and!; [done..|]. destruct (Hfl c) as [->|[-> Hno]].
    + intros [?|[? ?]]; apply E5; [by left|right; split; [set_solver|auto]].
    + intros [?|[? ?]]; [done|set_solver].
Qed.

Lemma mem_cons_ne (x c : nat) l : x ≠ c → mem x (c :: l) = mem x l.
Proof. intros Hne. apply bool_decide_ext. rewrite elem_of_cons. tauto. Qed.

Lemma drop_snoc_le {A} (l : list A) j x : j ≤ length l → drop j (l ++ [x]) = drop j l ++ [x].
Proof. intros Hj. rewrite drop_app. by replace (j - length l) with 0 by lia. Qed.

Lemma stream_connect size h c now : stream size h → c ∉ dom (joined h) → stream size (connect c now h).
Proof.
  intros [H1 H2 H3 H4 H5] Hc. unfold connect. split; cbn [outbox published taken dropped sockets connections joined received dispatcher].
  - done.
  - rewrite dom_insert. set_solver.
  - rewrite dom_insert. set_solver.
  - unfold sending_ok in *. cbn [dispatcher joined]. destruct (dispatcher h) as [[]|]; try done. cbn [default from_option id].
    destruct H4 as [? Hl]. split; [done|]. intros x Hx. destruct (Hl x Hx). rewrite dom_insert. set_solver.
  - assert (∀ x, in_flight (connect c now h) x = in_flight h x) as Hfl by (intros x; unfold in_flight, connect; cbn; by destruct (dispatcher h)).
    assert (failing (connect c now h) = failing h) as Hfa by (unfold failing, connect; cbn; by destruct (dispatcher h)).
    unfold connect in Hfl, Hfa. intros x Hx. rewrite dom_insert in Hx. unfold follows. cbn [joined received taken connections]. rewrite Hfa, Hfl.
    destruct (decide (x = c)) as [->|Hne].
    + exists (length (taken h)), []. rewrite !lookup_insert_eq, drop_all. split_and!; [done..|]. intros _.
      unfold in_flight. unfold sending_ok in H4. destruct (dispatcher h) as [[]|]; try done.
      destruct (mem c todo) eqn:E; [|done]. apply mem_true, H4 in E as [? _]. done.
    + rewrite !lookup_insert_ne by done. destruct (H5 x ltac:(set_solver)) as (j & l & E1 & E2 & E3 & E4 & E5).
      exists j, l. split_and!; [done..|]. intros [?|[? ?]]; apply E5; [by left|right; set_solver].
Qed.

Lemma stream_take size h n m rest todo :
  stream size h → dispatcher h = Some (InBurst n) → get (outbox h) = Some (m, rest) → todo ≡ₚ elements (connections h) →
  stream size (with_tasks (Some (Sending n m todo [])) (heartbeat h) (with_outbox rest (published h) (taken h ++ [m]) (dropped h) h)).
Proof.
  intros [H1 H2 H3 H4 H5] Ed Hg Ht. unfold with_tasks, with_outbox.
  split; cbn [outbox published taken dropped sockets connections joined received dispatcher]; try done.
  - destruct (outbox h) as [|m' rest'] eqn:Eo; [done|]. injection Hg as -> ->. by apply kept_take.
  - unfold sending_ok. cbn [dispatcher joined]. split; [rewrite Ht; apply NoDup_elements|].
    intros c Hc. split; [|apply not_elem_of_nil]. apply H3, elem_of_elements. by rewrite <-Ht.
  - intros c Hc. destruct (H5 c Hc) as (j & l & E1 & E2 & E3 & E4 & E5). exists j, l.
    unfold in_flight, failing. cbn [outbox published taken dropped sockets connections joined received dispatcher].
    rewrite length_app, drop_snoc_le by done. split_and!; [done..|lia|by apply prefix_app_r|].
    assert (c ∈ todo → l = drop j (taken h)) as Hl.
    { rewrite Ht, elem_of_elements. intros Hin. unfold in_flight, failing in E5. rewrite Ed in E5. rewrite app_nil_r in E5.
      apply E5. right. split; [done|]. apply not_elem_of_nil. }
    destruct (mem c todo) eqn:E; [apply mem_true in E; intros _; by rewrite Hl|]. apply mem_false in E.
    intros [?|[Hin _]]; [done|]. destruct E. rewrite Ht. by apply elem_of_elements.
Qed.

Lemma stream_send size h n m c todo dead :
  stream size h → dispatcher h = Some (Sending n m (c :: todo) dead) →
  stream size (with_tasks (Some (Sending n m todo dead)) (heartbeat h) (with_received (alter (λ l, l ++ [m]) c (received h)) h)).
Proof.
  intros [H1 H2 H3 H4 H5] Ed. unfold with_tasks, with_received. unfold sending_ok in H4. rewrite Ed in H4.
  destruct H4 as [[Hc Hnd]%NoDup_cons Hd].
  split; cbn [outbox published taken dropped sockets connections joined received dispatcher]; try done.
  - unfold sending_ok. cbn [dispatcher joined]. split; [done|]. intros x Hx. apply Hd. by right.
  - intros x Hx. destruct (H5 x Hx) as (j & l & E1 & E2 & E3 & E4 & E5). unfold in_flight, failing in E5. rewrite Ed in E5.
    exists j. unfold in_flight, failing. cbn [outbox published taken dropped sockets connections joined received dispatcher].
    destruct (decide (x = c)) as [->|Hne].
    + exists (l ++ [m]). rewrite lookup_alter_eq, E2. cbn [fmap option_fmap option_map]. rewrite (proj2 (mem_true c (c :: todo))) in E5 by by left.
      rewrite (proj2 (mem_false c todo)) by done. rewrite E5 by by left. rewrite app_nil_r. by split_and!; [..|reflexivity|].
    + exists l. rewrite lookup_alter_ne by done. split_and!; [done..|].
      rewrite mem_cons_ne in E5 by done. exact E5.
Qed.

Lemma stream_send_raises size h n m c todo dead :
  stream size h → dispatcher h = Some (Sending n m (c :: todo) dead) →
  stream size (with_tasks (Some (Sending n m todo (dead ++ [c]))) (heartbeat h) h).
Proof.
  intros [H1 H2 H3 H4 H5] Ed. unfold with_tasks. unfold sending_ok in H4. rewrite Ed in H4. destruct H4 as [[Hc Hnd]%NoDup_cons Hd].
  split; cbn [outbox published taken dropped sockets connections joined received dispatcher]; try done.
  - unfold sending_ok. cbn [dispatcher joined]. split; [done|]. intros x Hx. destruct (Hd x); [by right|]. split; [done|].
    rewrite elem_of_app, list_elem_of_singleton. intros [?| ->]; done.
  - intros x Hx. destruct (H5 x Hx) as (j & l & E1 & E2 & E3 & E4 & E5). unfold in_flight, failing in E5. rewrite Ed in E5.
    exists j, l. unfold in_flight, failing. cbn [outbox published taken dropped sockets connections joined received dispatcher].
    split_and!; [done..|]. destruct (decide (x = c)) as [->|Hne].
    + rewrite (proj2 (mem_false c todo)) by done. intros [?|[_ Hn]]; [done|]. destruct Hn. set_solver.
    + rewrite mem_cons_ne in E5 by done.
      intros [?|[? Hn]]; apply E5; [by left|right; split; [done|]]. set_solver.
Qed.

(** Leaves what the dispatcher is sending, to whom, and who failed. *)
Ltac shrink :=
  match goal with H : stream _ _ |- _ => apply (stream_shrink _ _ _ H); [cbn; first [reflexivity|set_solver]..| | |] end.

Lemma in_flight_idle h c : (∀ n m todo dead, dispatcher h ≠ Some (Sending n m todo dead)) → in_flight h c = [].
Proof. unfold in_flight. destruct (dispatcher h) as [[]|]; try done. intros Hn. by destruct (Hn n msg todo dead). Qed.

(** The dispatcher moves between two points at which it sends nothing. *)
Lemma stream_move size h d b :
  stream size h → (∀ n m todo dead, dispatcher h ≠ Some (Sending n m todo dead)) →
  (∀ n m todo dead, d ≠ Some (Sending n m todo dead)) → stream size (with_tasks d b h).
Proof.
  intros Hst Hn Hd. shrink.
  - unfold sending_ok. cbn. destruct d as [[]|]; try done. by destruct (Hd n msg todo dead).
  - intros c. left. rewrite !in_flight_idle; done.
  - unfold failing. destruct (dispatcher h) as [[]|]; try (by intros ? ? ?%elem_of_nil). by destruct (Hn n msg todo dead).
Qed.

(** A client is taken off the set; the dispatcher is where it was. *)
Lemma stream_remove size h cs lp b :
  stream size h → cs ⊆ connections h → stream size (with_tasks (dispatcher h) b (with_clients cs lp h)).
Proof.
  intros Hst Hcs. shrink; [apply (sm_sending _ _ Hst)|by left|done].
Qed.

Lemma stream_leave size h c : stream size h → stream size (leave c h).
Proof.
  intros Hst. unfold leave. case_bool_decide as E; cbn [connections] in E; shrink; [done|by right|cbn; set_solver|..].
  - apply (sm_sending _ _ Hst).
  - by left.
  - done.
Qed.

Lemma stream_broadcast_ends size h n m dead :
  stream size h → dispatcher h = Some (Sending n m [] dead) →
  stream size (with_tasks (Some (InBurst (S n))) (heartbeat h) (with_clients (connections h ∖ list_to_set dead) (last_pong h) h)).
Proof.
  intros Hst Ed. shrink; [done|..].
  - intros c. left. unfold in_flight. rewrite Ed. done.
  - intros c [_ Hc]%elem_of_difference. unfold failing. rewrite Ed. rewrite elem_of_list_to_set in Hc. done.
Qed.

Lemma stream_step size timeout h h' : 0 < size → stream size h → step size timeout h h' → stream size h'.
Proof.
  intros Hs Hst Hstep. destruct Hstep.
  - unfold put_hub. destruct (put size m (outbox h)) as [dq lost] eqn:E. destruct Hst as [H1 H2 H3 H4 H5]. split; try done.
    cbn. pose proof (kept_put size _ _ _ _ m Hs H1) as Hk. by rewrite E in Hk.
  - by apply stream_connect.
  - by apply stream_leave.
  - shrink; [apply (sm_sending _ _ Hst)|by left|done].
  - apply stream_move; intros; congruence.
  - apply stream_move; intros; congruence.
  - apply stream_move; intros; congruence.
  - apply stream_move; intros; congruence.
  - by eapply stream_take.
  - apply stream_move; intros; congruence.
  - by eapply stream_send.
  - by eapply stream_send_raises.
  - by eapply stream_broadcast_ends.
  - apply stream_move; intros; congruence.
  - unfold after_round. by apply (stream_remove size h (connections h) (last_pong h)).
  - by apply (stream_remove size h (connections h) (last_pong h)).
  - by apply (stream_remove size h (connections h) (last_pong h)).
  - by apply (stream_remove size h), subseteq_difference_l.
  - by apply (stream_remove size h), subseteq_difference_l.
Qed.

Lemma stream_reachable size timeout h : 0 < size → reachable size timeout h → stream size h.
Proof.
  intros Hs Hr. assert (stream size initial_hub) as H0.
  { split; [apply kept_nil|cbn; set_solver..|done|]. cbn. intros c Hc. rewrite dom_empty in Hc. set_solver. }
  unfold reachable in Hr. revert H0. generalize dependent initial_hub. induction 1 as [|a b x Hab Hbx IH]; [done|].
  intros Ha. apply IH. by eapply stream_step.
Qed.

(** C00 Along every interleaving of emitters, connecting and leaving clients, the
    dispatcher and the heartbeat: the outbox is bounded; the newest message of
    every key is the newest taken or queued one unless it was dropped from a full
    queue; messages without a key keep their order and are all taken, queued or
    dropped; at most one metrics message of a kind is queued.  Every client
    received a prefix of what was taken since it connected, and while it is
    connected and no send to it has just failed, all of it but the message that is
    on its way. *)
Theorem clients_follow_the_stream size timeout h :
  0 < size → reachable size timeout h →
  kept size (published h) (taken h) (dropped h) (outbox h) ∧ connections h ⊆ dom (joined h) ∧
  ∀ c, c ∈ dom (joined h) → follows h c.
Proof. intros Hs [Hk _ Hc _ Hf]%stream_reachable; done. Qed.

Definition status_message (d s : string) : Envelope :=
  envelope "t" (mkBusEvent "device.status.changed" [("id", JStr d); ("status", JStr s)] None).
Definition link_message (l : string) : Envelope := envelope "t" (mkBusEvent "link.deleted" [("id", JStr l)] None).

(** One client, two status messages of a device in a queue for one. *)
Definition one_client : Hub :=
  let h := put_hub 1 (status_message "d" "UP") (put_hub 1 (status_message "d" "DOWN") (connect 0 fzero initial_hub)) in
  with_tasks (Some (Sending 0 (status_message "d" "UP") [] [])) (heartbeat h)
    (with_received {[0 := [status_message "d" "UP"]]} (with_outbox [] (published h) [status_message "d" "UP"] [] h)).

Lemma one_client_reachable : reachable 1 fzero one_client.
Proof.
  eapply rtc_l; [apply (client_connects _ _ _ 0 fzero); cbn; set_solver|].
  eapply rtc_l; [apply (emit _ _ _ (status_message "d" "DOWN"))|]. eapply rtc_l; [apply (emit _ _ _ (status_message "d" "UP"))|].
  eapply rtc_l; [apply burst_begins; [reflexivity|cbn; set_solver]|].
  eapply rtc_l; [eapply (message_taken _ _ _ 0 _ _ [0]); [reflexivity|unfold BURST; lia|reflexivity|reflexivity]|].
  eapply rtc_l; [by eapply send_returns|]. match goal with |- rtc _ ?a ?b => replace a with b; [apply rtc_refl|] end.
  vm_compute. reflexivity.
Qed.

Lemma clients_follow_the_stream_witness :
  latest "dev:d:status" (published one_client) = Some (status_message "d" "UP") ∧
  (kept 1 (published one_client) (taken one_client) (dropped one_client) (outbox one_client) ∧
   connections one_client ⊆ dom (joined one_client) ∧ ∀ c, c ∈ dom (joined one_client) → follows one_client c).
Proof.
  split; [vm_compute; reflexivity|]. exact (clients_follow_the_stream 1 fzero one_client Nat.lt_0_1 one_client_reachable).
Defined.

(** * Without a dispatcher *)

(** A step in which no client connects. *)
Definition quiet_step (size : nat) (timeout : float) (h h' : Hub) : Prop := step size timeout h h' ∧ joined h' = joined h.

Lemma quiet_without_dispatcher size timeout h h' :
  dispatcher h = None → quiet_step size timeout h h' → dispatcher h' = None ∧ taken h' = taken h ∧ received h' = received h.
Proof.
  intros Hd [Hs Hj]. destruct Hs; try congruence; try done.
  - unfold put_hub. by destruct (put _ _ _).
  - exfalso. cbn in Hj. apply H. rewrite <-Hj, dom_insert. set_solver.
  - unfold leave. by case_bool_decide.
Qed.

Lemma quiet_run size timeout h h' :
  rtc (quiet_step size timeout) h h' → dispatcher h = None → dispatcher h' = None ∧ taken h' = taken h ∧ received h' = received h.
Proof.
  induction 1 as [|a b h' Hab Hr IH]; [done|]. intros Hd.
  destruct (quiet_without_dispatcher _ _ _ _ Hd Hab) as (Hd' & <- & <-). by apply IH.
Qed.

(** C00 A client can be connected without a dispatcher: one that connects while the
    dispatcher sleeps because no client was connected does not start another, and
    the dispatcher then ends because the queue is empty.  From there on, whatever
    is emitted, nothing is taken and no client receives anything until another
    client connects. *)
Theorem client_left_without_dispatcher size timeout :
  ∃ h c, reachable size timeout h ∧ c ∈ sockets h ∧ c ∈ connections h ∧ outbox h = [] ∧
    ∀ h', rtc (quiet_step size timeout) h h' → dispatcher h' = None ∧ taken h' = taken h ∧ received h' = received h.
Proof.
  eexists _, 1. split; [|split; [|split; [|split]]].
  - eapply rtc_l; [apply (client_connects _ _ _ 0 fzero); cbn; set_solver|].
    eapply rtc_l; [by apply beat_starts|]. eapply rtc_l; [by apply (beat_wakes _ _ _ [0])|].
    eapply rtc_l; [by eapply ping_raises|]. eapply rtc_l; [by apply nap_begins|].
    eapply rtc_l; [apply (client_connects _ _ _ 1 fzero); cbn; set_solver|].
    eapply rtc_l; [by apply idle_ends|]. apply rtc_refl.
  - cbn. set_solver.
  - cbn. set_solver.
  - done.
  - intros h' Hr. by apply (quiet_run size timeout _ _ Hr).
Qed.

(** The same with a message emitted afterwards. *)
Lemma client_left_without_dispatcher_witness :
  ∃ h c, reachable 1024 (of_Z 45) h ∧ c ∈ sockets h ∧ c ∈ connections h ∧ outbox h = [] ∧
    taken (put_hub 1024 (link_message "l") h) = taken h ∧ received (put_hub 1024 (link_message "l") h) = received h.
Proof.
  destruct (client_left_without_dispatcher 1024 (of_Z 45)) as (h & c & Hr & Hs & Hc & Ho & Hq).
  exists h, c. split; [exact Hr|]. split; [exact Hs|]. split; [exact Hc|]. split; [exact Ho|].
  apply (Hq (put_hub 1024 (link_message "l") h)). apply rtc_once. split; [apply emit|].
  unfold put_hub. destruct (put _ _ _). reflexivity.
Defined.

(** A failed send takes the client off the set, but the burst goes on: the second
    message is taken although nobody is connected. *)
Example burst_drains_unheard :
  ∃ h, reachable 1024 (of_Z 45) h ∧ connections h = ∅ ∧ 0 ∈ sockets h ∧
    taken h = [link_message "l1"; link_message "l2"] ∧ received h !! 0 = Some [].
Proof.
  eexists. split; [|split; [|split; [|split]]].
  - eapply rtc_l; [apply (client_connects _ _ _ 0 fzero); cbn; set_solver|].
    eapply rtc_l; [apply (emit _ _ _ (link_message "l1"))|]. eapply rtc_l; [apply (emit _ _ _ (link_message "l2"))|].
    eapply rtc_l; [apply burst_begins; [reflexivity|cbn; set_solver]|].
    eapply rtc_l; [eapply (message_taken _ _ _ 0 _ _ [0]); [reflexivity|unfold BURST; lia|reflexivity|reflexivity]|].
    eapply rtc_l; [by eapply send_raises|]. eapply rtc_l; [by eapply broadcast_ends|].
    eapply rtc_l; [eapply (message_taken _ _ _ 1 _ _ []); [reflexivity|unfold BURST; lia|reflexivity|reflexivity]|].
    apply rtc_refl.
  - vm_compute. reflexivity.
  - apply elem_of_union. left. by apply elem_of_singleton.
  - reflexivity.
  - reflexivity.
Qed.

(** In a full queue a newer status takes the place of the older one, ahead of the
    messages that were emitted between them. *)
Example newer_status_overtakes :
  (put 2 (status_message "d" "UP") [status_message "d" "DOWN"; link_message "l"]).1 = [status_message "d" "UP"; link_message "l"].
Proof. vm_compute. reflexivity. Qed.
