(* ===== verification/Jobs.v ===== *)
(** Asynchronous link requests: [core/jobs.py], [services/worker.py],
    [services/job_dispatcher.py], the worker loop of [main.py] and the two
    endpoints of [api/endpoints/links.py] that only accept a job.

    The endpoints append to a queue and answer 202; a loop takes up to 256 jobs
    at a time and runs the handlers of the link requests on them, swallowing
    what they raise.  A job is run by the loop's thread without an interruption
    by another job.  The queue has no lock though endpoints and loop run on
    different threads: [Unlocked] models what then happens to it, everything else
    takes its operations as atomic. *)

From stdpp Require Import pretty.
From S2P Require Import Prelude PyFloat Models EventStore Errors MacAllocator Links.
From S2P Require Import NxGraph Pathfinding Status StatusRecompute OpticalPath OpticalService Devices LinkChanges.

(** * Jobs and the queue *)

(** [kind] and [payload] of a job.  A payload of [link.create] that does not
    validate is [None]. *)
Inductive JobRequest :=
  | LinkOverride (link_id : string) (body : OverrideBody)
  | LinkCreation (payload : option LinkCreate)
  | LinkDeletion (link_id : string)
  | OtherKind (kind : string).

Definition job_kind (r : JobRequest) : string :=
  match r with
  | LinkOverride _ _ => "link.override" | LinkCreation _ => "link.create" | LinkDeletion _ => "link.delete"
  | OtherKind k => k
  end.

Record Job := mkJob { job_id : string; job_request : JobRequest }.

Definition next_job_id (kind : string) (count : N) : string := kind +:+ ":" +:+ pretty count.

(** [InMemoryJobQueue.next_microbatch]: the batch and the jobs left. *)
Definition next_microbatch (max_items : Z) (q : list Job) : list Job * list Job :=
  if (max_items <=? 0)%Z then ([], q)
  else let batch := take (Z.to_nat max_items) q in (batch, drop (length batch) q).

Definition WORKER_BATCH : Z := 256.

(** * The dispatcher *)

(** What surrounds the handlers while a job runs. *)
Record JobEnv := mkJobEnv { je_link : Env; je_change : LinkEnv }.

Section jobs.
Context {G : Type} `{NxGraph G} `{Dijkstra G}.
Context (env_of : string → JobEnv).

(** A handler on the world; the version bumps reach the optical caches. *)
Definition through_world {A} (f : World → Outcome A * World) (st : LinkState (G := G)) : Outcome A * LinkState (G := G) :=
  let '(r, w) := f st.1 in
  let sv := st.2 in
  (r, (w, mkServices (sv_cache sv) (sv_prop sv) (sv_diag sv) (sv_events sv) (sv_client sv)
            (Nat.iter (Z.to_nat (w_topo w - w_topo st.1)) (λ memo, (bump_version_optical memo).2) (sv_memo sv)))).

(** One turn of [handle_batch]: a raised exception is swallowed; [None]: the
    handler does not return. *)
Definition handle_job (j : Job) (st : LinkState (G := G)) : option (LinkState (G := G)) :=
  let env := env_of (job_id j) in
  match job_request j with
  | LinkOverride lid body =>
      match set_link_override_impl (je_change env) lid body st with (Diverge, _) => None | (_, st') => Some st' end
  | LinkCreation (Some payload) =>
      match through_world (create_link_impl (je_link env) payload) st with (Diverge, _) => None | (_, st') => Some st' end
  | LinkDeletion lid =>
      match through_world (delete_link_impl (je_link env) lid) st with (Diverge, _) => None | (_, st') => Some st' end
  | LinkCreation None | OtherKind _ => Some st
  end.

Fixpoint handle_batch (batch : list Job) (st : LinkState (G := G)) : option (LinkState (G := G)) :=
  match batch with
  | [] => Some st
  | j :: rest => st' ← handle_job j st; handle_batch rest st'
  end.

(** * The process *)

Record JobSystem := mkJobs { job_queue : list Job; job_count : N; job_net : LinkState (G := G) }.

(** [enqueue]: the job it returns. *)
Definition enqueue (r : JobRequest) (js : JobSystem) : Job * JobSystem :=
  let j := mkJob (next_job_id (job_kind r) (job_count js)) r in
  (j, mkJobs (job_queue js ++ [j]) (job_count js + 1) (job_net js)).

(** The endpoints; their 202 names the job. *)
Definition delete_link (lid : string) (js : JobSystem) : string * JobSystem :=
  let '(j, js') := enqueue (LinkDeletion lid) js in (job_id j, js').

Definition set_link_override (lid : string) (body : OverrideBody) (js : JobSystem) : string * JobSystem :=
  let '(j, js') := enqueue (LinkOverride lid body) js in (job_id j, js').

(** [Worker.run_once] with [handle_batch]: how many jobs were handled. *)
Definition run_once (max_items : Z) (js : JobSystem) : option (nat * JobSystem) :=
  let '(batch, rest) := next_microbatch max_items (job_queue js) in
  match batch with
  | [] => Some (0, js)
  | _ => net ← handle_batch batch (job_net js); Some (length batch, mkJobs rest (job_count js) net)
  end.

(** A turn of the loop in [main.py]. *)
Definition worker_turn (js : JobSystem) : option JobSystem := snd <$> run_once WORKER_BATCH js.

Inductive Action := Accept (r : JobRequest) | Turn (max_items : Z).

Definition act (js : JobSystem) (a : Action) : option JobSystem :=
  match a with
  | Accept r => Some (enqueue r js).2
  | Turn max_items => snd <$> run_once max_items js
  end.

Fixpoint run_actions (js : JobSystem) (acts : list Action) : option JobSystem :=
  match acts with
  | [] => Some js
  | a :: rest => js' ← act js a; run_actions js' rest
  end.
End jobs.

(** * The queue's list without a lock

    [self._q] refers to a list object.  [enqueue] loads the reference and then
    appends to the object; [next_microbatch] makes the batch, makes the list of
    the rest, and stores the reference to it.  Threads can switch in between. *)

Module Unlocked.
Inductive Phase := Idle | HaveBatch (batch : list Job) | HaveRest (batch rest : list Job).

Record State := mkState {
  objects : list (list Job); current : nat;           (* the list objects, and which one [self._q] is *)
  appending : list (nat * Job);                       (* threads inside [enqueue] *)
  loop : Phase;
  enqueued : list Job; handled : list Job             (* returned to the endpoints; taken by the loop *)
}.

Definition initial : State := mkState [[]] 0 [] Idle [] [].

Definition queued (st : State) : list Job := default [] (objects st !! current st).

Inductive step (max_items : nat) : State → State → Prop :=
  | load st j : step max_items st (mkState (objects st) (current st) ((current st, j) :: appending st) (loop st) (enqueued st) (handled st))
  | append st o j l1 l2 :
      appending st = l1 ++ (o, j) :: l2 →
      step max_items st (mkState (alter (λ q, q ++ [j]) o (objects st)) (current st) (l1 ++ l2) (loop st) (enqueued st ++ [j]) (handled st))
  | slice st :
      loop st = Idle →
      step max_items st (mkState (objects st) (current st) (appending st) (HaveBatch (take max_items (queued st))) (enqueued st) (handled st))
  | slice_rest st batch :
      loop st = HaveBatch batch →
      step max_items st (mkState (objects st) (current st) (appending st) (HaveRest batch (drop (length batch) (queued st))) (enqueued st) (handled st))
  | store st batch rest :
      loop st = HaveRest batch rest →
      step max_items st (mkState (objects st ++ [rest]) (length (objects st)) (appending st) Idle (enqueued st) (handled st ++ batch)).

Definition reachable (max_items : nat) (st : State) : Prop := rtc (step max_items) initial st.
End Unlocked.
