(* ===== verification/JobsProofs.v ===== *)
(** What the job queue does: accepted requests take effect once each, in the order
    they were accepted, as if their handlers had been called one after the
    other, and keep the topology well-formed. *)

From stdpp Require Import pretty.
From S2P Require Import Prelude PyFloat Models Scenario EventStore Errors MacAllocator Links LinksProofs.
From S2P Require Import NxGraph Pathfinding Status StatusRecompute OpticalPath OpticalPathProofs OpticalService Devices LinkChanges LinkChangesProofs Jobs.

(** The jobs that a history accepts. *)
Fixpoint accepted (count : N) (acts : list Action) : list Job :=
  match acts with
  | [] => []
  | Accept r :: rest => mkJob (next_job_id (job_kind r) count) r :: accepted (count + 1) rest
  | Turn _ :: rest => accepted count rest
  end.

(** What the endpoints enqueue. *)
Definition from_endpoint (r : JobRequest) : Prop :=
  match r with LinkOverride _ _ | LinkDeletion _ => True | _ => False end.

Lemma next_job_id_inj r1 r2 n1 n2 : from_endpoint r1 → from_endpoint r2 →
  next_job_id (job_kind r1) n1 = next_job_id (job_kind r2) n2 → n1 = n2.
Proof.
  unfold next_job_id. destruct r1, r2; try done; intros _ _; cbn; intros E; try done; injection E as E; by apply pretty_N_inj in E.
Qed.

Lemma accepted_ids acts : ∀ count, (∀ r, Accept r ∈ acts → from_endpoint r) →
  NoDup (job_id <$> accepted count acts) ∧
  ∀ j, j ∈ accepted count acts → from_endpoint (job_request j) ∧
    ∃ n, (count <= n)%N ∧ job_id j = next_job_id (job_kind (job_request j)) n.
Proof.
  induction acts as [|[r|k] acts IH]; intros count Hr; cbn [accepted].
  - split; [constructor|]. by intros j ?%elem_of_nil.
  - destruct (IH (count + 1)%N) as [Hnd Hj]; [intros r' Hr'; apply Hr; by right|]. assert (from_endpoint r) as Hf by (apply Hr; by left).
    split.
    + cbn. constructor; [|done]. intros (j & E & Hin)%list_elem_of_fmap. destruct (Hj j Hin) as (Hf' & n & Hn & E').
      rewrite E' in E. apply next_job_id_inj in E; [lia|done..].
    + intros j [->|Hin]%elem_of_cons; cbn; [split; [done|]; exists count; split; [lia|done]|].
      destruct (Hj j Hin) as (Hf' & n & Hn & E'). split; [done|]. exists n. split; [lia|done].
  - apply IH. intros r' Hr'. apply Hr. by right.
Qed.

Section jobs.
Context {G : Type} `{NxGraph G} `{Dijkstra G}.
Context (env_of : string → JobEnv).
Context (Hgo : ∀ k s, derived_only s (env_go (je_link (env_of k)) s).1).

Definition net_good (st : LinkState (G := G)) : Prop := topology_ok (w_db st.1) ∧ gapless (w_rows st.1).

Lemma through_world_run {A} (f : World → Outcome A * World) (st : LinkState (G := G)) :
  (through_world f st).1 = (f st.1).1 ∧ (through_world f st).2.1 = (f st.1).2.
Proof. unfold through_world. by destruct (f st.1) as [r w]. Qed.

Lemma link_op_good w o : (∀ s, derived_only s (env_go (op_env o) s).1) →
  topology_ok (w_db w) ∧ gapless (w_rows w) → topology_ok (w_db (link_op w o)) ∧ gapless (w_rows (link_op w o)).
Proof. intros Hd [Ht Hg]. by apply link_op_inv. Qed.

Lemma handle_job_keeps j (st st' : LinkState (G := G)) : net_good st → handle_job env_of j st = Some st' → net_good st'.
Proof using All.
  intros Hst. unfold handle_job. destruct (job_request j) as [lid body|[p|]|lid|k]; [| |by intros [= <-]| |by intros [= <-]].
  - destruct Hst as [Ht Hg]. destruct (override_keeps (je_change (env_of (job_id j))) lid body st Ht) as (Ht' & Hg' & _).
    destruct (set_link_override_impl _ lid body st) as [[] s]; try done; intros [= <-]; split; auto.
  - pose proof (link_op_good st.1 (OpCreate (je_link (env_of (job_id j))) p) (Hgo _) Hst) as Hw.
    destruct (through_world_run (create_link_impl (je_link (env_of (job_id j))) p) st) as [_ E]. cbn [link_op] in Hw. rewrite <-E in Hw.
    destruct (through_world _ st) as [[] s]; try done; by intros [= <-].
  - pose proof (link_op_good st.1 (OpDelete (je_link (env_of (job_id j))) lid) (Hgo _) Hst) as Hw.
    destruct (through_world_run (delete_link_impl (je_link (env_of (job_id j))) lid) st) as [_ E]. cbn [link_op] in Hw. rewrite <-E in Hw.
    destruct (through_world _ st) as [[] s]; try done; by intros [= <-].
Qed.

Lemma handle_job_total j (st : LinkState (G := G)) : net_good st → from_endpoint (job_request j) → is_Some (handle_job env_of j st).
Proof.
  intros [Ht Hg] Hf. unfold handle_job. destruct (job_request j) as [lid body|p|lid|k]; try done.
  - destruct (override_run (je_change (env_of (job_id j))) lid body st Ht) as [(e & ->)|(l & o & st' & -> & _)]; done.
  - destruct (through_world_run (delete_link_impl (je_link (env_of (job_id j))) lid) st) as [E _].
    destruct (delete_link_impl (je_link (env_of (job_id j))) lid st.1) as [r w'] eqn:Ed. pose proof (delete_run _ _ _ _ _ Ed) as Hd.
    cbn in E. destruct (through_world _ st) as [r' s]. cbn in E. subst r'. destruct Hd as [(_ & -> & _)|(_ & -> & _)]; done.
Qed.

Lemma handle_batch_app b1 b2 (st : LinkState (G := G)) :
  handle_batch env_of (b1 ++ b2) st = handle_batch env_of b1 st ≫= handle_batch env_of b2.
Proof.
  revert st. induction b1 as [|j b1 IH]; intros st; [done|]. cbn [handle_batch app]. destruct (handle_job env_of j st) as [s|]; [apply IH|done].
Qed.

Lemma handle_batch_run batch : ∀ st : LinkState (G := G), net_good st → (∀ j, j ∈ batch → from_endpoint (job_request j)) →
  ∃ st', handle_batch env_of batch st = Some st' ∧ net_good st'.
Proof using All.
  induction batch as [|j batch IH]; intros st Hst Hf; [by exists st|]. cbn [handle_batch].
  destruct (handle_job_total j st Hst) as [s E]; [apply Hf; by left|]. rewrite E. cbn [mbind option_bind].
  apply IH; [by eapply handle_job_keeps|]. intros j' Hj'. apply Hf. by right.
Qed.

Lemma next_microbatch_split k q : ∃ batch rest, next_microbatch k q = (batch, rest) ∧ q = batch ++ rest ∧
  ((0 < k)%Z → length rest = length q - Z.to_nat k).
Proof.
  unfold next_microbatch. destruct (Z.leb_spec k 0) as [Hk|Hk].
  - exists [], q. split_and!; [done..|]. lia.
  - exists (take (Z.to_nat k) q), (drop (length (take (Z.to_nat k) q)) q). split; [done|].
    rewrite length_take. split; [|intros _; rewrite length_drop; lia].
    destruct (decide (Z.to_nat k ≤ length q)).
    + rewrite Nat.min_l by done. by rewrite take_drop.
    + rewrite Nat.min_r, drop_all, app_nil_r by lia. by rewrite take_ge by lia.
Qed.

(** The first [done] jobs took effect, the others wait. *)
Definition in_order (st0 : LinkState (G := G)) (all : list Job) (js : JobSystem (G := G)) : Prop := ∃ done,
  all = done ++ job_queue js ∧ handle_batch env_of done st0 = Some (job_net js) ∧ net_good (job_net js).

Lemma turn_in_order k st0 all js : (∀ j, j ∈ all → from_endpoint (job_request j)) → in_order st0 all js →
  ∃ n js', run_once env_of k js = Some (n, js') ∧ in_order st0 all js' ∧ job_count js' = job_count js ∧
    ((0 < k)%Z → length (job_queue js') = length (job_queue js) - Z.to_nat k).
Proof using All.
  intros Hf (done & Ea & Hd & Hst). unfold run_once. destruct (next_microbatch_split k (job_queue js)) as (batch & rest & -> & Eq & Hl).
  destruct batch as [|j batch].
  - exists 0, js. split; [done|]. split; [by exists done|]. split; [done|]. intros Hk. rewrite <-(Hl Hk). by rewrite Eq.
  - destruct (handle_batch_run (j :: batch) (job_net js) Hst) as (net & E & Hnet).
    { intros j' Hj'. apply Hf. rewrite Ea, Eq. set_solver. }
    rewrite E. cbn [mbind option_bind]. eexists _, _. split; [reflexivity|]. cbn [job_queue job_count]. split; [|done].
    exists (done ++ j :: batch). cbn [job_queue job_net]. split; [by rewrite Ea, Eq, <-app_assoc|]. split; [|done].
    by rewrite handle_batch_app, Hd.
Qed.

Lemma enqueue_in_order r st0 all js : in_order st0 all js →
  in_order st0 (all ++ [(enqueue r js).1]) (enqueue r js).2.
Proof.
  intros (done & -> & Hd & Hst). exists done. cbn [enqueue fst snd job_queue job_net]. by rewrite app_assoc.
Qed.

Lemma run_in_order acts : ∀ all js st0,
  (∀ j, j ∈ all → from_endpoint (job_request j)) → (∀ r, Accept r ∈ acts → from_endpoint r) → in_order st0 all js →
  ∃ js', run_actions env_of js acts = Some js' ∧ in_order st0 (all ++ accepted (job_count js) acts) js'.
Proof using All.
  induction acts as [|[r|k] acts IH]; intros all js st0 Hall Hr Hin; cbn [run_actions act accepted mbind option_bind].
  - exists js. by rewrite app_nil_r.
  - destruct (IH (all ++ [(enqueue r js).1]) (enqueue r js).2 st0) as (js' & E & Hin').
    + intros j [Hj|Hj]%elem_of_app; [by apply Hall|]. apply list_elem_of_singleton in Hj as ->. apply Hr. by left.
    + intros r' Hr'. apply Hr. by right.
    + by apply enqueue_in_order.
    + exists js'. split; [exact E|]. by rewrite <-app_assoc in Hin'.
  - destruct (turn_in_order k st0 all js Hall Hin) as (n & js1 & -> & Hin1 & Ec & _). cbn [fmap option_fmap option_map snd].
    rewrite <-Ec. apply IH; [done| |done]. intros r' Hr'. apply Hr. by right.
Qed.

Lemma drain_in_order n : ∀ all js st0,
  (∀ j, j ∈ all → from_endpoint (job_request j)) → in_order st0 all js → length (job_queue js) ≤ n * Z.to_nat WORKER_BATCH →
  ∃ js', run_actions env_of js (replicate n (Turn WORKER_BATCH)) = Some js' ∧ job_queue js' = [] ∧
    handle_batch env_of all st0 = Some (job_net js') ∧ net_good (job_net js').
Proof using All.
  induction n as [|n IH]; intros all js st0 Hall Hin Hl; cbn [replicate run_actions act].
  - apply Nat.le_0_r, nil_length_inv in Hl. exists js. destruct Hin as (done & -> & Hd & Hst). by rewrite Hl, app_nil_r.
  - destruct (turn_in_order WORKER_BATCH st0 all js Hall Hin) as (k & js1 & -> & Hin1 & _ & Hlen). cbn [fmap option_fmap option_map snd mbind option_bind].
    apply IH; [done..|]. rewrite (Hlen ltac:(done)). lia.
Qed.
End jobs.


(** A deletion, an override of the deleted link, which fails unseen, and an override. *)
Definition job_env0 (k : string) : JobEnv := mkJobEnv env0 link_env0.

Definition some_requests : list Action := [
  Accept (LinkDeletion "cr-if1__olt-up"); Accept (LinkOverride "cr-if1__olt-up" (OverrideText "DOWN")); Turn 1;
  Accept (LinkOverride "spl-out1__ont" (OverrideText "DOWN"))].


(** ** Without a lock

    A job appended between the slice of the rest and its store is in an object
    that nobody reads any more: it was accepted and is neither queued nor handled,
    with every thread at rest. *)
Definition lost_job : Unlocked.State :=
  let j1 := mkJob "link.delete:1" (LinkDeletion "l1") in
  let j2 := mkJob "link.delete:2" (LinkDeletion "l2") in
  Unlocked.mkState [[j1; j2]; []] 1 [] Unlocked.Idle [j1; j2] [j1].

Tactic Notation "run_step" tactic3(tac) := eapply rtc_l; [tac|cbn].

Example accepted_job_lost :
  Unlocked.reachable 256 lost_job ∧ Unlocked.queued lost_job = [] ∧
  ∃ j, j ∈ Unlocked.enqueued lost_job ∧ j ∉ Unlocked.handled lost_job.
Proof.
  split; [|split; [reflexivity|]].
  - set (j1 := mkJob "link.delete:1" (LinkDeletion "l1")). set (j2 := mkJob "link.delete:2" (LinkDeletion "l2")).
    run_step (apply (Unlocked.load _ _ j1)). run_step (apply (Unlocked.append _ _ 0 j1 [] []); reflexivity).
    run_step (apply Unlocked.slice; reflexivity). run_step (eapply Unlocked.slice_rest; reflexivity).
    run_step (apply (Unlocked.load _ _ j2)). run_step (apply (Unlocked.append _ _ 0 j2 [] []); reflexivity).
    run_step (eapply Unlocked.store; reflexivity). apply rtc_refl.
  - exists (mkJob "link.delete:2" (LinkDeletion "l2")). split; [right; by left|]. intros [[=]|?%elem_of_nil]%elem_of_cons; done.
Qed.
